(** * ReBenchDB: timeline batching and measurement collation

    A shallow embedding of

    - [src/backend/timeline/timeline-calc.ts]: the [TimelineWorker] wrapper
      and the [BatchingTimelineUpdater],
    - the data preparation code with [collateMeasurements] and
      [sortResultsAlphabetically],
    - [src/dashboard.ts]: the generation of reports, the preparation of
      experiment data and the time series of the results,
    - the [TestDatabase] of the tests, and
    - [renderTimelinePlot] of [src/views/plots.ts],

    followed by the properties of these components.

    Conventions.  JavaScript numbers that the code uses as identifiers and
    counters are integers, modelled in [Z].  Measurement values are only
    stored and moved by this code, never computed with, and are carried as
    [Z] as well.  A [Map<string, V>] is an insertion-ordered association
    list, because the code enumerates maps ([Array.from(m.values())],
    [Array.from(m.entries())]) and the enumeration order is observable.  A
    plain object used as a record is not a [Map]: it lists array indices
    first and gives [__proto__] no entry.
    Promises live in a heap indexed by allocation order, the promise of a
    call of an [async] method that returns a promise being a cell of its
    own; the effects on the
    outside world (messages posted to the worker thread, calls to the
    database, calls of promise resolvers, performance spans) are recorded in
    a chronological trace. *)

From Stdlib Require Import ZArith Lia Ascii.
From stdpp Require Import base tactics option list strings pretty sorting.

Local Open Scope Z_scope.

(** ** JavaScript [Map] with string keys *)

Module JsMap.

Abbreviation t V := (list (string * V)) (only parsing).

Definition empty {V} : t V := [].

(** [m.get(k)]: [None] stands for [undefined]. *)
Fixpoint get {V} (k : string) (m : t V) : option V :=
  match m with
  | [] => None
  | (k', v) :: m' => if decide (k = k') then Some v else get k m'
  end.

(** [m.has(k)] *)
Definition has {V} (k : string) (m : t V) : bool :=
  match get k m with Some _ => true | None => false end.

(** [m.set(k, v)]: an existing key keeps its position, a new key goes
    last. *)
Fixpoint set {V} (k : string) (v : V) (m : t V) : t V :=
  match m with
  | [] => [(k, v)]
  | (k', v') :: m' =>
      if decide (k = k') then (k, v) :: m' else (k', v') :: set k v m'
  end.

Definition keys {V} (m : t V) : list string := m.*1.
Definition values {V} (m : t V) : list V := m.*2.
Definition entries {V} (m : t V) : list (string * V) := m.

(** [new Map(entries)] *)
Definition of_entries {V} (es : list (string * V)) : t V :=
  foldl (λ m e, set e.1 e.2 m) empty es.

End JsMap.

(** ** Promises

    A promise is a heap cell: [None] while pending, [Some v] once resolved
    with [v].  Resolving a resolved promise has no effect, as in
    JavaScript. *)

Module Promise.

Abbreviation id := nat (only parsing).

(** What a promise of this program is resolved with: a job count
    ([Promise<number>]), nothing ([Promise<void>]), or another promise
    [p], whose fate it then shares, as the promise of a call of an [async]
    function does when the body returns [p]. *)
Inductive value := VNum (n : Z) | VVoid | VPromise (p : id).

Abbreviation heap := (list (option value)) (only parsing).

(** [new Promise(...)]: a fresh pending promise. *)
Definition alloc (h : heap) : id * heap := (length h, h ++ [None]).

(** [Promise.resolve(v)]: a fresh promise already settled with [v]. *)
Definition resolved (v : value) (h : heap) : id * heap :=
  (length h, h ++ [Some v]).

(** Calling the resolver of promise [p] with [v]. *)
Definition resolve (p : id) (v : value) (h : heap) : heap :=
  match h !! p with
  | Some None => <[p := Some v]> h
  | _ => h
  end.

(** The state of promise [p]: [Some v] when resolved with [v]. *)
Definition state (h : heap) (p : id) : option value :=
  match h !! p with
  | Some st => st
  | None => None
  end.

(** The promise of a call of an [async] function whose body returns the
    promise [p]: a new promise with every call, resolved with [p].  Its
    identity is what the caller can tell from [p]; that it settles a few
    microtasks behind [p] is not modelled. *)
Definition async (p : id) (h : heap) : id * heap := resolved (VPromise p) h.

(** What promise [p] is settled with: its own value or, when it was
    resolved with a promise, what that one is settled with.  At most
    [links] promises are followed. *)
Fixpoint settledWith (links : nat) (h : heap) (p : id) : option value :=
  match state h p with
  | Some (VPromise q) =>
      match links with
      | O => None
      | S n => settledWith n h q
      end
  | st => st
  end.

Definition pending (h : heap) (p : id) : Prop := h !! p = Some None.

End Promise.

(** ** The timeline engine: shared types ([timeline-calc.ts], lines 12-38) *)

Module Timeline.

(** Modelled from the spec: [SummaryStatistics] is declared in
    [shared/stats], outside the files at hand: "median, sample count,
    bootstrap confidence bounds".  The engine passes it on unread. *)
Record SummaryStatistics := {
  median : Z;
  numberOfSamples : Z;
  bci95low : Z;
  bci95up : Z
}.

Record ComputeJob := {
  runId : Z;
  trialId : Z;
  criterion : Z;
  dataForCriterion : list Z
}.

Record ComputeRequest := {
  jobs : list ComputeJob;
  requestStart : Z
}.

Record ComputeResult := {
  resRunId : Z;
  resTrialId : Z;
  resCriterion : Z;
  stats : SummaryStatistics
}.

Record ComputeResults := {
  results : list ComputeResult;
  resRequestStart : Z
}.

(** [ValuesPossiblyMissing]: an array of numbers and [null]s. *)
Definition ValuesPossiblyMissing := list (option Z).

(** What is posted to the worker thread, and what it answers. *)
Inductive ToWorker :=
  | PostRequest (r : ComputeRequest)
  | PostExit.
Inductive FromWorker :=
  | Exiting
  | Response (r : ComputeResults).

(** The effects of the engine on its collaborators, in the order in which
    they happen. *)
Inductive Event :=
  | EvPostMessage (m : ToWorker)
  | EvTerminate
  | EvRecordTimeline (r : ComputeResult) (succeeded : bool)
  | EvResolve (p : Promise.id) (v : Promise.value)
  | EvCompleteRequest (start : Z) (tag : string)
  | EvLog (level message : string).

(** The [Database] collaborator.  Of its interface the engine uses
    [recordTimeline(runId, trialId, criterion, stats)], whose promise is
    either fulfilled ([true]) or rejected ([false]). *)
Class Database (Db : Type) :=
  recordTimeline : Db → Z → Z → Z → SummaryStatistics → Db * bool.

(** The world outside the two classes. *)
Record Env (Db : Type) := mkEnv {
  db : Db;
  heap : Promise.heap;
  trace : list Event
}.
Arguments mkEnv {Db}.
Arguments db {Db}.
Arguments heap {Db}.
Arguments trace {Db}.

Definition emit {Db} (e : Event) (env : Env Db) : Env Db :=
  mkEnv (db env) (heap env) (trace env ++ [e]).

(** An [async] function either returns or throws (its promise is
    fulfilled or rejected). *)
Inductive Completion := Returned | Threw.

(** JavaScript truthiness of a number. *)
Definition truthy (n : Z) : bool := negb (n =? 0).

(** [interface ResultReceiver] *)
Class ResultReceiver (Db U : Type) :=
  receiveResults : ComputeResults → U * Env Db → U * Env Db * Completion.


(** *** [class TimelineWorker] (lines 45-101)

    The node [Worker] behind it is reached by [postMessage] and
    [terminate] only, both recorded in the trace. *)

Module TimelineWorker.

Record t := mk {
  shutdownResolve : option Promise.id;
  shutdownPromise : option Promise.id
}.

(** The constructor (lines 67-68). *)
Definition create : t := mk None None.

Definition sendRequest {Db} (requests : ComputeRequest) (env : Env Db)
    : Env Db :=
  emit (EvPostMessage (PostRequest requests)) env.

(** The handlers of the thread's [error] and [exit] events (lines 60-65)
    write to the log and do nothing else. *)
Definition onError {Db} (env : Env Db) : Env Db :=
  emit (EvLog "error" "Error on timeline worker") env.

Definition onExit {Db} (exitCode : Z) (env : Env Db) : Env Db :=
  emit (EvLog "info" ("Timeline worker exited with code: " +:+ pretty exitCode))
       env.

(** [processResponse(message)].  The promise of
    [this.updater.receiveResults(results)] is dropped by the code, and so
    is the [Completion] here. *)
Definition processResponse {Db U} `{!ResultReceiver Db U}
    (message : FromWorker) (w : t) (st : U * Env Db) : U * Env Db :=
  match message with
  | Exiting =>
      let env := emit EvTerminate st.2 in
      match shutdownResolve w with
      | Some p =>
          (st.1,
           emit (EvResolve p Promise.VVoid)
             (mkEnv (db env) (Promise.resolve p Promise.VVoid (heap env))
                    (trace env)))
      | None => (st.1, env)
      end
  | Response results => (receiveResults results st).1
  end.

(** The body of [shutdown()] (lines 90-99): the promise that its
    [return] statements return, the stored [shutdownPromise]. *)
Definition shutdownBody {Db} (w : t) (env : Env Db)
    : t * Env Db * Promise.id :=
  match shutdownPromise w with
  | Some p => (w, env, p)
  | None =>
      let '(p, h) := Promise.alloc (heap env) in
      let w' := mk (Some p) (Some p) in
      let env' := emit (EvPostMessage PostExit) (mkEnv (db env) h (trace env)) in
      (w', env', p)
  end.

(** [shutdown()] (lines 89-100).  The method is [async]: what the caller
    gets is the promise of the call, resolved with the stored
    [shutdownPromise], not the stored promise itself. *)
Definition shutdown {Db} (w : t) (env : Env Db) : t * Env Db * Promise.id :=
  let '(w', env', stored) := shutdownBody w env in
  let '(p, h) := Promise.async stored (heap env') in
  (w', mkEnv (db env') h (trace env'), p).

End TimelineWorker.

(** *** [class BatchingTimelineUpdater] (lines 107-253) *)

Module BatchingTimelineUpdater.

Record t := mk {
  worker : TimelineWorker.t;
  requests : JsMap.t ComputeJob;
  activeRequests : Z;
  requestsAtStart : Z;
  promise : option Promise.id;
  resolveJobsPromiseWithNumberOfJobs : option Promise.id
}.

(** The constructor (lines 118-128). *)
Definition create : t :=
  mk TimelineWorker.create JsMap.empty 0 0 None None.

Definition with_requests (rs : JsMap.t ComputeJob) (u : t) : t :=
  mk (worker u) rs (activeRequests u) (requestsAtStart u) (promise u)
     (resolveJobsPromiseWithNumberOfJobs u).

(** The loop of lines 135-142: one [recordTimeline] call per result, in
    order; a rejected call ends the loop, since the [await] throws.  A call
    of an [async] method is taken as one step here: what other handlers do
    while it waits at an [await] is not interleaved with it. *)
Fixpoint recordAll {Db} `{!Database Db} (rs : list ComputeResult)
    (env : Env Db) : Env Db * Completion :=
  match rs with
  | [] => (env, Returned)
  | result :: rs' =>
      let '(db', ok) :=
        recordTimeline (db env) (resRunId result) (resTrialId result)
                       (resCriterion result) (stats result) in
      let env' :=
        emit (EvRecordTimeline result ok) (mkEnv db' (heap env) (trace env)) in
      if ok then recordAll rs' env' else (env', Threw)
  end.

(** [receiveResults(r)] (lines 134-157). *)
Definition receiveResults {Db} `{!Database Db} (r : ComputeResults)
    (st : t * Env Db) : t * Env Db * Completion :=
  let '(u, env) := st in
  match recordAll (results r) env with
  | (env1, Threw) => (u, env1, Threw)
  | (env1, Returned) =>
      let active := activeRequests u - Z.of_nat (length (results r)) in
      let u1 :=
        mk (worker u) (requests u) active (requestsAtStart u) (promise u)
           (resolveJobsPromiseWithNumberOfJobs u) in
      if active =? 0 then
        match resolveJobsPromiseWithNumberOfJobs u1 with
        | Some p =>
            if truthy (resRequestStart r) then
              let v := Promise.VNum (requestsAtStart u1) in
              let env2 :=
                emit (EvResolve p v)
                  (mkEnv (db env1) (Promise.resolve p v (heap env1))
                         (trace env1)) in
              let u2 :=
                mk (worker u1) (requests u1) (activeRequests u1)
                   (requestsAtStart u1) (promise u1) None in
              (u2,
               emit (EvCompleteRequest (resRequestStart r) "generate-timeline")
                    env2,
               Returned)
            else (u1, env1, Returned)
        | None => (u1, env1, Returned)
        end
      else (u1, env1, Returned)
  end.

Global Arguments receiveResults : simpl never.

#[export] Instance updater_receiver {Db} `{!Database Db}
    : ResultReceiver Db t := receiveResults.

(** The key of line 165.  The ids are integers, which a template literal
    prints in decimal (for magnitudes below 1e21), as [pretty] does. *)
Definition jobId (trialId runId criterionId : Z) : string :=
  pretty trialId +:+ "-" +:+ pretty runId +:+ "-" +:+ pretty criterionId.

(** [values.filter((v) => v !== null)] *)
Definition filterNotNull (values : ValuesPossiblyMissing) : list Z :=
  omap (λ v, v) values.

(** The loop of lines 184-188, pushing onto the job's array. *)
Definition pushNotNull (data : list Z) (values : ValuesPossiblyMissing)
    : list Z :=
  foldl (λ acc v, match v with Some x => acc ++ [x] | None => acc end)
        data values.

(** [addValues(runId, trialId, criterionId, values)] (lines 159-190). *)
Definition addValues (runId trialId criterionId : Z)
    (values : ValuesPossiblyMissing) (u : t) : t :=
  let id := jobId trialId runId criterionId in
  if negb (JsMap.has id (requests u)) then
    let withoutMissing := filterNotNull values in
    if decide (length withoutMissing = 0%nat) then u
    else
      let req := Build_ComputeJob runId trialId criterionId withoutMissing in
      with_requests (JsMap.set id req (requests u)) u
  else
    match JsMap.get id (requests u) with
    | Some job =>
        let job' :=
          Build_ComputeJob (Timeline.runId job) (Timeline.trialId job)
            (criterion job) (pushNotNull (dataForCriterion job) values) in
        with_requests (JsMap.set id job' (requests u)) u
    | None => u
    end.

(** [consumeUpdateJobsForBenchmarking()] (lines 206-210). *)
Definition consumeUpdateJobsForBenchmarking (u : t) : list ComputeJob * t :=
  (JsMap.values (requests u), with_requests JsMap.empty u).

(** [processUpdateJobs(jobs, requestStart)] (lines 225-248). *)
Definition processUpdateJobs {Db} (jobs : list ComputeJob)
    (requestStart : Z) (st : t * Env Db) : t * Env Db * Promise.id :=
  let '(u, env) := st in
  if decide (length jobs = 0%nat) then
    let '(p, h) := Promise.resolved (Promise.VNum 0) (heap env) in
    (u, mkEnv (db env) h (trace env), p)
  else
    let active := activeRequests u + Z.of_nat (length jobs) in
    let request := Build_ComputeRequest jobs requestStart in
    let env1 := TimelineWorker.sendRequest request env in
    let '(p, h) := Promise.alloc (heap env1) in
    (mk (worker u) (requests u) active active (Some p) (Some p),
     mkEnv (db env1) h (trace env1), p).

(** [submitUpdateJobs()] (lines 196-201).  [startRequest] belongs to the
    performance tracker, which is not among the files at hand; the
    timestamp it returns is the argument [now]. *)
Definition submitUpdateJobs {Db} (now : Z) (st : t * Env Db)
    : t * Env Db * Promise.id :=
  let requestStart := now in
  let '(requests, u) := consumeUpdateJobsForBenchmarking st.1 in
  processUpdateJobs requests requestStart (u, st.2).

(** [processUpdateJobsForBenchmarking] (lines 215-220).  The method is
    [async]: it returns the promise of the call, resolved with the promise
    of [processUpdateJobs]. *)
Definition processUpdateJobsForBenchmarking {Db} (jobs : list ComputeJob)
    (requestStart : Z) (st : t * Env Db) : t * Env Db * Promise.id :=
  let '(u, env, inner) := processUpdateJobs jobs requestStart st in
  let '(p, h) := Promise.async inner (heap env) in
  (u, mkEnv (db env) h (trace env), p).

Definition getQuiescencePromise (u : t) : option Promise.id := promise u.

(** [shutdown()] (lines 130-132).  The method is [async] as well: it
    returns the promise of its own call, resolved with the promise of the
    call of the worker's [shutdown()]. *)
Definition shutdown {Db} (st : t * Env Db) : t * Env Db * Promise.id :=
  let '(u, env) := st in
  let '(w, env', inner) := TimelineWorker.shutdown (worker u) env in
  let '(p, h) := Promise.async inner (heap env') in
  (mk w (requests u) (activeRequests u) (requestsAtStart u) (promise u)
      (resolveJobsPromiseWithNumberOfJobs u),
   mkEnv (db env') h (trace env'), p).

(** The message handler installed by the worker's constructor (line 59):
    [processResponse] of the updater's own worker. *)
Definition onMessage {Db} `{!Database Db} (message : FromWorker)
    (st : t * Env Db) : t * Env Db :=
  TimelineWorker.processResponse message (worker st.1) st.

End BatchingTimelineUpdater.

(** *** Runs of the engine

    The calls that reach one updater from its callers and from its
    worker. *)

Inductive Op :=
  | AddValues (runId trialId criterionId : Z) (values : ValuesPossiblyMissing)
  | SubmitUpdateJobs (now : Z)
  | ConsumeUpdateJobs
  | ProcessUpdateJobs (jobs : list ComputeJob) (requestStart : Z)
  | ReceiveResults (r : ComputeResults)
  | Message (m : FromWorker)
  | Shutdown
  | WorkerError
  | WorkerExit (exitCode : Z).

Definition State (Db : Type) : Type := BatchingTimelineUpdater.t * Env Db.

Definition init {Db} (d : Db) : State Db :=
  (BatchingTimelineUpdater.create, mkEnv d [] []).

Definition step {Db} `{!Database Db} (op : Op) (st : State Db) : State Db :=
  match op with
  | AddValues r t c vs => (BatchingTimelineUpdater.addValues r t c vs st.1, st.2)
  | SubmitUpdateJobs now => (BatchingTimelineUpdater.submitUpdateJobs now st).1
  | ConsumeUpdateJobs =>
      ((BatchingTimelineUpdater.consumeUpdateJobsForBenchmarking st.1).2, st.2)
  | ProcessUpdateJobs jobs start =>
      (BatchingTimelineUpdater.processUpdateJobsForBenchmarking jobs start st).1
  | ReceiveResults r => (BatchingTimelineUpdater.receiveResults r st).1
  | Message m => BatchingTimelineUpdater.onMessage m st
  | Shutdown => (BatchingTimelineUpdater.shutdown st).1
  | WorkerError => (st.1, TimelineWorker.onError st.2)
  | WorkerExit exitCode => (st.1, TimelineWorker.onExit exitCode st.2)
  end.

Definition run {Db} `{!Database Db} (ops : list Op) (st : State Db)
    : State Db :=
  foldl (λ s op, step op s) st ops.

(** *** Reading a trace *)


(** The resolver calls of a trace. *)
Definition resolveCalls (tr : list Event) : list (Promise.id * Promise.value) :=
  omap (λ e, match e with
             | EvResolve p v => Some (p, v)
             | _ => None
             end) tr.

(** The messages posted to the worker thread in a trace. *)
Definition postedMessages (tr : list Event) : list ToWorker :=
  omap (λ e, match e with
             | EvPostMessage m => Some m
             | _ => None
             end) tr.

Definition succeeded (r : ComputeResult) : Event := EvRecordTimeline r true.

(** *** Following a wave *)

(** The results of [receiveResults] on a sequence of batches, one after the
    other: the state after each batch and how the call completed. *)
Fixpoint receiveBatches {Db} `{!Database Db} (bs : list ComputeResults)
    (st : State Db) : list (State Db * Completion) :=
  match bs with
  | [] => []
  | b :: bs' =>
      let r := BatchingTimelineUpdater.receiveResults b st in
      r :: receiveBatches bs' r.1
  end.

(** The state at the end of such a history that started in [st]. *)
Definition finalState {Db} (st : State Db) (hist : list (State Db * Completion))
    : State Db :=
  match last hist with Some h => h.1 | None => st end.

(** The values of [activeRequests] along a history. *)
Definition counters {Db} (hist : list (State Db * Completion)) : list Z :=
  (λ h, BatchingTimelineUpdater.activeRequests h.1.1) <$> hist.

(** No call of the history threw. *)
Definition allReturned {Db} (hist : list (State Db * Completion)) : Prop :=
  Forall (λ h, h.2 = Returned) hist.

(** The number of results in a sequence of batches. *)
Definition totalResults (bs : list ComputeResults) : nat :=
  sum_list_with (λ b, length (results b)) bs.

(** How often a counter that starts at [prev] and then takes the values [cs]
    goes from a non-zero value to zero. *)
Fixpoint returnsToZero (prev : Z) (cs : list Z) : nat :=
  match cs with
  | [] => 0
  | c :: cs' =>
      let hit := if negb (prev =? 0) && (c =? 0) then 1%nat else 0%nat in
      (hit + returnsToZero c cs')%nat
  end.

(** The events that [tr'] has in addition to its prefix [tr]. *)
Definition newEvents (tr tr' : list Event) : list Event :=
  drop (length tr) tr'.

(** The promise that [receiveResults] settles when the persistence loop of
    batch [r] has gone through, if any: the counter must arrive at zero, a
    resolver must be in place and the start marker of the batch must be
    truthy (lines 146-147). *)
Definition completes (r : ComputeResults) (u : BatchingTimelineUpdater.t)
    : option Promise.id :=
  if BatchingTimelineUpdater.activeRequests u
       - Z.of_nat (length (results r)) =? 0
  then
    match BatchingTimelineUpdater.resolveJobsPromiseWithNumberOfJobs u with
    | Some p => if truthy (resRequestStart r) then Some p else None
    | None => None
    end
  else None.

(** *** Reading a job key back

    Used to show that the key of line 165 determines the three ids. *)

Definition is_digit (c : ascii) : bool :=
  match c with
  | "0" | "1" | "2" | "3" | "4" | "5" | "6" | "7" | "8" | "9" => true
  | _ => false
  end%char.

Fixpoint all_digits (s : string) : bool :=
  match s with
  | EmptyString => true
  | String c s' => is_digit c && all_digits s'
  end.

(** The longest prefix of digits, and what follows it. *)
Fixpoint span_digits (s : string) : string * string :=
  match s with
  | EmptyString => (EmptyString, EmptyString)
  | String c s' =>
      if is_digit c then
        let '(ds, r) := span_digits s' in (String c ds, r)
      else (EmptyString, s)
  end.

(** An optional minus sign and the digits behind it, and what follows. *)
Definition readInt (s : string) : string * string :=
  match s with
  | String "-" s' => let '(ds, r) := span_digits s' in (String "-" ds, r)
  | _ => span_digits s
  end.

(** The pending jobs are filed under their own key and are not empty. *)
Definition tableOk (m : JsMap.t ComputeJob) : Prop :=
  NoDup (JsMap.keys m) ∧
  ∀ k job, (k, job) ∈ m →
    k = BatchingTimelineUpdater.jobId (trialId job) (runId job) (criterion job)
    ∧ dataForCriterion job ≠ [].

(** One [addValues] call, as data. *)
Record AddValuesCall := {
  callRunId : Z;
  callTrialId : Z;
  callCriterionId : Z;
  callValues : ValuesPossiblyMissing
}.

Definition addValuesCall (c : AddValuesCall) (u : BatchingTimelineUpdater.t)
    : BatchingTimelineUpdater.t :=
  BatchingTimelineUpdater.addValues
    (callRunId c) (callTrialId c) (callCriterionId c) (callValues c) u.

(** Whether a call is for the key [(runId, trialId, criterionId)]. *)
Definition callFor (runId trialId criterionId : Z) (c : AddValuesCall) : bool :=
  bool_decide (callRunId c = runId ∧ callTrialId c = trialId
               ∧ callCriterionId c = criterionId).

(** The non-null values that the calls for a key pass, in call order. *)
Definition valuesFor (runId trialId criterionId : Z)
    (calls : list AddValuesCall) : list Z :=
  mjoin ((λ c, BatchingTimelineUpdater.filterNotNull (callValues c))
           <$> filter (λ c, callFor runId trialId criterionId c = true) calls).

(** *** The shutdown handle

    What every reachable state satisfies: the promise and its resolver are
    set together and live in the heap, the resolver of the current wave is
    another promise, and a settled shutdown promise was settled right after
    the worker thread was terminated. *)
Definition shutdownOk {Db} (st : State Db) : Prop :=
  let w := BatchingTimelineUpdater.worker st.1 in
  TimelineWorker.shutdownResolve w = TimelineWorker.shutdownPromise w ∧
  (∀ p, TimelineWorker.shutdownPromise w = Some p →
     (p < length (heap st.2))%nat) ∧
  (∀ q, BatchingTimelineUpdater.resolveJobsPromiseWithNumberOfJobs st.1 = Some q →
     (q < length (heap st.2))%nat ∧ TimelineWorker.shutdownPromise w ≠ Some q) ∧
  (∀ p v, TimelineWorker.shutdownPromise w = Some p →
     Promise.state (heap st.2) p = Some v →
     v = Promise.VVoid ∧
     ∃ t1 t2,
       trace st.2 = t1 ++ EvTerminate :: EvResolve p Promise.VVoid :: t2).

End Timeline.

(** A database double for closed examples: it stores what it is given and
    rejects a result whose run id is negative. *)
Module StoreDb.
Import Timeline.

Definition t := list ComputeResult.

#[export] Instance store_database : Database t := λ d r tr c s,
  if r <? 0 then (d, false) else (d ++ [Build_ComputeResult r tr c s], true).

Definition someStats : SummaryStatistics := Build_SummaryStatistics 5 3 4 6.
Definition result (r tr c : Z) : ComputeResult :=
  Build_ComputeResult r tr c someStats.

(** One pending job, submitted at time 7: a wave of one job in flight. *)
Definition oneJobInFlight : State t :=
  run [AddValues 1 1 1 [Some 5]; SubmitUpdateJobs 7] (init []).

(** Two pending jobs, not yet submitted. *)
Definition twoJobsPending : State t :=
  run [AddValues 1 1 1 [Some 5; None]; AddValues 2 1 1 [Some 6]] (init []).

(** One pending job, not yet submitted. *)
Definition oneJobPending : State t :=
  run [AddValues 1 1 1 [Some 5]] (init []).

(** A batch with the given results and start marker. *)
Definition batch (rs : list ComputeResult) (start : Z) : ComputeResults :=
  Build_ComputeResults rs start.

(** A batch whose second result the database rejects. *)
Definition batchWithRejectedResult : ComputeResults :=
  Build_ComputeResults [result 1 1 1; result (-1) 1 1; result 2 1 1] 7.
End StoreDb.

(** ** JavaScript arrays with holes

    An array is the list of its elements up to [length]; [None] is a hole
    (a slot never assigned, read as [undefined]).  An assignment behind the
    end extends the array with holes.  An assignment at a negative index
    creates a property that is no element; it is not kept here. *)

Module JsArray.

Abbreviation t A := (list (option A)) (only parsing).

(** [a[i]] *)
Definition get {A} (a : t A) (i : Z) : option A :=
  if decide (i < 0) then None else mjoin (a !! Z.to_nat i).

(** [a[i] = x] *)
Definition set {A} (i : Z) (x : A) (a : t A) : t A :=
  if decide (i < 0) then a
  else
    let n := Z.to_nat i in
    if decide (n < length a)%nat then <[n := Some x]> a
    else a ++ replicate (n - length a) None ++ [Some x].

End JsArray.

(** ** Sorting

    [Array.prototype.sort(compareFn)] is stable.  For a consistent
    [compareFn] its result is the one of stable insertion sort. *)

Module JsSort.

(** [x] goes in front of the first element that it does not follow. *)
Fixpoint insert {A} (compareFn : A → A → Z) (x : A) (l : list A) : list A :=
  match l with
  | [] => [x]
  | y :: l' =>
      if decide (compareFn x y ≤ 0) then x :: y :: l'
      else y :: insert compareFn x l'
  end.

Definition sort {A} (compareFn : A → A → Z) (l : list A) : list A :=
  foldr (insert compareFn) [] l.

End JsSort.

(** ** Plain objects used as records

    An object made by the literal [{}], written to by [o[k] = v] with
    objects [v], and read by listing its own properties.  Two things tell
    it from a [Map].  Its own keys are listed with the array indices first,
    in ascending numeric order, and the other keys behind them, in the
    order of their creation.  And [__proto__] is an accessor that the
    object inherits from [Object.prototype]: an assignment to this key
    creates no property, it makes the assigned object the prototype. *)

Module JsObject.

Record t (V : Type) := mk {
  (** the own properties, in the order of their creation *)
  props : JsMap.t V;
  (** the object that an assignment to [__proto__] has put in the place of
      [Object.prototype], if any *)
  proto : option V
}.
Arguments mk {V}.
Arguments props {V}.
Arguments proto {V}.

(** [{}] *)
Definition empty {V} : t V := mk JsMap.empty None.

(** [o[k] = v], for an object [v].  Every key other than [__proto__] is
    either an own property already or becomes one: what the object inherits
    under other keys are writable data properties. *)
Definition set {V} (k : string) (v : V) (o : t V) : t V :=
  if decide (k = "__proto__") then mk (props o) (Some v)
  else mk (JsMap.set k v (props o)) (proto o).


(** The value of a decimal digit: the digits have the codes 48 to 57. *)
Definition digitValue (c : ascii) : option N :=
  let code := N_of_ascii c in
  if decide (48 ≤ code ∧ code ≤ 57)%N then Some (code - 48)%N else None.

(** The number that a string of decimal digits stands for. *)
Fixpoint digitsValue (acc : N) (s : string) : option N :=
  match s with
  | EmptyString => Some acc
  | String c s' =>
      match digitValue c with
      | Some d => digitsValue (10 * acc + d)%N s'
      | None => None
      end
  end.

(** A key is an array index when it is the decimal numeral, without
    leading zeros, of an integer from 0 to 2^32 - 2. *)
Definition arrayIndex (k : string) : option N :=
  match k with
  | EmptyString => None
  | String "0" (String _ _) => None
  | _ =>
      match digitsValue 0 k with
      | Some n => if decide (n < 4294967295)%N then Some n else None
      | None => None
      end
  end.

Definition compareIndex (a b : N * string) : Z := Z.of_N a.1 - Z.of_N b.1.

(** The array indices among the keys [ks], with their numbers. *)
Definition indexed (ks : list string) : list (N * string) :=
  omap (λ k, (λ n, (n, k)) <$> arrayIndex k) ks.

(** The order in which own keys are listed, given their order of
    creation [ks]. *)
Definition ownKeyOrder (ks : list string) : list string :=
  (JsSort.sort compareIndex (indexed ks)).*2
  ++ filter (λ k, arrayIndex k = None) ks.

(** [Object.keys(o)] *)
Definition keys {V} (o : t V) : list string :=
  ownKeyOrder (JsMap.keys (props o)).

End JsObject.

(** ** Collating measurements: the types

    Modelled from the spec: the interfaces [MeasurementData],
    [CriterionData], [RunSettings], [Measurements], [ProcessedResult] and
    [ResultsByBenchmark] are declared in [db/types] and [prep-data], which
    are not among the files at hand; the fields are the ones that
    [collateMeasurements] reads and writes, with the data model of the spec
    (section 3). *)

Module MeasurementData.
Record t := mk {
  expid : Z;
  runid : Z;
  trialid : Z;
  commitid : string;
  bench : string;
  exe : string;
  suite : string;
  cmdline : string;
  varvalue : option string;
  cores : option string;
  inputsize : option string;
  extraargs : option string;
  invocation : Z;
  iteration : Z;
  warmup : option Z;
  criterion : string;
  unit : string;
  value : Z;
  envid : Z
}.
End MeasurementData.

Module CriterionData.
Record t := mk {
  name : string;
  unit : string
}.
End CriterionData.

Module RunSettings.
Record t := mk {
  cmdline : string;
  varValue : option string;
  cores : option string;
  inputSize : option string;
  extraArgs : option string;
  warmup : option Z;
  simplifiedCmdline : string
}.
End RunSettings.

Module Measurements.
Record t := mk {
  criterion : CriterionData.t;
  values : JsArray.t (JsArray.t Z);
  envId : Z;
  commitId : string;
  runSettings : RunSettings.t;
  runId : Z;
  trialId : Z;
  expId : Z
}.
End Measurements.

Module ProcessedResult.
Record t := mk {
  exe : string;
  suite : string;
  bench : string;
  measurements : list Measurements.t
}.
End ProcessedResult.

(** The [criteria] field is a plain object (line 500) used as a record
    from criterion names to [CriterionData]. *)
Module ResultsByBenchmark.
Record t := mk {
  benchmarks : JsMap.t ProcessedResult.t;
  criteria : JsObject.t CriterionData.t
}.
End ResultsByBenchmark.

Abbreviation ResultsByExeSuiteBenchmark :=
  (JsMap.t (JsMap.t ResultsByBenchmark.t)) (only parsing).

(** ** Collating measurements: the functions *)

Module Collate.

Section collate.

(** [simplifyCmdline] of [shared/util] is not among the files at hand. *)
Variable simplifyCmdline : string → string.

(** [a.localeCompare(b, undefined, { numeric: true })], a built-in whose
    result depends on the collation data of the runtime. *)
Variable localeCompare : string → string → Z.

(** The test of [findMeasurements] (lines 614-619). *)
Definition matchesRow (row : MeasurementData.t) (mm : Measurements.t) : Prop :=
  Measurements.envId mm = MeasurementData.envid row ∧
  Measurements.commitId mm = MeasurementData.commitid row ∧
  Measurements.runId mm = MeasurementData.runid row ∧
  Measurements.trialId mm = MeasurementData.trialid row ∧
  CriterionData.name (Measurements.criterion mm) = MeasurementData.criterion row.

#[local] Instance matchesRow_dec row mm : Decision (matchesRow row mm).
Proof. unfold matchesRow. apply _. Defined.

(** [findMeasurements(benchResult, row)] (lines 608-626): the first series
    of the benchmark that matches the row, with its position, which stands
    for the reference to the object. *)
Definition findMeasurements (benchResult : ProcessedResult.t)
    (row : MeasurementData.t) : option (nat * Measurements.t) :=
  list_find (matchesRow row) (ProcessedResult.measurements benchResult).

(** [findOrConstructProcessedResult(forSuiteByBench, row)] (lines 559-574),
    with the suite as it is afterwards. *)
Definition findOrConstructProcessedResult
    (forSuiteByBench : ResultsByBenchmark.t) (row : MeasurementData.t)
    : ProcessedResult.t * ResultsByBenchmark.t :=
  match JsMap.get (MeasurementData.bench row)
                  (ResultsByBenchmark.benchmarks forSuiteByBench) with
  | Some benchResult => (benchResult, forSuiteByBench)
  | None =>
      let benchResult :=
        ProcessedResult.mk (MeasurementData.exe row) (MeasurementData.suite row)
                           (MeasurementData.bench row) [] in
      (benchResult,
       ResultsByBenchmark.mk
         (JsMap.set (MeasurementData.bench row) benchResult
                    (ResultsByBenchmark.benchmarks forSuiteByBench))
         (ResultsByBenchmark.criteria forSuiteByBench))
  end.

(** [findOrConstructMeasurements] (lines 576-603): the position of the
    series in the benchmark's list, with the benchmark's list and the
    suite's criteria record as they are afterwards. *)
Definition findOrConstructMeasurements
    (benchResult : ProcessedResult.t) (row : MeasurementData.t)
    (criterion : CriterionData.t) (runSetting : RunSettings.t)
    (criteria : JsObject.t CriterionData.t)
    : nat * list Measurements.t * JsObject.t CriterionData.t :=
  match findMeasurements benchResult row with
  | Some (i, m) => (i, ProcessedResult.measurements benchResult, criteria)
  | None =>
      let m :=
        Measurements.mk criterion [] (MeasurementData.envid row)
          (MeasurementData.commitid row) runSetting
          (MeasurementData.runid row) (MeasurementData.trialid row)
          (MeasurementData.expid row) in
      (length (ProcessedResult.measurements benchResult),
       ProcessedResult.measurements benchResult ++ [m],
       JsObject.set (CriterionData.name criterion) criterion criteria)
  end.

(** Lines 515-519: the value goes to [values[invocation - 1][iteration - 1]];
    a missing inner array is created first. *)
Definition writeValue (invocation iteration value : Z)
    (values : JsArray.t (JsArray.t Z)) : JsArray.t (JsArray.t Z) :=
  let values1 :=
    match JsArray.get values (invocation - 1) with
    | None => JsArray.set (invocation - 1) [] values
    | Some _ => values
    end in
  match JsArray.get values1 (invocation - 1) with
  | Some inner =>
      JsArray.set (invocation - 1) (JsArray.set (iteration - 1) value inner)
                  values1
  | None => values1
  end.

Definition setValues (vs : JsArray.t (JsArray.t Z)) (m : Measurements.t)
    : Measurements.t :=
  Measurements.mk (Measurements.criterion m) vs (Measurements.envId m)
    (Measurements.commitId m) (Measurements.runSettings m)
    (Measurements.runId m) (Measurements.trialId m) (Measurements.expId m).

(** The three maps of lines 460-462. *)
Record State := mkState {
  byExeSuiteBench : ResultsByExeSuiteBenchmark;
  runSettings : JsMap.t RunSettings.t;
  criteria : JsMap.t CriterionData.t
}.

Definition initial : State := mkState JsMap.empty JsMap.empty JsMap.empty.

(** Line 465 *)
Definition criterionKey (row : MeasurementData.t) : string :=
  MeasurementData.criterion row +:+ "|" +:+ MeasurementData.unit row.

(** Lines 467-474: the criterion of the row, from the cache if it is there. *)
Definition criterionOf (row : MeasurementData.t)
    (criteria : JsMap.t CriterionData.t) : CriterionData.t :=
  match JsMap.get (criterionKey row) criteria with
  | Some criterion => criterion
  | None =>
      CriterionData.mk (MeasurementData.criterion row) (MeasurementData.unit row)
  end.

(** Lines 476-488 *)
Definition runSettingOf (row : MeasurementData.t)
    (runSettings : JsMap.t RunSettings.t) : RunSettings.t :=
  match JsMap.get (MeasurementData.cmdline row) runSettings with
  | Some runSetting => runSetting
  | None =>
      RunSettings.mk (MeasurementData.cmdline row)
        (MeasurementData.varvalue row) (MeasurementData.cores row)
        (MeasurementData.inputsize row) (MeasurementData.extraargs row)
        (MeasurementData.warmup row)
        (simplifyCmdline (MeasurementData.cmdline row))
  end.

(** The body of the loop of [collateMeasurements] (lines 464-520).  The
    objects that the code reaches through the maps and changes in place are
    put back under their keys here; a key that is new goes last, as it does
    when the code creates the entry. *)
Definition collateRow (st : State) (row : MeasurementData.t) : State :=
  let criterion := criterionOf row (criteria st) in
  let criteria' :=
    match JsMap.get (criterionKey row) (criteria st) with
    | Some _ => criteria st
    | None => JsMap.set (criterionKey row) criterion (criteria st)
    end in
  let runSetting := runSettingOf row (runSettings st) in
  let runSettings' :=
    match JsMap.get (MeasurementData.cmdline row) (runSettings st) with
    | Some _ => runSettings st
    | None => JsMap.set (MeasurementData.cmdline row) runSetting (runSettings st)
    end in
  let forExeBySuiteBench :=
    match JsMap.get (MeasurementData.exe row) (byExeSuiteBench st) with
    | Some m => m
    | None => JsMap.empty
    end in
  let forSuiteByBench :=
    match JsMap.get (MeasurementData.suite row) forExeBySuiteBench with
    | Some r => r
    | None => ResultsByBenchmark.mk JsMap.empty JsObject.empty
    end in
  let '(benchResult, forSuiteByBench1) :=
    findOrConstructProcessedResult forSuiteByBench row in
  let '(i, measurements, suiteCriteria) :=
    findOrConstructMeasurements benchResult row criterion runSetting
      (ResultsByBenchmark.criteria forSuiteByBench1) in
  let measurements' :=
    alter (λ m, setValues
                  (writeValue (MeasurementData.invocation row)
                     (MeasurementData.iteration row)
                     (MeasurementData.value row) (Measurements.values m)) m)
          i measurements in
  let benchResult' :=
    ProcessedResult.mk (ProcessedResult.exe benchResult)
      (ProcessedResult.suite benchResult) (ProcessedResult.bench benchResult)
      measurements' in
  let forSuiteByBench' :=
    ResultsByBenchmark.mk
      (JsMap.set (MeasurementData.bench row) benchResult'
                 (ResultsByBenchmark.benchmarks forSuiteByBench1))
      suiteCriteria in
  let forExeBySuiteBench' :=
    JsMap.set (MeasurementData.suite row) forSuiteByBench' forExeBySuiteBench in
  mkState
    (JsMap.set (MeasurementData.exe row) forExeBySuiteBench'
               (byExeSuiteBench st))
    runSettings' criteria'.

(** The comparison of lines 529-531, 536-538 and 543-545. *)
Definition compareKeys {V} (a b : string * V) : Z := localeCompare a.1 b.1.

(** [sortResultsAlphabetically] (lines 525-557) *)
Definition sortResultsAlphabetically (byExeSuiteBench : ResultsByExeSuiteBenchmark)
    : ResultsByExeSuiteBenchmark :=
  let exeBySuiteBench := JsSort.sort compareKeys (JsMap.entries byExeSuiteBench) in
  JsMap.of_entries
    ((λ exeSuitePair : string * JsMap.t ResultsByBenchmark.t,
        let bySuiteBench := exeSuitePair.2 in
        let suiteByBench := JsSort.sort compareKeys (JsMap.entries bySuiteBench) in
        (exeSuitePair.1,
         JsMap.of_entries
           ((λ suiteBenchPair : string * ResultsByBenchmark.t,
               let byBench := suiteBenchPair.2 in
               let bench :=
                 JsSort.sort compareKeys
                   (JsMap.entries (ResultsByBenchmark.benchmarks byBench)) in
               (suiteBenchPair.1,
                ResultsByBenchmark.mk (JsMap.of_entries bench)
                  (ResultsByBenchmark.criteria byBench)))
            <$> suiteByBench)))
     <$> exeBySuiteBench).

(** [collateMeasurements(data)] (lines 457-523) *)
Definition collateMeasurements (data : list MeasurementData.t)
    : ResultsByExeSuiteBenchmark :=
  sortResultsAlphabetically (byExeSuiteBench (foldl collateRow initial data)).

(** A map with its entries sorted by key and its values passed through
    [g]: the pattern of the two outer loops of [sortResultsAlphabetically]. *)
Definition sortMap {V W} (g : V → W) (m : JsMap.t V) : JsMap.t W :=
  JsMap.of_entries
    ((λ p : string * V, (p.1, g p.2)) <$> JsSort.sort compareKeys (JsMap.entries m)).

(** The inner loop: the benchmarks of a suite sorted by name. *)
Definition sortBenchmarks (byBench : ResultsByBenchmark.t)
    : ResultsByBenchmark.t :=
  ResultsByBenchmark.mk
    (JsMap.of_entries
       (JsSort.sort compareKeys
          (JsMap.entries (ResultsByBenchmark.benchmarks byBench))))
    (ResultsByBenchmark.criteria byBench).

(** The comparison is consistent: any two keys are comparable, and the
    order is transitive. *)
Definition consistentCompare : Prop :=
  (∀ a b, localeCompare a b ≤ 0 ∨ localeCompare b a ≤ 0) ∧
  (∀ a b c, localeCompare a b ≤ 0 → localeCompare b c ≤ 0 →
            localeCompare a c ≤ 0).


(** [a] stands in front of [b] in a list of keys, when both are in it. *)
Definition before (a b : string) (keys : list string) : Prop :=
  ∀ i j, keys !! i = Some a → keys !! j = Some b → (i < j)%nat.

End collate.

(** *** Reading a collated result *)

(** The identity of a series: environment, commit, run, trial and the name
    of the criterion. *)
Definition SeriesKey : Type := Z * string * Z * Z * string.

Definition seriesKey (m : Measurements.t) : SeriesKey :=
  (Measurements.envId m, Measurements.commitId m, Measurements.runId m,
   Measurements.trialId m, CriterionData.name (Measurements.criterion m)).

Definition rowKey (row : MeasurementData.t) : SeriesKey :=
  (MeasurementData.envid row, MeasurementData.commitid row,
   MeasurementData.runid row, MeasurementData.trialid row,
   MeasurementData.criterion row).

(** The place of a slot in a whole result: execution unit, suite,
    benchmark, series, invocation and iteration. *)
Definition Cell : Type := string * string * string * SeriesKey * Z * Z.

Definition cell (row : MeasurementData.t) : Cell :=
  (MeasurementData.exe row, MeasurementData.suite row,
   MeasurementData.bench row, rowKey row,
   MeasurementData.invocation row, MeasurementData.iteration row).

(** The slot of a row in the grid of its series. *)
Definition slot (row : MeasurementData.t) : Z * Z :=
  (MeasurementData.invocation row, MeasurementData.iteration row).

Definition suiteOf (res : ResultsByExeSuiteBenchmark) (exe suite : string)
    : option ResultsByBenchmark.t :=
  JsMap.get exe res ≫= JsMap.get suite.

Definition benchOf (res : ResultsByExeSuiteBenchmark) (exe suite bench : string)
    : option ProcessedResult.t :=
  suiteOf res exe suite ≫= λ r, JsMap.get bench (ResultsByBenchmark.benchmarks r).

(** The key lists of the three levels, of the series of a benchmark and of
    the criteria record of a suite. *)
Definition exeKeys (res : ResultsByExeSuiteBenchmark) : list string :=
  JsMap.keys res.

Definition suiteKeys (res : ResultsByExeSuiteBenchmark) (exe : string)
    : list string :=
  match JsMap.get exe res with
  | Some m => JsMap.keys m
  | None => []
  end.

Definition benchKeys (res : ResultsByExeSuiteBenchmark) (exe suite : string)
    : list string :=
  match suiteOf res exe suite with
  | Some r => JsMap.keys (ResultsByBenchmark.benchmarks r)
  | None => []
  end.


(** The names under which the criteria record of a suite has entries, in
    the order in which the entries were created. *)
Definition criteriaCreated (res : ResultsByExeSuiteBenchmark)
    (exe suite : string) : list string :=
  match suiteOf res exe suite with
  | Some r => JsMap.keys (JsObject.props (ResultsByBenchmark.criteria r))
  | None => []
  end.

(** A criterion name that makes an entry of the record when it is assigned
    to. *)
Definition makesEntry (name : string) : Prop := name ≠ "__proto__".

(** A criterion name that is listed where it was created: one that makes
    an entry and is no array index, as "total" is. *)
Definition plainName (name : string) : Prop :=
  name ≠ "__proto__" ∧ JsObject.arrayIndex name = None.

#[global] Instance makesEntry_dec name : Decision (makesEntry name).
Proof. unfold makesEntry. apply _. Defined.

#[global] Instance plainName_dec name : Decision (plainName name).
Proof. unfold plainName. apply _. Defined.

Definition seriesOf (res : ResultsByExeSuiteBenchmark)
    (exe suite bench : string) : list Measurements.t :=
  match benchOf res exe suite bench with
  | Some pr => ProcessedResult.measurements pr
  | None => []
  end.

Definition seriesKeys (res : ResultsByExeSuiteBenchmark)
    (exe suite bench : string) : list SeriesKey :=
  seriesKey <$> seriesOf res exe suite bench.

(** The first series with a given identity. *)
Fixpoint findSeries (k : SeriesKey) (ms : list Measurements.t)
    : option Measurements.t :=
  match ms with
  | [] => None
  | m :: ms' => if decide (seriesKey m = k) then Some m else findSeries k ms'
  end.

(** The values grid of a series of a result, if the series is there. *)
Definition gridOf (res : ResultsByExeSuiteBenchmark) (exe suite bench : string)
    (k : SeriesKey) : option (JsArray.t (JsArray.t Z)) :=
  Measurements.values <$> findSeries k (seriesOf res exe suite bench).

(** *** What the rows say *)

(** A list without the repetitions of its elements, in the order of the
    first occurrences. *)
Definition addKey {K} `{EqDecision K} (acc : list K) (k : K) : list K :=
  if decide (k ∈ acc) then acc else acc ++ [k].

Definition firstOccurrences {K} `{EqDecision K} (l : list K) : list K :=
  foldl addKey [] l.

Definition writeRow (g : JsArray.t (JsArray.t Z)) (row : MeasurementData.t)
    : JsArray.t (JsArray.t Z) :=
  writeValue (MeasurementData.invocation row) (MeasurementData.iteration row)
             (MeasurementData.value row) g.

(** The grid that rows of one series fill, one after the other. *)
Definition gridOfRows (rows : list MeasurementData.t)
    : JsArray.t (JsArray.t Z) :=
  foldl writeRow [] rows.

(** The rows of an execution unit, of a suite, of a benchmark, of a
    series. *)
Definition rowsOfExe (exe : string) (rows : list MeasurementData.t) :=
  filter (λ r, MeasurementData.exe r = exe) rows.

Definition rowsOfSuite (exe suite : string) (rows : list MeasurementData.t) :=
  filter (λ r, MeasurementData.exe r = exe ∧ MeasurementData.suite r = suite)
         rows.

Definition rowsOfBench (exe suite bench : string)
    (rows : list MeasurementData.t) :=
  filter (λ r, MeasurementData.exe r = exe ∧ MeasurementData.suite r = suite
               ∧ MeasurementData.bench r = bench) rows.

Definition rowsOfSeries (exe suite bench : string) (k : SeriesKey)
    (rows : list MeasurementData.t) :=
  filter (λ r, (MeasurementData.exe r = exe ∧ MeasurementData.suite r = suite
                ∧ MeasurementData.bench r = bench) ∧ rowKey r = k) rows.

(** The cache of criteria is keyed by [name|unit].  The rows agree with it
    when rows with the same key name the same criterion, as they do when no
    name and no unit contains a bar. *)
Definition consistentCriteria (rows : list MeasurementData.t) : Prop :=
  ∀ r1 r2, r1 ∈ rows → r2 ∈ rows →
    criterionKey r1 = criterionKey r2 →
    MeasurementData.criterion r1 = MeasurementData.criterion r2.

(** Adding the value of a row to the series of a benchmark: the first
    series that matches the row takes it, or else a new series [fresh] at
    the end. *)
Fixpoint upsertSeries (row : MeasurementData.t) (fresh : Measurements.t)
    (ms : list Measurements.t) : list Measurements.t :=
  match ms with
  | [] => [setValues (writeRow (Measurements.values fresh) row) fresh]
  | m :: ms' =>
      if decide (matchesRow row m)
      then setValues (writeRow (Measurements.values m) row) m :: ms'
      else m :: upsertSeries row fresh ms'
  end.

(** The series that a row creates when none matches it. *)
Definition freshSeries (criterion : CriterionData.t) (runSetting : RunSettings.t)
    (row : MeasurementData.t) : Measurements.t :=
  Measurements.mk criterion [] (MeasurementData.envid row)
    (MeasurementData.commitid row) runSetting
    (MeasurementData.runid row) (MeasurementData.trialid row)
    (MeasurementData.expid row).

(** What one row does to the hierarchy, given the criterion and the run
    settings that the two caches hand out for it: the loop body of
    [collateMeasurements] without the plumbing of object references. *)
Definition insertRow (criterion : CriterionData.t) (runSetting : RunSettings.t)
    (row : MeasurementData.t) (res : ResultsByExeSuiteBenchmark)
    : ResultsByExeSuiteBenchmark :=
  let forExe := default JsMap.empty (JsMap.get (MeasurementData.exe row) res) in
  let forSuite :=
    default (ResultsByBenchmark.mk JsMap.empty JsObject.empty)
            (JsMap.get (MeasurementData.suite row) forExe) in
  let benchResult :=
    default (ProcessedResult.mk (MeasurementData.exe row)
               (MeasurementData.suite row) (MeasurementData.bench row) [])
            (JsMap.get (MeasurementData.bench row)
                       (ResultsByBenchmark.benchmarks forSuite)) in
  let ms := ProcessedResult.measurements benchResult in
  let benchResult' :=
    ProcessedResult.mk (ProcessedResult.exe benchResult)
      (ProcessedResult.suite benchResult) (ProcessedResult.bench benchResult)
      (upsertSeries row (freshSeries criterion runSetting row) ms) in
  let suiteCriteria :=
    if decide (Exists (matchesRow row) ms)
    then ResultsByBenchmark.criteria forSuite
    else JsObject.set (CriterionData.name criterion) criterion
                      (ResultsByBenchmark.criteria forSuite) in
  JsMap.set (MeasurementData.exe row)
    (JsMap.set (MeasurementData.suite row)
       (ResultsByBenchmark.mk
          (JsMap.set (MeasurementData.bench row) benchResult'
                     (ResultsByBenchmark.benchmarks forSuite))
          suiteCriteria)
       forExe)
    res.

(** The grid of a series as the rows give it: none without rows. *)
Definition gridFrom (rows : list MeasurementData.t)
    : option (JsArray.t (JsArray.t Z)) :=
  match rows with
  | [] => None
  | _ => Some (gridOfRows rows)
  end.

(** The criteria record of a suite has an entry for the criterion of
    every series of the suite, unless the name of the criterion makes no
    entry. *)
Definition criteriaCover (res : ResultsByExeSuiteBenchmark) : Prop :=
  ∀ exe suite bench m, m ∈ seriesOf res exe suite bench →
    makesEntry (CriterionData.name (Measurements.criterion m)) →
    CriterionData.name (Measurements.criterion m)
      ∈ criteriaCreated res exe suite.

(** The maps of a result have no key twice. *)
Definition noDupKeys (res : ResultsByExeSuiteBenchmark) : Prop :=
  NoDup (JsMap.keys res) ∧
  ∀ exe m, (exe, m) ∈ res →
    NoDup (JsMap.keys m) ∧
    ∀ suite r, (suite, r) ∈ m →
      NoDup (JsMap.keys (ResultsByBenchmark.benchmarks r)).

(** The criteria in the cache carry the name of a row that has their
    key. *)
Definition cacheFrom (rows : list MeasurementData.t)
    (criteria : JsMap.t CriterionData.t) : Prop :=
  ∀ c cd, JsMap.get c criteria = Some cd →
    ∃ r, r ∈ rows ∧ criterionKey r = c
         ∧ CriterionData.name cd = MeasurementData.criterion r.


(** The hierarchy built from [rows], as the rows give it: at every level
    the keys in the order of their first occurrence, in the criteria
    records the entries in the order of the first occurrence of their
    names, and in every series the grid of its rows. *)
Definition builtFrom (rows : list MeasurementData.t)
    (res : ResultsByExeSuiteBenchmark) : Prop :=
  exeKeys res = firstOccurrences (MeasurementData.exe <$> rows) ∧
  (∀ e, suiteKeys res e
        = firstOccurrences (MeasurementData.suite <$> rowsOfExe e rows)) ∧
  (∀ e s, benchKeys res e s
          = firstOccurrences (MeasurementData.bench <$> rowsOfSuite e s rows)) ∧
  (∀ e s, criteriaCreated res e s
          = firstOccurrences
              (filter makesEntry
                 (MeasurementData.criterion <$> rowsOfSuite e s rows))) ∧
  (∀ e s b, seriesKeys res e s b
            = firstOccurrences (rowKey <$> rowsOfBench e s b rows)) ∧
  (∀ e s b k, gridOf res e s b k = gridFrom (rowsOfSeries e s b k rows)).

(** The three levels of the hierarchy built from [rows]: no key twice, and
    the keys in the order of their first occurrence. *)
Definition levelsFrom (rows : list MeasurementData.t)
    (res : ResultsByExeSuiteBenchmark) : Prop :=
  noDupKeys res ∧
  exeKeys res = firstOccurrences (MeasurementData.exe <$> rows) ∧
  (∀ e, suiteKeys res e
        = firstOccurrences (MeasurementData.suite <$> rowsOfExe e rows)) ∧
  (∀ e s, benchKeys res e s
          = firstOccurrences (MeasurementData.bench <$> rowsOfSuite e s rows)).

(** What holds of the loop state after the rows [rows]. *)
Definition stateAfter (rows : list MeasurementData.t) (st : State) : Prop :=
  builtFrom rows (byExeSuiteBench st) ∧
  noDupKeys (byExeSuiteBench st) ∧
  criteriaCover (byExeSuiteBench st) ∧
  cacheFrom rows (criteria st).

End Collate.

(** ** A numeric-aware comparison

    A comparison for closed examples, where the properties of the
    collation take an arbitrary [localeCompare]: a string is cut into its
    characters and its runs of digits; a run of digits counts by its
    numeric value, and the sequences are compared lexicographically.  So
    "bench2" comes before "bench10".  It is not the collation of the
    runtime, which orders letters, cases and punctuation by the rules of
    the locale. *)

Module NumericCollation.

(** The value of a decimal digit. *)
Definition digitValue (c : ascii) : option N := N.of_nat <$> Ascii.is_nat c.

(** A pending run of digits becomes one token behind all characters. *)
Definition flush (cur : option N) : list N :=
  match cur with
  | Some n => [(256 + n)%N]
  | None => []
  end.

Fixpoint tokens (cur : option N) (s : string) : list N :=
  match s with
  | EmptyString => flush cur
  | String c s' =>
      match digitValue c with
      | Some d => tokens (Some (10 * default 0 cur + d)%N) s'
      | None => flush cur ++ N_of_ascii c :: tokens None s'
      end
  end.

Fixpoint lexCompare (k1 k2 : list N) : comparison :=
  match k1, k2 with
  | [], [] => Eq
  | [], _ :: _ => Lt
  | _ :: _, [] => Gt
  | x :: k1', y :: k2' =>
      match (x ?= y)%N with
      | Eq => lexCompare k1' k2'
      | c => c
      end
  end.

Definition numericCompare (a b : string) : Z :=
  match lexCompare (tokens None a) (tokens None b) with
  | Lt => -1
  | Eq => 0
  | Gt => 1
  end.

End NumericCollation.

(** ** Sample rows for closed examples *)

Module Samples.
Import Collate.

(** A row of run 2, trial 3, experiment 1 on commit "c" in environment 4. *)
Definition row (exe suite bench criterion unit : string)
    (invocation iteration value : Z) : MeasurementData.t :=
  MeasurementData.mk 1 2 3 "c" bench exe suite "cmd" None None None None
    invocation iteration None criterion unit value 4.

(** Collation with the numeric-aware comparison and command lines left as
    they are. *)
Definition collate (rows : list MeasurementData.t)
    : ResultsByExeSuiteBenchmark :=
  collateMeasurements (λ cmdline, cmdline) NumericCollation.numericCompare rows.

(** The series of the rows made by [row] for the criterion "total". *)
Definition totalKey : SeriesKey := (4, "c", 2, 3, "total").

(** The rows of the example in the testable properties: one series, three
    slots. *)
Definition threeSlots : list MeasurementData.t :=
  [row "A" "S" "B" "total" "ms" 1 1 10;
   row "A" "S" "B" "total" "ms" 1 2 20;
   row "A" "S" "B" "total" "ms" 2 1 30].

(** Benchmarks and criteria that arrive in another order than the sorted
    one. *)
Definition unsortedArrival : list MeasurementData.t :=
  [row "A" "S" "bench10" "total" "ms" 1 1 10;
   row "A" "S" "bench2" "gc" "ms" 1 1 20;
   row "A" "S" "bench1" "alloc" "bytes" 1 1 30].

(** Two rows for the same slot that differ in their value only. *)
Definition sameSlotTwice : list MeasurementData.t :=
  [row "A" "S" "B" "total" "ms" 1 1 10;
   row "A" "S" "B" "total" "ms" 1 1 20].

(** Rows whose criterion and unit run into the same cache key "a|b|c". *)
Definition barInNames : list MeasurementData.t :=
  [row "A" "S" "B" "a|b" "c" 1 1 1;
   row "A" "S" "B" "a" "b|c" 1 1 2;
   row "A" "S" "B" "a" "b|c" 1 2 3].

(** Two rows of one series, for two slots, that name different experiments
    and units. *)
Definition twoHeaders : list MeasurementData.t :=
  [MeasurementData.mk 1 2 3 "c" "B" "A" "S" "cmd" None None None None
     1 1 None "total" "ms" 10 4;
   MeasurementData.mk 9 2 3 "c" "B" "A" "S" "cmd" None None None None
     1 2 None "total" "s" 20 4].



End Samples.

(** ** Reading runs of the engine *)

Module TimelineRuns.
Import Timeline.
Import BatchingTimelineUpdater.

(** What an [addValues] call is for: run, trial and criterion. *)
Definition CallKey : Type := Z * Z * Z.

Definition callKey (c : AddValuesCall) : CallKey :=
  (callRunId c, callTrialId c, callCriterionId c).

(** The call passes a value that is not [null]. *)
Definition hasValues (c : AddValuesCall) : Prop :=
  filterNotNull (callValues c) ≠ [].

(** The table entry for a key after the calls [calls]: the job with all
    the non-null values passed for the key, under the key's string. *)
Definition entryFor (calls : list AddValuesCall) (k : CallKey)
    : string * ComputeJob :=
  (jobId k.1.2 k.1.1 k.2,
   Build_ComputeJob k.1.1 k.1.2 k.2 (valuesFor k.1.1 k.1.2 k.2 calls)).

(** The pending-job table as the calls give it: one entry per key that got
    a non-null value, in the order in which the keys got their first one. *)
Definition tableOf (calls : list AddValuesCall) : JsMap.t ComputeJob :=
  entryFor calls
    <$> Collate.firstOccurrences (callKey <$> filter hasValues calls).

(** The [addValues] calls among the calls of a run. *)
Definition callsOf (ops : list Op) : list AddValuesCall :=
  omap (λ op, match op with
              | AddValues r t c vs => Some (Build_AddValuesCall r t c vs)
              | _ => None
              end) ops.

(** The calls that take the pending jobs out of the table. *)
Definition takesJobs (op : Op) : bool :=
  match op with
  | SubmitUpdateJobs _ | ConsumeUpdateJobs => true
  | _ => false
  end.

(** The calls that bring results of the worker to [receiveResults]. *)
Definition deliversResults (op : Op) : bool :=
  match op with
  | ReceiveResults _ | Message (Response _) => true
  | _ => false
  end.

(** The resolver calls of a trace that pass a job count: the ones of
    line 148. *)
Definition waveResolves (tr : list Event) : list (Promise.id * Z) :=
  omap (λ e, match e with
             | EvResolve p (Promise.VNum n) => Some (p, n)
             | _ => None
             end) tr.

(** The calls that may hand jobs to the worker. *)
Definition dispatches (op : Op) : bool :=
  match op with
  | SubmitUpdateJobs _ | ProcessUpdateJobs _ _ => true
  | _ => false
  end.

(** The spans that a trace closes with [completeRequestAndHandlePromise]:
    start marker and tag. *)
Definition spansClosed (tr : list Event) : list (Z * string) :=
  omap (λ e, match e with
             | EvCompleteRequest start tag => Some (start, tag)
             | _ => None
             end) tr.

(** How often "exit" was posted to the worker thread, and how often the
    thread was terminated. *)
Definition isExitPost (e : Event) : bool :=
  match e with EvPostMessage PostExit => true | _ => false end.

Definition isTerminate (e : Event) : bool :=
  match e with EvTerminate => true | _ => false end.

Definition isExiting (op : Op) : bool :=
  match op with Message Exiting => true | _ => false end.

Definition isShutdown (op : Op) : bool :=
  match op with Shutdown => true | _ => false end.

Definition exitsPosted (tr : list Event) : nat :=
  length (filter (λ e, isExitPost e = true) tr).

Definition terminations (tr : list Event) : nat :=
  length (filter (λ e, isTerminate e = true) tr).

(** What one call can do to the promises, given the state before it, the
    state after it and the events it adds: nothing; a promise settled with 0
    is created (a dispatch of no jobs); a pending promise is created and
    becomes the one that the wave resolver settles (a dispatch); a pending
    promise is created for the shutdown; the wave resolver is called with
    [requestsAtStart] and dropped; the shutdown resolver is called.  On
    top of that come the promises [calls] of the calls of [async] methods,
    each resolved with a promise from the start. *)
Definition promiseStep {Db} (op : Op) (st st' : State Db) (new : list Event)
    : Prop :=
  let rsv (s : State Db) := resolveJobsPromiseWithNumberOfJobs s.1 in
  let srs (s : State Db) := TimelineWorker.shutdownResolve (worker s.1) in
  ∃ calls : list (option Promise.value),
  Forall (λ c, ∃ q, c = Some (Promise.VPromise q)) calls ∧
  ((heap st'.2 = heap st.2 ++ calls ∧ rsv st' = rsv st ∧ srs st' = srs st
    ∧ resolveCalls new = [])
   ∨ (heap st'.2 = (heap st.2 ++ [Some (Promise.VNum 0)]) ++ calls
      ∧ rsv st' = rsv st ∧ srs st' = srs st ∧ resolveCalls new = [])
   ∨ (heap st'.2 = (heap st.2 ++ [None]) ++ calls
      ∧ rsv st' = Some (length (heap st.2)) ∧ srs st' = srs st
      ∧ resolveCalls new = [])
   ∨ (heap st'.2 = (heap st.2 ++ [None]) ++ calls
      ∧ rsv st' = rsv st ∧ srs st' = Some (length (heap st.2))
      ∧ resolveCalls new = [])
   ∨ (∃ q, rsv st = Some q
      ∧ heap st'.2
        = Promise.resolve q (Promise.VNum (requestsAtStart st.1)) (heap st.2)
          ++ calls
      ∧ rsv st' = None ∧ srs st' = srs st
      ∧ resolveCalls new = [(q, Promise.VNum (requestsAtStart st.1))]
      ∧ deliversResults op = true)
   ∨ (∃ q, srs st = Some q
      ∧ heap st'.2 = Promise.resolve q Promise.VVoid (heap st.2) ++ calls
      ∧ rsv st' = rsv st ∧ srs st' = srs st
      ∧ resolveCalls new = [(q, Promise.VVoid)])).

(** A promise that nothing can settle any more: it is pending, and neither
    the wave resolver nor the shutdown resolver is its own. *)
Definition orphaned {Db} (p : Promise.id) (st : State Db) : Prop :=
  (p < length (heap st.2))%nat ∧
  Promise.state (heap st.2) p = None ∧
  resolveJobsPromiseWithNumberOfJobs st.1 ≠ Some p ∧
  TimelineWorker.shutdownResolve (worker st.1) ≠ Some p.

(** A pending promise that is not the one of the shutdown. *)
Definition awaited {Db} (p : Promise.id) (st : State Db) : Prop :=
  (p < length (heap st.2))%nat ∧
  Promise.state (heap st.2) p = None ∧
  TimelineWorker.shutdownResolve (worker st.1) ≠ Some p.

(** The wave resolver calls so far were for different promises, each of
    which holds the count it was given; the promise of the resolver in place
    is pending, and resolvers are for promises that exist. *)
Definition resolvedOnce {Db} (st : State Db) : Prop :=
  NoDup (waveResolves (trace st.2)).*1 ∧
  (∀ p n, (p, n) ∈ waveResolves (trace st.2) →
     Promise.state (heap st.2) p = Some (Promise.VNum n)) ∧
  (∀ q, resolveJobsPromiseWithNumberOfJobs st.1 = Some q →
     (q < length (heap st.2))%nat ∧ Promise.state (heap st.2) q = None
     ∧ TimelineWorker.shutdownResolve (worker st.1) ≠ Some q) ∧
  (∀ q, TimelineWorker.shutdownResolve (worker st.1) = Some q →
     (q < length (heap st.2))%nat).

(** "exit" was posted once if a shutdown was requested, and never
    otherwise. *)
Definition exitOk {Db} (st : State Db) : Prop :=
  exitsPosted (trace st.2)
  = match TimelineWorker.shutdownPromise (worker st.1) with
    | Some _ => 1%nat
    | None => 0%nat
    end.

End TimelineRuns.

(** ** Reading series and caches of a collation *)

Module CollateReading.
Import Collate.

(** [values[invocation - 1][iteration - 1]], read the safe way: [None] when
    the inner array or the slot is missing. *)
Definition cellAt (g : JsArray.t (JsArray.t Z)) (invocation iteration : Z)
    : option Z :=
  JsArray.get g (invocation - 1) ≫= λ inner, JsArray.get inner (iteration - 1).

(** The value of the last of the rows that are for a slot. *)
Definition lastAt (invocation iteration : Z) (rows : list MeasurementData.t)
    : option Z :=
  MeasurementData.value
    <$> last (filter (λ r, slot r = (invocation, iteration)) rows).

(** The first element of a list with a property. *)
Definition firstWith {A} (P : A → Prop) `{∀ x, Decision (P x)} (l : list A)
    : option A :=
  head (filter P l).

(** The run settings that lines 478-486 make of a row. *)
Definition settingsOfRow (simplifyCmdline : string → string)
    (row : MeasurementData.t) : RunSettings.t :=
  RunSettings.mk (MeasurementData.cmdline row)
    (MeasurementData.varvalue row) (MeasurementData.cores row)
    (MeasurementData.inputsize row) (MeasurementData.extraargs row)
    (MeasurementData.warmup row)
    (simplifyCmdline (MeasurementData.cmdline row)).

(** The criterion that lines 469-472 make of a row. *)
Definition criterionOfRow (row : MeasurementData.t) : CriterionData.t :=
  CriterionData.mk (MeasurementData.criterion row) (MeasurementData.unit row).

(** The criteria record of a suite of a result. *)
Definition criteriaOf (res : ResultsByExeSuiteBenchmark) (exe suite : string)
    : JsObject.t CriterionData.t :=
  match suiteOf res exe suite with
  | Some r => ResultsByBenchmark.criteria r
  | None => JsObject.empty
  end.

(** The two caches of the loop hold, under every key, what the first row
    with that key gives. *)
Definition cachesFrom (simplifyCmdline : string → string)
    (rows : list MeasurementData.t) (st : State) : Prop :=
  (∀ c, JsMap.get c (runSettings st)
        = settingsOfRow simplifyCmdline
            <$> firstWith (λ r, MeasurementData.cmdline r = c) rows) ∧
  (∀ c, JsMap.get c (criteria st)
        = criterionOfRow <$> firstWith (λ r, criterionKey r = c) rows).

(** Where the fields of a series come from: the ids from a row [r] of its
    benchmark, the run settings from the first row with the command line of
    [r], the criterion from the first row with the cache key of [r]. *)
Definition seriesFromRows (simplifyCmdline : string → string)
    (rows : list MeasurementData.t) (exe suite bench : string)
    (m : Measurements.t) : Prop :=
  ∃ r r0 r1,
    r ∈ rowsOfBench exe suite bench rows ∧
    firstWith (λ x, MeasurementData.cmdline x = MeasurementData.cmdline r) rows
    = Some r0 ∧
    firstWith (λ x, criterionKey x = criterionKey r) rows = Some r1 ∧
    setValues [] m
    = freshSeries (criterionOfRow r1) (settingsOfRow simplifyCmdline r0) r.

(** The rows agree on what a series takes from the first rows that the
    loop meets: the rows of one series of a benchmark agree on experiment,
    unit and command line, and the rows with one command line agree on the
    run settings. *)
Definition uniformSeries (rows : list MeasurementData.t) : Prop :=
  ∀ r1 r2, r1 ∈ rows → r2 ∈ rows →
    (MeasurementData.cmdline r1 = MeasurementData.cmdline r2 →
     MeasurementData.varvalue r1 = MeasurementData.varvalue r2 ∧
     MeasurementData.cores r1 = MeasurementData.cores r2 ∧
     MeasurementData.inputsize r1 = MeasurementData.inputsize r2 ∧
     MeasurementData.extraargs r1 = MeasurementData.extraargs r2 ∧
     MeasurementData.warmup r1 = MeasurementData.warmup r2) ∧
    (MeasurementData.exe r1 = MeasurementData.exe r2 →
     MeasurementData.suite r1 = MeasurementData.suite r2 →
     MeasurementData.bench r1 = MeasurementData.bench r2 →
     rowKey r1 = rowKey r2 →
     MeasurementData.expid r1 = MeasurementData.expid r2 ∧
     MeasurementData.unit r1 = MeasurementData.unit r2 ∧
     MeasurementData.cmdline r1 = MeasurementData.cmdline r2).

(** Every benchmark record is filed under its own names and has a
    series. *)
Definition filedByName (res : ResultsByExeSuiteBenchmark) : Prop :=
  ∀ e s b pr, benchOf res e s b = Some pr →
    ProcessedResult.exe pr = e ∧ ProcessedResult.suite pr = s ∧
    ProcessedResult.bench pr = b ∧ ProcessedResult.measurements pr ≠ [].


End CollateReading.

(** ** More sample rows for closed examples *)

Module MoreSamples.
Import Collate.
Import Samples.

(** Three rows with one command line.  The second is for the series of the
    first, though it names another experiment, other cores and another
    unit; the third is for another run. *)
Definition sharedCmdline : list MeasurementData.t :=
  [MeasurementData.mk 1 2 3 "c" "B" "A" "S" "cmd" None (Some "1") None None
     1 1 None "total" "ms" 10 4;
   MeasurementData.mk 9 2 3 "c" "B" "A" "S" "cmd" None (Some "8") None None
     1 2 (Some 5) "total" "s" 20 4;
   MeasurementData.mk 7 5 3 "c" "B" "A" "S" "cmd" None (Some "8") None None
     1 1 (Some 5) "total" "s" 30 4].

(** The series that the third of these rows creates. *)
Definition seriesOfThirdRow : Measurements.t :=
  Measurements.mk (CriterionData.mk "total" "s") [Some [Some 30]] 4 "c"
    (RunSettings.mk "cmd" None (Some "1") None None None "cmd") 5 3 7.

(** Two criteria of one benchmark, the rows of the first around the row of
    the second. *)
Definition twoCriteria : list MeasurementData.t :=
  [row "A" "S" "B" "total" "ms" 1 1 10;
   row "A" "S" "B" "gc" "ms" 1 1 5;
   row "A" "S" "B" "total" "ms" 1 2 20].

(** The loop state after the rows of [unsortedArrival], before sorting. *)
Definition unsortedHierarchy : ResultsByExeSuiteBenchmark :=
  byExeSuiteBench
    (foldl (collateRow (λ cmdline, cmdline)) initial unsortedArrival).

End MoreSamples.

(** ** The dashboard: reports and experiment data ([src/dashboard.ts])

    JavaScript objects that the code builds field by field ([data], the
    entries of [reportGeneration] and [expDataPreparation], the rows and
    answers of the database) are association lists from property names to
    values, so that a property that was never written reads as
    [undefined].  Strings stand for sequences of code units. *)

Module Js.

#[warnings="-register-all"] Inductive Value :=
  | Undefined
  | Null
  | Bool (b : bool)
  | Num (n : Z)
  | Str (s : string)
  | Obj (fields : list (string * Value))
  | Handle (h : nat).

Abbreviation Object := (list (string * Value)) (only parsing).

(** Truthiness: [undefined], [null], [false], [0] and the empty string are
    falsy. *)
Definition truthy (v : Value) : bool :=
  match v with
  | Undefined | Null => false
  | Bool b => b
  | Num n => negb (n =? 0)
  | Str s => negb (bool_decide (s = ""))
  | Obj _ | Handle _ => true
  end.

(** [o.k] for a property of the object's own. *)
Definition prop (o : Object) (k : string) : Value :=
  default Undefined (JsMap.get k o).

(** [Object.assign(target, source)] *)
Definition assign (target source : Object) : Object :=
  foldl (λ t kv, JsMap.set kv.1 kv.2 t) target source.

(** A value as a string, in a template literal or as a property key.  The
    objects at hand are plain ones and promises. *)
Definition toStr (v : Value) : string :=
  match v with
  | Undefined => "undefined"
  | Null => "null"
  | Bool true => "true"
  | Bool false => "false"
  | Num n => pretty n
  | Str s => s
  | Obj _ => "[object Object]"
  | Handle _ => "[object Promise]"
  end.

(** The properties that every plain object inherits from
    [Object.prototype]. *)
Definition inheritedNames : list string :=
  ["constructor"; "__defineGetter__"; "__defineSetter__"; "hasOwnProperty";
   "__lookupGetter__"; "__lookupSetter__"; "isPrototypeOf";
   "propertyIsEnumerable"; "toString"; "valueOf"; "__proto__";
   "toLocaleString"].

(** [k in o] for a plain object: own and inherited properties count. *)
Definition hasProperty {V} (k : string) (o : JsMap.t V) : bool :=
  JsMap.has k o || bool_decide (k ∈ inheritedNames).

(** [m.delete(k)] on a [Map] *)
Definition delete {V} (k : string) (m : JsMap.t V) : JsMap.t V :=
  filter (λ kv, kv.1 ≠ k) m.

(** [s.substr(0, n)] *)
Fixpoint substr0 (n : nat) (s : string) : string :=
  match n, s with
  | S n', String c s' => String c (substr0 n' s')
  | _, _ => EmptyString
  end.

(** [s.startsWith(p)] *)
Fixpoint startsWith (p s : string) : bool :=
  match p, s with
  | EmptyString, _ => true
  | String a p', String b s' => bool_decide (a = b) && startsWith p' s'
  | String _ _, EmptyString => false
  end.

Fixpoint dropChars (n : nat) (s : string) : string :=
  match n, s with
  | S n', String _ s' => dropChars n' s'
  | _, _ => s
  end.

(** [s.replace(pattern, replacement)] with a string as pattern: the first
    occurrence is replaced, if there is one.  The replacement at hand has
    no [$] in it. *)
Fixpoint replaceFirst (pattern replacement s : string) : string :=
  if startsWith pattern s
  then replacement +:+ dropChars (String.length pattern) s
  else match s with
       | EmptyString => EmptyString
       | String c s' => String c (replaceFirst pattern replacement s')
       end.

(** [parts.join(sep)] *)
Fixpoint join (sep : string) (parts : list string) : string :=
  match parts with
  | [] => ""
  | [p] => p
  | p :: ps => p +:+ sep +:+ join sep ps
  end.

(** [p] occurs in [s]. *)
Definition occursIn (p s : string) : Prop :=
  ∃ a b, s = a +:+ p +:+ b.

(** [p] occurs in [s], computed: what [s.includes(p)] gives. *)
Fixpoint includes (p s : string) : bool :=
  startsWith p s
  || match s with
     | EmptyString => false
     | String _ s' => includes p s'
     end.

End Js.

Module Dashboard.
Import Js.

(** [DatabaseConfig], as far as it is read here. *)
Record DatabaseConfig := {
  database : string;
  user : string;
  password : string
}.

(** *** [dashResults] (lines 26-64), from the rows of the query on *)

(** One round of the loop of lines 57-62.  [None] stands for the
    [TypeError] of line 61 when what is found under the name of the
    benchmark is not an array. *)
Definition dashResultsRow (timeSeries : JsMap.t (list Value)) (r : Object)
    : option (JsMap.t (list Value)) :=
  let benchmark := toStr (prop r "benchmark") in
  let timeSeries :=
    if negb (hasProperty benchmark timeSeries)
    then JsMap.set benchmark [] timeSeries
    else timeSeries in
  match JsMap.get benchmark timeSeries with
  | Some series =>
      Some (JsMap.set benchmark (series ++ [prop r "value"]) timeSeries)
  | None => None
  end.

Definition dashResults (rows : list Object) : option (JsMap.t (list Value)) :=
  foldl (λ acc r, acc ≫= λ timeSeries, dashResultsRow timeSeries r)
        (Some JsMap.empty) rows.

(** The values of the rows of a benchmark, in the order of the rows. *)
Definition valuesOf (benchmark : string) (rows : list Object) : list Value :=
  (λ r, prop r "value")
    <$> filter (λ r, toStr (prop r "benchmark") = benchmark) rows.

(** A record of time series holds, for every benchmark of the rows, the
    values of its rows, and nothing else. *)
Definition groups (rows : list Object) (timeSeries : JsMap.t (list Value))
    : Prop :=
  ∀ b, JsMap.get b timeSeries
       = match valuesOf b rows with [] => None | vs => Some vs end.

(** *** Reports and experiment data *)

(** What the functions do to the world around them. *)
Inductive Event :=
  | EvLog (message : string)
  | EvError (message : string) (reason : Object)
  | EvExecFile (cmd : string) (args : list string) (cwd : option string)
  | EvCompleteRequest (start : Z) (tag : string)
  | EvUnlink (path : string)
  | EvRemoveTree (path : string).

(** What waits for a promise: the handlers that [dashCompare] and
    [dashGetExpData] chain to the promise of [execFile], with the variables
    they close over.  A handler for the end of a script waits for the
    script first, and for [completeRequest] then. *)
Inductive Child :=
  | ReportScript (reportId : string) (start : Z)
  | ReportCompleting (reportId : string) (start : Z)
  | ExpDataScript (expDataId : string) (start : Z)
  | ExpDataCompleting (expDataId : string) (start : Z).

(** The module state [reportGeneration] (line 180) and
    [expDataPreparation] (line 348), the files on disk (path to content),
    the handlers that wait (under the handle of the promise of their
    script), the number of promises made so far, and the trace of
    effects. *)
Record World := mkWorld {
  reportGeneration : JsMap.t Object;
  expDataPreparation : JsMap.t Object;
  files : JsMap.t string;
  children : list (nat * Child);
  handles : nat;
  events : list Event
}.

Definition emit (e : Event) (w : World) : World :=
  mkWorld (reportGeneration w) (expDataPreparation w) (files w) (children w)
          (handles w) (events w ++ [e]).

(** A new promise. *)
Definition newHandle (w : World) : nat * World :=
  (handles w,
   mkWorld (reportGeneration w) (expDataPreparation w) (files w) (children w)
           (S (handles w)) (events w)).

Definition withReportGeneration (m : JsMap.t Object) (w : World) : World :=
  mkWorld m (expDataPreparation w) (files w) (children w) (handles w)
          (events w).

Definition withExpDataPreparation (m : JsMap.t Object) (w : World) : World :=
  mkWorld (reportGeneration w) m (files w) (children w) (handles w)
          (events w).

Definition withFiles (fs : JsMap.t string) (w : World) : World :=
  mkWorld (reportGeneration w) (expDataPreparation w) fs (children w)
          (handles w) (events w).

Definition withChildren (cs : list (nat * Child)) (w : World) : World :=
  mkWorld (reportGeneration w) (expDataPreparation w) (files w) cs
          (handles w) (events w).

(** [execFile(cmd, args, { cwd })]: the script starts, and its promise is
    returned. *)
Definition execFile (cmd : string) (args : list string) (cwd : option string)
    (w : World) : nat * World :=
  newHandle (emit (EvExecFile cmd args cwd) w).

(** The handlers chained to the promise [p] of a script. *)
Definition chain (p : nat) (c : Child) (w : World) : World :=
  withChildren (children w ++ [(p, c)]) w.

(** What waits under a handle. *)
Definition childOf (p : nat) (w : World) : option Child :=
  snd <$> head (filter (λ pc, pc.1 = p) (children w)).

(** The chain under a handle has run to its end. *)
Definition settle (p : nat) (w : World) : World :=
  withChildren (filter (λ pc, pc.1 ≠ p) (children w)) w.

(** The chain under a handle waits for something else now. *)
Definition await (p : nat) (c : Child) (w : World) : World :=
  chain p c (settle p w).

Section dashboard.

(** [robustPath], [siteConfig] and [__dirname] come from [util], which is
    not among the files at hand. *)
Variable robustPath : string → string.
Variable reportsUrl : string.
Variable staticUrl : string.
Variable dirname : string.

(** Line 12 *)
Definition reportOutputFolder : string := robustPath "../resources/reports/".

(** [getOutputImageFolder] (lines 214-216) *)
Definition getOutputImageFolder (outputFile : string) : string :=
  replaceFirst ".html" "_files" outputFile.

(** [getSummaryPlotFileName] (lines 210-212) *)
Definition getSummaryPlotFileName (outputFile : string) : string :=
  getOutputImageFolder outputFile +:+ "/overview.png".

(** [getReportId] (lines 218-226) *)
Definition getReportId (project base change : string) : string :=
  let baselineHash6 := substr0 6 base in
  let changeHash6 := substr0 6 change in
  project +:+ "-" +:+ baselineHash6 +:+ "-" +:+ changeHash6.

(** [getReportFilename] (lines 228-230) *)
Definition getReportFilename (reportId : string) : string :=
  reportOutputFolder +:+ "/" +:+ reportId +:+ ".html".

(** The arguments of the R script for reports (lines 189-202). *)
Definition reportArgs (base change outputFile : string)
    (dbConfig : DatabaseConfig) (extraCmd : string) : list string :=
  [robustPath "views/somns.R"; outputFile; getOutputImageFolder outputFile;
   robustPath "views/"; reportsUrl; base; change;
   database dbConfig; user dbConfig; password dbConfig; extraCmd].

(** [startReportGeneration] (lines 182-208) *)
Definition startReportGeneration (base change outputFile : string)
    (dbConfig : DatabaseConfig) (extraCmd : string) (w : World)
    : nat * World :=
  let args := reportArgs base change outputFile dbConfig extraCmd in
  let cmd := "Rscript" in
  let w :=
    emit (EvLog ("Generate Report: " +:+ cmd +:+ " '" +:+ join "' '" args
                 +:+ "'")) w in
  execFile cmd args (Some reportOutputFolder) w.

(** [rmSync(dir, { recursive: true, force: true })] on the files. *)
Definition removeTree (dir : string) (fs : JsMap.t string) : JsMap.t string :=
  filter (λ kv, kv.1 ≠ dir ∧ startsWith (dir +:+ "/") kv.1 = false) fs.

(** [dashDeleteOldReport] (lines 232-247) *)
Definition dashDeleteOldReport (project base change : string) (w : World)
    : World :=
  let reportId := getReportId project base change in
  let reportFilename := getReportFilename reportId in
  if JsMap.has reportFilename (files w) then
    let w := emit (EvUnlink reportFilename)
               (withFiles (delete reportFilename (files w)) w) in
    let folder := getOutputImageFolder reportFilename in
    let w := emit (EvRemoveTree folder)
               (withFiles (removeTree folder (files w)) w) in
    withReportGeneration (delete reportId (reportGeneration w)) w
  else w.

(** [dashCompare] (lines 249-346) from the answer [revDetails] of
    [db.revisionsExistInProject] on: from there the function runs to its
    end without a further [await].  [now] is what [new Date()] gives,
    [start] what [startRequest()] gives. *)
Definition dashCompare (base change project : string)
    (dbConfig : DatabaseConfig) (revDetails : Object) (now : string)
    (start : Z) (w : World) : Object * World :=
  let baselineHash6 := substr0 6 base in
  let changeHash6 := substr0 6 change in
  let reportId := getReportId project base change in
  let '(resolved, w) := newHandle w in
  let data : Object :=
    [("project", Str project); ("baselineHash", Str base);
     ("changeHash", Str change); ("baselineHash6", Str baselineHash6);
     ("changeHash6", Str changeHash6); ("reportId", Str reportId);
     ("completionPromise", Handle resolved)] in
  if negb (truthy (prop revDetails "dataFound")) then
    let data := JsMap.set "generationFailed" (Bool true) data in
    let data :=
      JsMap.set "stdout"
        (Str ("The requested project " +:+ project
              +:+ " does not have data " +:+ "on the revisions " +:+ base
              +:+ " and " +:+ change +:+ ".")) data in
    let data := JsMap.set "stderr" (Str "") data in
    let data := JsMap.set "generatingReport" (Bool false) data in
    (data, w)
  else
    let data := assign data revDetails in
    let data := JsMap.set "revDetails" (prop revDetails "dataFound") data in
    let reportFile := getReportFilename reportId in
    match JsMap.get reportFile (files w) with
    | Some content =>
        let data := JsMap.set "report" (Str content) data in
        let data := JsMap.set "generatingReport" (Bool false) data in
        (data, w)
    | None =>
        let data := JsMap.set "report" Undefined data in
        let data := JsMap.set "currentTime" (Str now) data in
        match JsMap.get reportId (reportGeneration w) with
        | None =>
            let data := JsMap.set "generatingReport" (Bool true) data in
            let w :=
              withReportGeneration
                (JsMap.set reportId [("inProgress", Bool true)]
                           (reportGeneration w)) w in
            let '(p, w) :=
              startReportGeneration base change (reportId +:+ ".html")
                dbConfig "" w in
            let w := chain p (ReportScript reportId start) w in
            let '(_, w) := newHandle w in
            let '(pp, w) := newHandle w in
            let data := JsMap.set "completionPromise" (Handle pp) data in
            (data, w)
        | Some prevGenerationDetails =>
            if truthy (prop prevGenerationDetails "error") then
              let data := JsMap.set "generationFailed" (Bool true) data in
              let data :=
                JsMap.set "stdout" (prop prevGenerationDetails "stdout") data in
              let data :=
                JsMap.set "stderr" (prop prevGenerationDetails "stderr") data in
              let data := JsMap.set "generatingReport" (Bool false) data in
              (data, w)
            else
              let data := JsMap.set "generatingReport" (Bool true) data in
              (data, w)
        end
    end.

(** The handler of lines 314-321 up to its [await]: the R script is done
    with [result]. *)
Definition onGenerated (reportId : string) (start : Z) (result : Object)
    (w : World) : World :=
  let w :=
    withReportGeneration
      (JsMap.set reportId
         [("stdout", prop result "stdout"); ("stderr", prop result "stderr");
          ("inProgress", Bool false)]
         (reportGeneration w)) w in
  emit (EvCompleteRequest start "generate-report") w.

(** The handler of lines 322-332.  It runs when the R script fails, and
    when the handler of lines 314-321 fails; [e] is the reason, an error
    object. *)
Definition onGenerationError (reportId : string) (start : Z) (e : Object)
    (w : World) : World :=
  let stdout := prop e "stdout" in
  let stderr := prop e "stderr" in
  let w := emit (EvError "Report generation error: " e) w in
  let w :=
    withReportGeneration
      (JsMap.set reportId
         [("e", Obj e); ("stdout", stdout); ("stderr", stderr);
          ("inProgress", Bool false)]
         (reportGeneration w)) w in
  emit (EvCompleteRequest start "generate-report") w.

(** The name of the data of an experiment (line 388) and its file
    (line 389). *)
Definition expDataIdOf (project : Value) (expId : Z) : string :=
  toStr project +:+ "-" +:+ pretty expId.

Definition expDataFileOf (expDataId : string) : string :=
  dirname +:+ "/../../resources/exp-data/" +:+ expDataId +:+ ".qs".

(** The R script for the data of an experiment (line 423). *)
Definition expDataScript : string :=
  dirname +:+ "/../../src/stats/get-exp-data.R".

(** What [dashGetExpData] makes of the answer [result] of its query
    (lines 371-386): [None] is a falsy answer, [Some rows] one with these
    rows. *)
Definition experimentOf (result : option (list Object)) : Object :=
  match result with
  | Some [row] =>
      [("project", prop row "pname"); ("expName", prop row "expname");
       ("expDesc", prop row "expDesc"); ("projectId", prop row "pid");
       ("projectDesc", prop row "pdesc")]
  | _ =>
      [("project", Str ""); ("generationFailed", Bool true);
       ("stdout", Str "Experiment was not found")]
  end.

(** The arguments of the R script for experiment data (lines 405-412). *)
Definition expDataArgs (expId : Z) (dbConfig : DatabaseConfig)
    (expDataFile : string) : list string :=
  [pretty expId; dirname +:+ "/../../src/views/"; user dbConfig;
   password dbConfig; database dbConfig; expDataFile].

(** [dashGetExpData] (lines 350-454) from the answer [result] of the query
    on: from there the function runs to its end without a further
    [await]. *)
Definition dashGetExpData (expId : Z) (dbConfig : DatabaseConfig)
    (result : option (list Object)) (now : string) (start : Z) (w : World)
    : Object * World :=
  let data : Object := experimentOf result in
  let expDataId := expDataIdOf (prop data "project") expId in
  let expDataFile := expDataFileOf expDataId in
  if JsMap.has expDataFile (files w) then
    let data := JsMap.set "preparingData" (Bool false) data in
    let data :=
      JsMap.set "downloadUrl"
        (Str (staticUrl +:+ "/exp-data/" +:+ expDataId +:+ ".qs")) data in
    (data, w)
  else
    let data := JsMap.set "currentTime" (Str now) data in
    match JsMap.get expDataId (expDataPreparation w) with
    | None =>
        let data := JsMap.set "preparingData" (Bool true) data in
        let args := expDataArgs expId dbConfig expDataFile in
        let w :=
          emit (EvLog ("Prepare Data for Download:" +:+ expDataScript
                       +:+ " " +:+ join " " args)) w in
        let w :=
          withExpDataPreparation
            (JsMap.set expDataId [("inProgress", Bool true)]
                       (expDataPreparation w)) w in
        let '(p, w) := execFile expDataScript args None w in
        let w := chain p (ExpDataScript expDataId start) w in
        let '(_, w) := newHandle w in
        let '(_, w) := newHandle w in
        let '(_, w) := newHandle w in
        (data, w)
    | Some prevPrepDetails =>
        if truthy (prop prevPrepDetails "error") then
          let data := JsMap.set "generationFailed" (Bool true) data in
          let data := JsMap.set "stdout" (prop prevPrepDetails "stdout") data in
          let data := JsMap.set "stderr" (prop prevPrepDetails "stderr") data in
          let data := JsMap.set "preparingData" (Bool false) data in
          (data, w)
        else
          let data := JsMap.set "preparingData" (Bool true) data in
          (data, w)
    end.

(** What the route [/rebenchdb/get-exp-data/:expId] answers with the data
    of [dashGetExpData]: the page that says that the data is being
    prepared, or a redirect to the download. *)
Inductive Response :=
  | Page (template : string) (data : Object)
  | Redirect (url : Value).

Definition getExpDataRoute (data : Object) : Response :=
  if truthy (prop data "preparingData")
  then Page "get-exp-data.html" data
  else Redirect (prop data "downloadUrl").

(** The handler of lines 424-431 up to its [await]. *)
Definition onPrepared (expDataId : string) (start : Z) (output : Object)
    (w : World) : World :=
  let w :=
    withExpDataPreparation
      (JsMap.set expDataId
         [("stdout", prop output "stdout"); ("stderr", prop output "stderr");
          ("inProgress", Bool false)]
         (expDataPreparation w)) w in
  emit (EvCompleteRequest start "prep-exp-data") w.

(** The handler of lines 432-440; [error] is the reason, an error
    object. *)
Definition onPreparationError (expDataId : string) (error : Object)
    (w : World) : World :=
  let w := emit (EvError "Data preparation failed: " error) w in
  withExpDataPreparation
    (JsMap.set expDataId
       [("error", Obj error); ("stdout", prop error "stdout");
        ("stderr", prop error "stderr"); ("inProgress", Bool false)]
       (expDataPreparation w)) w.

(** The handler of line 441, which runs at the end in either case. *)
Definition onPreparationEnd (start : Z) (w : World) : World :=
  emit (EvCompleteRequest start "prep-exp-data") w.

(** What happens to the dashboard, in order: calls of its functions, the
    ends of the R scripts, the ends of the calls of [completeRequest] that
    the handlers of lines 314-321 and 424-431 wait for, and files that
    others write (the R scripts among them). *)
Inductive Op :=
  | Compare (base change project : string) (dbConfig : DatabaseConfig)
            (revDetails : Object) (now : string) (start : Z)
  | GetExpData (expId : Z) (dbConfig : DatabaseConfig)
               (result : option (list Object)) (now : string) (start : Z)
  | DeleteOldReport (project base change : string)
  | ScriptDone (p : nat) (result : Object)
  | ScriptFailed (p : nat) (e : Object)
  | RequestCompleted (p : nat)
  | RequestFailed (p : nat) (e : Object)
  | FileWritten (path content : string).

Definition step (op : Op) (w : World) : World :=
  match op with
  | Compare base change project dbConfig revDetails now start =>
      (dashCompare base change project dbConfig revDetails now start w).2
  | GetExpData expId dbConfig result now start =>
      (dashGetExpData expId dbConfig result now start w).2
  | DeleteOldReport project base change =>
      dashDeleteOldReport project base change w
  | ScriptDone p result =>
      match childOf p w with
      | Some (ReportScript reportId start) =>
          onGenerated reportId start result
            (await p (ReportCompleting reportId start) w)
      | Some (ExpDataScript expDataId start) =>
          onPrepared expDataId start result
            (await p (ExpDataCompleting expDataId start) w)
      | _ => w
      end
  | ScriptFailed p e =>
      match childOf p w with
      | Some (ReportScript reportId start) =>
          onGenerationError reportId start e (settle p w)
      | Some (ExpDataScript expDataId start) =>
          onPreparationEnd start (onPreparationError expDataId e (settle p w))
      | _ => w
      end
  | RequestCompleted p =>
      match childOf p w with
      | Some (ReportCompleting reportId start) => settle p w
      | Some (ExpDataCompleting expDataId start) =>
          onPreparationEnd start (settle p w)
      | _ => w
      end
  | RequestFailed p e =>
      match childOf p w with
      | Some (ReportCompleting reportId start) =>
          onGenerationError reportId start e (settle p w)
      | Some (ExpDataCompleting expDataId start) =>
          onPreparationEnd start (onPreparationError expDataId e (settle p w))
      | _ => w
      end
  | FileWritten path content =>
      withFiles (JsMap.set path content (files w)) w
  end.

Definition run (ops : list Op) (w : World) : World :=
  foldl (λ w op, step op w) w ops.

(** The world when the module is loaded, with the files on disk. *)
Definition loaded (fs : JsMap.t string) : World := mkWorld [] [] fs [] 0 [].

(** A call of the R script for reports with [outputFile] as output. *)
Definition isGeneration (outputFile : string) (e : Event) : bool :=
  match e with
  | EvExecFile cmd args _ =>
      bool_decide (cmd = "Rscript" ∧ args !! 1%nat = Some outputFile)
  | _ => false
  end.

Definition generationsOf (outputFile : string) (tr : list Event)
    : list Event :=
  filter (λ e, isGeneration outputFile e = true) tr.

(** A call of the R script for experiment data with [expDataFile] as
    output. *)
Definition isPreparation (expDataFile : string) (e : Event) : bool :=
  match e with
  | EvExecFile cmd args _ =>
      bool_decide (cmd = expDataScript ∧ args !! 5%nat = Some expDataFile)
  | _ => false
  end.

Definition preparationsOf (expDataFile : string) (tr : list Event)
    : list Event :=
  filter (λ e, isPreparation expDataFile e = true) tr.

(** The events that were added. *)
Definition newEvents (before after : World) : list Event :=
  drop (length (events before)) (events after).

(** An op that writes a file. *)
Definition writes (path : string) (op : Op) : bool :=
  match op with
  | FileWritten path' _ => bool_decide (path' = path)
  | _ => false
  end.

(** [dashCompare] starts the R script: there is data, no report file, and
    nothing is recorded for the report. *)
Definition startsGeneration (base change project : string)
    (revDetails : Object) (w : World) : bool :=
  let reportId := getReportId project base change in
  truthy (prop revDetails "dataFound")
  && negb (JsMap.has (getReportFilename reportId) (files w))
  && negb (JsMap.has reportId (reportGeneration w)).

(** [dashGetExpData] starts the R script: there is no data file, and
    nothing is recorded for the data. *)
Definition startsPreparation (expId : Z) (result : option (list Object))
    (w : World) : bool :=
  let expDataId := expDataIdOf (prop (experimentOf result) "project") expId in
  negb (JsMap.has (expDataFileOf expDataId) (files w))
  && negb (JsMap.has expDataId (expDataPreparation w)).

(** A request for the data that goes by the name [expDataId]. *)
Definition asksFor (expDataId : string) (op : Op) : bool :=
  match op with
  | GetExpData expId _ result _ _ =>
      bool_decide
        (expDataIdOf (prop (experimentOf result) "project") expId = expDataId)
  | _ => false
  end.

(** No entry of [reportGeneration] has a property [error]. *)
Definition noErrorProperty (w : World) : Prop :=
  ∀ k entry, (k, entry) ∈ reportGeneration w → JsMap.get "error" entry = None.

(** A handler that waits for the data of an experiment. *)
Definition waitsForExpData (expDataId : string) (c : Child) : bool :=
  match c with
  | ExpDataScript d _ | ExpDataCompleting d _ => bool_decide (d = expDataId)
  | _ => false
  end.

Definition expDataChildren (expDataId : string) (w : World)
    : list (nat * Child) :=
  filter (λ pc, waitsForExpData expDataId pc.2 = true) (children w).

(** At most one handler waits for the data that goes by a name, the R
    script was started at most once for it, and either leaves an entry. *)
Definition preparedOnce (expDataId : string) (w : World) : Prop :=
  (length (expDataChildren expDataId w) ≤ 1)%nat ∧
  (expDataChildren expDataId w ≠ [] →
   is_Some (JsMap.get expDataId (expDataPreparation w))) ∧
  (length (preparationsOf (expDataFileOf expDataId) (events w)) ≤ 1)%nat ∧
  (preparationsOf (expDataFileOf expDataId) (events w) ≠ [] →
   is_Some (JsMap.get expDataId (expDataPreparation w))).

(** The preparation of data has failed for good: the entry speaks of the
    error, and no handler waits. *)
Definition failedWith (expDataId : string) (error : Object) (w : World)
    : Prop :=
  JsMap.get expDataId (expDataPreparation w)
  = Some [("error", Obj error); ("stdout", prop error "stdout");
          ("stderr", prop error "stderr"); ("inProgress", Bool false)] ∧
  expDataChildren expDataId w = [].

(** The query of [dashGetExpData] found the experiment (line 372). *)
Definition found (result : option (list Object)) : bool :=
  match result with
  | Some [_] => true
  | _ => false
  end.

(** What a step does to [reportGeneration] and to the calls of the R script
    for reports: nothing; or a handler writes an entry without a property
    [error]; or the entry of a report whose file exists is deleted; or the
    script starts for a report without file and entry. *)
Definition reportStep (w w' : World) : Prop :=
  (reportGeneration w' = reportGeneration w ∧
   ∀ f, generationsOf f (events w') = generationsOf f (events w))
  ∨ (∃ reportId entry,
       reportGeneration w' = JsMap.set reportId entry (reportGeneration w) ∧
       JsMap.get "error" entry = None ∧
       ∀ f, generationsOf f (events w') = generationsOf f (events w))
  ∨ (∃ reportId,
       JsMap.has (getReportFilename reportId) (files w) = true ∧
       reportGeneration w' = delete reportId (reportGeneration w) ∧
       ∀ f, generationsOf f (events w') = generationsOf f (events w))
  ∨ (∃ reportId e,
       JsMap.get (getReportFilename reportId) (files w) = None ∧
       JsMap.get reportId (reportGeneration w) = None ∧
       reportGeneration w'
       = JsMap.set reportId [("inProgress", Bool true)] (reportGeneration w) ∧
       ∀ f, generationsOf f (events w')
            = generationsOf f (events w)
              ++ (if decide (f = reportId +:+ ".html") then [e] else [])).

(** What a step does to [expDataPreparation], to the handlers that wait for
    experiment data and to the calls of the R script for experiment data:
    nothing, but that handlers for other things may be gone; or a request
    starts the script for data without an entry; or a handler that waits
    for the data writes its entry or not, and is not followed by more
    handlers than there were. *)
Definition expDataStep (op : Op) (w w' : World) : Prop :=
  (expDataPreparation w' = expDataPreparation w ∧
   (∀ d, sublist (expDataChildren d w') (expDataChildren d w)) ∧
   ∀ f, preparationsOf f (events w') = preparationsOf f (events w))
  ∨ (∃ expDataId pc e,
       asksFor expDataId op = true ∧
       JsMap.get expDataId (expDataPreparation w) = None ∧
       expDataPreparation w'
       = JsMap.set expDataId [("inProgress", Bool true)]
                   (expDataPreparation w) ∧
       (∀ d, expDataChildren d w'
             = expDataChildren d w
               ++ (if decide (d = expDataId) then [pc] else [])) ∧
       ∀ f, preparationsOf f (events w')
            = preparationsOf f (events w)
              ++ (if decide (f = expDataFileOf expDataId) then [e] else []))
  ∨ (∃ expDataId,
       expDataChildren expDataId w ≠ [] ∧
       (expDataPreparation w' = expDataPreparation w
        ∨ ∃ entry, expDataPreparation w'
                   = JsMap.set expDataId entry (expDataPreparation w)) ∧
       (∀ d, d ≠ expDataId →
             sublist (expDataChildren d w') (expDataChildren d w)) ∧
       (length (expDataChildren expDataId w')
        ≤ length (expDataChildren expDataId w))%nat ∧
       ∀ f, preparationsOf f (events w') = preparationsOf f (events w)).

End dashboard.

End Dashboard.

(** ** A dashboard to run *)

Module DashboardSamples.
Import Js.
Import Dashboard.

Definition robustPath (path : string) : string := "/srv/rebenchdb/src/" +:+ path.
Definition reportsUrl : string := "/static/reports".
Definition staticUrl : string := "/static".
Definition dirname : string := "/srv/rebenchdb/src".

Definition dbConfig : DatabaseConfig :=
  {| database := "rdb"; user := "rdb_user"; password := "secret" |}.

(** An answer of [revisionsExistInProject] with data. *)
Definition revDetails : Object :=
  [("dataFound", Bool true); ("base", Str "abcdef0"); ("change", Str "1234567")].

(** The row of an experiment of the project [SOM]. *)
Definition somExperiment : Object :=
  [("expname", Str "nightly"); ("expDesc", Null); ("pid", Num 1);
   ("pname", Str "SOM"); ("pdesc", Str "Simple Object Machine")].

(** The error of an R script that failed. *)
Definition scriptError : Object :=
  [("code", Num 1); ("stdout", Str "Loading data");
   ("stderr", Str "Error in library(qs)")].

Definition compareSom (now : string) (start : Z) : Op :=
  Compare "abcdef0" "1234567" "SOM" dbConfig revDetails now start.

Definition somReport : string :=
  getReportFilename robustPath (getReportId "SOM" "abcdef0" "1234567").

End DashboardSamples.

(** ** The database of the tests ([TestDatabase])

    The class talks to the connection pool, to its client, to the main
    database and to its base class.  These calls are recorded with their
    outcome; whether a call fails is up to the outside, which may decide by
    everything that was called before.  What the base class does inside
    [initializeDatabase] and [clearCache] is not looked at.  A method is a
    function from the object to what it returns or throws and the object
    afterwards; the methods are called one after the other, each awaited. *)

Module TestDb.

(** The calls that leave the class. *)
Inductive Call :=
  | PoolConnect
  | ClientQuery (text : string)
  | ClientRelease
  | PoolEnd
  | InitializeDatabase
  | ClearCache
  | MainQuery (text : string).

(** What a method throws: an [Error] of its own with a message, the
    [TypeError] of a call on [null], or the failure of a call. *)
Inductive Error :=
  | Thrown (message : string)
  | TypeError
  | Rejected (c : Call).

Inductive Outcome (A : Type) :=
  | Returned (a : A)
  | Threw (e : Error).
Arguments Returned {A} a.
Arguments Threw {A} e.

(** The fields of a [TestDatabase]; [connectionPool] and [client] say
    whether the field holds an object ([true]) or [null]. *)
Record t := mk {
  connectionPool : bool;
  client : bool;
  usesTransactions : bool;
  preparedForTesting : bool;
  closingAttempted : bool;
  database : string;
  calls : list (Call * bool)
}.

Definition M (A : Type) : Type := t → Outcome A * t.

Definition ret {A} (a : A) : M A := λ db, (Returned a, db).

Definition bind {A B} (m : M A) (k : A → M B) : M B :=
  λ db, match m db with
        | (Returned a, db') => k a db'
        | (Threw e, db') => (Threw e, db')
        end.

Definition throw {A} (e : Error) : M A := λ db, (Threw e, db).

Definition read {A} (f : t → A) : M A := λ db, (Returned (f db), db).

(** [if (this.field) { yes } else { no }] *)
Definition ifField {A} (field : t → bool) (yes no : M A) : M A :=
  λ db, if field db then yes db else no db.

Definition write (f : t → t) : M unit := λ db, (Returned tt, f db).

(** [try { body } finally { handler }]: the handler runs in either case,
    and what it throws replaces the outcome of the body. *)
Definition tryFinally {A} (body : M A) (handler : M unit) : M A :=
  λ db, let '(r, db1) := body db in
        match handler db1 with
        | (Returned _, db2) => (r, db2)
        | (Threw e, db2) => (Threw e, db2)
        end.

#[global] Instance M_ret : MRet M := @ret.
#[global] Instance M_bind : MBind M := λ A B k m, bind m k.

Definition setClient (b : bool) (db : t) : t :=
  mk (connectionPool db) b (usesTransactions db) (preparedForTesting db)
     (closingAttempted db) (database db) (calls db).

Definition setConnectionPool (b : bool) (db : t) : t :=
  mk b (client db) (usesTransactions db) (preparedForTesting db)
     (closingAttempted db) (database db) (calls db).

Definition setPreparedForTesting (b : bool) (db : t) : t :=
  mk (connectionPool db) (client db) (usesTransactions db) b
     (closingAttempted db) (database db) (calls db).

Definition setClosingAttempted (b : bool) (db : t) : t :=
  mk (connectionPool db) (client db) (usesTransactions db)
     (preparedForTesting db) b (database db) (calls db).

Definition record (c : Call) (ok : bool) (db : t) : t :=
  mk (connectionPool db) (client db) (usesTransactions db)
     (preparedForTesting db) (closingAttempted db) (database db)
     (calls db ++ [(c, ok)]).

Section methods.

(** The outside: whether a call fails, after the calls so far. *)
Variable fails : list (Call * bool) → Call → bool.

(** A call, awaited. *)
Definition call (c : Call) : M unit :=
  λ db, if fails (calls db) c
        then (Threw (Rejected c), record c false db)
        else (Returned tt, record c true db).

(** The constructor (lines 20-30). *)
Definition create (databaseName : string) (useTransactions : bool) : t :=
  mk true false useTransactions false false databaseName [].

(** [query] (lines 32-44) *)
Definition query (text : string) : M unit :=
  ifField client
    (call (ClientQuery text))
    (throw (Thrown ("Database is not yet initialized."
                    +:+ " prepareForTesting() has not been called yet."))).

(** [connectClient] (lines 46-48) *)
Definition connectClient : M unit :=
  ifField connectionPool
    (call PoolConnect;; write (setClient true))
    (throw TypeError).

(** [prepareForTesting] (lines 50-66) *)
Definition prepareForTesting : M unit :=
  ifField preparedForTesting
    (throw (Thrown "This is only to be executed once"))
    (write (setPreparedForTesting true);;
     connectClient;;
     ifField usesTransactions (query "BEGIN") (ret tt);;
     call InitializeDatabase;;
     ifField usesTransactions (query "SAVEPOINT freshDB") (ret tt)).

(** [rollback] (lines 68-74) *)
Definition rollback : M unit :=
  call ClearCache;;
  ifField usesTransactions (query "ROLLBACK TO SAVEPOINT freshDB") (ret tt).

(** The statement of [release] (line 78). *)
Definition dropDatabase (db : t) : Call :=
  MainQuery ("DROP DATABASE IF EXISTS " +:+ database db +:+ ";").

(** [release] (lines 76-80) *)
Definition release : M unit :=
  c ← read dropDatabase; call c.

(** [close] (lines 82-104) *)
Definition close : M unit :=
  ifField closingAttempted
    (throw (Thrown "Already attempted to close"))
    (ifField client
       (write (setClosingAttempted true);;
        tryFinally rollback
          (tryFinally
             (call ClientRelease;;
              write (setClient false);;
              call PoolEnd;;
              write (setConnectionPool false))
             release))
       (throw (Thrown "Client was not connected"))).

(** The calls of the tests, one after the other. *)
Inductive Op :=
  | Query (text : string)
  | ConnectClient
  | PrepareForTesting
  | Rollback
  | Close.

Definition method (op : Op) : M unit :=
  match op with
  | Query text => query text
  | ConnectClient => connectClient
  | PrepareForTesting => prepareForTesting
  | Rollback => rollback
  | Close => close
  end.

Definition run (ops : list Op) (db : t) : t :=
  foldl (λ db op, (method op db).2) db ops.

End methods.

(** The calls that were added. *)
Definition newCalls (before after : t) : list (Call * bool) :=
  drop (length (calls before)) (calls after).

(** A call that drops the database. *)
Definition isDrop (db : t) (cb : Call * bool) : bool :=
  match cb.1 with
  | MainQuery text =>
      bool_decide (text = "DROP DATABASE IF EXISTS " +:+ database db +:+ ";")
  | _ => false
  end.

Definition drops (db : t) (tr : list (Call * bool)) : list (Call * bool) :=
  filter (λ cb, isDrop db cb = true) tr.

(** A call that initialises the database. *)
Definition isInit (cb : Call * bool) : bool :=
  match cb.1 with
  | InitializeDatabase => true
  | _ => false
  end.

Definition inits (tr : list (Call * bool)) : list (Call * bool) :=
  filter (λ cb, isInit cb = true) tr.

(** Every query to the client comes after a call that connected one. *)
Definition queriesAfterConnect (tr : list (Call * bool)) : Prop :=
  ∀ pre text ok post,
    tr = pre ++ (ClientQuery text, ok) :: post → (PoolConnect, true) ∈ pre.

(** What holds of a [TestDatabase] between the calls of its methods. *)
Definition sound (name : string) (db : t) : Prop :=
  database db = name ∧
  (client db = true → (PoolConnect, true) ∈ calls db) ∧
  queriesAfterConnect (calls db) ∧
  (drops db (calls db) ≠ [] → closingAttempted db = true) ∧
  (length (drops db (calls db)) ≤ 1)%nat ∧
  (inits (calls db) ≠ [] → preparedForTesting db = true) ∧
  (length (inits (calls db)) ≤ 1)%nat.

(** A call that is no query to the client, no drop and no
    initialisation. *)
Definition plain (c : Call) : Prop :=
  c = PoolConnect ∨ c = ClientRelease ∨ c = PoolEnd ∨ c = ClearCache.

(** The object while [close] runs: marked, and nothing dropped yet. *)
Definition closing (name : string) (db : t) : Prop :=
  sound name db ∧ closingAttempted db = true ∧ drops db (calls db) = [].

(** The object while [prepareForTesting] runs: marked, and not
    initialised yet. *)
Definition preparing (name : string) (db : t) : Prop :=
  sound name db ∧ preparedForTesting db = true ∧ inits (calls db) = [].

(** [P] before a method gives [Q] after it when it returns, and [E] when
    it throws. *)
Definition triple {A} (P : t → Prop) (m : M A) (Q E : t → Prop) : Prop :=
  ∀ db, P db →
    match (m db).1 with
    | Returned _ => Q (m db).2
    | Threw _ => E (m db).2
    end.

(** A query that went to the client. *)
Definition isClientQuery (cb : Call * bool) : bool :=
  match cb.1 with
  | ClientQuery _ => true
  | _ => false
  end.

End TestDb.

(** ** A database of the tests to run *)

Module TestDbSamples.
Import TestDb.

(** The release of the client fails, everything else works. *)
Definition releaseFails (tr : list (Call * bool)) (c : Call) : bool :=
  match c with
  | ClientRelease => true
  | _ => false
  end.

(** A database with transactions that was prepared for testing. *)
Definition preparedDb : t :=
  run releaseFails [PrepareForTesting] (create "test_rdb4_views" true).

End TestDbSamples.

(** ** The plot of a timeline ([renderTimelinePlot] of [views/plots.ts]) *)

Module Plots.
Import Js.













End Plots.
(** ** Facts about [JsMap] *)

Module JsMapFacts.
Import JsMap.

Section lemmas.
Context {V : Type}.
Implicit Types (m : t V) (k : string) (v : V).

Lemma get_set_eq k v m : get k (set k v m) = Some v.
Proof.
  induction m as [|[k' v'] m IH]; simpl.
  - by rewrite decide_True.
  - destruct (decide (k = k')) as [->|Hne]; simpl.
    + by rewrite decide_True.
    + by rewrite decide_False.
Qed.

Lemma get_set_ne k k' v m : k ≠ k' → get k' (set k v m) = get k' m.
Proof.
  intros Hne. induction m as [|[k0 v0] m IH]; simpl.
  - by rewrite decide_False.
  - destruct (decide (k = k0)) as [->|Hne0]; simpl.
    + by rewrite !decide_False.
    + by rewrite IH.
Qed.

Lemma get_None_keys k m : get k m = None ↔ k ∉ keys m.
Proof.
  unfold keys. induction m as [|[k' v'] m IH]; simpl.
  - split; [intros _; apply not_elem_of_nil|done].
  - rewrite not_elem_of_cons. destruct (decide (k = k')) as [->|Hne].
    + split; [done|]. by intros [? _].
    + rewrite IH. tauto.
Qed.

Lemma get_Some_elem k v m : get k m = Some v → (k, v) ∈ m.
Proof.
  induction m as [|[k' v'] m IH]; simpl; [done|].
  destruct (decide (k = k')) as [->|Hne].
  - intros [= ->]. apply list_elem_of_here.
  - intros H. apply list_elem_of_further. auto.
Qed.

Lemma elem_get_NoDup k v m : NoDup (keys m) → (k, v) ∈ m → get k m = Some v.
Proof.
  unfold keys. induction m as [|[k' v'] m IH]; simpl.
  - intros _ H. by apply elem_of_nil in H.
  - rewrite NoDup_cons. intros [Hnotin Hnd] Hin.
    apply elem_of_cons in Hin as [[= -> ->]|Hin].
    + by rewrite decide_True.
    + rewrite decide_False; [by apply IH|].
      intros ->. apply Hnotin.
      change k' with ((k', v).1). by apply list_elem_of_fmap_2.
Qed.

Lemma keys_set_in k v m : k ∈ keys m → keys (set k v m) = keys m.
Proof.
  unfold keys. induction m as [|[k' v'] m IH]; simpl.
  - intros H. by apply elem_of_nil in H.
  - intros Hin. destruct (decide (k = k')) as [->|Hne]; simpl; [done|].
    f_equal. apply IH. apply elem_of_cons in Hin as [?|?]; done.
Qed.

Lemma keys_set_notin k v m : k ∉ keys m → keys (set k v m) = keys m ++ [k].
Proof.
  unfold keys. induction m as [|[k' v'] m IH]; simpl; [done|].
  rewrite not_elem_of_cons. intros [Hne Hnotin].
  rewrite decide_False by done. simpl. f_equal. by apply IH.
Qed.

Lemma set_notin k v m : k ∉ keys m → set k v m = m ++ [(k, v)].
Proof.
  unfold keys. induction m as [|[k' v'] m IH]; simpl; [done|].
  rewrite not_elem_of_cons. intros [Hne Hnotin].
  rewrite decide_False by done. f_equal. by apply IH.
Qed.

Lemma NoDup_keys_set k v m : NoDup (keys m) → NoDup (keys (set k v m)).
Proof.
  intros Hnd. destruct (decide (k ∈ keys m)) as [Hin|Hnotin].
  - by rewrite keys_set_in.
  - rewrite keys_set_notin by done.
    apply NoDup_app. split_and!; [done| |apply NoDup_singleton].
    intros x Hx Hx'. apply list_elem_of_singleton in Hx' as ->. done.
Qed.

Lemma elem_set k v k' v' m :
  (k', v') ∈ set k v m → (k' = k ∧ v' = v) ∨ (k', v') ∈ m.
Proof.
  induction m as [|[k0 v0] m IH]; simpl.
  - intros H. apply list_elem_of_singleton in H as [= -> ->]. by left.
  - destruct (decide (k = k0)) as [->|Hne]; intros H;
      apply elem_of_cons in H as [[= -> ->]|H].
    + by left.
    + right. by apply list_elem_of_further.
    + right. apply list_elem_of_here.
    + destruct (IH H) as [?|?]; [by left|right].
      by apply list_elem_of_further.
Qed.

Lemma set_set k v v' m : set k v (set k v' m) = set k v m.
Proof.
  induction m as [|[k0 v0] m IH]; simpl.
  - by rewrite decide_True.
  - destruct (decide (k = k0)) as [->|Hne]; simpl.
    + by rewrite decide_True.
    + rewrite decide_False by done. by rewrite IH.
Qed.

Lemma elem_of_keys_set k k' v m : k' ∈ keys (set k v m) ↔ k' ∈ keys m ∨ k' = k.
Proof.
  destruct (decide (k ∈ keys m)) as [Hin|Hnotin].
  - rewrite keys_set_in by done. split; [auto|]. by intros [?| ->].
  - rewrite keys_set_notin by done. rewrite elem_of_app, list_elem_of_singleton.
    done.
Qed.

(** [new Map(entries)] of duplicate-free entries lists them as given. *)
Lemma of_entries_NoDup (es : list (string * V)) :
  NoDup es.*1 → of_entries es = es.
Proof.
  unfold of_entries.
  cut (∀ acc : t V, NoDup (acc ++ es).*1 →
         foldl (λ m e, set e.1 e.2 m) acc es = acc ++ es).
  { intros H Hnd. by apply (H []). }
  induction es as [|[k v] es IH]; intros acc Hnd; simpl.
  - by rewrite app_nil_r.
  - rewrite set_notin.
    + rewrite IH; rewrite <-app_assoc; done.
    + rewrite fmap_app, NoDup_app in Hnd. destruct Hnd as (_ & Hd & _).
      intros Hin. apply (Hd k Hin). simpl. apply list_elem_of_here.
Qed.

End lemmas.

End JsMapFacts.

(** ** Facts about the timeline engine *)

Module TimelineFacts.
Import Timeline.
Import BatchingTimelineUpdater.

(** *** The job key is injective *)

Lemma is_digit_pretty_N_char n : is_digit (pretty_N_char n) = true.
Proof. unfold pretty_N_char. by repeat case_match. Qed.

Lemma append_nil (s : string) : "" +:+ s = s.
Proof. reflexivity. Qed.

Lemma append_cons c (s1 s2 : string) :
  String c s1 +:+ s2 = String c (s1 +:+ s2).
Proof. reflexivity. Qed.

Lemma append_nil_r (s : string) : s +:+ "" = s.
Proof.
  induction s as [|c s IH]; [done|]. by rewrite append_cons, IH.
Qed.

Lemma string_app_assoc (s1 s2 s3 : string) :
  (s1 +:+ s2) +:+ s3 = s1 +:+ (s2 +:+ s3).
Proof.
  induction s1 as [|c s1 IH]; [done|]. by rewrite !append_cons, IH.
Qed.

Lemma all_digits_app s1 s2 :
  all_digits (s1 +:+ s2) = all_digits s1 && all_digits s2.
Proof.
  induction s1 as [|c s1 IH]; [done|].
  rewrite append_cons. simpl. by rewrite IH, andb_assoc.
Qed.

Lemma pretty_N_go_digits x s :
  ∃ ds, pretty_N_go x s = ds +:+ s ∧ all_digits ds = true
        ∧ ((0 < x)%N → ds ≠ EmptyString).
Proof.
  revert s. induction (N.lt_wf_0 x) as [x _ IH]; intros s.
  destruct (decide (x = 0%N)) as [->|Hx].
  - exists EmptyString. rewrite pretty_N_go_0. split_and!; [done..|lia].
  - rewrite pretty_N_go_step by lia.
    destruct (IH (x `div` 10)%N) with (s := String (pretty_N_char (x `mod` 10)) s)
      as (ds & -> & Hds & _).
    { apply N.div_lt; lia. }
    exists (ds +:+ String (pretty_N_char (x `mod` 10)) EmptyString).
    split_and!.
    + by rewrite string_app_assoc.
    + rewrite all_digits_app, Hds. simpl.
      by rewrite is_digit_pretty_N_char.
    + intros _. by destruct ds.
Qed.

Lemma pretty_N_digits (x : N) :
  all_digits (pretty x) = true ∧ pretty x ≠ EmptyString.
Proof.
  unfold pretty, pretty_N. case_decide as Hx; [done|].
  destruct (pretty_N_go_digits x EmptyString) as (ds & -> & Hds & Hne).
  rewrite append_nil_r. split; [done|]. apply Hne. lia.
Qed.

Lemma span_digits_app ds r :
  all_digits ds = true →
  (∀ c r', r = String c r' → is_digit c = false) →
  span_digits (ds +:+ r) = (ds, r).
Proof.
  intros Hds Hr. induction ds as [|c ds IH].
  - rewrite append_nil. destruct r as [|c r']; simpl; [done|].
    by rewrite (Hr c r').
  - simpl in Hds. apply andb_prop in Hds as [Hc Hds].
    rewrite append_cons. simpl. by rewrite Hc, IH.
Qed.

Lemma readInt_pretty (z : Z) r :
  readInt (pretty z +:+ String "-" r) = (pretty z, String "-" r).
Proof.
  assert (∀ c r', String "-"%char r = String c r' → is_digit c = false) as Hdash.
  { by intros c r' [= <- _]. }
  assert (∀ x : N, readInt (pretty x +:+ String "-" r)
                   = (pretty x, String "-" r)) as HN.
  { intros x. destruct (pretty_N_digits x) as [Hds Hne].
    destruct (pretty x) as [|c s] eqn:E; [done|].
    pose proof (span_digits_app (String c s) (String "-" r) Hds Hdash) as Hsp.
    simpl in Hds. apply andb_prop in Hds as [Hc Hds].
    rewrite append_cons in *. unfold readInt. rewrite Hsp.
    destruct c as [[] [] [] [] [] [] [] []]; done. }
  destruct z as [|p|p].
  - done.
  - apply (HN (Npos p)).
  - change (pretty (Z.neg p)) with ("-" +:+ pretty (Npos p)).
    destruct (pretty_N_digits (Npos p)) as [Hds _].
    rewrite string_app_assoc.
    change ("-" +:+ ?s) with (String "-"%char s).
    unfold readInt. by rewrite span_digits_app.
Qed.

Lemma jobId_inj t r c t' r' c' :
  jobId t r c = jobId t' r' c' → t = t' ∧ r = r' ∧ c = c'.
Proof.
  unfold jobId. intros Heq.
  change ("-" +:+ ?s) with (String "-"%char s) in Heq.
  pose proof (f_equal readInt Heq) as H1.
  rewrite !readInt_pretty in H1. injection H1 as Ht Hrest.
  apply (inj pretty) in Ht.
  change ("-" +:+ ?s) with (String "-"%char s) in Hrest.
  pose proof (f_equal readInt Hrest) as H2.
  rewrite !readInt_pretty in H2. injection H2 as Hr Hc.
  apply (inj pretty) in Hr. apply (inj pretty) in Hc. done.
Qed.

(** *** [addValues] and the pending-job table *)

Lemma pushNotNull_spec data values :
  pushNotNull data values = data ++ filterNotNull values.
Proof.
  unfold pushNotNull, filterNotNull. revert data.
  induction values as [|[x|] values IH]; intros data; simpl.
  - by rewrite app_nil_r.
  - rewrite IH. by rewrite <-app_assoc.
  - apply IH.
Qed.

Lemma has_get {V} k (m : JsMap.t V) :
  JsMap.has k m = bool_decide (is_Some (JsMap.get k m)).
Proof.
  unfold JsMap.has. destruct (JsMap.get k m).
  - by rewrite bool_decide_eq_true_2.
  - rewrite bool_decide_eq_false_2; [done|]. by intros [? ?].
Qed.

(** What [addValues] does to the entry of its own key. *)
Lemma addValues_get_same r t c values u :
  JsMap.get (jobId t r c) (requests (addValues r t c values u)) =
  match JsMap.get (jobId t r c) (requests u) with
  | Some job =>
      Some (Build_ComputeJob (runId job) (trialId job) (criterion job)
              (dataForCriterion job ++ filterNotNull values))
  | None =>
      if decide (filterNotNull values = []) then None
      else Some (Build_ComputeJob r t c (filterNotNull values))
  end.
Proof.
  unfold addValues, JsMap.has.
  destruct (JsMap.get (jobId t r c) (requests u)) as [job|] eqn:Hget; simpl.
  - by rewrite JsMapFacts.get_set_eq, pushNotNull_spec.
  - destruct (filterNotNull values) as [|x xs] eqn:Hf; simpl.
    + by rewrite Hget.
    + by rewrite JsMapFacts.get_set_eq.
Qed.

(** The entries of the other keys are not touched. *)
Lemma addValues_get_other r t c values u k :
  k ≠ jobId t r c →
  JsMap.get k (requests (addValues r t c values u)) = JsMap.get k (requests u).
Proof.
  intros Hne. unfold addValues, JsMap.has.
  destruct (JsMap.get (jobId t r c) (requests u)) as [job|] eqn:Hget; simpl.
  - by rewrite JsMapFacts.get_set_ne.
  - destruct (decide _); simpl; [done|]. by rewrite JsMapFacts.get_set_ne.
Qed.

Lemma tableOk_empty : tableOk JsMap.empty.
Proof.
  split; [apply NoDup_nil_2|]. intros k job Hin. by apply elem_of_nil in Hin.
Qed.

Lemma tableOk_set k job m :
  tableOk m →
  k = jobId (trialId job) (runId job) (criterion job) →
  dataForCriterion job ≠ [] →
  tableOk (JsMap.set k job m).
Proof.
  intros [Hnd Hall] Hk Hdata. split; [by apply JsMapFacts.NoDup_keys_set|].
  intros k' job' Hin. apply JsMapFacts.elem_set in Hin as [[-> ->]|Hin]; auto.
Qed.

Lemma addValues_tableOk r t c values u :
  tableOk (requests u) → tableOk (requests (addValues r t c values u)).
Proof.
  intros Hok. unfold addValues, JsMap.has.
  destruct (JsMap.get (jobId t r c) (requests u)) as [job|] eqn:Hget; simpl.
  - apply JsMapFacts.get_Some_elem in Hget.
    destruct Hok as [Hnd Hall]. destruct (Hall _ _ Hget) as [Hk Hdata].
    apply tableOk_set; [done|done|]. simpl.
    rewrite pushNotNull_spec. by destruct (dataForCriterion job).
  - destruct (decide _) as [|Hne]; simpl; [done|].
    apply tableOk_set; [done|done|]. simpl.
    by destruct (filterNotNull values).
Qed.

Lemma valuesFor_cons r t c call calls :
  valuesFor r t c (call :: calls) =
  if callFor r t c call
  then filterNotNull (callValues call) ++ valuesFor r t c calls
  else valuesFor r t c calls.
Proof.
  unfold valuesFor. rewrite filter_cons.
  destruct (callFor r t c call); by case_decide.
Qed.

Section with_db.
Context {Db : Type} `{!Database Db}.
Implicit Types (env : Env Db) (u : t) (st : State Db).

(** The [async] methods that return a promise: the body, and then the
    promise of the call as a new cell of the heap. *)
Lemma processUpdateJobsForBenchmarking_unfold jobs start st :
  processUpdateJobsForBenchmarking jobs start st
  = ((processUpdateJobs jobs start st).1.1,
     mkEnv (db (processUpdateJobs jobs start st).1.2)
           (heap (processUpdateJobs jobs start st).1.2
            ++ [Some (Promise.VPromise (processUpdateJobs jobs start st).2)])
           (trace (processUpdateJobs jobs start st).1.2),
     length (heap (processUpdateJobs jobs start st).1.2)).
Proof.
  unfold processUpdateJobsForBenchmarking.
  by destruct (processUpdateJobs jobs start st) as [[u env] p].
Qed.

Lemma worker_shutdown_unfold (w : TimelineWorker.t) env :
  TimelineWorker.shutdown w env
  = ((TimelineWorker.shutdownBody w env).1.1,
     mkEnv (db (TimelineWorker.shutdownBody w env).1.2)
           (heap (TimelineWorker.shutdownBody w env).1.2
            ++ [Some (Promise.VPromise (TimelineWorker.shutdownBody w env).2)])
           (trace (TimelineWorker.shutdownBody w env).1.2),
     length (heap (TimelineWorker.shutdownBody w env).1.2)).
Proof.
  unfold TimelineWorker.shutdown.
  by destruct (TimelineWorker.shutdownBody w env) as [[w' env'] p].
Qed.

Lemma shutdown_unfold u env :
  shutdown (u, env)
  = (mk (TimelineWorker.shutdownBody (worker u) env).1.1 (requests u)
        (activeRequests u) (requestsAtStart u) (promise u)
        (resolveJobsPromiseWithNumberOfJobs u),
     mkEnv (db (TimelineWorker.shutdownBody (worker u) env).1.2)
           (heap (TimelineWorker.shutdownBody (worker u) env).1.2
            ++ [Some (Promise.VPromise
                        (TimelineWorker.shutdownBody (worker u) env).2);
                Some (Promise.VPromise
                        (length
                           (heap (TimelineWorker.shutdownBody (worker u) env).1.2)))])
           (trace (TimelineWorker.shutdownBody (worker u) env).1.2),
     S (length (heap (TimelineWorker.shutdownBody (worker u) env).1.2))).
Proof.
  unfold shutdown. rewrite worker_shutdown_unfold.
  destruct (TimelineWorker.shutdownBody (worker u) env) as [[w' env'] p].
  cbn [fst snd Promise.async Promise.resolved heap db trace].
  by rewrite length_app, <-app_assoc, Nat.add_1_r.
Qed.

(** What the persistence loop does: it leaves the heap alone and adds
    one successful call per result, up to the first rejected one. *)
Lemma recordAll_spec rs env :
  let '(env', c) := recordAll rs env in
  heap env' = heap env ∧
  ((c = Returned ∧ trace env' = trace env ++ (succeeded <$> rs))
   ∨ (c = Threw ∧ ∃ accepted failed rest,
         rs = accepted ++ failed :: rest ∧
         trace env' = trace env ++ (succeeded <$> accepted)
                                 ++ [EvRecordTimeline failed false])).
Proof.
  revert env. induction rs as [|r rs IH]; intros env; simpl.
  - split; [done|]. left. by rewrite app_nil_r.
  - destruct (recordTimeline _ _ _ _ _) as [db' ok] eqn:Hrec.
    destruct ok.
    + specialize (IH (emit (EvRecordTimeline r true)
                           (mkEnv db' (heap env) (trace env)))).
      destruct (recordAll rs _) as [env' c].
      destruct IH as [Hheap IH]. split; [done|].
      destruct IH as [[-> Htr]|[-> (accepted & failed & rest & -> & Htr)]].
      * left. split; [done|]. rewrite Htr. simpl. by rewrite <-app_assoc.
      * right. split; [done|]. exists (r :: accepted), failed, rest.
        split; [done|]. rewrite Htr. simpl. by rewrite <-!app_assoc.
    + split; [done|]. right. split; [done|].
      exists [], r, rs. by split.
Qed.



Lemma resolveCalls_app tr1 tr2 :
  resolveCalls (tr1 ++ tr2) = resolveCalls tr1 ++ resolveCalls tr2.
Proof. apply omap_app. Qed.

Lemma resolveCalls_succeeded rs : resolveCalls (succeeded <$> rs) = [].
Proof. by induction rs. Qed.

Lemma postedMessages_app tr1 tr2 :
  postedMessages (tr1 ++ tr2) = postedMessages tr1 ++ postedMessages tr2.
Proof. apply omap_app. Qed.

Lemma postedMessages_succeeded rs : postedMessages (succeeded <$> rs) = [].
Proof. by induction rs. Qed.

Lemma no_failed_call_in_succeeded x (rs : list ComputeResult) :
  EvRecordTimeline x false ∉ (succeeded <$> rs).
Proof. rewrite list_elem_of_fmap. by intros (? & [=] & _). Qed.

(** [receiveResults] by cases: either a call is rejected and only the trace
    and the database move, or all calls are accepted, the counter is
    decremented, and a promise is settled if [completes] names one. *)
Lemma receiveResults_cases r u env :
  (∃ env' accepted failed rest,
      receiveResults r (u, env) = (u, env', Threw) ∧
      results r = accepted ++ failed :: rest ∧
      heap env' = heap env ∧
      trace env' = trace env ++ (succeeded <$> accepted)
                              ++ [EvRecordTimeline failed false])
  ∨
  (∃ env1,
      heap env1 = heap env ∧
      trace env1 = trace env ++ (succeeded <$> results r) ∧
      receiveResults r (u, env) =
        let active := activeRequests u - Z.of_nat (length (results r)) in
        match completes r u with
        | Some p =>
            let v := Promise.VNum (requestsAtStart u) in
            (mk (worker u) (requests u) active (requestsAtStart u) (promise u)
                None,
             mkEnv (db env1) (Promise.resolve p v (heap env1))
                   (trace env1
                    ++ [EvResolve p v;
                        EvCompleteRequest (resRequestStart r)
                                          "generate-timeline"]),
             Returned)
        | None =>
            (mk (worker u) (requests u) active (requestsAtStart u) (promise u)
                (resolveJobsPromiseWithNumberOfJobs u),
             env1, Returned)
        end).
Proof.
  unfold receiveResults, completes.
  pose proof (recordAll_spec (results r) env) as Hspec.
  destruct (recordAll (results r) env) as [env1 c].
  destruct Hspec as [Hheap [[-> Htr]|[-> (accepted & failed & rest & Hrs & Htr)]]].
  - right. exists env1. split_and!; [done..|].
    simpl. repeat case_match; simplify_eq/=; try done.
    unfold emit. simpl. by rewrite <-app_assoc.
  - left. by exists env1, accepted, failed, rest.
Qed.

Lemma finalState_cons st h (hist : list (State Db * Completion)) :
  finalState st (h :: hist) = finalState h.1 hist.
Proof. unfold finalState. rewrite last_cons. by destruct (last hist). Qed.

Lemma totalResults_cons b bs :
  totalResults (b :: bs) = (length (results b) + totalResults bs)%nat.
Proof. done. Qed.

Lemma totalResults_app bs1 bs2 :
  totalResults (bs1 ++ bs2) = (totalResults bs1 + totalResults bs2)%nat.
Proof. apply sum_list_with_app. Qed.

Lemma resolve_pending (h : list (option Promise.value)) p v :
  h !! p = Some None → Promise.state (Promise.resolve p v h) p = Some v.
Proof.
  intros Hp. unfold Promise.state, Promise.resolve. rewrite Hp.
  rewrite list_lookup_insert_eq; [done|]. by eapply lookup_lt_Some.
Qed.

(** Once the counter is at zero and the resolver is gone, further empty
    batches change nothing but the database. *)
Lemma wave_done bs u env :
  activeRequests u = 0 →
  resolveJobsPromiseWithNumberOfJobs u = None →
  totalResults bs = 0%nat →
  allReturned (receiveBatches bs (u, env)) →
  (finalState (u, env) (receiveBatches bs (u, env))).1 = u ∧
  heap (finalState (u, env) (receiveBatches bs (u, env))).2 = heap env ∧
  (∃ new, trace (finalState (u, env) (receiveBatches bs (u, env))).2
          = trace env ++ new ∧ resolveCalls new = []) ∧
  returnsToZero 0 (counters (receiveBatches bs (u, env))) = 0%nat.
Proof.
  intros Hact Hres. revert env.
  induction bs as [|b bs IH]; intros env Htot Hret.
  - simpl. split_and!; try done. exists []. by rewrite app_nil_r.
  - rewrite totalResults_cons in Htot.
    assert (length (results b) = 0%nat) as Hlen by lia.
    assert (totalResults bs = 0%nat) as Htot' by lia.
    cbn [receiveBatches] in *. rewrite finalState_cons.
    apply Forall_cons in Hret as [Hret1 Hret].
    destruct (receiveResults_cases b u env)
      as [(env' & accepted & failed & rest & Heq & _)
         |(env1 & Hheap & Htr & Heq)].
    { rewrite Heq in Hret1. done. }
    assert (completes b u = None) as Hc.
    { unfold completes. by rewrite Hres, Hact, Hlen. }
    rewrite Hc in Heq. rewrite Hlen, Hact in Heq. simpl in Heq.
    change (0 - Z.of_nat 0) with 0 in Heq.
    assert (mk (worker u) (requests u) 0 (requestsAtStart u) (promise u)
               (resolveJobsPromiseWithNumberOfJobs u) = u) as Hu.
    { destruct u; simpl in *; by subst. }
    rewrite Hu in Heq. rewrite Heq in *. simpl in *.
    destruct (IH env1 Htot' Hret) as (IH1 & IH2 & (new & IH3 & IH4) & IH5).
    split_and!; [done|congruence| |].
    + exists ((succeeded <$> results b) ++ new). split.
      * by rewrite IH3, Htr, <-app_assoc.
      * by rewrite resolveCalls_app, resolveCalls_succeeded.
    + by rewrite Hact.
Qed.

(** The batches [pre] leave results outstanding, [b] delivers the last of
    them, and [post] brings nothing more. *)
Lemma wave_progress p n b post pre u env :
  resolveJobsPromiseWithNumberOfJobs u = Some p →
  requestsAtStart u = n →
  heap env !! p = Some None →
  activeRequests u = Z.of_nat (totalResults pre + length (results b)) →
  (0 < length (results b))%nat →
  totalResults post = 0%nat →
  truthy (resRequestStart b) = true →
  allReturned (receiveBatches (pre ++ b :: post) (u, env)) →
  let hist := receiveBatches (pre ++ b :: post) (u, env) in
  activeRequests (finalState (u, env) hist).1 = 0 ∧
  Promise.state (heap (finalState (u, env) hist).2) p = Some (Promise.VNum n) ∧
  (∃ new, trace (finalState (u, env) hist).2 = trace env ++ new ∧
          resolveCalls new = [(p, Promise.VNum n)]) ∧
  returnsToZero (activeRequests u) (counters hist) = 1%nat.
Proof.
  intros Hres Hn Hp Hact Hlt Hpost Htruthy Hret hist. subst hist.
  revert u env Hres Hn Hp Hact Hret.
  induction pre as [|x pre IH]; intros u env Hres Hn Hp Hact Hret;
    cbn [app receiveBatches counters fmap list_fmap returnsToZero] in *;
    rewrite finalState_cons; apply Forall_cons in Hret as [Hret1 Hret].
  - change (totalResults []) with 0%nat in Hact.
    destruct (receiveResults_cases b u env)
      as [(env' & accepted & failed & rest & Heq & _)
         |(env1 & Hheap & Htr & Heq)].
    { rewrite Heq in Hret1. done. }
    assert (completes b u = Some p) as Hc.
    { unfold completes. rewrite Hres, Htruthy.
      replace (activeRequests u - Z.of_nat (length (results b))) with 0 by lia.
      done. }
    rewrite Hc in Heq. cbn zeta in Heq.
    replace (activeRequests u - Z.of_nat (length (results b))) with 0 in Heq
      by lia.
    rewrite Heq in *. cbn [fst snd] in *.
    match goal with
    | |- context [receiveBatches post (?u', ?env')] =>
        destruct (wave_done post u' env' eq_refl eq_refl Hpost Hret)
          as (W1 & W2 & (new & W3 & W4) & W5)
    end.
    rewrite W1, W2, W3. cbn [activeRequests heap trace].
    unfold counters in W5. rewrite W5.
    split_and!.
    + done.
    + rewrite Hn. apply resolve_pending. by rewrite Hheap.
    + eexists. split.
      * rewrite Htr, <-!app_assoc. reflexivity.
      * rewrite !resolveCalls_app, resolveCalls_succeeded, W4, Hn. done.
    + destruct (activeRequests u =? 0) eqn:E; [lia|done].
  - rewrite totalResults_cons in Hact.
    destruct (receiveResults_cases x u env)
      as [(env' & accepted & failed & rest & Heq & _)
         |(env1 & Hheap & Htr & Heq)].
    { rewrite Heq in Hret1. done. }
    assert (completes x u = None) as Hc.
    { unfold completes.
      destruct (_ =? 0) eqn:E; [|done]. lia. }
    rewrite Hc in Heq. cbn zeta in Heq. rewrite Heq in *. cbn [fst snd] in *.
    match goal with
    | |- context [receiveBatches _ (?u', ?env')] =>
        destruct (IH u' env') as (I1 & I2 & (new & I3 & I4) & I5);
          [done|done|by rewrite Hheap|cbn [activeRequests]; lia|done|]
    end.
    cbn [activeRequests] in *. split_and!; [done|done| |].
    + exists ((succeeded <$> results x) ++ new). split.
      * by rewrite I3, Htr, <-app_assoc.
      * by rewrite resolveCalls_app, resolveCalls_succeeded.
    + unfold counters in I5. rewrite I5.
      destruct (activeRequests u - Z.of_nat (length (results x)) =? 0) eqn:E;
        [lia|]. by rewrite andb_false_r.
Qed.

(** Every call that reaches the updater keeps the table well-formed. *)
Lemma step_tableOk op st :
  tableOk (requests st.1) → tableOk (requests (step op st).1).
Proof.
  destruct st as [u env]. intros Hok.
  assert (∀ r, requests (receiveResults r (u, env)).1.1 = requests u) as Hrecv.
  { intros r.
    destruct (receiveResults_cases r u env)
      as [(env' & pre & failed & rest & -> & _)|(env1 & _ & _ & ->)];
      [done|]. by destruct (completes r u). }
  destruct op as [r t c vs|now| |jobs start|r|[|r]| | |code]; cbn [step fst snd].
  - by apply addValues_tableOk.
  - unfold submitUpdateJobs, consumeUpdateJobsForBenchmarking,
      processUpdateJobs. cbn [fst snd].
    case_decide; simpl; apply tableOk_empty.
  - simpl. apply tableOk_empty.
  - rewrite processUpdateJobsForBenchmarking_unfold. cbn [fst snd].
    unfold processUpdateJobs. by case_decide.
  - by rewrite Hrecv.
  - unfold onMessage, TimelineWorker.processResponse. cbn [fst snd].
    by destruct (TimelineWorker.shutdownResolve (worker u)).
  - unfold onMessage, TimelineWorker.processResponse. cbn [fst snd].
    change (Timeline.receiveResults r (u, env))
      with (receiveResults r (u, env)).
    by rewrite Hrecv.
  - by rewrite shutdown_unfold.
  - done.
  - done.
Qed.

Lemma run_tableOk ops st :
  tableOk (requests st.1) → tableOk (requests (run ops st).1).
Proof.
  revert st. induction ops as [|op ops IH]; intros st Hok; [done|].
  simpl. apply IH. by apply step_tableOk.
Qed.

(** *** Shutdown *)

Lemma state_resolve_ne (h : list (option Promise.value)) p q v :
  p ≠ q → Promise.state (Promise.resolve q v h) p = Promise.state h p.
Proof.
  intros Hne. unfold Promise.state, Promise.resolve.
  destruct (h !! q) as [[?|]|]; [done| |done].
  by rewrite list_lookup_insert_ne.
Qed.

Lemma length_resolve (h : list (option Promise.value)) q v :
  length (Promise.resolve q v h) = length h.
Proof.
  unfold Promise.resolve. destruct (h !! q) as [[?|]|]; [done| |done].
  by rewrite length_insert.
Qed.

Lemma state_app_lt (h h' : list (option Promise.value)) p :
  (p < length h)%nat → Promise.state (h ++ h') p = Promise.state h p.
Proof. intros Hlt. unfold Promise.state. by rewrite lookup_app_l. Qed.

Lemma state_resolve_eq (h : list (option Promise.value)) p v w :
  (p < length h)%nat →
  Promise.state (Promise.resolve p v h) p = Some w →
  Promise.state h p = Some w ∨ (Promise.state h p = None ∧ w = v).
Proof.
  intros Hlt. unfold Promise.state, Promise.resolve.
  destruct (h !! p) as [[x|]|] eqn:E.
  - rewrite E. auto.
  - rewrite list_lookup_insert_eq by done. intros [= ->]. auto.
  - apply lookup_ge_None in E. lia.
Qed.

Lemma state_resolve_settled (h : list (option Promise.value)) p v :
  (p < length h)%nat → is_Some (Promise.state (Promise.resolve p v h) p).
Proof.
  intros Hlt. unfold Promise.state, Promise.resolve.
  destruct (h !! p) as [[x|]|] eqn:E.
  - rewrite E. eauto.
  - rewrite list_lookup_insert_eq by done. eauto.
  - apply lookup_ge_None in E. lia.
Qed.

(** A step that keeps the worker's fields, only adds to the heap and to the
    trace, and does not settle the shutdown promise, keeps [shutdownOk]. *)
Lemma shutdownOk_frame u env u' env' new :
  shutdownOk (u, env) →
  worker u' = worker u →
  (length (heap env) ≤ length (heap env'))%nat →
  (∀ q, resolveJobsPromiseWithNumberOfJobs u' = Some q →
     (q < length (heap env'))%nat ∧
     TimelineWorker.shutdownPromise (worker u) ≠ Some q) →
  (∀ p, TimelineWorker.shutdownPromise (worker u) = Some p →
     Promise.state (heap env') p = Promise.state (heap env) p) →
  trace env' = trace env ++ new →
  shutdownOk (u', env').
Proof.
  unfold shutdownOk. cbn [fst snd].
  intros (H1 & H2 & H3 & H4) Hw Hlen Hq Hst Htr. rewrite Hw.
  split_and!; [done| |done|].
  - intros p Hp. specialize (H2 p Hp). lia.
  - intros p v Hp Hv. rewrite (Hst p Hp) in Hv.
    destruct (H4 p v Hp Hv) as (-> & t1 & t2 & Ht). split; [done|].
    exists t1, (t2 ++ new). rewrite Htr, Ht. by rewrite <-app_assoc.
Qed.

Lemma receiveResults_shutdownOk r u env :
  shutdownOk (u, env) → shutdownOk (receiveResults r (u, env)).1.
Proof.
  intros Hok. pose proof Hok as (H1 & H2 & H3 & H4). cbn [fst snd] in *.
  destruct (receiveResults_cases r u env)
    as [(env' & pre & failed & rest & -> & _ & Hheap & Htr)
       |(env1 & Hheap & Htr & ->)]; cbn [fst snd] in *.
  - eapply shutdownOk_frame; [exact Hok|done|by rewrite Hheap| | |exact Htr].
    + intros q Hq. rewrite Hheap. auto.
    + intros p Hp. by rewrite Hheap.
  - unfold completes. destruct (_ =? 0).
    + destruct (resolveJobsPromiseWithNumberOfJobs u) as [q|] eqn:Hq;
        [destruct (truthy (resRequestStart r))|]; cbn [fst snd].
      * destruct (H3 q eq_refl) as [Hq1 Hq2].
        eapply shutdownOk_frame; [exact Hok|done|..]; cbn [heap trace].
        -- by rewrite length_resolve, Hheap.
        -- done.
        -- intros p Hp. rewrite state_resolve_ne, Hheap by congruence. done.
        -- rewrite Htr, <-app_assoc. reflexivity.
      * eapply shutdownOk_frame; [exact Hok|done|by rewrite Hheap| | |exact Htr].
        -- cbn. intros q' Hq'. rewrite Hheap. apply H3. congruence.
        -- intros p Hp. by rewrite Hheap.
      * eapply shutdownOk_frame; [exact Hok|done|by rewrite Hheap| | |exact Htr].
        -- cbn. intros q' Hq'. rewrite Hheap. apply H3. congruence.
        -- intros p Hp. by rewrite Hheap.
    + eapply shutdownOk_frame; [exact Hok|done|by rewrite Hheap| | |exact Htr].
      * cbn. intros q' Hq'. rewrite Hheap. apply H3. congruence.
      * intros p Hp. by rewrite Hheap.
Qed.

Lemma processUpdateJobs_shutdownOk jobs start u env :
  shutdownOk (u, env) → shutdownOk (processUpdateJobs jobs start (u, env)).1.
Proof.
  intros Hok. pose proof Hok as (H1 & H2 & H3 & H4). cbn [fst snd] in *.
  unfold processUpdateJobs, TimelineWorker.sendRequest.
  case_decide; cbn [Promise.resolved Promise.alloc emit fst snd heap trace db].
  - eapply shutdownOk_frame with (new := []);
      [exact Hok|done|..]; cbn [heap trace].
    + rewrite length_app. lia.
    + intros q Hq. destruct (H3 q Hq). rewrite length_app. split; [lia|done].
    + intros p Hp. apply state_app_lt. auto.
    + by rewrite app_nil_r.
  - eapply shutdownOk_frame; [exact Hok|done|..]; cbn [heap trace].
    + rewrite length_app. lia.
    + cbn. intros q [= <-]. rewrite length_app. simpl. split; [lia|].
      intros Hp. specialize (H2 _ Hp). lia.
    + intros p Hp. apply state_app_lt. auto.
    + reflexivity.
Qed.

(** More promises in the heap do no harm. *)
Lemma shutdownOk_cells st cells :
  shutdownOk st →
  shutdownOk (st.1, mkEnv (db st.2) (heap st.2 ++ cells) (trace st.2)).
Proof.
  destruct st as [u env]. intros Hok.
  pose proof Hok as (H1 & H2 & H3 & H4). cbn [fst snd] in *.
  eapply shutdownOk_frame with (new := []);
    [exact Hok|done|..]; cbn [heap trace].
  - rewrite length_app. lia.
  - intros q Hq. destruct (H3 q Hq). rewrite length_app. split; [lia|done].
  - intros p Hp. apply state_app_lt. auto.
  - by rewrite app_nil_r.
Qed.

Lemma shutdownBody_shutdownOk u env :
  shutdownOk (u, env) →
  shutdownOk
    (mk (TimelineWorker.shutdownBody (worker u) env).1.1 (requests u)
        (activeRequests u) (requestsAtStart u) (promise u)
        (resolveJobsPromiseWithNumberOfJobs u),
     (TimelineWorker.shutdownBody (worker u) env).1.2).
Proof.
  intros Hok. pose proof Hok as (H1 & H2 & H3 & H4). cbn [fst snd] in *.
  unfold TimelineWorker.shutdownBody.
  destruct (TimelineWorker.shutdownPromise (worker u)) as [p|] eqn:Hp.
  - cbn [fst snd]. destruct u, worker0. simpl in *. by rewrite Hp in *.
  - cbn [Promise.alloc emit fst snd heap trace db].
    unfold shutdownOk.
    cbn [fst snd worker heap trace resolveJobsPromiseWithNumberOfJobs
         TimelineWorker.shutdownResolve TimelineWorker.shutdownPromise].
    unfold emit. cbn [heap trace db].
    split_and!; [done| | |].
    + intros ? [= <-]. rewrite length_app. simpl. lia.
    + intros q Hq. destruct (H3 q Hq) as [Hq1 _]. rewrite length_app.
      split; [lia|]. intros [= Heq]. lia.
    + intros ? v [= <-]. unfold Promise.state.
      by rewrite list_lookup_middle.
Qed.

Lemma step_shutdownOk op st : shutdownOk st → shutdownOk (step op st).
Proof.
  destruct st as [u env]. intros Hok.
  pose proof Hok as (H1 & H2 & H3 & H4). cbn [fst snd] in *.
  destruct op as [r t c vs|now| |jobs start|r|[|r]| | |code]; cbn [step fst snd].
  - eapply shutdownOk_frame with (new := []);
      [exact Hok| |done| |done|by rewrite app_nil_r].
    + unfold addValues, with_requests. by repeat case_match.
    + intros q Hq. apply H3. revert Hq.
      unfold addValues, with_requests. by repeat case_match.
  - unfold submitUpdateJobs, consumeUpdateJobsForBenchmarking. cbn [fst snd].
    apply processUpdateJobs_shutdownOk.
    eapply shutdownOk_frame with (new := []);
      [exact Hok|done|done|exact H3|done|by rewrite app_nil_r].
  - eapply shutdownOk_frame with (new := []);
      [exact Hok|done|done|exact H3|done|by rewrite app_nil_r].
  - rewrite processUpdateJobsForBenchmarking_unfold. cbn [fst].
    by apply shutdownOk_cells, processUpdateJobs_shutdownOk.
  - by apply receiveResults_shutdownOk.
  - unfold onMessage, TimelineWorker.processResponse. cbn [fst snd].
    rewrite H1.
    destruct (TimelineWorker.shutdownPromise (worker u)) as [p|] eqn:Hp.
    + unfold shutdownOk. cbn [fst snd emit heap trace db]. rewrite Hp.
      specialize (H2 p eq_refl).
      split_and!; [done| | |].
      * intros ? [= <-]. by rewrite length_resolve.
      * intros q Hq. rewrite length_resolve. auto.
      * intros ? v [= <-] Hv.
        apply state_resolve_eq in Hv; [|done].
        destruct Hv as [Hv|[Hv ->]].
        -- destruct (H4 p v eq_refl Hv) as (-> & t1 & t2 & Ht).
           split; [done|]. eexists t1, _. rewrite Ht, <-!app_assoc.
           simpl. reflexivity.
        -- split; [done|]. exists (trace env), []. by rewrite <-app_assoc.
    + eapply shutdownOk_frame;
        [exact Hok|done|done| |done|reflexivity].
      intros q Hq. rewrite Hp. by apply H3.
  - unfold onMessage, TimelineWorker.processResponse. cbn [fst snd].
    change (Timeline.receiveResults r (u, env))
      with (receiveResults r (u, env)).
    by apply receiveResults_shutdownOk.
  - rewrite shutdown_unfold. cbn [fst].
    by apply (shutdownOk_cells (_, _)), shutdownBody_shutdownOk.
  - eapply shutdownOk_frame;
      [exact Hok|done|done|exact H3|done|reflexivity].
  - eapply shutdownOk_frame;
      [exact Hok|done|done|exact H3|done|reflexivity].
Qed.

Lemma init_shutdownOk (d : Db) : shutdownOk (init d).
Proof. unfold shutdownOk, init. simpl. split_and!; done. Qed.

Lemma run_shutdownOk ops st : shutdownOk st → shutdownOk (run ops st).
Proof.
  revert st. induction ops as [|op ops IH]; intros st Hok; [done|].
  simpl. apply IH. by apply step_shutdownOk.
Qed.

Lemma run_app ops1 ops2 st : run (ops1 ++ ops2) st = run ops2 (run ops1 st).
Proof. apply foldl_app. Qed.

(** The worker thread is terminated by the "exiting" message only. *)
Lemma step_trace op st :
  ∃ new, trace (step op st).2 = trace st.2 ++ new ∧
         (EvTerminate ∈ new → op = Message Exiting).
Proof.
  destruct st as [u env].
  assert (∀ r, ∃ new,
             trace (receiveResults r (u, env)).1.2 = trace env ++ new ∧
             EvTerminate ∉ new) as Hrecv.
  { intros r.
    destruct (receiveResults_cases r u env)
      as [(env' & pre & failed & rest & -> & _ & _ & Htr)
         |(env1 & _ & Htr & ->)]; cbn [fst snd].
    - eexists. split; [exact Htr|].
      rewrite elem_of_app, list_elem_of_fmap, list_elem_of_singleton.
      by intros [(? & [=] & _)|[=]].
    - destruct (completes r u); cbn [fst snd trace]; rewrite Htr.
      + rewrite <-app_assoc. eexists. split; [reflexivity|].
        rewrite elem_of_app, list_elem_of_fmap.
        intros [(? & [=] & _)|Hin].
        by repeat (apply elem_of_cons in Hin as [[=]|Hin]);
          apply elem_of_nil in Hin.
      + eexists. split; [reflexivity|].
        rewrite list_elem_of_fmap. by intros (? & [=] & _). }
  assert (∀ jobs start, ∃ new,
             trace (processUpdateJobs jobs start (u, env)).1.2
             = trace env ++ new ∧ EvTerminate ∉ new) as Hproc.
  { intros jobs start. unfold processUpdateJobs, TimelineWorker.sendRequest.
    case_decide; cbn [Promise.resolved Promise.alloc emit fst snd trace].
    - exists []. rewrite app_nil_r. split; [done|apply not_elem_of_nil].
    - eexists. split; [reflexivity|].
      rewrite list_elem_of_singleton. by intros [=]. }
  destruct op as [r t c vs|now| |jobs start|r|[|r]| | |code]; cbn [step fst snd].
  - exists []. by rewrite app_nil_r, elem_of_nil.
  - unfold submitUpdateJobs, consumeUpdateJobsForBenchmarking,
      processUpdateJobs, TimelineWorker.sendRequest. cbn [fst snd].
    case_decide; cbn [Promise.resolved Promise.alloc emit fst snd trace].
    + exists []. by rewrite app_nil_r, elem_of_nil.
    + eexists. split; [reflexivity|].
      rewrite list_elem_of_singleton. by intros [=].
  - exists []. by rewrite app_nil_r, elem_of_nil.
  - rewrite processUpdateJobsForBenchmarking_unfold. cbn [fst snd trace].
    destruct (Hproc jobs start) as (new & Htr & Hnot).
    exists new. split; [done|]. by intros ?.
  - destruct (Hrecv r) as (new & Htr & Hnot).
    exists new. split; [done|]. by intros ?.
  - unfold onMessage, TimelineWorker.processResponse. cbn [fst snd].
    destruct (TimelineWorker.shutdownResolve (worker u));
      unfold emit; cbn [fst snd trace]; rewrite <-?app_assoc; by eexists.
  - unfold onMessage, TimelineWorker.processResponse. cbn [fst snd].
    change (Timeline.receiveResults r (u, env))
      with (receiveResults r (u, env)).
    destruct (Hrecv r) as (new & Htr & Hnot).
    exists new. split; [done|]. by intros ?.
  - rewrite shutdown_unfold. cbn [fst snd trace].
    unfold TimelineWorker.shutdownBody.
    destruct (TimelineWorker.shutdownPromise (worker u)) as [p|];
      cbn [Promise.alloc emit fst snd trace].
    + exists []. by rewrite app_nil_r, elem_of_nil.
    + eexists. split; [reflexivity|].
      rewrite list_elem_of_singleton. by intros [=].
  - eexists. split; [reflexivity|].
    rewrite list_elem_of_singleton. by intros [=].
  - eexists. split; [reflexivity|].
    rewrite list_elem_of_singleton. by intros [=].
Qed.

Lemma run_trace_terminate ops st :
  ∃ new, trace (run ops st).2 = trace st.2 ++ new ∧
         (EvTerminate ∈ new → Message Exiting ∈ ops).
Proof.
  revert st. induction ops as [|op ops IH]; intros st.
  - exists []. by rewrite app_nil_r, elem_of_nil.
  - simpl. destruct (IH (step op st)) as (new2 & Htr2 & Hin2).
    destruct (step_trace op st) as (new1 & Htr1 & Hin1).
    exists (new1 ++ new2). split.
    + by rewrite Htr2, Htr1, <-app_assoc.
    + rewrite elem_of_app. intros [Hin|Hin].
      * rewrite (Hin1 Hin). apply list_elem_of_here.
      * apply list_elem_of_further. auto.
Qed.

Lemma step_keeps_shutdownPromise op st p :
  TimelineWorker.shutdownPromise (worker st.1) = Some p →
  TimelineWorker.shutdownPromise (worker (step op st).1) = Some p.
Proof.
  destruct st as [u env]. cbn [fst snd]. intros Hp.
  destruct op as [r t c vs|now| |jobs start|r|[|r]| | |code]; cbn [step fst snd].
  - unfold addValues, with_requests. by repeat case_match.
  - unfold submitUpdateJobs, consumeUpdateJobsForBenchmarking,
      processUpdateJobs. cbn [fst snd]. by case_decide.
  - done.
  - rewrite processUpdateJobsForBenchmarking_unfold. cbn [fst snd].
    unfold processUpdateJobs. by case_decide.
  - destruct (receiveResults_cases r u env)
      as [(env' & pre & failed & rest & -> & _)|(env1 & _ & _ & ->)];
      [done|]. by destruct (completes r u).
  - unfold onMessage, TimelineWorker.processResponse. cbn [fst snd].
    by destruct (TimelineWorker.shutdownResolve (worker u)).
  - unfold onMessage, TimelineWorker.processResponse. cbn [fst snd].
    change (Timeline.receiveResults r (u, env))
      with (receiveResults r (u, env)).
    destruct (receiveResults_cases r u env)
      as [(env' & pre & failed & rest & -> & _)|(env1 & _ & _ & ->)];
      [done|]. by destruct (completes r u).
  - rewrite shutdown_unfold. unfold TimelineWorker.shutdownBody.
    by rewrite Hp.
  - done.
  - done.
Qed.

Lemma run_keeps_shutdownPromise ops st p :
  TimelineWorker.shutdownPromise (worker st.1) = Some p →
  TimelineWorker.shutdownPromise (worker (run ops st).1) = Some p.
Proof.
  revert st. induction ops as [|op ops IH]; intros st Hp; [done|].
  simpl. apply IH. by apply step_keeps_shutdownPromise.
Qed.

Lemma shutdown_step st : (shutdown st).1 = step Shutdown st.
Proof. done. Qed.

End with_db.
End TimelineFacts.

(** ** Facts about [JsArray] *)

Module JsArrayFacts.
Import JsArray.

Section facts.
Context {A : Type}.
Implicit Types (a : list (option A)) (x y : A) (i j : Z) (k : nat).

Lemma set_neg i x a : i < 0 → set i x a = a.
Proof. intros Hi. unfold set. by rewrite decide_True. Qed.

Lemma get_neg i a : i < 0 → get a i = None.
Proof. intros Hi. unfold get. by rewrite decide_True. Qed.

(** The elements of an array after an assignment. *)
Lemma lookup_set i x a k :
  0 ≤ i →
  set i x a !! k =
    if decide (k = Z.to_nat i) then Some (Some x)
    else if decide (k < length a)%nat then a !! k
    else if decide (k < Z.to_nat i)%nat then Some None
    else None.
Proof.
  intros Hi. unfold set. rewrite decide_False by lia.
  destruct (decide (Z.to_nat i < length a)%nat) as [Hlt|Hge]; cbn zeta.
  - destruct (decide (k = Z.to_nat i)) as [->|Hne].
    + by rewrite list_lookup_insert_eq.
    + rewrite list_lookup_insert_ne by done.
      destruct (decide (k < length a)%nat) as [|Hk]; [done|].
      rewrite decide_False by lia. apply lookup_ge_None. lia.
  - destruct (decide (k = Z.to_nat i)) as [->|Hne].
    + rewrite lookup_app_r by lia. rewrite lookup_app_r.
      * rewrite length_replicate, Nat.sub_diag. done.
      * rewrite length_replicate. lia.
    + destruct (decide (k < length a)%nat) as [Hk|Hk].
      * by rewrite lookup_app_l.
      * rewrite lookup_app_r by lia.
        destruct (decide (k < Z.to_nat i)%nat) as [Hk'|Hk'].
        -- rewrite lookup_app_l by (rewrite length_replicate; lia).
           apply lookup_replicate_2. lia.
        -- rewrite lookup_app_r by (rewrite length_replicate; lia).
           rewrite length_replicate. apply lookup_ge_None. simpl. lia.
Qed.

Lemma length_set i x a :
  0 ≤ i → length (set i x a) = (length a `max` S (Z.to_nat i))%nat.
Proof.
  intros Hi. unfold set. rewrite decide_False by lia. cbn zeta.
  case_decide.
  - rewrite length_insert. lia.
  - rewrite !length_app, length_replicate. simpl. lia.
Qed.

Lemma array_get_set_eq i x a : 0 ≤ i → get (set i x a) i = Some x.
Proof.
  intros Hi. unfold get. rewrite decide_False by lia.
  rewrite lookup_set by done. by rewrite decide_True.
Qed.

Lemma array_get_set_ne i j x a : i ≠ j → get (set i x a) j = get a j.
Proof.
  intros Hne. destruct (decide (i < 0)) as [Hi|Hi].
  { by rewrite set_neg. }
  unfold get. destruct (decide (j < 0)); [done|].
  rewrite lookup_set by lia. rewrite decide_False by lia.
  repeat case_decide; try done.
  - by rewrite (proj2 (lookup_ge_None a (Z.to_nat j))) by lia.
  - by rewrite (proj2 (lookup_ge_None a (Z.to_nat j))) by lia.
Qed.

Lemma set_set_eq i x y a : set i x (set i y a) = set i x a.
Proof.
  destruct (decide (i < 0)) as [Hi|Hi].
  { by rewrite !set_neg. }
  apply list_eq. intros k. rewrite !lookup_set by lia.
  rewrite length_set by lia. repeat case_decide; try done; try lia.
Qed.

Lemma set_comm i j x y a :
  i ≠ j → set i x (set j y a) = set j y (set i x a).
Proof.
  intros Hne.
  destruct (decide (i < 0)) as [Hi|Hi]; [by rewrite !(set_neg i)|].
  destruct (decide (j < 0)) as [Hj|Hj]; [by rewrite !(set_neg j)|].
  apply list_eq. intros k. rewrite !lookup_set by lia.
  rewrite !length_set by lia. repeat case_decide; try done; try lia.
Qed.

End facts.
End JsArrayFacts.

(** ** Facts about collation *)

Module CollateFacts.
Import Collate.

(** *** First occurrences *)

Section first_occurrences.
Context {K : Type} `{EqDecision K}.
Implicit Types (l acc : list K) (x y : K).

Lemma elem_of_addKey acc x y : y ∈ addKey acc x ↔ y ∈ acc ∨ y = x.
Proof.
  unfold addKey. case_decide as Hin.
  - split; [auto|]. by intros [?| ->].
  - by rewrite elem_of_app, list_elem_of_singleton.
Qed.

Lemma NoDup_addKey acc x : NoDup acc → NoDup (addKey acc x).
Proof.
  intros Hnd. unfold addKey. case_decide as Hin; [done|].
  apply NoDup_app. split_and!; [done| |apply NoDup_singleton].
  intros y Hy Hy'. apply list_elem_of_singleton in Hy' as ->. done.
Qed.

Lemma firstOccurrences_snoc l x :
  firstOccurrences (l ++ [x]) = addKey (firstOccurrences l) x.
Proof. unfold firstOccurrences. by rewrite foldl_app. Qed.

Lemma elem_of_firstOccurrences l x : x ∈ firstOccurrences l ↔ x ∈ l.
Proof.
  induction l as [|y l IH] using rev_ind.
  - done.
  - rewrite firstOccurrences_snoc, elem_of_addKey, IH.
    rewrite elem_of_app, list_elem_of_singleton. done.
Qed.

Lemma NoDup_firstOccurrences l : NoDup (firstOccurrences l).
Proof.
  induction l as [|y l IH] using rev_ind.
  - apply NoDup_nil_2.
  - rewrite firstOccurrences_snoc. by apply NoDup_addKey.
Qed.

Lemma firstOccurrences_Permutation l l' :
  l ≡ₚ l' → firstOccurrences l ≡ₚ firstOccurrences l'.
Proof.
  intros Hp. apply NoDup_Permutation; [apply NoDup_firstOccurrences..|].
  intros x. rewrite !elem_of_firstOccurrences. by rewrite Hp.
Qed.

End first_occurrences.

Lemma firstOccurrences_thrice {K} `{EqDecision K} (k : K) :
  firstOccurrences [k; k; k] = [k].
Proof.
  assert (addKey [] k = [k]) as H0.
  { unfold addKey. rewrite decide_False; [done|apply not_elem_of_nil]. }
  assert (addKey [k] k = [k]) as H1.
  { unfold addKey. rewrite decide_True; [done|apply list_elem_of_here]. }
  unfold firstOccurrences. cbn [foldl]. by rewrite H0, H1, H1.
Qed.

Lemma filter_all {A} (P : A → Prop) `{∀ x, Decision (P x)} (l : list A) :
  Forall P l → filter P l = l.
Proof.
  induction 1 as [|x l Hx Hl IH]; [done|].
  rewrite filter_cons, decide_True by done. by rewrite IH.
Qed.

Lemma keys_set_addKey {V} k (v : V) (m : JsMap.t V) :
  JsMap.keys (JsMap.set k v m) = addKey (JsMap.keys m) k.
Proof.
  unfold addKey. case_decide as Hin.
  - by apply JsMapFacts.keys_set_in.
  - by apply JsMapFacts.keys_set_notin.
Qed.

(** An assignment to a plain object adds a key, unless the key is
    [__proto__]. *)
Lemma keys_props_set {V} k (v : V) (o : JsObject.t V) :
  JsMap.keys (JsObject.props (JsObject.set k v o))
  = if decide (makesEntry k) then addKey (JsMap.keys (JsObject.props o)) k
    else JsMap.keys (JsObject.props o).
Proof.
  unfold JsObject.set, makesEntry.
  destruct (decide (k = "__proto__")) as [->|Hk]; cbn [JsObject.props].
  - by rewrite decide_False by (by intros ?).
  - rewrite decide_True by done. apply keys_set_addKey.
Qed.

(** *** One row *)

Lemma writeValue_spec inv iter v g :
  writeValue inv iter v g =
  if decide (inv - 1 < 0) then g
  else JsArray.set (inv - 1)
         (JsArray.set (iter - 1) v (default [] (JsArray.get g (inv - 1)))) g.
Proof.
  unfold writeValue. case_decide as Hneg.
  - rewrite (JsArrayFacts.get_neg _ g) by done.
    rewrite JsArrayFacts.set_neg by done.
    by rewrite (JsArrayFacts.get_neg _ g) by done.
  - destruct (JsArray.get g (inv - 1)) as [inner|] eqn:Hget; simpl.
    + by rewrite Hget.
    + rewrite JsArrayFacts.array_get_set_eq by lia.
      by rewrite JsArrayFacts.set_set_eq.
Qed.

(** Writes to different slots of a grid can be swapped. *)
Lemma writeValue_comm inv1 iter1 v1 inv2 iter2 v2 g :
  (inv1, iter1) ≠ (inv2, iter2) →
  writeValue inv1 iter1 v1 (writeValue inv2 iter2 v2 g)
  = writeValue inv2 iter2 v2 (writeValue inv1 iter1 v1 g).
Proof.
  intros Hne. rewrite !writeValue_spec.
  destruct (decide (inv1 - 1 < 0)) as [H1|H1];
    destruct (decide (inv2 - 1 < 0)) as [H2|H2]; try done.
  destruct (decide (inv1 = inv2)) as [->|Hinv].
  - rewrite !JsArrayFacts.array_get_set_eq by lia. simpl.
    rewrite !JsArrayFacts.set_set_eq. f_equal.
    apply JsArrayFacts.set_comm. intros Heq. apply Hne. f_equal. lia.
  - rewrite !JsArrayFacts.array_get_set_ne by lia.
    apply JsArrayFacts.set_comm. lia.
Qed.

(** The list update of [collateRow], by recursion on the list. *)
Lemma alter_found_or_pushed (row : MeasurementData.t) (fresh : Measurements.t)
    (ms : list Measurements.t) :
  let W := λ m, setValues (writeRow (Measurements.values m) row) m in
  match list_find (matchesRow row) ms with
  | Some (i, _) => alter W i ms
  | None => alter W (length ms) (ms ++ [fresh])
  end = upsertSeries row fresh ms.
Proof.
  intros W. induction ms as [|m ms IH]; [done|].
  cbn [list_find upsertSeries]. case_decide as Hm; [done|].
  destruct (list_find (matchesRow row) ms) as [[i m']|]; simpl in *;
    by rewrite <-IH.
Qed.

Lemma list_find_None_not_Exists (row : MeasurementData.t)
    (ms : list Measurements.t) :
  list_find (matchesRow row) ms = None ↔ ¬ Exists (matchesRow row) ms.
Proof. rewrite list_find_None. by rewrite <-Forall_Exists_neg. Qed.

Section with_parameters.
Variable simplifyCmdline : string → string.

#[local] Arguments JsMap.set : simpl never.
#[local] Arguments JsMap.get : simpl never.

Lemma get_empty {V} k : JsMap.get k (JsMap.empty : JsMap.t V) = None.
Proof. done. Qed.

(** The loop body in terms of [insertRow]. *)
Lemma collateRow_byExeSuiteBench st row :
  byExeSuiteBench (collateRow simplifyCmdline st row) =
  insertRow (criterionOf row (criteria st))
            (runSettingOf simplifyCmdline row (runSettings st)) row
            (byExeSuiteBench st).
Proof.
  unfold collateRow, insertRow, findOrConstructProcessedResult,
    findOrConstructMeasurements, findMeasurements.
  set (crit := criterionOf row (criteria st)).
  set (rs := runSettingOf simplifyCmdline row (runSettings st)).
  change (match JsMap.get (MeasurementData.exe row) (byExeSuiteBench st) with
          | Some m => m
          | None => JsMap.empty
          end)
    with (default JsMap.empty
            (JsMap.get (MeasurementData.exe row) (byExeSuiteBench st))).
  generalize (default JsMap.empty
                (JsMap.get (MeasurementData.exe row) (byExeSuiteBench st))).
  intros forExe.
  change (match JsMap.get (MeasurementData.suite row) forExe with
          | Some r => r
          | None => ResultsByBenchmark.mk JsMap.empty JsObject.empty
          end)
    with (default (ResultsByBenchmark.mk JsMap.empty JsObject.empty)
            (JsMap.get (MeasurementData.suite row) forExe)).
  generalize (default (ResultsByBenchmark.mk JsMap.empty JsObject.empty)
                (JsMap.get (MeasurementData.suite row) forExe)).
  intros forSuite.
  destruct (JsMap.get (MeasurementData.bench row)
              (ResultsByBenchmark.benchmarks forSuite))
    as [benchResult|]; cbn [default from_option id].
  - pose proof (alter_found_or_pushed row (freshSeries crit rs row)
                  (ProcessedResult.measurements benchResult)) as Hup.
    pose proof (list_find_None_not_Exists row
                  (ProcessedResult.measurements benchResult)) as Hex.
    cbv zeta in Hup.
    destruct (list_find (matchesRow row)
                (ProcessedResult.measurements benchResult))
      as [[i m]|]; cbn [byExeSuiteBench].
    + rewrite decide_True; [by rewrite <-Hup|].
      apply dec_stable. intros Hn. by apply Hex in Hn.
    + rewrite decide_False by (by apply Hex). by rewrite <-Hup.
  - cbn [ProcessedResult.measurements ProcessedResult.exe
         ProcessedResult.suite ProcessedResult.bench list_find
         ResultsByBenchmark.benchmarks ResultsByBenchmark.criteria
         app length alter list_alter upsertSeries byExeSuiteBench].
    rewrite JsMapFacts.set_set. rewrite decide_False; [done|].
    by intros ?%Exists_nil.
Qed.

(** *** What a row changes in the hierarchy *)

Section insert_row.
Variables (crit : CriterionData.t) (rs : RunSettings.t)
          (row : MeasurementData.t) (res : ResultsByExeSuiteBenchmark).

Let exe := MeasurementData.exe row.
Let suite := MeasurementData.suite row.
Let bench := MeasurementData.bench row.
Let res' := insertRow crit rs row res.

Lemma insertRow_suiteOf e s :
  suiteOf res' e s =
  if decide (e = exe ∧ s = suite) then
    Some (ResultsByBenchmark.mk
            (JsMap.set bench
               (ProcessedResult.mk
                  (ProcessedResult.exe
                     (default (ProcessedResult.mk exe suite bench [])
                              (benchOf res exe suite bench)))
                  (ProcessedResult.suite
                     (default (ProcessedResult.mk exe suite bench [])
                              (benchOf res exe suite bench)))
                  (ProcessedResult.bench
                     (default (ProcessedResult.mk exe suite bench [])
                              (benchOf res exe suite bench)))
                  (upsertSeries row (freshSeries crit rs row)
                     (seriesOf res exe suite bench)))
               (match suiteOf res exe suite with
                | Some r => ResultsByBenchmark.benchmarks r
                | None => JsMap.empty
                end))
            (if decide (Exists (matchesRow row) (seriesOf res exe suite bench))
             then match suiteOf res exe suite with
                  | Some r => ResultsByBenchmark.criteria r
                  | None => JsObject.empty
                  end
             else JsObject.set (CriterionData.name crit) crit
                    (match suiteOf res exe suite with
                     | Some r => ResultsByBenchmark.criteria r
                     | None => JsObject.empty
                     end)))
  else suiteOf res e s.
Proof.
  subst res'. unfold insertRow, suiteOf, seriesOf, benchOf, suiteOf.
  fold exe suite bench.
  destruct (decide (e = exe ∧ s = suite)) as [[-> ->]|Hne].
  - rewrite !JsMapFacts.get_set_eq. cbn [mbind option_bind].
    rewrite JsMapFacts.get_set_eq.
    destruct (JsMap.get exe res) as [forExe|];
      cbn [default from_option id mbind option_bind]; rewrite ?get_empty;
      cbn [default from_option id mbind option_bind
           ResultsByBenchmark.benchmarks ResultsByBenchmark.criteria];
      rewrite ?get_empty; [|done].
    destruct (JsMap.get suite forExe) as [forSuite|];
      cbn [default from_option id mbind option_bind
           ResultsByBenchmark.benchmarks ResultsByBenchmark.criteria];
      rewrite ?get_empty; [|done].
    by destruct (JsMap.get bench (ResultsByBenchmark.benchmarks forSuite)).
  - destruct (decide (e = exe)) as [->|He].
    + rewrite JsMapFacts.get_set_eq. cbn [mbind option_bind].
      rewrite JsMapFacts.get_set_ne by (intros <-; by apply Hne).
      destruct (JsMap.get exe res) as [forExe|];
        cbn [default from_option id mbind option_bind]; done.
    + by rewrite JsMapFacts.get_set_ne.
Qed.

Lemma insertRow_exeKeys : exeKeys res' = addKey (exeKeys res) exe.
Proof. apply keys_set_addKey. Qed.

Lemma insertRow_suiteKeys e :
  suiteKeys res' e =
  if decide (e = exe) then addKey (suiteKeys res e) suite else suiteKeys res e.
Proof.
  subst res'. unfold insertRow, suiteKeys. fold exe suite bench.
  destruct (decide (e = exe)) as [->|He].
  - rewrite JsMapFacts.get_set_eq, keys_set_addKey.
    by destruct (JsMap.get exe res).
  - by rewrite JsMapFacts.get_set_ne.
Qed.

Lemma insertRow_benchKeys e s :
  benchKeys res' e s =
  if decide (e = exe ∧ s = suite) then addKey (benchKeys res e s) bench
  else benchKeys res e s.
Proof.
  unfold benchKeys. rewrite insertRow_suiteOf.
  case_decide as H; [destruct H as [-> ->]|done].
  cbn [ResultsByBenchmark.benchmarks]. rewrite keys_set_addKey.
  by destruct (suiteOf res exe suite).
Qed.

Lemma insertRow_criteriaCreated e s :
  criteriaCreated res' e s =
  if decide (e = exe ∧ s = suite) then
    if decide (Exists (matchesRow row) (seriesOf res exe suite bench))
    then criteriaCreated res e s
    else if decide (makesEntry (CriterionData.name crit))
         then addKey (criteriaCreated res e s) (CriterionData.name crit)
         else criteriaCreated res e s
  else criteriaCreated res e s.
Proof.
  unfold criteriaCreated. rewrite insertRow_suiteOf.
  case_decide as H; [destruct H as [-> ->]|done].
  cbn [ResultsByBenchmark.criteria]. case_decide.
  - by destruct (suiteOf res exe suite).
  - rewrite keys_props_set. by destruct (suiteOf res exe suite).
Qed.


Lemma insertRow_seriesOf e s b :
  seriesOf res' e s b =
  if decide (e = exe ∧ s = suite ∧ b = bench)
  then upsertSeries row (freshSeries crit rs row) (seriesOf res e s b)
  else seriesOf res e s b.
Proof.
  unfold seriesOf at 1. unfold benchOf. rewrite insertRow_suiteOf.
  destruct (decide (e = exe ∧ s = suite)) as [[-> ->]|Hes].
  - cbn [mbind option_bind ResultsByBenchmark.benchmarks].
    destruct (decide (b = bench)) as [->|Hb].
    + rewrite JsMapFacts.get_set_eq. by rewrite decide_True.
    + rewrite JsMapFacts.get_set_ne by done.
      rewrite decide_False by (by intros (_ & _ & ?)).
      unfold seriesOf, benchOf. by destruct (suiteOf res exe suite).
  - rewrite decide_False by (intros (? & ? & _); by apply Hes). done.
Qed.

Lemma insertRow_noDupKeys : noDupKeys res → noDupKeys res'.
Proof.
  intros [Hnd Hall]. subst res'. unfold insertRow. fold exe suite bench.
  split; [by apply JsMapFacts.NoDup_keys_set|].
  intros e m Hin. apply JsMapFacts.elem_set in Hin as [[-> ->]|Hin];
    [|exact (Hall _ _ Hin)].
  assert (NoDup (JsMap.keys (default JsMap.empty (JsMap.get exe res)))
          ∧ ∀ s r, (s, r) ∈ default JsMap.empty (JsMap.get exe res) →
                   NoDup (JsMap.keys (ResultsByBenchmark.benchmarks r)))
    as [Hnd1 Hall1].
  { destruct (JsMap.get exe res) as [forExe|] eqn:Hget; simpl.
    - apply JsMapFacts.get_Some_elem in Hget. exact (Hall _ _ Hget).
    - split; [apply NoDup_nil_2|]. intros s r H. by apply elem_of_nil in H. }
  split; [by apply JsMapFacts.NoDup_keys_set|].
  intros s r Hin. apply JsMapFacts.elem_set in Hin as [[-> ->]|Hin];
    [|exact (Hall1 _ _ Hin)].
  cbn [ResultsByBenchmark.benchmarks]. apply JsMapFacts.NoDup_keys_set.
  destruct (JsMap.get suite _) as [forSuite|] eqn:Hget; simpl.
  - apply JsMapFacts.get_Some_elem in Hget. exact (Hall1 _ _ Hget).
  - apply NoDup_nil_2.
Qed.

(** From here on the cache hands out a criterion with the name that the
    row has. *)
Hypothesis crit_name : CriterionData.name crit = MeasurementData.criterion row.

Lemma matchesRow_key m : matchesRow row m ↔ seriesKey m = rowKey row.
Proof.
  unfold matchesRow, seriesKey, rowKey. split.
  - by intros (-> & -> & -> & -> & ->).
  - by intros [= -> -> -> -> ->].
Qed.

Lemma seriesKey_fresh vs :
  seriesKey (setValues vs (freshSeries crit rs row)) = rowKey row.
Proof. unfold seriesKey, rowKey. simpl. by rewrite crit_name. Qed.

Lemma upsertSeries_keys ms :
  seriesKey <$> upsertSeries row (freshSeries crit rs row) ms
  = addKey (seriesKey <$> ms) (rowKey row).
Proof.
  induction ms as [|m ms IH]; csimpl.
  - by rewrite seriesKey_fresh.
  - case_decide as Hm; csimpl.
    + apply matchesRow_key in Hm. unfold addKey.
      rewrite decide_True; [done|]. rewrite <-Hm. apply list_elem_of_here.
    + rewrite IH. unfold addKey.
      assert (seriesKey m ≠ rowKey row) as Hne.
      { intros Heq. by apply Hm, matchesRow_key. }
      destruct (decide (rowKey row ∈ seriesKey <$> ms)) as [Hin|Hnotin].
      * rewrite decide_True; [done|]. by apply list_elem_of_further.
      * rewrite decide_False; [done|].
        rewrite not_elem_of_cons. split; [done|done].
Qed.

Lemma upsertSeries_grid k ms :
  Measurements.values
    <$> findSeries k (upsertSeries row (freshSeries crit rs row) ms)
  = if decide (k = rowKey row)
    then Some (writeRow (default [] (Measurements.values <$> findSeries k ms))
                        row)
    else Measurements.values <$> findSeries k ms.
Proof.
  induction ms as [|m ms IH]; simpl.
  - rewrite seriesKey_fresh. destruct (decide (k = rowKey row)) as [->|Hk].
    + by rewrite decide_True.
    + by rewrite decide_False.
  - destruct (decide (matchesRow row m)) as [Hm|Hm]; simpl.
    + apply matchesRow_key in Hm.
      change (seriesKey (setValues ?vs m)) with (seriesKey m).
      rewrite Hm. destruct (decide (k = rowKey row)) as [->|Hk].
      * by rewrite !decide_True.
      * by rewrite !decide_False.
    + assert (seriesKey m ≠ rowKey row) as Hne.
      { intros Heq. by apply Hm, matchesRow_key. }
      destruct (decide (seriesKey m = k)) as [<-|Hmk].
      * by rewrite decide_False.
      * apply IH.
Qed.

Lemma elem_of_upsertSeries m ms :
  m ∈ upsertSeries row (freshSeries crit rs row) ms →
  (∃ m', m' ∈ ms ∧ seriesKey m = seriesKey m') ∨ seriesKey m = rowKey row.
Proof.
  induction ms as [|m0 ms IH]; simpl.
  - intros ->%list_elem_of_singleton. right. apply seriesKey_fresh.
  - case_decide as Hm0.
    + intros [->|Hin]%elem_of_cons.
      * left. exists m0. split; [apply list_elem_of_here|done].
      * left. exists m. split; [by apply list_elem_of_further|done].
    + intros [->|Hin]%elem_of_cons.
      * left. exists m0. split; [apply list_elem_of_here|done].
      * destruct (IH Hin) as [(m' & Hm' & Hk)|Hk]; [left|by right].
        exists m'. split; [by apply list_elem_of_further|done].
Qed.

Lemma insertRow_seriesKeys e s b :
  seriesKeys res' e s b =
  if decide (e = exe ∧ s = suite ∧ b = bench)
  then addKey (seriesKeys res e s b) (rowKey row)
  else seriesKeys res e s b.
Proof.
  unfold seriesKeys. rewrite insertRow_seriesOf.
  case_decide; [|done]. apply upsertSeries_keys.
Qed.

Lemma insertRow_gridOf e s b k :
  gridOf res' e s b k =
  if decide ((e = exe ∧ s = suite ∧ b = bench) ∧ k = rowKey row)
  then Some (writeRow (default [] (gridOf res e s b k)) row)
  else gridOf res e s b k.
Proof.
  unfold gridOf. rewrite insertRow_seriesOf.
  destruct (decide (e = exe ∧ s = suite ∧ b = bench)) as [Hp|Hp].
  - rewrite upsertSeries_grid.
    destruct (decide (k = rowKey row)) as [->|Hk].
    + by rewrite decide_True.
    + by rewrite decide_False by (by intros [_ ?]).
  - by rewrite decide_False by (by intros [? _]).
Qed.

Lemma insertRow_criteriaCover : criteriaCover res → criteriaCover res'.
Proof.
  intros Hcover e s b m.
  rewrite insertRow_seriesOf, insertRow_criteriaCreated.
  destruct (decide (e = exe ∧ s = suite)) as [[-> ->]|Hes].
  - assert (∀ c, c ∈ criteriaCreated res exe suite →
                 c ∈ (if decide (Exists (matchesRow row)
                                   (seriesOf res exe suite bench))
                      then criteriaCreated res exe suite
                      else if decide (makesEntry (CriterionData.name crit))
                           then addKey (criteriaCreated res exe suite)
                                  (CriterionData.name crit)
                           else criteriaCreated res exe suite)) as Hmono.
    { intros c Hc. repeat case_decide; try done.
      apply elem_of_addKey. by left. }
    destruct (decide (b = bench)) as [->|Hb].
    + rewrite decide_True by done. intros Hin Hentry.
      apply elem_of_upsertSeries in Hin as [(m' & Hm' & Hk)|Hk].
      * apply Hmono. injection Hk as _ _ _ _ Hk. rewrite Hk in Hentry |- *.
        by eapply Hcover.
      * injection Hk as _ _ _ _ Hk. rewrite Hk in Hentry |- *.
        case_decide as Hex.
        -- apply Exists_exists in Hex as (m' & Hm' & Hmatch).
           destruct Hmatch as (_ & _ & _ & _ & Hmatch).
           rewrite <-Hmatch in Hentry |- *. by eapply Hcover.
        -- rewrite crit_name, decide_True by done.
           apply elem_of_addKey. by right.
    + rewrite decide_False by (by intros (_ & _ & ?)).
      intros Hin Hentry. apply Hmono. by eapply Hcover.
  - rewrite decide_False by (intros (? & ? & _); by apply Hes).
    apply Hcover.
Qed.

(** With the criteria record covering the series, a row adds its criterion
    to the record of its suite if it is not there and its name makes an
    entry. *)
Lemma insertRow_criteriaCreated_addKey e s :
  criteriaCover res →
  criteriaCreated res' e s =
  if decide (e = exe ∧ s = suite)
  then if decide (makesEntry (MeasurementData.criterion row))
       then addKey (criteriaCreated res e s) (MeasurementData.criterion row)
       else criteriaCreated res e s
  else criteriaCreated res e s.
Proof.
  intros Hcover. rewrite insertRow_criteriaCreated.
  case_decide as Hes; [destruct Hes as [-> ->]|done].
  rewrite crit_name. case_decide as Hex; [|done].
  case_decide as Hentry; [|done].
  apply Exists_exists in Hex as (m' & Hm' & Hmatch).
  destruct Hmatch as (_ & _ & _ & _ & Hmatch).
  unfold addKey. rewrite decide_True; [done|].
  rewrite <-Hmatch in Hentry |- *. by eapply Hcover.
Qed.

End insert_row.

(** *** All rows *)

Lemma filter_snoc {A} (P : A → Prop) `{∀ x, Decision (P x)} (l : list A) x :
  filter P (l ++ [x]) = if decide (P x) then filter P l ++ [x] else filter P l.
Proof.
  rewrite filter_app, filter_cons, filter_nil.
  case_decide; [done|]. by rewrite app_nil_r.
Qed.

Lemma firstOccurrences_fmap_snoc {A K} `{EqDecision K} (f : A → K) l x :
  firstOccurrences (f <$> (l ++ [x])) = addKey (firstOccurrences (f <$> l)) (f x).
Proof. rewrite fmap_app. apply firstOccurrences_snoc. Qed.

Lemma gridFrom_snoc ws row :
  gridFrom (ws ++ [row]) = Some (writeRow (default [] (gridFrom ws)) row).
Proof.
  unfold gridFrom, gridOfRows. rewrite foldl_app.
  destruct ws as [|w ws]; [done|]. by destruct (ws ++ [row]).
Qed.

Lemma consistentCriteria_prefix rows row :
  consistentCriteria (rows ++ [row]) → consistentCriteria rows.
Proof.
  intros Hc r1 r2 H1 H2. apply Hc; apply elem_of_app; by left.
Qed.

Lemma criterionOf_name rows row criteria :
  consistentCriteria (rows ++ [row]) →
  cacheFrom rows criteria →
  CriterionData.name (criterionOf row criteria) = MeasurementData.criterion row.
Proof.
  intros Hc Hcache. unfold criterionOf.
  destruct (JsMap.get (criterionKey row) criteria) as [cd|] eqn:Hget; [|done].
  destruct (Hcache _ _ Hget) as (r & Hr & Hkey & ->).
  apply Hc; [apply elem_of_app; by left| |done].
  apply elem_of_app. right. apply list_elem_of_here.
Qed.

Lemma collateRow_cacheFrom rows row st :
  cacheFrom rows (criteria st) →
  cacheFrom (rows ++ [row]) (criteria (collateRow simplifyCmdline st row)).
Proof.
  intros Hcache c cd. unfold collateRow.
  repeat match goal with
  | |- context [let '(_, _) := ?x in _] => destruct x
  end.
  cbn [criteria]. unfold criterionOf.
  destruct (JsMap.get (criterionKey row) (criteria st)) as [cd'|] eqn:Hget.
  - intros Hc. destruct (Hcache _ _ Hc) as (r & Hr & ? & ?).
    exists r. split; [apply elem_of_app; by left|done].
  - destruct (decide (c = criterionKey row)) as [->|Hne].
    + rewrite JsMapFacts.get_set_eq. intros [= <-].
      exists row. split; [|done].
      apply elem_of_app. right. apply list_elem_of_here.
    + rewrite JsMapFacts.get_set_ne by done.
      intros Hc. destruct (Hcache _ _ Hc) as (r & Hr & ? & ?).
      exists r. split; [apply elem_of_app; by left|done].
Qed.

Lemma initial_stateAfter : stateAfter [] initial.
Proof.
  split_and!.
  - by split_and!.
  - split; [apply NoDup_nil_2|]. intros e m H. by apply elem_of_nil in H.
  - intros e s b m H. by apply elem_of_nil in H.
  - intros c cd H. done.
Qed.

Lemma collateRow_stateAfter rows row st :
  consistentCriteria (rows ++ [row]) →
  stateAfter rows st →
  stateAfter (rows ++ [row]) (collateRow simplifyCmdline st row).
Proof.
  intros Hc (Hbuilt & Hnd & Hcover & Hcache).
  pose proof (criterionOf_name rows row (criteria st) Hc Hcache) as Hname.
  split_and!.
  - destruct Hbuilt as (B1 & B2 & B3 & B4 & B5 & B6).
    rewrite collateRow_byExeSuiteBench. split_and!.
    + by rewrite insertRow_exeKeys, B1, firstOccurrences_fmap_snoc.
    + intros e. rewrite insertRow_suiteKeys, B2.
      unfold rowsOfExe. rewrite filter_snoc.
      destruct (decide (e = MeasurementData.exe row)) as [->|He].
      * rewrite decide_True by done.
        by rewrite firstOccurrences_fmap_snoc.
      * by rewrite decide_False by (by intros <-).
    + intros e s. rewrite insertRow_benchKeys, B3.
      unfold rowsOfSuite. rewrite filter_snoc.
      case_decide as H1; [destruct H1 as [-> ->]|].
      * rewrite decide_True by done.
        by rewrite firstOccurrences_fmap_snoc.
      * by rewrite decide_False by (intros [<- <-]; by apply H1).
    + intros e s. rewrite insertRow_criteriaCreated_addKey, B4 by done.
      unfold rowsOfSuite. rewrite filter_snoc.
      case_decide as H1; [destruct H1 as [-> ->]|].
      * rewrite (decide_True (P := _ = _ ∧ _)) by done.
        rewrite fmap_app.
        change (MeasurementData.criterion <$> [row])
          with [MeasurementData.criterion row].
        rewrite (filter_snoc makesEntry).
        case_decide; [|done]. by rewrite firstOccurrences_snoc.
      * by rewrite decide_False by (intros [<- <-]; by apply H1).
    + intros e s b. rewrite insertRow_seriesKeys, B5 by done.
      unfold rowsOfBench. rewrite filter_snoc.
      case_decide as H1; [destruct H1 as (-> & -> & ->)|].
      * rewrite decide_True by done.
        by rewrite firstOccurrences_fmap_snoc.
      * by rewrite decide_False by (intros (<- & <- & <-); by apply H1).
    + intros e s b k. rewrite insertRow_gridOf, B6 by done.
      unfold rowsOfSeries. rewrite filter_snoc.
      case_decide as H1; [destruct H1 as ((-> & -> & ->) & ->)|].
      * rewrite decide_True by done. by rewrite gridFrom_snoc.
      * by rewrite decide_False by (intros ((<- & <- & <-) & <-); by apply H1).
  - rewrite collateRow_byExeSuiteBench. by apply insertRow_noDupKeys.
  - rewrite collateRow_byExeSuiteBench. by apply insertRow_criteriaCover.
  - by apply collateRow_cacheFrom.
Qed.

Lemma collated_stateAfter rows :
  consistentCriteria rows →
  stateAfter rows (foldl (collateRow simplifyCmdline) initial rows).
Proof.
  induction rows as [|row rows IH] using rev_ind; intros Hc.
  - apply initial_stateAfter.
  - rewrite foldl_app. apply collateRow_stateAfter; [done|].
    apply IH. by eapply consistentCriteria_prefix.
Qed.

(** The levels come out as the rows give them, whatever the criteria. *)
Lemma collated_levelsFrom rows :
  levelsFrom rows
    (byExeSuiteBench (foldl (collateRow simplifyCmdline) initial rows)).
Proof.
  induction rows as [|row rows IH] using rev_ind.
  - split_and!; [|done..].
    split; [apply NoDup_nil_2|]. intros e m H. by apply elem_of_nil in H.
  - destruct IH as (Hnd & B1 & B2 & B3).
    rewrite foldl_app. cbn [foldl]. rewrite collateRow_byExeSuiteBench.
    split_and!.
    + by apply insertRow_noDupKeys.
    + by rewrite insertRow_exeKeys, B1, firstOccurrences_fmap_snoc.
    + intros e. rewrite insertRow_suiteKeys, B2.
      unfold rowsOfExe. rewrite filter_snoc.
      destruct (decide (e = MeasurementData.exe row)) as [->|He].
      * rewrite decide_True by done.
        by rewrite firstOccurrences_fmap_snoc.
      * by rewrite decide_False by (by intros <-).
    + intros e s. rewrite insertRow_benchKeys, B3.
      unfold rowsOfSuite. rewrite filter_snoc.
      case_decide as H1; [destruct H1 as [-> ->]|].
      * rewrite decide_True by done.
        by rewrite firstOccurrences_fmap_snoc.
      * by rewrite decide_False by (intros [<- <-]; by apply H1).
Qed.


(** *** Rows in another order *)

Lemma fmap_inj_on_NoDup {A B} (f : A → B) (l : list A) x y :
  NoDup (f <$> l) → x ∈ l → y ∈ l → f x = f y → x = y.
Proof.
  induction l as [|z l IH]; csimpl; [by intros _ ?%elem_of_nil|].
  rewrite NoDup_cons. intros [Hz Hnd] Hx Hy Heq.
  apply elem_of_cons in Hx as [->|Hx]; apply elem_of_cons in Hy as [->|Hy].
  - done.
  - exfalso. apply Hz. rewrite Heq. by apply list_elem_of_fmap_2.
  - exfalso. apply Hz. rewrite <-Heq. by apply list_elem_of_fmap_2.
  - by apply IH.
Qed.

Lemma writeRow_comm g r1 r2 :
  slot r1 ≠ slot r2 → writeRow (writeRow g r1) r2 = writeRow (writeRow g r2) r1.
Proof. intros Hne. unfold writeRow. apply writeValue_comm. by intros ?. Qed.

Lemma foldl_writeRow_Permutation ws ws' g :
  ws ≡ₚ ws' → NoDup (slot <$> ws) →
  foldl writeRow g ws = foldl writeRow g ws'.
Proof.
  intros Hp. revert g.
  induction Hp as [|x l l' Hp IH|x y l|l l' l'' Hp1 IH1 Hp2 IH2];
    intros g; csimpl.
  - done.
  - rewrite NoDup_cons. intros [_ Hnd]. by apply IH.
  - rewrite !NoDup_cons, not_elem_of_cons. intros ((Hne & _) & _).
    f_equal. apply writeRow_comm. done.
  - intros Hnd. rewrite IH1 by done. apply IH2. by rewrite <-Hp1.
Qed.

Lemma gridFrom_Permutation ws ws' :
  ws ≡ₚ ws' → NoDup (slot <$> ws) → gridFrom ws = gridFrom ws'.
Proof.
  intros Hp Hnd. unfold gridFrom, gridOfRows.
  rewrite (foldl_writeRow_Permutation ws ws' [] Hp Hnd).
  destruct ws as [|w ws].
  - apply Permutation_nil_l in Hp. by subst ws'.
  - destruct ws' as [|w' ws']; [|done].
    by apply Permutation_nil_r in Hp.
Qed.

Lemma NoDup_slots_of_series rows e s b k :
  NoDup (cell <$> rows) → NoDup (slot <$> rowsOfSeries e s b k rows).
Proof.
  intros Hnd. apply NoDup_fmap_2_strong.
  - intros x y [[(Hx1 & Hx2 & Hx3) Hx4] Hx]%list_elem_of_filter
                [[(Hy1 & Hy2 & Hy3) Hy4] Hy]%list_elem_of_filter Heq.
    apply (fmap_inj_on_NoDup cell rows); [done..|].
    unfold cell. unfold slot in Heq. injection Heq as -> ->.
    by rewrite Hx1, Hx2, Hx3, Hx4, Hy1, Hy2, Hy3, Hy4.
  - apply NoDup_filter. by eapply NoDup_fmap_1.
Qed.

Lemma consistentCriteria_Permutation rows rows' :
  rows ≡ₚ rows' → consistentCriteria rows → consistentCriteria rows'.
Proof.
  intros Hp Hc r1 r2 H1 H2. apply Hc; by rewrite Hp.
Qed.

End with_parameters.

End CollateFacts.

(** ** Facts about sorting *)

Module SortFacts.
Import Collate.

Section sort.
Context {A : Type} (compareFn : A → A → Z).
Implicit Types (l : list A) (x y : A).

Lemma insert_Permutation x l : JsSort.insert compareFn x l ≡ₚ x :: l.
Proof.
  induction l as [|y l IH]; simpl; [done|].
  case_decide; [done|]. rewrite IH. apply Permutation_swap.
Qed.

Lemma sort_Permutation l : JsSort.sort compareFn l ≡ₚ l.
Proof.
  induction l as [|x l IH]; simpl; [done|].
  by rewrite insert_Permutation, IH.
Qed.

Hypothesis total : ∀ x y, compareFn x y ≤ 0 ∨ compareFn y x ≤ 0.
Hypothesis trans :
  ∀ x y z, compareFn x y ≤ 0 → compareFn y z ≤ 0 → compareFn x z ≤ 0.

Lemma insert_StronglySorted x l :
  StronglySorted (λ a b, compareFn a b ≤ 0) l →
  StronglySorted (λ a b, compareFn a b ≤ 0) (JsSort.insert compareFn x l).
Proof.
  induction l as [|y l IH]; simpl; intros Hs.
  - by repeat constructor.
  - apply StronglySorted_inv in Hs as [Hs Hy].
    case_decide as Hxy.
    + constructor; [by constructor|].
      constructor; [done|].
      eapply Forall_impl; [exact Hy|]. intros z Hz. by eapply trans.
    + constructor; [by apply IH|].
      rewrite insert_Permutation. constructor; [|done].
      destruct (total x y); [done|done].
Qed.

Lemma sort_StronglySorted l :
  StronglySorted (λ a b, compareFn a b ≤ 0) (JsSort.sort compareFn l).
Proof.
  induction l as [|x l IH]; simpl; [constructor|].
  by apply insert_StronglySorted.
Qed.

End sort.

Section sort_keys.
Variable localeCompare : string → string → Z.
Context {V : Type}.
Implicit Types (m : list (string * V)).

Lemma insert_keys (p : string * V) m :
  (JsSort.insert (compareKeys localeCompare) p m).*1
  = JsSort.insert localeCompare p.1 m.*1.
Proof.
  induction m as [|q m IH]; csimpl; [done|].
  unfold compareKeys at 1.
  destruct (decide (localeCompare p.1 q.1 ≤ 0)); csimpl; [done|].
  by rewrite IH.
Qed.

Lemma sort_keys m :
  (JsSort.sort (compareKeys localeCompare) m).*1
  = JsSort.sort localeCompare m.*1.
Proof.
  induction m as [|p m IH]; csimpl; [done|]. by rewrite insert_keys, IH.
Qed.

Lemma NoDup_sort_keys m :
  NoDup m.*1 → NoDup (JsSort.sort (compareKeys localeCompare) m).*1.
Proof. intros Hnd. by rewrite sort_keys, sort_Permutation. Qed.

Lemma get_sort k m :
  NoDup m.*1 →
  JsMap.get k (JsSort.sort (compareKeys localeCompare) m) = JsMap.get k m.
Proof.
  intros Hnd. destruct (JsMap.get k m) as [v|] eqn:Hget.
  - apply JsMapFacts.elem_get_NoDup; [by apply NoDup_sort_keys|].
    rewrite sort_Permutation. by apply JsMapFacts.get_Some_elem.
  - apply JsMapFacts.get_None_keys. apply JsMapFacts.get_None_keys in Hget.
    unfold JsMap.keys in *. by rewrite sort_keys, sort_Permutation.
Qed.

Lemma of_entries_sort m :
  NoDup m.*1 →
  JsMap.of_entries (JsSort.sort (compareKeys localeCompare) m)
  = JsSort.sort (compareKeys localeCompare) m.
Proof. intros Hnd. by apply JsMapFacts.of_entries_NoDup, NoDup_sort_keys. Qed.

Lemma fmap_values_keys {W} (g : V → W) m :
  ((λ p : string * V, (p.1, g p.2)) <$> m).*1 = m.*1.
Proof. induction m as [|[k v] m IH]; csimpl; [done|]. by rewrite IH. Qed.

Lemma get_fmap_values {W} (g : V → W) k m :
  JsMap.get k ((λ p : string * V, (p.1, g p.2)) <$> m) = g <$> JsMap.get k m.
Proof.
  induction m as [|[k' v] m IH]; csimpl; [done|]. by case_decide.
Qed.

Lemma sortMap_unfold {W} (g : V → W) m :
  NoDup (JsMap.keys m) →
  sortMap localeCompare g m
  = (λ p : string * V, (p.1, g p.2))
      <$> JsSort.sort (compareKeys localeCompare) m.
Proof.
  intros Hnd. unfold sortMap. apply JsMapFacts.of_entries_NoDup.
  rewrite fmap_values_keys. by apply NoDup_sort_keys.
Qed.

Lemma keys_sortMap {W} (g : V → W) m :
  NoDup (JsMap.keys m) →
  JsMap.keys (sortMap localeCompare g m)
  = JsSort.sort localeCompare (JsMap.keys m).
Proof.
  intros Hnd. rewrite sortMap_unfold by done. unfold JsMap.keys.
  by rewrite fmap_values_keys, sort_keys.
Qed.

Lemma get_sortMap {W} (g : V → W) k m :
  NoDup (JsMap.keys m) →
  JsMap.get k (sortMap localeCompare g m) = g <$> JsMap.get k m.
Proof.
  intros Hnd. rewrite sortMap_unfold by done.
  by rewrite get_fmap_values, get_sort.
Qed.

End sort_keys.

(** *** The sorted hierarchy *)

Section sorted_result.
Variable localeCompare : string → string → Z.
Implicit Types (res : list (string * list (string * ResultsByBenchmark.t))).

Lemma sortResultsAlphabetically_sortMap res :
  sortResultsAlphabetically localeCompare res
  = sortMap localeCompare
      (sortMap localeCompare (sortBenchmarks localeCompare)) res.
Proof. done. Qed.

Lemma sorted_suiteOf res e s :
  noDupKeys res →
  suiteOf (sortResultsAlphabetically localeCompare res) e s
  = sortBenchmarks localeCompare <$> suiteOf res e s.
Proof.
  intros [Hnd Hall]. unfold suiteOf.
  rewrite sortResultsAlphabetically_sortMap, get_sortMap by done.
  destruct (JsMap.get e res) as [m|] eqn:Hget; simpl; [|done].
  apply JsMapFacts.get_Some_elem in Hget.
  destruct (Hall _ _ Hget) as [Hnd' _]. by rewrite get_sortMap.
Qed.

Lemma sorted_exeKeys res :
  noDupKeys res →
  exeKeys (sortResultsAlphabetically localeCompare res)
  = JsSort.sort localeCompare (exeKeys res).
Proof.
  intros [Hnd _]. unfold exeKeys.
  by rewrite sortResultsAlphabetically_sortMap, keys_sortMap.
Qed.

Lemma sorted_suiteKeys res e :
  noDupKeys res →
  suiteKeys (sortResultsAlphabetically localeCompare res) e
  = JsSort.sort localeCompare (suiteKeys res e).
Proof.
  intros [Hnd Hall]. unfold suiteKeys.
  rewrite sortResultsAlphabetically_sortMap, get_sortMap by done.
  destruct (JsMap.get e res) as [m|] eqn:Hget; simpl; [|done].
  apply JsMapFacts.get_Some_elem in Hget.
  destruct (Hall _ _ Hget) as [Hnd' _]. by rewrite keys_sortMap.
Qed.

Lemma suiteOf_elem res e s r :
  suiteOf res e s = Some r → ∃ m, (e, m) ∈ res ∧ (s, r) ∈ m.
Proof.
  unfold suiteOf. destruct (JsMap.get e res) as [m|] eqn:Hget; [|done].
  simpl. intros Hs. exists m.
  split; by apply JsMapFacts.get_Some_elem.
Qed.

Lemma sorted_benchKeys res e s :
  noDupKeys res →
  benchKeys (sortResultsAlphabetically localeCompare res) e s
  = JsSort.sort localeCompare (benchKeys res e s).
Proof.
  intros Hnd. unfold benchKeys. rewrite sorted_suiteOf by done.
  destruct (suiteOf res e s) as [r|] eqn:Hs; simpl; [|done].
  apply suiteOf_elem in Hs as (m & Hm & Hr).
  destruct Hnd as [_ Hall]. destruct (Hall _ _ Hm) as [_ Hall'].
  specialize (Hall' _ _ Hr). unfold JsMap.keys in *.
  by rewrite of_entries_sort, sort_keys.
Qed.



Lemma sorted_seriesOf res e s b :
  noDupKeys res →
  seriesOf (sortResultsAlphabetically localeCompare res) e s b
  = seriesOf res e s b.
Proof.
  intros Hnd. unfold seriesOf, benchOf. rewrite sorted_suiteOf by done.
  destruct (suiteOf res e s) as [r|] eqn:Hs; simpl; [|done].
  apply suiteOf_elem in Hs as (m & Hm & Hr).
  destruct Hnd as [_ Hall]. destruct (Hall _ _ Hm) as [_ Hall'].
  specialize (Hall' _ _ Hr).
  by rewrite of_entries_sort, get_sort.
Qed.

End sorted_result.

End SortFacts.

(** ** Facts about plain objects *)

Module JsObjectFacts.
Import Collate.
Import CollateFacts.
Import SortFacts.








(** The listing has the keys of the object, each once. *)
Lemma ownKeyOrder_Permutation ks : JsObject.ownKeyOrder ks ≡ₚ ks.
Proof.
  unfold JsObject.ownKeyOrder. rewrite sort_Permutation.
  induction ks as [|k ks IH]; [done|].
  unfold JsObject.indexed in *. csimpl. rewrite filter_cons.
  destruct (JsObject.arrayIndex k) as [n|] eqn:Hk; csimpl.
  - by rewrite IH.
  - rewrite <-Permutation_middle. by rewrite IH.
Qed.



End JsObjectFacts.

(** ** The numeric-aware comparison is consistent *)

Module NumericCollationFacts.
Import NumericCollation.

Lemma lexCompare_antisym k1 k2 : lexCompare k2 k1 = CompOpp (lexCompare k1 k2).
Proof.
  revert k2. induction k1 as [|x k1 IH]; intros [|y k2]; simpl; try done.
  rewrite (N.compare_antisym x y).
  destruct (x ?= y)%N; simpl; [apply IH|done..].
Qed.

Lemma lexCompare_trans k1 k2 k3 :
  lexCompare k1 k2 ≠ Gt → lexCompare k2 k3 ≠ Gt → lexCompare k1 k3 ≠ Gt.
Proof.
  revert k2 k3. induction k1 as [|x k1 IH]; intros [|y k2] [|z k3]; simpl;
    try done.
  destruct (x ?= y)%N eqn:Hxy; [|intros _|done].
  - apply N.compare_eq in Hxy as ->.
    destruct (y ?= z)%N; [apply IH|done..].
  - destruct (y ?= z)%N eqn:Hyz; [| |done]; intros _.
    + apply N.compare_eq in Hyz as <-. by rewrite Hxy.
    + assert ((x ?= z)%N = Lt) as ->
        by exact (N.lt_trans x y z Hxy Hyz).
      done.
Qed.

Lemma numericCompare_le a b :
  numericCompare a b ≤ 0 ↔ lexCompare (tokens None a) (tokens None b) ≠ Gt.
Proof.
  unfold numericCompare.
  destruct (lexCompare (tokens None a) (tokens None b)); split; intros H;
    try done; lia.
Qed.

Lemma numericCompare_consistent : Collate.consistentCompare numericCompare.
Proof.
  split.
  - intros a b. rewrite !numericCompare_le.
    rewrite (lexCompare_antisym (tokens None a) (tokens None b)).
    destruct (lexCompare (tokens None a) (tokens None b)); simpl; auto.
  - intros a b c. rewrite !numericCompare_le. apply lexCompare_trans.
Qed.

End NumericCollationFacts.

(** ** Properties of the timeline engine *)

Section timeline_properties.
Import Timeline.
Import BatchingTimelineUpdater.
Import TimelineFacts.
Context {Db : Type} `{!Database Db}.
Implicit Types (env : Env Db) (u : BatchingTimelineUpdater.t) (st : State Db).


(** C10.  When a [recordTimeline] call is rejected during [receiveResults],
    the call throws and leaves the updater as it was: [activeRequests] is not
    decremented at all, the resolver is still in place, no promise is
    settled and no resolver is called.  The results in front of the rejected
    one have been persisted all the same: their calls are in the trace. *)
Theorem receiveResults_failure_skips_decrement
    (r : ComputeResults) (st : State Db) (x : ComputeResult) :
  EvRecordTimeline x false
    ∈ newEvents (trace st.2) (trace (receiveResults r st).1.2) →
  (receiveResults r st).2 = Threw ∧
  (receiveResults r st).1.1 = st.1 ∧
  activeRequests (receiveResults r st).1.1 = activeRequests st.1 ∧
  heap (receiveResults r st).1.2 = heap st.2 ∧
  resolveCalls (newEvents (trace st.2) (trace (receiveResults r st).1.2)) = [] ∧
  ∃ accepted rest,
    results r = accepted ++ x :: rest ∧
    newEvents (trace st.2) (trace (receiveResults r st).1.2)
    = (succeeded <$> accepted) ++ [EvRecordTimeline x false].
Proof.
  destruct st as [u env]. unfold newEvents.
  destruct (receiveResults_cases r u env)
    as [(env' & accepted & failed & rest & -> & Hrs & Hheap & Htr)
       |(env1 & Hheap & Htr & ->)]; simpl.
  - rewrite Htr, drop_app_length.
    rewrite elem_of_app, list_elem_of_singleton.
    intros [Hin|[= ->]]; [by apply no_failed_call_in_succeeded in Hin|].
    split_and!; try done.
    + by rewrite resolveCalls_app, resolveCalls_succeeded.
    + by exists accepted, rest.
  - intros Hin. exfalso. revert Hin.
    destruct (completes r u); simpl; rewrite Htr, <-?app_assoc, drop_app_length.
    + rewrite elem_of_app. intros [Hin|Hin].
      * by apply no_failed_call_in_succeeded in Hin.
      * by repeat (apply elem_of_cons in Hin as [[=]|Hin]);
          apply elem_of_nil in Hin.
    + apply no_failed_call_in_succeeded.
Qed.

(** C3.  On an empty pending-job table [submitUpdateJobs] returns a promise
    that is already settled with 0, posts nothing to the worker (the trace
    is unchanged) and leaves the updater and the database as they were. *)
Theorem submitUpdateJobs_empty_resolves_to_zero (now : Z) (st : State Db) :
  requests st.1 = JsMap.empty →
  Promise.state (heap (submitUpdateJobs now st).1.2) (submitUpdateJobs now st).2
    = Some (Promise.VNum 0) ∧
  trace (submitUpdateJobs now st).1.2 = trace st.2 ∧
  postedMessages (newEvents (trace st.2) (trace (submitUpdateJobs now st).1.2))
    = [] ∧
  (submitUpdateJobs now st).1.1 = st.1 ∧
  db (submitUpdateJobs now st).1.2 = db st.2.
Proof.
  destruct st as [[w rs a n p q] env]. simpl. intros ->.
  unfold submitUpdateJobs, newEvents, Promise.state. simpl.
  rewrite drop_all. split_and!; try done.
  by rewrite list_lookup_middle.
Qed.

(** C1, as it holds.  Let no wave be in flight ([activeRequests] is 0) and
    let [submitUpdateJobs] dispatch the N > 0 pending jobs.  Let the batches
    passed to [receiveResults] cover exactly the N results: the batches
    [pre] leave some outstanding, [b] brings the last ones, and [post]
    brings none.  If no [recordTimeline] call is rejected and [b] carries a
    truthy [requestStart], then the dispatch sets the counter to N and posts
    one request with the N jobs, the counter ends at 0 after going from a
    non-zero value to 0 exactly once, the promise returned by
    [submitUpdateJobs] is pending after the dispatch and settled with N in
    the end, and a resolver is called exactly once in between, for this
    promise and with N. *)
Theorem wave_completes_once
    (now : Z) (st : State Db) (pre : list ComputeResults) (b : ComputeResults)
    (post : list ComputeResults) :
  activeRequests st.1 = 0 →
  (totalResults pre + length (results b)
   = length (JsMap.values (requests st.1)))%nat →
  (0 < length (results b))%nat →
  totalResults post = 0%nat →
  truthy (resRequestStart b) = true →
  allReturned (receiveBatches (pre ++ b :: post) (submitUpdateJobs now st).1) →
  let N := Z.of_nat (length (JsMap.values (requests st.1))) in
  let sub := submitUpdateJobs now st in
  let hist := receiveBatches (pre ++ b :: post) sub.1 in
  activeRequests sub.1.1 = N ∧
  postedMessages (newEvents (trace st.2) (trace sub.1.2))
    = [PostRequest (Build_ComputeRequest (JsMap.values (requests st.1)) now)] ∧
  Promise.state (heap sub.1.2) sub.2 = None ∧
  activeRequests (finalState sub.1 hist).1 = 0 ∧
  returnsToZero (activeRequests sub.1.1) (counters hist) = 1%nat ∧
  Promise.state (heap (finalState sub.1 hist).2) sub.2 = Some (Promise.VNum N) ∧
  resolveCalls (newEvents (trace sub.1.2) (trace (finalState sub.1 hist).2))
    = [(sub.2, Promise.VNum N)].
Proof.
  intros Hact Htot Hb Hpost Htruthy Hret N sub hist. subst N sub hist.
  destruct st as [u env]. cbn [fst snd] in *.
  revert Hret. unfold submitUpdateJobs, consumeUpdateJobsForBenchmarking,
    processUpdateJobs, TimelineWorker.sendRequest, newEvents, with_requests.
  cbn [fst snd]. rewrite decide_False by lia.
  cbn [Promise.alloc emit heap trace db fst snd activeRequests worker
       requests].
  intros Hret.
  match type of Hret with
  | allReturned (receiveBatches _ (?u', ?env')) =>
      destruct (wave_progress (length (heap env))
                  (activeRequests u
                   + Z.of_nat (length (JsMap.values (requests u))))
                  b post pre u' env')
        as (W1 & W2 & (new & W3 & W4) & W5);
        [done|done|by apply list_lookup_middle
        |cbn [activeRequests]; lia|done|done|done|done|]
  end.
  cbn [activeRequests trace heap] in *. rewrite Hact in *.
  rewrite !Z.add_0_l in *.
  rewrite !drop_app_length. split_and!; try done.
  - unfold Promise.state. by rewrite list_lookup_middle.
  - by rewrite W3, drop_app_length.
Qed.

(** C2.  After any sequence of [addValues] calls, for this and for other
    keys, the entry of the key [(runId, trialId, criterionId)] holds what it
    held before followed by the non-null values of the calls for that key, in
    call order.  If there was no entry, there is one exactly when some call
    for the key passed a non-null value, and its array is the concatenation
    of these values; calls with nulls only contribute nothing. *)
Theorem addValues_concatenates_non_null
    (runId trialId criterionId : Z) (calls : list AddValuesCall)
    (u : BatchingTimelineUpdater.t) :
  JsMap.get (jobId trialId runId criterionId)
            (requests (foldl (λ u c, addValuesCall c u) u calls)) =
  match JsMap.get (jobId trialId runId criterionId) (requests u) with
  | Some job =>
      Some (Build_ComputeJob (Timeline.runId job) (Timeline.trialId job)
              (criterion job)
              (dataForCriterion job ++ valuesFor runId trialId criterionId calls))
  | None =>
      if decide (valuesFor runId trialId criterionId calls = []) then None
      else Some (Build_ComputeJob runId trialId criterionId
                   (valuesFor runId trialId criterionId calls))
  end.
Proof.
  revert u. induction calls as [|call calls IH]; intros u.
  - simpl. destruct (JsMap.get _ _) as [[]|]; simpl; [|done].
    by rewrite app_nil_r.
  - cbn [foldl]. rewrite IH, valuesFor_cons. unfold addValuesCall, callFor.
    case_bool_decide as Hfor.
    + destruct Hfor as (-> & -> & ->). rewrite addValues_get_same.
      destruct (JsMap.get _ (requests u)) as [job|]; simpl.
      * by rewrite <-app_assoc.
      * destruct (filterNotNull (callValues call)) as [|x xs]; simpl; [done|].
        done.
    + rewrite addValues_get_other; [done|].
      intros Heq. apply jobId_inj in Heq as (? & ? & ?). by apply Hfor.
Qed.

(** C4.  Whatever calls have reached an updater since its creation, its
    pending-job table holds at most one job per
    [(trialId, runId, criterionId)] and every job in it has a non-empty
    [dataForCriterion]. *)
Theorem pending_jobs_unique_and_non_empty (ops : list Op) (d : Db) :
  let table := JsMap.values (requests (run ops (init d)).1) in
  (∀ i j job1 job2,
      table !! i = Some job1 → table !! j = Some job2 →
      trialId job1 = trialId job2 → runId job1 = runId job2 →
      criterion job1 = criterion job2 →
      i = j) ∧
  (∀ job, job ∈ table → dataForCriterion job ≠ []).
Proof.
  intros table. subst table.
  destruct (run_tableOk ops (init d) tableOk_empty) as [Hnd Hall].
  set (m := requests (run ops (init d)).1) in *. unfold JsMap.values. split.
  - intros i j job1 job2 Hi Hj Ht Hr Hc.
    apply list_lookup_fmap_Some in Hi as ([k1 j1] & -> & Hi).
    apply list_lookup_fmap_Some in Hj as ([k2 j2] & -> & Hj).
    simpl in *.
    destruct (Hall k1 j1) as [-> _]; [by eapply list_elem_of_lookup_2|].
    destruct (Hall k2 j2) as [-> _]; [by eapply list_elem_of_lookup_2|].
    eapply NoDup_lookup; [exact Hnd| |].
    + unfold JsMap.keys. rewrite list_lookup_fmap, Hi. done.
    + unfold JsMap.keys. rewrite list_lookup_fmap, Hj. simpl.
      by rewrite Ht, Hr, Hc.
  - intros job Hin. apply list_elem_of_fmap in Hin as ([k ?] & -> & Hin).
    by destruct (Hall _ _ Hin).
Qed.

End timeline_properties.

(** ** Closed instances, on the database double *)

Section timeline_instances.
Import Timeline.
Import BatchingTimelineUpdater.
Import StoreDb.

(** Two calls for one key with a call for another key in between, which
    passes nulls only: one job, filed under "trialId-runId-criterionId". *)
Example addValues_one_job :
  requests
    (run [AddValues 2 1 3 [Some 5; None];
          AddValues 9 9 9 [None; None];
          AddValues 2 1 3 [None; Some 7]] (init (Db:=StoreDb.t) [])).1
  = [("1-2-3", Build_ComputeJob 2 1 3 [5; 7])].
Proof. by vm_compute. Qed.

Example jobId_negative_run : jobId 1 (-2) 3 = "1--2-3".
Proof. by vm_compute. Qed.

(** A wave of two jobs whose results arrive in two batches: what the engine
    does to its collaborators, in order. *)
Example wave_of_two_trace :
  trace (run [SubmitUpdateJobs 7;
              Message (Response (batch [result 2 1 1] 7));
              Message (Response (batch [result 1 1 1] 7))]
             twoJobsPending).2
  = [EvPostMessage
       (PostRequest
          (Build_ComputeRequest
             [Build_ComputeJob 1 1 1 [5]; Build_ComputeJob 2 1 1 [6]] 7));
     EvRecordTimeline (result 2 1 1) true;
     EvRecordTimeline (result 1 1 1) true;
     EvResolve 0%nat (Promise.VNum 2);
     EvCompleteRequest 7 "generate-timeline"].
Proof. by vm_compute. Qed.

Lemma receiveResults_failure_skips_decrement_witness :
  EvRecordTimeline (StoreDb.result (-1) 1 1) false
    ∈ newEvents (trace StoreDb.oneJobInFlight.2)
        (trace (receiveResults StoreDb.batchWithRejectedResult
                  StoreDb.oneJobInFlight).1.2) ∧
  activeRequests
    (receiveResults StoreDb.batchWithRejectedResult StoreDb.oneJobInFlight).1.1
  = 1.
Proof.
  assert (EvRecordTimeline (StoreDb.result (-1) 1 1) false
    ∈ newEvents (trace StoreDb.oneJobInFlight.2)
        (trace (receiveResults StoreDb.batchWithRejectedResult
                  StoreDb.oneJobInFlight).1.2)) as Hin.
  { vm_compute. apply list_elem_of_further, list_elem_of_here. }
  split; [exact Hin|].
  destruct (receiveResults_failure_skips_decrement
              StoreDb.batchWithRejectedResult StoreDb.oneJobInFlight
              (StoreDb.result (-1) 1 1) Hin) as (_ & _ & -> & _).
  reflexivity.
Defined.

Lemma submitUpdateJobs_empty_resolves_to_zero_witness :
  requests (init (Db:=StoreDb.t) []).1 = JsMap.empty ∧
  Promise.state (heap (submitUpdateJobs 7 (init (Db:=StoreDb.t) [])).1.2)
                (submitUpdateJobs 7 (init (Db:=StoreDb.t) [])).2
  = Some (Promise.VNum 0).
Proof.
  split; [reflexivity|].
  apply (submitUpdateJobs_empty_resolves_to_zero 7 (init (Db:=StoreDb.t) [])).
  reflexivity.
Defined.

(** C1 as stated fails at two inputs, each a wave of one job dispatched
    with no other wave in flight and one batch with the one result.  In the
    first the database rejects the result: the counter stays at 1 and the
    promise stays pending.  In the second the result is accepted but the
    batch carries the start marker 0: the counter returns to 0 and the
    promise stays pending all the same. *)
Lemma wave_completes_counterexample :
  (let st := oneJobPending in
   let sub := submitUpdateJobs 7 st in
   let bs := [batch [result (-1) 1 1] 7] in
   let final := finalState sub.1 (receiveBatches bs sub.1) in
   activeRequests st.1 = 0 ∧
   length (JsMap.values (requests st.1)) = 1%nat ∧
   totalResults bs = 1%nat ∧
   activeRequests final.1 = 1 ∧
   Promise.state (heap final.2) sub.2 = None)
  ∧
  (let st := oneJobPending in
   let sub := submitUpdateJobs 0 st in
   let bs := [batch [result 1 1 1] 0] in
   let final := finalState sub.1 (receiveBatches bs sub.1) in
   activeRequests st.1 = 0 ∧
   length (JsMap.values (requests st.1)) = 1%nat ∧
   totalResults bs = 1%nat ∧
   (receiveResults (batch [result 1 1 1] 0) sub.1).2 = Returned ∧
   activeRequests final.1 = 0 ∧
   Promise.state (heap final.2) sub.2 = None).
Proof. vm_compute. repeat split. Qed.

Lemma wave_completes_once_witness :
  let st := twoJobsPending in
  let pre := [batch [result 1 1 1] 7] in
  let b := batch [result 2 1 1] 7 in
  let post := [batch [] 7] in
  let sub := submitUpdateJobs 7 st in
  let hist := receiveBatches (pre ++ b :: post) sub.1 in
  activeRequests st.1 = 0 ∧
  allReturned hist ∧
  activeRequests (finalState sub.1 hist).1 = 0 ∧
  returnsToZero (activeRequests sub.1.1) (counters hist) = 1%nat ∧
  Promise.state (heap (finalState sub.1 hist).2) sub.2 = Some (Promise.VNum 2).
Proof.
  assert (allReturned
            (receiveBatches ([batch [result 1 1 1] 7]
                             ++ batch [result 2 1 1] 7 :: [batch [] 7])
               (submitUpdateJobs 7 twoJobsPending).1)) as Hret.
  { vm_compute. repeat constructor. }
  destruct (wave_completes_once 7 twoJobsPending [batch [result 1 1 1] 7]
              (batch [result 2 1 1] 7) [batch [] 7])
    as (_ & _ & _ & W1 & W2 & W3 & _);
    [reflexivity|reflexivity|vm_compute; lia|reflexivity|reflexivity
    |exact Hret|].
  cbv zeta. split_and!; [reflexivity|exact Hret|exact W1|exact W2|exact W3].
Defined.

End timeline_instances.

(** ** Properties of the collation *)

Section collate_properties.
Import Collate.
Import CollateFacts.
Import SortFacts.
Variable simplifyCmdline : string → string.
Variable localeCompare : string → string → Z.

#[local] Abbreviation collated rows :=
  (collateMeasurements simplifyCmdline localeCompare rows).
#[local] Abbreviation loopState rows := (foldl (collateRow simplifyCmdline) initial rows).


(** C7.  Three rows that differ in invocation, iteration and value only,
    with (1, 1, 10), (1, 2, 20) and (2, 1, 30), collate into one execution
    unit with one suite with one benchmark with exactly one series, whose
    identity is the one of the rows and whose values grid is
    [[10, 20], [30]]. *)
Theorem collate_three_rows_one_series (base : MeasurementData.t) :
  let at_slot invocation iteration value :=
    MeasurementData.mk (MeasurementData.expid base)
      (MeasurementData.runid base) (MeasurementData.trialid base)
      (MeasurementData.commitid base) (MeasurementData.bench base)
      (MeasurementData.exe base) (MeasurementData.suite base)
      (MeasurementData.cmdline base) (MeasurementData.varvalue base)
      (MeasurementData.cores base) (MeasurementData.inputsize base)
      (MeasurementData.extraargs base) invocation iteration
      (MeasurementData.warmup base) (MeasurementData.criterion base)
      (MeasurementData.unit base) value (MeasurementData.envid base) in
  let res := collated [at_slot 1 1 10; at_slot 1 2 20; at_slot 2 1 30] in
  exeKeys res = [MeasurementData.exe base] ∧
  suiteKeys res (MeasurementData.exe base) = [MeasurementData.suite base] ∧
  benchKeys res (MeasurementData.exe base) (MeasurementData.suite base)
    = [MeasurementData.bench base] ∧
  ∃ m,
    seriesOf res (MeasurementData.exe base) (MeasurementData.suite base)
             (MeasurementData.bench base) = [m] ∧
    seriesKey m = rowKey base ∧
    Measurements.values m = [Some [Some 10; Some 20]; Some [Some 30]].
Proof.
  intros at_slot res. subst res.
  set (rows := [at_slot 1 1 10; at_slot 1 2 20; at_slot 2 1 30]).
  set (exe := MeasurementData.exe base).
  set (suite := MeasurementData.suite base).
  set (bench := MeasurementData.bench base).
  assert (consistentCriteria rows) as Hc.
  { intros r1 r2 H1 H2 _. subst rows.
    repeat (apply elem_of_cons in H1 as [->|H1]);
      repeat (apply elem_of_cons in H2 as [->|H2]);
      try done; by apply elem_of_nil in H1 || by apply elem_of_nil in H2. }
  assert (rowsOfExe exe rows = rows) as He.
  { apply filter_all. by repeat constructor. }
  assert (rowsOfSuite exe suite rows = rows) as Hs.
  { apply filter_all. by repeat constructor. }
  assert (rowsOfBench exe suite bench rows = rows) as Hb.
  { apply filter_all. by repeat constructor. }
  assert (rowsOfSeries exe suite bench (rowKey base) rows = rows) as Hk.
  { apply filter_all. by repeat constructor. }
  destruct (collated_stateAfter simplifyCmdline rows Hc)
    as ((B1 & B2 & B3 & _ & B5 & B6) & Hnd & _).
  specialize (B2 exe). specialize (B3 exe suite).
  specialize (B5 exe suite bench). specialize (B6 exe suite bench (rowKey base)).
  rewrite He in B2. rewrite Hs in B3. rewrite Hb in B5. rewrite Hk in B6.
  change (MeasurementData.exe <$> rows) with [exe; exe; exe] in B1.
  change (MeasurementData.suite <$> rows) with [suite; suite; suite] in B2.
  change (MeasurementData.bench <$> rows) with [bench; bench; bench] in B3.
  change (rowKey <$> rows) with [rowKey base; rowKey base; rowKey base] in B5.
  change (gridFrom rows)
    with (Some [Some [Some 10; Some 20]; Some [Some 30]]) in B6.
  rewrite firstOccurrences_thrice in B1, B2, B3.
  pose proof (firstOccurrences_thrice (rowKey base)) as Hkeys.
  rewrite Hkeys in B5.
  unfold collateMeasurements.
  rewrite sorted_exeKeys, sorted_suiteKeys, sorted_benchKeys,
    sorted_seriesOf by done.
  rewrite B1, B2, B3. refine (conj eq_refl (conj eq_refl (conj eq_refl _))).
  unfold seriesKeys, gridOf in *.
  destruct (seriesOf _ exe suite bench) as [|m [|m' ms]]; [done| |done].
  exists m. csimpl in B5.
  assert (seriesKey m = rowKey base) as Hm by congruence.
  split_and!; [done|done|].
  simpl in B6. rewrite decide_True in B6 by done. simpl in B6. congruence.
Qed.

End collate_properties.

(** ** Closed instances of the collation properties *)

Section collate_instances.
Import Collate.
Import Samples.
Import NumericCollation.

(** The sample comparison puts "bench10" behind "bench2". *)
Example numericCompare_bench10_after_bench2 :
  numericCompare "bench2" "bench10" = -1 ∧
  numericCompare "bench10" "bench2" = 1 ∧
  JsSort.sort numericCompare ["bench10"; "bench2"; "bench1"]
  = ["bench1"; "bench2"; "bench10"].
Proof. by vm_compute. Qed.

(** Slots that no row fills stay holes, and a missing invocation leaves the
    inner array out. *)
Example collate_sparse_grid :
  gridOf (collate [row "A" "S" "B" "total" "ms" 3 2 10]) "A" "S" "B" totalKey
  = Some [None; None; Some [None; Some 10]].
Proof. by vm_compute. Qed.



(** C6 as stated fails at three inputs.  Two rows that differ in their
    value only do not share a full identity tuple, yet they are for the same
    slot: the row that comes last wins.  With rows whose criterion and unit
    run into one cache key, the number of series depends on the order.  And
    two rows of one series that are for two slots and name different
    experiments and units give a series with the experiment and the unit of
    the row that comes first. *)
Lemma collate_permutation_counterexample :
  (sameSlotTwice ≡ₚ reverse sameSlotTwice ∧
   NoDup sameSlotTwice ∧
   gridOf (collate sameSlotTwice) "A" "S" "B" totalKey
   = Some [Some [Some 20]] ∧
   gridOf (collate (reverse sameSlotTwice)) "A" "S" "B" totalKey
   = Some [Some [Some 10]])
  ∧
  (barInNames ≡ₚ reverse barInNames ∧
   NoDup (cell <$> barInNames) ∧
   length (seriesOf (collate barInNames) "A" "S" "B") = 3%nat ∧
   length (seriesOf (collate (reverse barInNames)) "A" "S" "B") = 2%nat)
  ∧
  (twoHeaders ≡ₚ reverse twoHeaders ∧
   NoDup (cell <$> twoHeaders) ∧
   (λ m, (Measurements.expId m, CriterionData.unit (Measurements.criterion m)))
     <$> seriesOf (collate twoHeaders) "A" "S" "B" = [(1, "ms")] ∧
   (λ m, (Measurements.expId m, CriterionData.unit (Measurements.criterion m)))
     <$> seriesOf (collate (reverse twoHeaders)) "A" "S" "B" = [(9, "s")]).
Proof.
  split_and!.
  - symmetry. apply reverse_Permutation.
  - unfold sameSlotTwice. apply NoDup_cons. split; [|apply NoDup_singleton].
    intros [=]%list_elem_of_singleton.
  - by vm_compute.
  - by vm_compute.
  - symmetry. apply reverse_Permutation.
  - vm_compute. repeat (apply NoDup_cons; split);
      rewrite ?not_elem_of_cons; try apply NoDup_nil_2;
      split_and?; try apply not_elem_of_nil; by intros [=].
  - by vm_compute.
  - by vm_compute.
  - symmetry. apply reverse_Permutation.
  - vm_compute. repeat (apply NoDup_cons; split);
      rewrite ?not_elem_of_cons; try apply NoDup_nil_2;
      split_and?; try apply not_elem_of_nil; by intros [=].
  - by vm_compute.
  - by vm_compute.
Qed.

End collate_instances.

(** ** More facts about runs of the engine *)

Module TimelineRunsFacts.
Import Timeline.
Import BatchingTimelineUpdater.
Import TimelineRuns.
Import TimelineFacts.
Import JsMapFacts.
Import CollateFacts.

(** *** The table that a sequence of [addValues] calls builds *)

Lemma jobId_key (k k' : CallKey) :
  jobId k.1.2 k.1.1 k.2 = jobId k'.1.2 k'.1.1 k'.2 ↔ k = k'.
Proof.
  split; [|by intros ->].
  intros (? & ? & ?)%jobId_inj. destruct k as [[??]?], k' as [[??]?].
  simpl in *. congruence.
Qed.

Lemma callFor_key r t c call :
  callFor r t c call = bool_decide (callKey call = (r, t, c)).
Proof.
  unfold callFor, callKey. apply bool_decide_ext. split.
  - by intros (-> & -> & ->).
  - by intros [= -> -> ->].
Qed.

Lemma valuesFor_snoc r t c calls call :
  valuesFor r t c (calls ++ [call]) =
  valuesFor r t c calls
  ++ (if callFor r t c call then filterNotNull (callValues call) else []).
Proof.
  unfold valuesFor. rewrite filter_app, fmap_app, join_app.
  f_equal. rewrite filter_cons, filter_nil.
  destruct (callFor r t c call); simpl; [|done]. by rewrite app_nil_r.
Qed.

Lemma valuesFor_nil (k : CallKey) calls :
  k ∉ callKey <$> filter hasValues calls →
  valuesFor k.1.1 k.1.2 k.2 calls = [].
Proof.
  induction calls as [|call calls IH] using rev_ind; [done|].
  rewrite filter_snoc, valuesFor_snoc, callFor_key.
  destruct k as [[r t] c]. simpl in *.
  case_decide as Hv.
  - rewrite fmap_app, not_elem_of_app. intros [Hin Hk]. rewrite IH by done.
    rewrite bool_decide_eq_false_2; [done|].
    intros Heq. apply Hk. rewrite <-Heq. simpl. apply list_elem_of_here.
  - intros Hin. rewrite IH by done. case_bool_decide; [|done].
    simpl. unfold hasValues in Hv. by apply dec_stable in Hv.
Qed.

Lemma get_entries {V} (g : CallKey → V) (k : CallKey) (ks : list CallKey) :
  JsMap.get (jobId k.1.2 k.1.1 k.2)
            ((λ k', (jobId k'.1.2 k'.1.1 k'.2, g k')) <$> ks)
  = if decide (k ∈ ks) then Some (g k) else None.
Proof.
  induction ks as [|k' ks IH]; csimpl.
  - done.
  - destruct (decide (jobId k.1.2 k.1.1 k.2 = jobId k'.1.2 k'.1.1 k'.2))
      as [Heq%jobId_key|Hne].
    + subst k'. rewrite decide_True; [done|]. apply list_elem_of_here.
    + rewrite IH. assert (k ≠ k') as Hk by (by intros ->).
      destruct (decide (k ∈ ks)).
      * rewrite decide_True; [done|]. by apply list_elem_of_further.
      * rewrite decide_False; [done|]. rewrite not_elem_of_cons. done.
Qed.

Lemma set_entries {V} (g : CallKey → V) (k : CallKey) (v : V)
    (ks : list CallKey) :
  NoDup ks → k ∈ ks →
  JsMap.set (jobId k.1.2 k.1.1 k.2) v
            ((λ k', (jobId k'.1.2 k'.1.1 k'.2, g k')) <$> ks)
  = (λ k', (jobId k'.1.2 k'.1.1 k'.2, if decide (k' = k) then v else g k'))
      <$> ks.
Proof.
  induction ks as [|k' ks IH]; intros Hnd Hin.
  - by apply elem_of_nil in Hin.
  - apply NoDup_cons in Hnd as [Hk' Hnd]. csimpl.
    destruct (decide (jobId k.1.2 k.1.1 k.2 = jobId k'.1.2 k'.1.1 k'.2))
      as [Heq%jobId_key|Hne].
    + subst k'. rewrite decide_True by done. f_equal.
      apply list_fmap_ext. intros i k' Hi.
      rewrite decide_False; [done|]. intros ->.
      apply Hk'. by eapply list_elem_of_lookup_2.
    + assert (k' ≠ k) as Hk by (by intros ->).
      rewrite decide_False by done. f_equal.
      apply IH; [done|]. apply elem_of_cons in Hin as [->|]; done.
Qed.

Lemma entryFor_snoc_other calls call (k : CallKey) :
  callKey call ≠ k ∨ ¬ hasValues call →
  entryFor (calls ++ [call]) k = entryFor calls k.
Proof.
  intros Hor. unfold entryFor. rewrite valuesFor_snoc, callFor_key.
  destruct k as [[r t] c]. simpl. case_bool_decide as Hk.
  - destruct Hor as [?|Hv]; [done|].
    unfold hasValues in Hv. apply dec_stable in Hv. by rewrite Hv, app_nil_r.
  - by rewrite app_nil_r.
Qed.

Lemma addValuesCall_table calls call u :
  requests u = tableOf calls →
  requests (addValuesCall call u) = tableOf (calls ++ [call]).
Proof.
  intros Hu. unfold tableOf in *.
  set (ks := Collate.firstOccurrences (callKey <$> filter hasValues calls)) in *.
  assert (NoDup ks) as Hnd by apply NoDup_firstOccurrences.
  assert (JsMap.get
            (jobId (callKey call).1.2 (callKey call).1.1 (callKey call).2)
            (requests u)
          = if decide (callKey call ∈ ks)
            then Some (entryFor calls (callKey call)).2 else None) as Hget.
  { rewrite Hu.
    exact (get_entries (λ k, (entryFor calls k).2) (callKey call) ks). }
  unfold addValuesCall, addValues. rewrite has_get.
  change (jobId (callTrialId call) (callRunId call) (callCriterionId call))
    with (jobId (callKey call).1.2 (callKey call).1.1 (callKey call).2).
  rewrite Hget. rewrite filter_snoc.
  destruct (decide (callKey call ∈ ks)) as [Hin|Hin].
  - rewrite bool_decide_eq_true_2 by done. cbn [negb with_requests requests].
    rewrite Hu.
    rewrite (set_entries (λ k, (entryFor calls k).2)) by done.
    assert (Collate.firstOccurrences
              (callKey <$> (if decide (hasValues call)
                            then filter hasValues calls ++ [call]
                            else filter hasValues calls)) = ks) as ->.
    { case_decide; [|done]. rewrite firstOccurrences_fmap_snoc.
      unfold Collate.addKey. by rewrite decide_True. }
    apply list_fmap_ext. intros i k Hi. case_decide as Hk.
    + subst k. unfold entryFor. rewrite valuesFor_snoc, callFor_key.
      rewrite bool_decide_eq_true_2 by by destruct (callKey call) as [[??]?].
      by rewrite pushNotNull_spec.
    + rewrite entryFor_snoc_other by (left; congruence).
      reflexivity.
  - rewrite bool_decide_eq_false_2 by (by intros [? [=]]).
    cbn [negb]. case_decide as Hlen.
    + apply length_zero_iff_nil in Hlen.
      rewrite decide_False by (by intros Hv; apply Hv).
      rewrite Hu. fold ks. apply list_fmap_ext. intros i k Hi.
      rewrite entryFor_snoc_other; [done|]. right. by intros Hv; apply Hv.
    + assert (hasValues call) as Hv.
      { unfold hasValues. intros Hnil. apply Hlen. by rewrite Hnil. }
      rewrite decide_True by done. rewrite firstOccurrences_fmap_snoc.
      fold ks. unfold Collate.addKey. rewrite decide_False by done.
      rewrite fmap_app. cbn [with_requests requests].
      rewrite set_notin.
      * rewrite Hu. f_equal.
        -- apply list_fmap_ext. intros i k Hi.
           rewrite entryFor_snoc_other; [done|]. left. intros <-.
           apply Hin. by eapply list_elem_of_lookup_2.
        -- simpl. unfold entryFor. rewrite valuesFor_snoc, callFor_key.
           rewrite bool_decide_eq_true_2
             by by destruct (callKey call) as [[??]?].
           rewrite (valuesFor_nil (callKey call))
             by (by rewrite <-elem_of_firstOccurrences).
           done.
      * apply get_None_keys.
        change (jobId (callTrialId call) (callRunId call) (callCriterionId call))
          with (jobId (callKey call).1.2 (callKey call).1.1 (callKey call).2).
        rewrite Hget. done.
Qed.

Lemma addValuesCalls_table calls u :
  requests u = JsMap.empty →
  requests (foldl (λ u c, addValuesCall c u) u calls) = tableOf calls.
Proof.
  intros Hu. induction calls as [|call calls IH] using rev_ind; [done|].
  rewrite foldl_app. simpl. by apply addValuesCall_table.
Qed.

(** *** What a call does to the promises *)

Section with_db.
Context {Db : Type} `{!Database Db}.
Implicit Types (env : Env Db) (u : t) (st : State Db).

Lemma receiveResults_promiseStep r u env op :
  deliversResults op = true →
  ∃ new, trace (receiveResults r (u, env)).1.2 = trace env ++ new ∧
         promiseStep op (u, env) (receiveResults r (u, env)).1 new.
Proof.
  intros Hop.
  destruct (receiveResults_cases r u env)
    as [(env' & accepted & failed & rest & -> & _ & Hheap & Htr)
       |(env1 & Hheap & Htr & ->)]; cbn [fst snd].
  - eexists. split; [exact Htr|]. exists []. split; [done|]. left.
    cbn [fst snd]. rewrite app_nil_r.
    split_and!; [done..|].
    by rewrite resolveCalls_app, resolveCalls_succeeded.
  - destruct (completes r u) as [q|] eqn:Hq; cbn [fst snd heap trace].
    + eexists. split; [by rewrite Htr, <-app_assoc|].
      exists []. split; [done|].
      do 4 right. left. exists q. cbn [fst snd heap].
      assert (resolveJobsPromiseWithNumberOfJobs u = Some q) as Hrsv.
      { unfold completes in Hq. by repeat case_match; simplify_eq. }
      rewrite app_nil_r.
      split_and!; [done|by rewrite Hheap|done|done| |done].
      by rewrite resolveCalls_app, resolveCalls_succeeded.
    + eexists. split; [exact Htr|]. exists []. split; [done|]. left.
      cbn [fst snd]. rewrite app_nil_r.
      split_and!; [done..|].
      apply resolveCalls_succeeded.
Qed.

Lemma processUpdateJobs_promiseStep jobs start u env op :
  ∃ new, trace (processUpdateJobs jobs start (u, env)).1.2 = trace env ++ new ∧
         promiseStep op (u, env) (processUpdateJobs jobs start (u, env)).1 new.
Proof.
  unfold processUpdateJobs, TimelineWorker.sendRequest.
  case_decide; cbn [Promise.resolved Promise.alloc emit fst snd heap trace db].
  - exists []. split; [by rewrite app_nil_r|]. exists []. split; [done|].
    right. left. cbn [fst snd heap]. by rewrite app_nil_r.
  - eexists. split; [done|]. exists []. split; [done|].
    do 2 right. left. cbn [fst snd heap]. by rewrite app_nil_r.
Qed.

(** The promises of further calls on top of a step. *)
Lemma promiseStep_calls op st st' new cells :
  Forall (λ c, ∃ q, c = Some (Promise.VPromise q)) cells →
  promiseStep op st st' new →
  promiseStep op st
    (st'.1, mkEnv (db st'.2) (heap st'.2 ++ cells) (trace st'.2)) new.
Proof.
  intros Hcells (calls & Hcalls & Hstep). exists (calls ++ cells).
  split; [by apply Forall_app|]. cbn [fst snd heap].
  destruct Hstep as [(-> & ? & ? & ?)|[(-> & ? & ? & ?)
    |[(-> & ? & ? & ?)|[(-> & ? & ? & ?)
    |[(q & ? & -> & ? & ? & ? & ?)|(q & ? & -> & ? & ? & ?)]]]]];
    rewrite <-(assoc_L (++) _ calls cells).
  - by left.
  - by right; left.
  - by do 2 right; left.
  - by do 3 right; left.
  - do 4 right. left. by exists q.
  - do 5 right. by exists q.
Qed.

Lemma step_promiseStep op st :
  ∃ new, trace (step op st).2 = trace st.2 ++ new ∧
         promiseStep op st (step op st) new.
Proof.
  destruct st as [u env].
  destruct op as [r t c vs|now| |jobs start|r|[|r]| | |code]; cbn [step fst snd].
  - exists []. split; [by rewrite app_nil_r|]. exists []. split; [done|].
    left. unfold addValues, with_requests. cbn [fst snd]. rewrite app_nil_r.
    by repeat case_match.
  - unfold submitUpdateJobs, consumeUpdateJobsForBenchmarking. cbn [fst snd].
    destruct (processUpdateJobs_promiseStep (JsMap.values (requests u)) now
                (with_requests JsMap.empty u) env (SubmitUpdateJobs now))
      as (new & Htr & Hstep).
    exists new. split; [exact Htr|exact Hstep].
  - exists []. split; [by rewrite app_nil_r|]. exists []. split; [done|].
    left. cbn [fst snd]. by rewrite app_nil_r.
  - rewrite processUpdateJobsForBenchmarking_unfold. cbn [fst snd trace].
    destruct (processUpdateJobs_promiseStep jobs start u env
                (ProcessUpdateJobs jobs start)) as (new & Htr & Hstep).
    exists new. split; [exact Htr|].
    apply (promiseStep_calls _ _ _ _ [_]); [|exact Hstep].
    apply Forall_singleton. by eexists.
  - by apply receiveResults_promiseStep.
  - unfold onMessage, TimelineWorker.processResponse. cbn [fst snd].
    destruct (TimelineWorker.shutdownResolve (worker u)) as [q|] eqn:Hq;
      cbn [fst snd emit heap trace db].
    + eexists. split; [by rewrite <-app_assoc|]. exists []. split; [done|].
      do 5 right. exists q. cbn [fst snd heap]. by rewrite app_nil_r.
    + eexists. split; [done|]. exists []. split; [done|]. left.
      cbn [fst snd heap]. by rewrite app_nil_r.
  - unfold onMessage, TimelineWorker.processResponse. cbn [fst snd].
    change (Timeline.receiveResults r (u, env))
      with (receiveResults r (u, env)).
    by apply receiveResults_promiseStep.
  - rewrite shutdown_unfold. cbn [fst snd trace].
    exists (match TimelineWorker.shutdownPromise (worker u) with
            | Some _ => []
            | None => [EvPostMessage PostExit]
            end).
    split.
    + unfold TimelineWorker.shutdownBody.
      destruct (TimelineWorker.shutdownPromise (worker u)) as [p|] eqn:Hp;
        cbn [Promise.alloc emit fst snd heap trace db].
      * by rewrite app_nil_r.
      * done.
    + apply (promiseStep_calls _ _ (_, _) _ [_; _]).
      { repeat constructor; by eexists. }
      unfold TimelineWorker.shutdownBody.
      destruct (TimelineWorker.shutdownPromise (worker u)) as [p|] eqn:Hp;
        cbn [Promise.alloc emit fst snd heap trace db].
      * exists []. split; [done|]. left. cbn [fst snd heap].
        by rewrite app_nil_r.
      * exists []. split; [done|]. do 3 right. left. cbn [fst snd heap].
        by rewrite app_nil_r.
  - eexists. split; [done|]. exists []. split; [done|]. left.
    cbn [fst snd heap]. by rewrite app_nil_r.
  - eexists. split; [done|]. exists []. split; [done|]. left.
    cbn [fst snd heap]. by rewrite app_nil_r.
Qed.

Lemma state_Some_lt (h : list (option Promise.value)) p v :
  Promise.state h p = Some v → (p < length h)%nat.
Proof.
  unfold Promise.state. destruct (h !! p) eqn:Hp; [|done].
  intros _. by eapply lookup_lt_Some.
Qed.

Lemma state_resolve_keeps (h : list (option Promise.value)) p q v w :
  Promise.state h p = Some v →
  Promise.state (Promise.resolve q w h) p = Some v.
Proof.
  intros Hp. destruct (decide (p = q)) as [->|Hne].
  - unfold Promise.resolve. pose proof Hp as Hp'.
    unfold Promise.state in Hp'.
    by destruct (h !! q) as [[x|]|] eqn:Hq; simplify_eq.
  - by rewrite state_resolve_ne.
Qed.

Lemma state_snoc_new (h : list (option Promise.value)) x :
  Promise.state (h ++ [x]) (length h) = x.
Proof. unfold Promise.state. by rewrite list_lookup_middle. Qed.

Lemma step_orphaned p op st : orphaned p st → orphaned p (step op st).
Proof.
  intros (Hlt & Hp & Hr & Hs).
  destruct (step_promiseStep op st) as (new & _ & Hstep).
  unfold orphaned.
  destruct Hstep as (calls & _ & [(-> & -> & -> & _)|[(-> & -> & -> & _)
    |[(-> & -> & -> & _)|[(-> & -> & -> & _)
    |[(q & Hq & -> & -> & -> & _)|(q & Hq & -> & -> & -> & _)]]]]]);
    rewrite !length_app, ?length_resolve,
      !state_app_lt by (rewrite ?length_app, ?length_resolve; lia).
  - split_and!; [lia|done..].
  - split_and!; [lia|done..].
  - split_and!; [lia|done| |done]. intros [=]. lia.
  - split_and!; [lia|done|done|]. intros [=]. lia.
  - rewrite state_resolve_ne by congruence. split_and!; [lia|done..].
  - rewrite state_resolve_ne by congruence. split_and!; [lia|done..].
Qed.

Lemma run_orphaned p ops st : orphaned p st → orphaned p (run ops st).
Proof.
  revert st. induction ops as [|op ops IH]; intros st Hp; [done|].
  simpl. apply IH. by apply step_orphaned.
Qed.

Lemma step_awaited p op st :
  deliversResults op = false → awaited p st → awaited p (step op st).
Proof.
  intros Hop (Hlt & Hp & Hs).
  destruct (step_promiseStep op st) as (new & _ & Hstep).
  unfold awaited.
  destruct Hstep as (calls & _ & [(-> & _ & -> & _)|[(-> & _ & -> & _)
    |[(-> & _ & -> & _)|[(-> & _ & -> & _)
    |[(q & _ & _ & _ & _ & _ & Hop')|(q & Hq & -> & _ & -> & _)]]]]]);
    rewrite ?length_app, ?length_resolve,
      ?state_app_lt by (rewrite ?length_app, ?length_resolve; lia).
  - split_and!; [lia|done..].
  - split_and!; [lia|done..].
  - split_and!; [lia|done..].
  - split_and!; [lia|done|]. intros [=]. lia.
  - congruence.
  - rewrite state_resolve_ne by congruence. split_and!; [lia|done..].
Qed.

Lemma run_awaited p ops st :
  Forall (λ op, deliversResults op = false) ops →
  awaited p st → awaited p (run ops st).
Proof.
  revert st. induction ops as [|op ops IH]; intros st Hops Hp; [done|].
  apply Forall_cons in Hops as [Hop Hops].
  simpl. apply IH; [done|]. by apply step_awaited.
Qed.

(** A promise that exists and is not the one of the shutdown stays so. *)
Lemma step_not_shutdown p op st :
  (p < length (heap st.2))%nat ∧
  TimelineWorker.shutdownResolve (worker st.1) ≠ Some p →
  (p < length (heap (step op st).2))%nat ∧
  TimelineWorker.shutdownResolve (worker (step op st).1) ≠ Some p.
Proof.
  intros (Hlt & Hs).
  destruct (step_promiseStep op st) as (new & _ & Hstep).
  destruct Hstep as (calls & _ & [(-> & _ & -> & _)|[(-> & _ & -> & _)
    |[(-> & _ & -> & _)|[(-> & _ & -> & _)
    |[(q & _ & -> & _ & -> & _)|(q & Hq & -> & _ & -> & _)]]]]]);
    rewrite ?length_app, ?length_resolve; simpl.
  - split; [lia|done].
  - split; [lia|done].
  - split; [lia|done].
  - split; [lia|]. intros [=]. lia.
  - split; [lia|done].
  - split; [lia|done].
Qed.

Lemma run_not_shutdown p ops st :
  (p < length (heap st.2))%nat ∧
  TimelineWorker.shutdownResolve (worker st.1) ≠ Some p →
  (p < length (heap (run ops st).2))%nat ∧
  TimelineWorker.shutdownResolve (worker (run ops st).1) ≠ Some p.
Proof.
  revert st. induction ops as [|op ops IH]; intros st Hp; [done|].
  simpl. apply IH. by apply step_not_shutdown.
Qed.

(** The promise that a dispatch of jobs returns. *)
Lemma processUpdateJobs_handle jobs start st :
  jobs ≠ [] →
  (processUpdateJobs jobs start st).2 = length (heap st.2) ∧
  heap (processUpdateJobs jobs start st).1.2 = heap st.2 ++ [None] ∧
  resolveJobsPromiseWithNumberOfJobs (processUpdateJobs jobs start st).1.1
  = Some (length (heap st.2)) ∧
  promise (processUpdateJobs jobs start st).1.1 = Some (length (heap st.2)) ∧
  worker (processUpdateJobs jobs start st).1.1 = worker st.1 ∧
  activeRequests (processUpdateJobs jobs start st).1.1
  = activeRequests st.1 + Z.of_nat (length jobs) ∧
  requestsAtStart (processUpdateJobs jobs start st).1.1
  = activeRequests st.1 + Z.of_nat (length jobs) ∧
  trace (processUpdateJobs jobs start st).1.2
  = trace st.2 ++ [EvPostMessage (PostRequest (Build_ComputeRequest jobs start))].
Proof.
  intros Hjobs. destruct st as [u env]. unfold processUpdateJobs.
  rewrite decide_False by (by destruct jobs). done.
Qed.

Lemma submitUpdateJobs_unfold now st :
  submitUpdateJobs now st
  = processUpdateJobs (JsMap.values (requests st.1)) now
      (with_requests JsMap.empty st.1, st.2).
Proof. reflexivity. Qed.

Lemma submitUpdateJobs_empty_table now st :
  requests st.1 = JsMap.empty →
  Promise.state (heap (submitUpdateJobs now st).1.2) (submitUpdateJobs now st).2
    = Some (Promise.VNum 0) ∧
  trace (submitUpdateJobs now st).1.2 = trace st.2 ∧
  (submitUpdateJobs now st).1.1 = st.1 ∧
  (submitUpdateJobs now st).2 = length (heap st.2).
Proof.
  destruct st as [[w rs a n p q] env]. simpl. intros ->.
  unfold submitUpdateJobs. simpl. split_and!; try done.
  apply state_snoc_new.
Qed.

(** *** Wave resolver calls *)

Lemma waveResolves_app tr1 tr2 :
  waveResolves (tr1 ++ tr2) = waveResolves tr1 ++ waveResolves tr2.
Proof. apply omap_app. Qed.

Lemma waveResolves_resolveCalls tr :
  waveResolves tr
  = omap (λ c, match c.2 with
               | Promise.VNum n => Some (c.1, n)
               | _ => None
               end) (resolveCalls tr).
Proof.
  induction tr as [|e tr IH]; [done|].
  destruct e as [| | |p [n| |q]| |]; csimpl; by rewrite ?IH.
Qed.

Lemma init_resolvedOnce (d : Db) : resolvedOnce (init d).
Proof.
  unfold resolvedOnce. simpl. split_and!; try done.
  - apply NoDup_nil_2.
  - by intros p n ?%elem_of_nil.
Qed.

Lemma step_resolvedOnce op st : resolvedOnce st → resolvedOnce (step op st).
Proof.
  intros (Hnd & Hset & Hrsv & Hsrs).
  destruct (step_promiseStep op st) as (new & Htr & Hstep).
  unfold resolvedOnce. rewrite Htr, waveResolves_app.
  rewrite (waveResolves_resolveCalls new).
  assert (∀ p n, (p, n) ∈ waveResolves (trace st.2) →
            (p < length (heap st.2))%nat) as Hlt.
  { intros p n Hin. eapply state_Some_lt. by apply Hset. }
  assert (∀ q, resolveJobsPromiseWithNumberOfJobs st.1 = Some q →
            (q < length (heap st.2))%nat) as Hlt'.
  { intros q Hq. by destruct (Hrsv q Hq). }
  destruct Hstep as (calls & _ & [(-> & -> & -> & ->)|[(-> & -> & -> & ->)
    |[(-> & -> & -> & ->)|[(-> & -> & -> & ->)
    |[(q & Hq & -> & -> & -> & -> & _)|(q & Hq & -> & -> & -> & ->)]]]]]);
    csimpl; rewrite ?app_nil_r, ?length_app, ?length_resolve.
  - split_and!; [done| | |].
    + intros p n Hin. rewrite state_app_lt by by eapply Hlt. by apply Hset.
    + intros q Hq. destruct (Hrsv q Hq) as (? & ? & ?).
      rewrite state_app_lt by done. split_and!; [lia|done..].
    + intros q Hq. specialize (Hsrs q Hq). lia.
  - split_and!; [done| | |].
    + intros p n Hin.
      rewrite !state_app_lt by (rewrite ?length_app; specialize (Hlt p n Hin); lia).
      by apply Hset.
    + intros q Hq. destruct (Hrsv q Hq) as (? & ? & ?).
      rewrite !state_app_lt by (rewrite ?length_app; lia).
      split_and!; [lia|done..].
    + intros q Hq. specialize (Hsrs q Hq). lia.
  - split_and!; [done| | |].
    + intros p n Hin.
      rewrite !state_app_lt by (rewrite ?length_app; specialize (Hlt p n Hin); lia).
      by apply Hset.
    + intros ? [= <-].
      rewrite state_app_lt by (rewrite length_app; simpl; lia).
      rewrite state_snoc_new.
      split_and!; [simpl; lia|done|].
      intros Hs. specialize (Hsrs _ Hs). lia.
    + intros q Hq. specialize (Hsrs q Hq). lia.
  - split_and!; [done| | |].
    + intros p n Hin.
      rewrite !state_app_lt by (rewrite ?length_app; specialize (Hlt p n Hin); lia).
      by apply Hset.
    + intros q Hq. destruct (Hrsv q Hq) as (? & ? & ?).
      rewrite !state_app_lt by (rewrite ?length_app; lia).
      split_and!; [lia|done|]. intros [=]. lia.
    + intros ? [= <-]. simpl. lia.
  - destruct (Hrsv q Hq) as (Hq1 & Hq2 & Hq3).
    split_and!.
    + rewrite fmap_app. apply NoDup_app. split_and!; [done| |].
      * intros p Hp. apply list_elem_of_fmap in Hp as ([p' n] & -> & Hin).
        simpl. intros ->%list_elem_of_singleton.
        apply Hset in Hin. congruence.
      * apply NoDup_singleton.
    + intros p n [Hin|Hin%list_elem_of_singleton]%elem_of_app.
      * rewrite state_app_lt
          by (rewrite length_resolve; by eapply Hlt).
        apply state_resolve_keeps. by apply Hset.
      * simplify_eq. rewrite state_app_lt by by rewrite length_resolve.
        apply resolve_pending.
        unfold Promise.state in Hq2.
        destruct (heap st.2 !! q) as [[x|]|] eqn:Hh; simplify_eq; [done|].
        apply lookup_ge_None in Hh. lia.
    + done.
    + intros q' Hq'. specialize (Hsrs q' Hq'). lia.
  - split_and!; [done| | |].
    + intros p n Hin.
      rewrite state_app_lt by (rewrite length_resolve; by eapply Hlt).
      apply state_resolve_keeps. by apply Hset.
    + intros q' Hq'. destruct (Hrsv q' Hq') as (? & ? & ?).
      rewrite state_app_lt by by rewrite length_resolve.
      rewrite state_resolve_ne by congruence. split_and!; [lia|done..].
    + intros q' Hq'. specialize (Hsrs q' Hq'). lia.
Qed.

Lemma run_resolvedOnce ops st : resolvedOnce st → resolvedOnce (run ops st).
Proof.
  revert st. induction ops as [|op ops IH]; intros st Hp; [done|].
  simpl. apply IH. by apply step_resolvedOnce.
Qed.

(** *** The pending table between two submissions *)

Lemma receiveResults_requests r st :
  requests (receiveResults r st).1.1 = requests st.1.
Proof.
  destruct st as [u env].
  destruct (receiveResults_cases r u env)
    as [(env' & pre & failed & rest & -> & _)|(env1 & _ & _ & ->)];
    [done|]. by destruct (completes r u).
Qed.

Lemma step_requests op st :
  takesJobs op = false →
  requests (step op st).1 =
  match op with
  | AddValues r t c vs => requests (addValues r t c vs st.1)
  | _ => requests st.1
  end.
Proof.
  destruct st as [u env].
  destruct op as [r t c vs|now| |jobs start|r|[|r]| | |code];
    cbn [step fst snd takesJobs]; intros Hop; try done.
  - rewrite processUpdateJobsForBenchmarking_unfold. cbn [fst snd].
    unfold processUpdateJobs. by case_decide.
  - apply receiveResults_requests.
  - unfold onMessage, TimelineWorker.processResponse. cbn [fst snd].
    by destruct (TimelineWorker.shutdownResolve (worker u)).
  - unfold onMessage, TimelineWorker.processResponse. cbn [fst snd].
    change (Timeline.receiveResults r (u, env))
      with (receiveResults r (u, env)).
    apply receiveResults_requests.
  - by rewrite shutdown_unfold.
Qed.

Lemma callsOf_cons op ops :
  callsOf (op :: ops) =
  match op with
  | AddValues r t c vs => [Build_AddValuesCall r t c vs]
  | _ => []
  end ++ callsOf ops.
Proof. by destruct op. Qed.

Lemma run_requests ops st calls :
  Forall (λ op, takesJobs op = false) ops →
  requests st.1 = tableOf calls →
  requests (run ops st).1 = tableOf (calls ++ callsOf ops).
Proof.
  revert st calls. induction ops as [|op ops IH]; intros st calls Hops Hst.
  - simpl. by rewrite app_nil_r.
  - apply Forall_cons in Hops as [Hop Hops].
    change (run (op :: ops) st) with (run ops (step op st)).
    pose proof (step_requests op st Hop) as Hreq.
    rewrite callsOf_cons, (assoc_L (++)).
    apply IH; [done|]. rewrite Hreq.
    destruct op as [r t c vs|now| |jobs start|r|m| | |code];
      rewrite ?app_nil_r; try done.
    exact (addValuesCall_table calls (Build_AddValuesCall r t c vs) st.1 Hst).
Qed.

(** *** Posting "exit" and terminating the thread *)

Lemma exitsPosted_app tr1 tr2 :
  exitsPosted (tr1 ++ tr2) = (exitsPosted tr1 + exitsPosted tr2)%nat.
Proof. unfold exitsPosted. by rewrite filter_app, length_app. Qed.

Lemma terminations_app tr1 tr2 :
  terminations (tr1 ++ tr2) = (terminations tr1 + terminations tr2)%nat.
Proof. unfold terminations. by rewrite filter_app, length_app. Qed.

Lemma exitsPosted_succeeded rs : exitsPosted (succeeded <$> rs) = 0%nat.
Proof. induction rs as [|r rs IH]; [done|]. exact IH. Qed.

Lemma terminations_succeeded rs : terminations (succeeded <$> rs) = 0%nat.
Proof. induction rs as [|r rs IH]; [done|]. exact IH. Qed.

Lemma receiveResults_exits r st :
  ∃ new, trace (receiveResults r st).1.2 = trace st.2 ++ new ∧
         exitsPosted new = 0%nat ∧ terminations new = 0%nat ∧
         worker (receiveResults r st).1.1 = worker st.1.
Proof.
  destruct st as [u env].
  destruct (receiveResults_cases r u env)
    as [(env' & accepted & failed & rest & -> & _ & Hheap & Htr)
       |(env1 & Hheap & Htr & ->)]; cbn [fst snd].
  - eexists. split; [exact Htr|].
    by rewrite exitsPosted_app, terminations_app,
      exitsPosted_succeeded, terminations_succeeded.
  - destruct (completes r u) as [q|]; cbn [fst snd trace].
    + eexists. split; [by rewrite Htr, <-app_assoc|].
      by rewrite exitsPosted_app, terminations_app,
        exitsPosted_succeeded, terminations_succeeded.
    + eexists. split; [exact Htr|].
      by rewrite exitsPosted_succeeded, terminations_succeeded.
Qed.

Lemma step_exits op st :
  ∃ new, trace (step op st).2 = trace st.2 ++ new ∧
    exitsPosted new
    = (if isShutdown op
       then match TimelineWorker.shutdownPromise (worker st.1) with
            | Some _ => 0 | None => 1 end
       else 0)%nat ∧
    terminations new = (if isExiting op then 1 else 0)%nat ∧
    (if isShutdown op
     then is_Some (TimelineWorker.shutdownPromise (worker (step op st).1))
     else TimelineWorker.shutdownPromise (worker (step op st).1)
          = TimelineWorker.shutdownPromise (worker st.1)).
Proof.
  destruct st as [u env].
  destruct op as [r t c vs|now| |jobs start|r|[|r]| | |code];
    cbn [step fst snd isShutdown isExiting].
  - exists []. split; [by rewrite app_nil_r|]. split_and!; [done..|].
    unfold addValues, with_requests. by repeat case_match.
  - unfold submitUpdateJobs, consumeUpdateJobsForBenchmarking,
      processUpdateJobs, TimelineWorker.sendRequest. cbn [fst snd].
    case_decide; cbn [Promise.resolved Promise.alloc emit fst snd trace].
    + exists []. by rewrite app_nil_r.
    + eexists. done.
  - exists []. by rewrite app_nil_r.
  - rewrite processUpdateJobsForBenchmarking_unfold. cbn [fst snd trace].
    unfold processUpdateJobs, TimelineWorker.sendRequest.
    case_decide; cbn [Promise.resolved Promise.alloc emit fst snd trace].
    + exists []. by rewrite app_nil_r.
    + eexists. done.
  - destruct (receiveResults_exits r (u, env)) as (new & ? & ? & ? & Hw).
    exists new. by rewrite Hw.
  - unfold onMessage, TimelineWorker.processResponse. cbn [fst snd].
    destruct (TimelineWorker.shutdownResolve (worker u)) as [q|];
      cbn [fst snd emit heap trace db].
    + eexists. split; [by rewrite <-app_assoc|]. done.
    + eexists. done.
  - unfold onMessage, TimelineWorker.processResponse. cbn [fst snd].
    change (Timeline.receiveResults r (u, env))
      with (receiveResults r (u, env)).
    destruct (receiveResults_exits r (u, env)) as (new & ? & ? & ? & Hw).
    exists new. by rewrite Hw.
  - rewrite shutdown_unfold. cbn [fst snd trace worker activeRequests].
    unfold TimelineWorker.shutdownBody.
    destruct (TimelineWorker.shutdownPromise (worker u)) as [p|] eqn:Hp;
      cbn [Promise.alloc emit fst snd heap trace db worker
           TimelineWorker.shutdownPromise].
    + exists []. rewrite app_nil_r, Hp. done.
    + eexists. split; [done|]. done.
  - eexists. done.
  - eexists. done.
Qed.

Lemma run_exits ops st :
  ∃ new, trace (run ops st).2 = trace st.2 ++ new ∧
    exitsPosted new
    = (if existsb isShutdown ops
       then match TimelineWorker.shutdownPromise (worker st.1) with
            | Some _ => 0 | None => 1 end
       else 0)%nat ∧
    terminations new = length (filter (λ op, isExiting op = true) ops).
Proof.
  revert st. induction ops as [|op ops IH]; intros st.
  - exists []. by rewrite app_nil_r.
  - destruct (step_exits op st) as (new1 & Htr1 & He1 & Ht1 & Hsp).
    destruct (IH (step op st)) as (new2 & Htr2 & He2 & Ht2).
    exists (new1 ++ new2). cbn [run foldl] in *. fold (run ops (step op st)).
    split; [by rewrite Htr2, Htr1, <-app_assoc|].
    rewrite exitsPosted_app, terminations_app, He1, He2, Ht1, Ht2.
    rewrite filter_cons. cbn [existsb].
    split.
    + destruct (isShutdown op); cbn [orb].
      * destruct Hsp as [p ->].
        by destruct (existsb isShutdown ops),
          (TimelineWorker.shutdownPromise (worker st.1)).
      * by rewrite Hsp.
    + by destruct (isExiting op).
Qed.

(** *** Spans, and a counter below zero *)

Lemma spansClosed_app tr1 tr2 :
  spansClosed (tr1 ++ tr2) = spansClosed tr1 ++ spansClosed tr2.
Proof. apply omap_app. Qed.

Lemma spansClosed_succeeded rs : spansClosed (succeeded <$> rs) = [].
Proof. induction rs as [|r rs IH]; [done|]. exact IH. Qed.

Lemma waveResolves_succeeded rs : waveResolves (succeeded <$> rs) = [].
Proof. induction rs as [|r rs IH]; [done|]. exact IH. Qed.

(** What a call of [receiveResults] adds to the trace behind the
    [recordTimeline] calls: a resolver call with [requestsAtStart] and a
    span with the start marker of the batch, which is not 0, or nothing. *)
Lemma receiveResults_completion r st :
  ∃ new,
    trace (receiveResults r st).1.2 = trace st.2 ++ new ∧
    ((∃ p, waveResolves new = [(p, requestsAtStart st.1)]
           ∧ spansClosed new = [(resRequestStart r, "generate-timeline")]
           ∧ resRequestStart r ≠ 0
           ∧ activeRequests st.1 = Z.of_nat (length (results r))
           ∧ activeRequests (receiveResults r st).1.1 = 0)
     ∨ (waveResolves new = [] ∧ spansClosed new = []
        ∧ (activeRequests (receiveResults r st).1.1 = activeRequests st.1
           ∨ activeRequests (receiveResults r st).1.1
             = activeRequests st.1 - Z.of_nat (length (results r))))).
Proof.
  destruct st as [u env].
  destruct (receiveResults_cases r u env)
    as [(env' & accepted & failed & rest & -> & _ & Hheap & Htr)
       |(env1 & Hheap & Htr & ->)]; cbn [fst snd].
  - eexists. split; [exact Htr|]. right.
    rewrite waveResolves_app, spansClosed_app, waveResolves_succeeded,
      spansClosed_succeeded. split_and!; [done..|]. by left.
  - destruct (completes r u) as [q|] eqn:Hq; cbn [fst snd trace activeRequests].
    + eexists. split; [by rewrite Htr, <-app_assoc|]. left. exists q.
      rewrite waveResolves_app, spansClosed_app, waveResolves_succeeded,
        spansClosed_succeeded.
      unfold completes in Hq.
      destruct (_ =? 0) eqn:Hzero; [|done].
      destruct (resolveJobsPromiseWithNumberOfJobs u); [|done].
      destruct (truthy (resRequestStart r)) eqn:Htruthy; [|done].
      apply Z.eqb_eq in Hzero. unfold truthy in Htruthy.
      apply negb_true_iff, Z.eqb_neq in Htruthy. simplify_eq.
      split_and!; [done|done|done|lia|lia].
    + eexists. split; [exact Htr|]. right.
      rewrite waveResolves_succeeded, spansClosed_succeeded.
      split_and!; [done..|]. by right.
Qed.

Lemma step_completion op st :
  ∃ new,
    trace (step op st).2 = trace st.2 ++ new ∧
    length (spansClosed new) = length (waveResolves new) ∧
    Forall (λ sp, sp.1 ≠ 0 ∧ sp.2 = "generate-timeline") (spansClosed new) ∧
    (dispatches op = false → activeRequests st.1 < 0 →
     waveResolves new = [] ∧ activeRequests (step op st).1 < 0).
Proof.
  assert (∀ r, ∃ new,
    trace (receiveResults r st).1.2 = trace st.2 ++ new ∧
    length (spansClosed new) = length (waveResolves new) ∧
    Forall (λ sp, sp.1 ≠ 0 ∧ sp.2 = "generate-timeline") (spansClosed new) ∧
    (activeRequests st.1 < 0 →
     waveResolves new = [] ∧ activeRequests (receiveResults r st).1.1 < 0))
    as Hrecv.
  { intros r.
    destruct (receiveResults_completion r st) as (new & Htr & Hcases).
    exists new. split; [exact Htr|].
    destruct Hcases as [(p & -> & -> & Hs & Ha & Ha')|(-> & -> & Ha)].
    - split_and!; [done|by repeat constructor|]. lia.
    - split_and!; [done|constructor|]. intros Hneg. split; [done|]. lia. }
  destruct st as [u env].
  destruct op as [r t c vs|now| |jobs start|r|[|r]| | |code];
    cbn [step fst snd dispatches].
  - exists []. split; [by rewrite app_nil_r|]. split_and!; [done|constructor|].
    intros _ Hneg. split; [done|].
    unfold addValues, with_requests. by repeat case_match.
  - unfold submitUpdateJobs, consumeUpdateJobsForBenchmarking,
      processUpdateJobs, TimelineWorker.sendRequest. cbn [fst snd].
    case_decide; cbn [Promise.resolved Promise.alloc emit fst snd trace].
    + exists []. split; [by rewrite app_nil_r|]. by split_and!.
    + eexists. split; [done|]. by split_and!.
  - exists []. split; [by rewrite app_nil_r|]. by split_and!.
  - rewrite processUpdateJobsForBenchmarking_unfold. cbn [fst snd trace].
    unfold processUpdateJobs, TimelineWorker.sendRequest.
    case_decide; cbn [Promise.resolved Promise.alloc emit fst snd trace].
    + exists []. split; [by rewrite app_nil_r|]. by split_and!.
    + eexists. split; [done|]. by split_and!.
  - destruct (Hrecv r) as (new & ? & ? & ? & ?). exists new. by split_and!.
  - unfold onMessage, TimelineWorker.processResponse. cbn [fst snd].
    destruct (TimelineWorker.shutdownResolve (worker u)) as [q|];
      cbn [fst snd emit heap trace db].
    + eexists. split; [by rewrite <-app_assoc|]. by split_and!.
    + eexists. split; [done|]. by split_and!.
  - unfold onMessage, TimelineWorker.processResponse. cbn [fst snd].
    change (Timeline.receiveResults r (u, env))
      with (receiveResults r (u, env)).
    destruct (Hrecv r) as (new & ? & ? & ? & ?). exists new. by split_and!.
  - rewrite shutdown_unfold. cbn [fst snd trace worker activeRequests].
    unfold TimelineWorker.shutdownBody.
    destruct (TimelineWorker.shutdownPromise (worker u)) as [p|] eqn:Hp;
      cbn [Promise.alloc emit fst snd heap trace db worker activeRequests].
    + exists []. split; [by rewrite app_nil_r|]. by split_and!.
    + eexists. split; [done|]. by split_and!.
  - eexists. split; [done|]. by split_and!.
  - eexists. split; [done|]. by split_and!.
Qed.

Lemma run_completion ops st :
  ∃ new,
    trace (run ops st).2 = trace st.2 ++ new ∧
    length (spansClosed new) = length (waveResolves new) ∧
    Forall (λ sp, sp.1 ≠ 0 ∧ sp.2 = "generate-timeline") (spansClosed new) ∧
    (Forall (λ op, dispatches op = false) ops → activeRequests st.1 < 0 →
     waveResolves new = [] ∧ activeRequests (run ops st).1 < 0).
Proof.
  revert st. induction ops as [|op ops IH]; intros st.
  - exists []. split; [by rewrite app_nil_r|]. by split_and!.
  - destruct (step_completion op st) as (new1 & Htr1 & Hl1 & Hf1 & Hn1).
    destruct (IH (step op st)) as (new2 & Htr2 & Hl2 & Hf2 & Hn2).
    exists (new1 ++ new2). cbn [run foldl] in *. fold (run ops (step op st)).
    split; [by rewrite Htr2, Htr1, <-app_assoc|].
    rewrite spansClosed_app, waveResolves_app, !length_app.
    split_and!; [lia|by apply Forall_app|].
    intros [Hop Hops]%Forall_cons Hneg.
    destruct (Hn1 Hop Hneg) as [-> Hneg1].
    destruct (Hn2 Hops Hneg1) as [-> Hneg2]. done.
Qed.

(** *** The promises of [shutdown] calls *)

(** A promise that was resolved stays as it is, and the heap only grows. *)
Lemma step_keeps_resolved p v op st :
  Promise.state (heap st.2) p = Some v →
  Promise.state (heap (step op st).2) p = Some v.
Proof.
  intros Hp. pose proof (state_Some_lt _ _ _ Hp) as Hlt.
  destruct (step_promiseStep op st) as (new & _ & calls & _ & Hstep).
  destruct Hstep as [(-> & _)|[(-> & _)|[(-> & _)|[(-> & _)
    |[(q & _ & -> & _)|(q & _ & -> & _)]]]]];
    rewrite !state_app_lt by (rewrite ?length_app, ?length_resolve; lia);
    try done.
  all: by apply state_resolve_keeps.
Qed.

Lemma run_keeps_resolved p v ops st :
  Promise.state (heap st.2) p = Some v →
  Promise.state (heap (run ops st).2) p = Some v.
Proof.
  revert st. induction ops as [|op ops IH]; intros st Hp; [done|].
  simpl. apply IH. by apply step_keeps_resolved.
Qed.

Lemma step_heap_length op st :
  (length (heap st.2) ≤ length (heap (step op st).2))%nat.
Proof.
  destruct (step_promiseStep op st) as (new & _ & calls & _ & Hstep).
  destruct Hstep as [(-> & _)|[(-> & _)|[(-> & _)|[(-> & _)
    |[(q & _ & -> & _)|(q & _ & -> & _)]]]]];
    rewrite !length_app, ?length_resolve; lia.
Qed.

Lemma run_heap_length ops st :
  (length (heap st.2) ≤ length (heap (run ops st).2))%nat.
Proof.
  revert st. induction ops as [|op ops IH]; intros st; [done|].
  simpl. etrans; [apply (step_heap_length op)|apply IH].
Qed.

Lemma settledWith_follow (h : list (option Promise.value)) p q n :
  Promise.state h p = Some (Promise.VPromise q) →
  Promise.settledWith (S n) h p = Promise.settledWith n h q.
Proof. intros Hp. simpl. by rewrite Hp. Qed.

Lemma settledWith_own (h : list (option Promise.value)) p n :
  (∀ q, Promise.state h p ≠ Some (Promise.VPromise q)) →
  Promise.settledWith n h p = Promise.state h p.
Proof.
  intros Hp. destruct n; simpl.
  all: destruct (Promise.state h p) as [[| |q]|]; try done.
  all: by destruct (Hp q).
Qed.

Lemma state_snoc_first (h : list (option Promise.value)) x y :
  Promise.state (h ++ [x; y]) (length h) = x.
Proof. unfold Promise.state. by rewrite list_lookup_middle. Qed.

Lemma state_snoc_second (h : list (option Promise.value)) x y :
  Promise.state (h ++ [x; y]) (S (length h)) = y.
Proof.
  unfold Promise.state. rewrite lookup_app_r by lia.
  by replace (S (length h) - length h)%nat with 1%nat by lia.
Qed.

(** What a call of [shutdown] returns: a new promise, resolved with
    another new promise, which is resolved with the stored one. *)
Lemma shutdown_handle st :
  shutdownOk st →
  ∃ stored h,
    TimelineWorker.shutdownPromise (worker (shutdown st).1.1) = Some stored ∧
    heap (shutdown st).1.2
    = h ++ [Some (Promise.VPromise stored);
            Some (Promise.VPromise (length h))] ∧
    (shutdown st).2 = S (length h) ∧
    (length (heap st.2) ≤ length h)%nat ∧
    (stored < length h)%nat.
Proof.
  destruct st as [u env]. intros (_ & H2 & _). cbn [fst snd] in H2.
  rewrite shutdown_unfold. cbn [fst snd worker heap].
  unfold TimelineWorker.shutdownBody.
  destruct (TimelineWorker.shutdownPromise (worker u)) as [p|] eqn:Hp;
    cbn [Promise.alloc emit fst snd heap trace db
         TimelineWorker.shutdownPromise].
  - exists p, (heap env). split_and!; [done..|]. by apply H2.
  - exists (length (heap env)), (heap env ++ [None]).
    rewrite length_app. simpl. split_and!; [done..|lia|lia].
Qed.

(** A call of [shutdown] when a promise is stored already. *)
Lemma shutdown_again st p :
  TimelineWorker.shutdownPromise (worker st.1) = Some p →
  (shutdown st).1.1 = st.1 ∧
  trace (shutdown st).1.2 = trace st.2 ∧
  db (shutdown st).1.2 = db st.2 ∧
  heap (shutdown st).1.2
  = heap st.2 ++ [Some (Promise.VPromise p);
                  Some (Promise.VPromise (length (heap st.2)))] ∧
  (shutdown st).2 = S (length (heap st.2)).
Proof.
  destruct st as [[[] ? ? ? ? ?] env]. cbn [fst snd worker]. intros Hp.
  rewrite shutdown_unfold. unfold TimelineWorker.shutdownBody.
  simpl in Hp. cbn [worker]. rewrite Hp. cbn [fst snd heap trace db].
  simpl in Hp. by subst.
Qed.

(** A promise that was returned by [shutdown] is settled as the stored
    promise is, in every later state. *)
Lemma shutdown_handle_follows (h : list (option Promise.value)) handle inner stored :
  Promise.state h handle = Some (Promise.VPromise inner) →
  Promise.state h inner = Some (Promise.VPromise stored) →
  (∀ v, Promise.state h stored = Some v → v = Promise.VVoid) →
  Promise.settledWith 2 h handle = Promise.state h stored.
Proof.
  intros H1 H2 H3.
  rewrite (settledWith_follow _ _ _ _ H1), (settledWith_follow _ _ _ _ H2).
  apply settledWith_own. intros q Hq. by specialize (H3 _ Hq).
Qed.

End with_db.

End TimelineRunsFacts.

(** ** The promises of [shutdown] *)

Section timeline_shutdown.
Import Timeline.
Import BatchingTimelineUpdater.
Import TimelineRuns.
Import TimelineFacts.
Import TimelineRunsFacts.
Context {Db : Type} `{!Database Db}.
Implicit Types (env : Env Db) (u : BatchingTimelineUpdater.t) (st : State Db).

(** C9, as it holds.  Take an updater after any calls [ops1], call
    [shutdown], let any calls [ops2] follow, call [shutdown] again and let
    any calls [ops3] follow.  Each of the two calls returns a promise that
    did not exist before the call, so the second call does not return the
    promise of the first.  The second call posts nothing and leaves the
    updater and the database as they are: "exit" is posted once in all.
    Both promises follow the one stored [shutdownPromise]: at any time they
    are settled exactly if it is.  If it is settled, then with nothing, an
    "exiting" message has been received, and the trace shows the resolver
    call right behind the call of [terminate] on the worker thread (a call
    whose own promise the code does not wait for).  And the next "exiting"
    message settles both promises, if they are not settled yet. *)
Theorem shutdown_calls_follow_stored_promise
    (d : Db) (ops1 ops2 ops3 : list Op) :
  let st1 := run ops1 (init d) in
  let first := shutdown st1 in
  let st2 := run ops2 first.1 in
  let again := shutdown st2 in
  let st3 := run ops3 again.1 in
  ∃ stored,
    TimelineWorker.shutdownPromise (worker first.1.1) = Some stored ∧
    TimelineWorker.shutdownPromise (worker st3.1) = Some stored ∧
    (length (heap st1.2) ≤ first.2)%nat ∧
    (length (heap st2.2) ≤ again.2)%nat ∧
    again.2 ≠ first.2 ∧
    again.1.1 = st2.1 ∧
    trace again.1.2 = trace st2.2 ∧
    db again.1.2 = db st2.2 ∧
    exitsPosted (trace st3.2) = 1%nat ∧
    Promise.settledWith 2 (heap st3.2) first.2
    = Promise.state (heap st3.2) stored ∧
    Promise.settledWith 2 (heap st3.2) again.2
    = Promise.state (heap st3.2) stored ∧
    (∀ v, Promise.state (heap st3.2) stored = Some v →
       v = Promise.VVoid ∧
       Message Exiting ∈ ops1 ++ ops2 ++ ops3 ∧
       ∃ t1 t2,
         trace st3.2
         = t1 ++ EvTerminate :: EvResolve stored Promise.VVoid :: t2) ∧
    Promise.settledWith 2 (heap (step (Message Exiting) st3).2) first.2
    = Some Promise.VVoid ∧
    Promise.settledWith 2 (heap (step (Message Exiting) st3).2) again.2
    = Some Promise.VVoid.
Proof.
  intros st1 first st2 again st3.
  assert (shutdownOk st1) as Hok1.
  { apply run_shutdownOk, init_shutdownOk. }
  destruct (shutdown_handle st1 Hok1)
    as (stored & h1 & Hp1 & Hheap1 & Hfirst & Hlen1 & Hstored).
  fold first in Hp1, Hheap1, Hfirst.
  assert (TimelineWorker.shutdownPromise (worker st2.1) = Some stored) as Hp2.
  { by apply run_keeps_shutdownPromise. }
  destruct (shutdown_again st2 stored Hp2) as (Hu & Htr & Hdb & Hheap2 & Hagain).
  fold again in Hu, Htr, Hdb, Hheap2, Hagain.
  assert (TimelineWorker.shutdownPromise (worker st3.1) = Some stored) as Hp3.
  { apply run_keeps_shutdownPromise. by rewrite Hu. }
  assert (st3 = run (ops1 ++ Shutdown :: ops2 ++ Shutdown :: ops3) (init d))
    as Hrun.
  { rewrite run_app. change (run (Shutdown :: ?ops) ?st)
      with (run ops (step Shutdown st)).
    rewrite run_app. reflexivity. }
  assert (shutdownOk st3) as Hok3.
  { rewrite Hrun. apply run_shutdownOk, init_shutdownOk. }
  pose proof (run_heap_length ops2 first.1) as Hlen2. fold st2 in Hlen2.
  rewrite Hheap1, !length_app in Hlen2. simpl in Hlen2.
  (* the links of the two promises, in the heap of the second call *)
  assert (Promise.state (heap again.1.2) first.2
          = Some (Promise.VPromise (length h1)) ∧
          Promise.state (heap again.1.2) (length h1)
          = Some (Promise.VPromise stored) ∧
          Promise.state (heap again.1.2) again.2
          = Some (Promise.VPromise (length (heap st2.2))) ∧
          Promise.state (heap again.1.2) (length (heap st2.2))
          = Some (Promise.VPromise stored)) as (L1 & L2 & L3 & L4).
  { rewrite Hheap2, Hagain, Hfirst. split_and!.
    - rewrite state_app_lt by lia. apply run_keeps_resolved.
      rewrite Hheap1. apply state_snoc_second.
    - rewrite state_app_lt by lia. apply run_keeps_resolved.
      rewrite Hheap1. apply state_snoc_first.
    - apply state_snoc_second.
    - apply state_snoc_first. }
  assert (∀ st, shutdownOk st →
            TimelineWorker.shutdownPromise (worker st.1) = Some stored →
            ∀ v, Promise.state (heap st.2) stored = Some v → v = Promise.VVoid)
    as Hvoid.
  { intros st (_ & _ & _ & H4) Hp v Hv. by destruct (H4 _ _ Hp Hv). }
  exists stored. split_and!; [done|done|lia|lia|lia|done|done|done|..].
  - destruct (run_exits (ops1 ++ Shutdown :: ops2 ++ Shutdown :: ops3)
                (init d)) as (new & Htr' & Hexits & _).
    rewrite <-Hrun in Htr'. simpl in Htr', Hexits. subst new.
    rewrite Hexits, existsb_app. simpl. by rewrite orb_true_r.
  - apply (shutdown_handle_follows _ _ (length h1)); [| |by apply Hvoid].
    all: by apply run_keeps_resolved.
  - apply (shutdown_handle_follows _ _ (length (heap st2.2)));
      [| |by apply Hvoid].
    all: by apply run_keeps_resolved.
  - intros v Hv. destruct Hok3 as (_ & _ & _ & H4).
    destruct (H4 _ _ Hp3 Hv) as (-> & t1 & t2 & Ht).
    split_and!; [done| |by exists t1, t2].
    destruct (run_trace_terminate
                (ops1 ++ Shutdown :: ops2 ++ Shutdown :: ops3) (init d))
      as (new & Htr' & Hin).
    rewrite <-Hrun in Htr'. simpl in Htr'. subst new.
    assert (Message Exiting ∈ ops1 ++ Shutdown :: ops2 ++ Shutdown :: ops3)
      as Hmsg.
    { apply Hin. rewrite Ht. rewrite elem_of_app. right.
      apply list_elem_of_here. }
    rewrite elem_of_app, elem_of_cons, elem_of_app, elem_of_cons in Hmsg.
    rewrite !elem_of_app.
    destruct Hmsg as [?|[[=]|[?|[[=]|?]]]]; auto.
  - assert (Promise.state (heap (step (Message Exiting) st3).2) stored
            = Some Promise.VVoid) as Hsettled.
    { pose proof (step_shutdownOk (Message Exiting) st3 Hok3) as Hok4.
      pose proof (step_keeps_shutdownPromise (Message Exiting) st3 _ Hp3)
        as Hp4.
      destruct Hok3 as (H1 & H2 & _).
      assert (is_Some (Promise.state (heap (step (Message Exiting) st3).2)
                                     stored)) as [v Hv].
      { destruct st3 as [u env]. cbn [step fst snd] in *.
        unfold onMessage, TimelineWorker.processResponse. cbn [fst snd].
        rewrite H1, Hp3. unfold emit. cbn [heap].
        apply state_resolve_settled. auto. }
      by rewrite Hv, (Hvoid _ Hok4 Hp4 v Hv). }
    rewrite <-Hsettled.
    apply (shutdown_handle_follows _ _ (length h1)).
    + by apply step_keeps_resolved, run_keeps_resolved.
    + by apply step_keeps_resolved, run_keeps_resolved.
    + intros v. rewrite Hsettled. by intros [= <-].
  - assert (Promise.state (heap (step (Message Exiting) st3).2) stored
            = Some Promise.VVoid) as Hsettled.
    { pose proof (step_shutdownOk (Message Exiting) st3 Hok3) as Hok4.
      pose proof (step_keeps_shutdownPromise (Message Exiting) st3 _ Hp3)
        as Hp4.
      destruct Hok3 as (H1 & H2 & _).
      assert (is_Some (Promise.state (heap (step (Message Exiting) st3).2)
                                     stored)) as [v Hv].
      { destruct st3 as [u env]. cbn [step fst snd] in *.
        unfold onMessage, TimelineWorker.processResponse. cbn [fst snd].
        rewrite H1, Hp3. unfold emit. cbn [heap].
        apply state_resolve_settled. auto. }
      by rewrite Hv, (Hvoid _ Hok4 Hp4 v Hv). }
    rewrite <-Hsettled.
    apply (shutdown_handle_follows _ _ (length (heap st2.2))).
    + by apply step_keeps_resolved, run_keeps_resolved.
    + by apply step_keeps_resolved, run_keeps_resolved.
    + intros v. rewrite Hsettled. by intros [= <-].
Qed.

End timeline_shutdown.

(** The second of two [shutdown] calls on a new updater returns another
    promise than the first: the calls return the promises 2 and 4 of the
    heap, the stored promise being promise 0. *)
Lemma shutdown_second_call_returns_other_promise :
  let first := Timeline.BatchingTimelineUpdater.shutdown (Timeline.init ([] : StoreDb.t)) in
  let again := Timeline.BatchingTimelineUpdater.shutdown first.1 in
  Timeline.TimelineWorker.shutdownPromise
    (Timeline.BatchingTimelineUpdater.worker again.1.1) = Some 0%nat ∧
  first.2 = 2%nat ∧
  again.2 = 4%nat ∧
  again.2 ≠ first.2.
Proof. vm_compute. split_and!; done. Qed.

(** ** More facts about the collation *)

Module CollateReadingFacts.
Import Collate.
Import CollateReading.
Import CollateFacts.
Import SortFacts.

(** *** Slots of a grid *)

Lemma cellAt_writeValue inv' it' v g inv it :
  1 ≤ inv → 1 ≤ it →
  cellAt (writeValue inv' it' v g) inv it
  = if decide ((inv', it') = (inv, it)) then Some v else cellAt g inv it.
Proof.
  intros Hinv Hit. rewrite writeValue_spec. unfold cellAt.
  destruct (decide (inv' - 1 < 0)) as [Hneg|Hpos].
  - rewrite decide_False; [done|]. intros [= -> ->]. lia.
  - destruct (decide (inv' = inv)) as [->|Hne].
    + rewrite JsArrayFacts.array_get_set_eq by lia. cbn [mbind option_bind].
      destruct (decide (it' = it)) as [->|Hit'].
      * rewrite decide_True by done.
        apply JsArrayFacts.array_get_set_eq. lia.
      * rewrite decide_False by congruence.
        rewrite JsArrayFacts.array_get_set_ne by lia.
        destruct (JsArray.get g (inv - 1)); [done|].
        unfold JsArray.get. by case_decide.
    + rewrite decide_False by congruence.
      by rewrite JsArrayFacts.array_get_set_ne by lia.
Qed.

Lemma lastAt_snoc inv it rows row :
  lastAt inv it (rows ++ [row])
  = if decide (slot row = (inv, it)) then Some (MeasurementData.value row)
    else lastAt inv it rows.
Proof.
  unfold lastAt. rewrite filter_snoc. case_decide; [|done].
  by rewrite last_snoc.
Qed.

Lemma cellAt_gridOfRows rows inv it :
  1 ≤ inv → 1 ≤ it →
  cellAt (gridOfRows rows) inv it = lastAt inv it rows.
Proof.
  intros Hinv Hit. induction rows as [|row rows IH] using rev_ind.
  { unfold cellAt.
    replace (JsArray.get (gridOfRows []) (inv - 1))
      with (@None (list (option Z))); [done|].
    unfold JsArray.get. by case_decide. }
  unfold gridOfRows. rewrite foldl_app. cbn [foldl]. fold (gridOfRows rows).
  unfold writeRow. rewrite cellAt_writeValue, lastAt_snoc, IH by done.
  done.
Qed.

Lemma default_gridFrom rows : default [] (gridFrom rows) = gridOfRows rows.
Proof. by destruct rows. Qed.

Lemma firstOccurrences_nil {K} `{EqDecision K} (l : list K) :
  firstOccurrences l = [] → l = [].
Proof.
  destruct l as [|x l]; [done|]. intros Hnil.
  assert (x ∈ firstOccurrences (x :: l)) as Hin.
  { apply elem_of_firstOccurrences, list_elem_of_here. }
  rewrite Hnil in Hin. by apply elem_of_nil in Hin.
Qed.

(** *** The first row with a property *)

Lemma firstWith_snoc {A} (P : A → Prop) `{∀ x, Decision (P x)} (l : list A) x :
  firstWith P (l ++ [x])
  = match firstWith P l with
    | Some y => Some y
    | None => if decide (P x) then Some x else None
    end.
Proof.
  unfold firstWith. rewrite filter_snoc.
  destruct (filter P l) as [|y l'] eqn:Hl; by case_decide.
Qed.

Lemma firstWith_Some {A} (P : A → Prop) `{∀ x, Decision (P x)} (l : list A) x :
  firstWith P l = Some x → x ∈ l ∧ P x.
Proof.
  unfold firstWith. intros Hx. apply head_Some_elem_of in Hx.
  by apply list_elem_of_filter in Hx as [? ?].
Qed.

(** *** Where the fields of a series come from *)

Section provenance.
Variable simplifyCmdline : string → string.

#[local] Abbreviation loopState rows :=
  (foldl (collateRow simplifyCmdline) initial rows).

Lemma collateRow_cachesFrom rows row st :
  cachesFrom simplifyCmdline rows st →
  cachesFrom simplifyCmdline (rows ++ [row])
    (collateRow simplifyCmdline st row).
Proof.
  intros [Hrs Hcr]. split; intros c; rewrite firstWith_snoc.
  - assert (runSettings (collateRow simplifyCmdline st row)
            = match JsMap.get (MeasurementData.cmdline row) (runSettings st) with
              | Some _ => runSettings st
              | None =>
                  JsMap.set (MeasurementData.cmdline row)
                            (settingsOfRow simplifyCmdline row) (runSettings st)
              end) as ->.
    { unfold collateRow, runSettingOf.
      destruct (findOrConstructProcessedResult _ _) as [??].
      destruct (findOrConstructMeasurements _ _ _ _ _) as [[??]?].
      by destruct (JsMap.get (MeasurementData.cmdline row) (runSettings st)). }
    pose proof (Hrs c) as Hc.
    destruct (decide (MeasurementData.cmdline row = c)) as [<-|Hne].
    + destruct (firstWith _ rows) as [y|]; rewrite Hc; simpl; [done|].
      by rewrite JsMapFacts.get_set_eq.
    + destruct (JsMap.get (MeasurementData.cmdline row) (runSettings st));
        rewrite ?JsMapFacts.get_set_ne by done; rewrite Hc;
        by destruct (firstWith _ rows).
  - assert (criteria (collateRow simplifyCmdline st row)
            = match JsMap.get (criterionKey row) (criteria st) with
              | Some _ => criteria st
              | None =>
                  JsMap.set (criterionKey row) (criterionOfRow row) (criteria st)
              end) as ->.
    { unfold collateRow, criterionOf.
      destruct (findOrConstructProcessedResult _ _) as [??].
      destruct (findOrConstructMeasurements _ _ _ _ _) as [[??]?].
      by destruct (JsMap.get (criterionKey row) (criteria st)). }
    pose proof (Hcr c) as Hc.
    destruct (decide (criterionKey row = c)) as [<-|Hne].
    + destruct (firstWith _ rows) as [y|]; rewrite Hc; simpl; [done|].
      by rewrite JsMapFacts.get_set_eq.
    + destruct (JsMap.get (criterionKey row) (criteria st));
        rewrite ?JsMapFacts.get_set_ne by done; rewrite Hc;
        by destruct (firstWith _ rows).
Qed.

Lemma collated_cachesFrom rows :
  cachesFrom simplifyCmdline rows (loopState rows).
Proof.
  induction rows as [|row rows IH] using rev_ind; [done|].
  rewrite foldl_app. by apply collateRow_cachesFrom.
Qed.

Lemma runSettingOf_first rows row st :
  cachesFrom simplifyCmdline rows st →
  ∃ r0,
    firstWith (λ x, MeasurementData.cmdline x = MeasurementData.cmdline row)
              (rows ++ [row]) = Some r0 ∧
    runSettingOf simplifyCmdline row (runSettings st)
    = settingsOfRow simplifyCmdline r0.
Proof.
  intros [Hrs _]. unfold runSettingOf. rewrite firstWith_snoc, Hrs.
  destruct (firstWith _ rows) as [r0|]; simpl.
  - by exists r0.
  - exists row. by rewrite decide_True.
Qed.

Lemma criterionOf_first rows row st :
  cachesFrom simplifyCmdline rows st →
  ∃ r1,
    firstWith (λ x, criterionKey x = criterionKey row) (rows ++ [row])
    = Some r1 ∧
    criterionOf row (criteria st) = criterionOfRow r1.
Proof.
  intros [_ Hcr]. unfold criterionOf. rewrite firstWith_snoc, Hcr.
  destruct (firstWith _ rows) as [r1|]; simpl.
  - by exists r1.
  - exists row. by rewrite decide_True.
Qed.

Lemma setValues_setValues vs vs' m :
  setValues vs (setValues vs' m) = setValues vs m.
Proof. done. Qed.

Lemma elem_of_upsertSeries_fields row fresh m ms :
  m ∈ upsertSeries row fresh ms →
  (∃ m', m' ∈ ms ∧ setValues [] m = setValues [] m')
  ∨ (¬ Exists (matchesRow row) ms ∧ setValues [] m = setValues [] fresh).
Proof.
  induction ms as [|m0 ms IH]; simpl.
  - intros ->%list_elem_of_singleton. right. split; [|done].
    by intros ?%Exists_nil.
  - case_decide as Hm0.
    + intros [->|Hin]%elem_of_cons.
      * left. exists m0. split; [apply list_elem_of_here|done].
      * left. exists m. split; [by apply list_elem_of_further|done].
    + intros [->|Hin]%elem_of_cons.
      * left. exists m0. split; [apply list_elem_of_here|done].
      * destruct (IH Hin) as [(m' & Hm' & Heq)|[Hno Heq]].
        -- left. exists m'. split; [by apply list_elem_of_further|done].
        -- right. split; [|done]. by intros [?|?]%Exists_cons.
Qed.



Lemma upsertSeries_not_nil row fresh ms : upsertSeries row fresh ms ≠ [].
Proof. destruct ms; simpl; [done|]. by case_decide. Qed.

Lemma seriesFromRows_snoc rows row e s b m :
  seriesFromRows simplifyCmdline rows e s b m →
  seriesFromRows simplifyCmdline (rows ++ [row]) e s b m.
Proof.
  intros (r & r0 & r1 & Hr & H0 & H1 & Hm). exists r, r0, r1.
  split_and!; [|by rewrite firstWith_snoc, H0|by rewrite firstWith_snoc, H1
              |done].
  unfold rowsOfBench. rewrite filter_app, elem_of_app. by left.
Qed.

Lemma collated_seriesFromRows rows e s b m :
  m ∈ seriesOf (byExeSuiteBench (loopState rows)) e s b →
  seriesFromRows simplifyCmdline rows e s b m.
Proof.
  revert e s b m. induction rows as [|row rows IH] using rev_ind;
    intros e s b m.
  - by intros ?%elem_of_nil.
  - rewrite foldl_app. cbn [foldl]. rewrite collateRow_byExeSuiteBench.
    rewrite insertRow_seriesOf.
    pose proof (collated_cachesFrom rows) as Hcaches.
    case_decide as Hesb; [|intros Hin; by apply seriesFromRows_snoc, IH].
    destruct Hesb as (-> & -> & ->).
    intros [(m' & Hm' & Heq)|[_ Heq]]%elem_of_upsertSeries_fields.
    + apply seriesFromRows_snoc. destruct (IH _ _ _ _ Hm')
        as (r & r0 & r1 & Hr & H0 & H1 & Hm).
      exists r, r0, r1. split_and!; [done..|]. by rewrite Heq.
    + destruct (runSettingOf_first rows row _ Hcaches) as (r0 & H0 & Hs).
      destruct (criterionOf_first rows row _ Hcaches) as (r1 & H1 & Hc).
      rewrite Hs, Hc in Heq.
      exists row, r0, r1. split_and!; [|done..].
      unfold rowsOfBench. rewrite filter_app, elem_of_app. right.
      rewrite filter_cons, decide_True by done. apply list_elem_of_here.
Qed.

(** *** Benchmark records and criteria records *)

Lemma insertRow_benchOf crit rs row res e s b :
  benchOf (insertRow crit rs row res) e s b =
  if decide (e = MeasurementData.exe row ∧ s = MeasurementData.suite row
             ∧ b = MeasurementData.bench row)
  then
    let pr0 :=
      default (ProcessedResult.mk (MeasurementData.exe row)
                 (MeasurementData.suite row) (MeasurementData.bench row) [])
              (benchOf res e s b) in
    Some (ProcessedResult.mk (ProcessedResult.exe pr0)
            (ProcessedResult.suite pr0) (ProcessedResult.bench pr0)
            (upsertSeries row (freshSeries crit rs row) (seriesOf res e s b)))
  else benchOf res e s b.
Proof.
  unfold benchOf at 1. rewrite insertRow_suiteOf.
  destruct (decide (e = MeasurementData.exe row
                    ∧ s = MeasurementData.suite row)) as [[-> ->]|Hne].
  - cbn [mbind option_bind ResultsByBenchmark.benchmarks].
    destruct (decide (b = MeasurementData.bench row)) as [->|Hb].
    + rewrite decide_True by done. by rewrite JsMapFacts.get_set_eq.
    + rewrite decide_False by (by intros (_ & _ & ?)).
      rewrite JsMapFacts.get_set_ne by done. unfold benchOf.
      by destruct (suiteOf res _ _).
  - rewrite decide_False; [done|]. intros (-> & -> & _). by apply Hne.
Qed.


Lemma insertRow_filedByName crit rs row res :
  filedByName res → filedByName (insertRow crit rs row res).
Proof.
  intros Hres e s b pr. rewrite insertRow_benchOf.
  case_decide as Hesb; [|apply Hres].
  destruct Hesb as (-> & -> & ->). intros [= <-]. cbn.
  split_and!; [| | |apply upsertSeries_not_nil];
    destruct (benchOf res _ _ _) as [pr0|] eqn:Hpr0; try done;
    by destruct (Hres _ _ _ _ Hpr0) as (? & ? & ? & _).
Qed.

Lemma collated_filedByName rows :
  filedByName (byExeSuiteBench (loopState rows)).
Proof.
  induction rows as [|row rows IH] using rev_ind.
  - by intros e s b pr.
  - rewrite foldl_app. cbn [foldl]. rewrite collateRow_byExeSuiteBench.
    by apply insertRow_filedByName.
Qed.








End provenance.

(** *** What sorting keeps *)

Section sorting.
Variable localeCompare : string → string → Z.

Lemma sorted_benchOf res e s b :
  noDupKeys res →
  benchOf (sortResultsAlphabetically localeCompare res) e s b
  = benchOf res e s b.
Proof.
  intros Hnd. unfold benchOf. rewrite sorted_suiteOf by done.
  destruct (suiteOf res e s) as [r|] eqn:Hs; simpl; [|done].
  apply suiteOf_elem in Hs as (m & Hm & Hr).
  destruct Hnd as [_ Hall]. destruct (Hall _ _ Hm) as [_ Hall'].
  specialize (Hall' _ _ Hr).
  by rewrite of_entries_sort, get_sort.
Qed.

Lemma sorted_criteriaOf res e s :
  noDupKeys res →
  criteriaOf (sortResultsAlphabetically localeCompare res) e s
  = criteriaOf res e s.
Proof.
  intros Hnd. unfold criteriaOf. rewrite sorted_suiteOf by done.
  by destruct (suiteOf res e s).
Qed.

End sorting.

(** *** Sorting what is sorted *)

Section sort_twice.
Context {A : Type} (compareFn : A → A → Z).

Lemma sort_sorted (l : list A) :
  StronglySorted (λ a b, compareFn a b ≤ 0) l → JsSort.sort compareFn l = l.
Proof.
  induction 1 as [|x l Hs IH Hx]; simpl; [done|].
  fold (JsSort.sort compareFn l). rewrite IH.
  destruct l as [|y l]; simpl; [done|].
  apply Forall_cons in Hx as [Hxy _]. by rewrite decide_True.
Qed.

Lemma sort_idem (l : list A) :
  (∀ x y, compareFn x y ≤ 0 ∨ compareFn y x ≤ 0) →
  (∀ x y z, compareFn x y ≤ 0 → compareFn y z ≤ 0 → compareFn x z ≤ 0) →
  JsSort.sort compareFn (JsSort.sort compareFn l) = JsSort.sort compareFn l.
Proof. intros Htotal Htrans. by apply sort_sorted, sort_StronglySorted. Qed.

End sort_twice.

Section sort_maps_twice.
Variable localeCompare : string → string → Z.
Hypothesis consistent : consistentCompare localeCompare.

#[local] Abbreviation withValues g :=
  (fmap (M:=list) (λ p : string * _, (p.1, g p.2))).

Lemma sort_keys_idem {V} (m : list (string * V)) :
  JsSort.sort (compareKeys localeCompare)
    (JsSort.sort (compareKeys localeCompare) m)
  = JsSort.sort (compareKeys localeCompare) m.
Proof.
  destruct consistent as [Htotal Htrans].
  apply sort_idem; unfold compareKeys; [by intros x y|].
  intros x y z. apply Htrans.
Qed.

Lemma insert_withValues {V W} (g : V → W) (x : string * V) m :
  JsSort.insert (compareKeys localeCompare) (x.1, g x.2) (withValues g m)
  = withValues g (JsSort.insert (compareKeys localeCompare) x m).
Proof.
  induction m as [|y m IH]; csimpl; [done|].
  change (compareKeys localeCompare (x.1, g x.2) (y.1, g y.2))
    with (compareKeys localeCompare x y).
  case_decide; csimpl; [done|]. by rewrite IH.
Qed.

Lemma sort_withValues {V W} (g : V → W) (m : list (string * V)) :
  JsSort.sort (compareKeys localeCompare) (withValues g m)
  = withValues g (JsSort.sort (compareKeys localeCompare) m).
Proof.
  induction m as [|x m IH]; [done|]. csimpl.
  fold (JsSort.sort (compareKeys localeCompare) (withValues g m)).
  fold (JsSort.sort (compareKeys localeCompare) m).
  by rewrite IH, insert_withValues.
Qed.

Lemma sortMap_idem {V} (g : V → V) (m : JsMap.t V) :
  NoDup (JsMap.keys m) →
  (∀ k v, (k, v) ∈ m → g (g v) = g v) →
  sortMap localeCompare g (sortMap localeCompare g m)
  = sortMap localeCompare g m.
Proof.
  intros Hnd Hg.
  rewrite (sortMap_unfold localeCompare g m) by done.
  rewrite sortMap_unfold.
  - rewrite sort_withValues, sort_keys_idem, <-list_fmap_compose.
    apply list_fmap_ext. intros i [k v] Hi. simpl. f_equal.
    apply (Hg k). rewrite <-(sort_Permutation (compareKeys localeCompare) m).
    by eapply list_elem_of_lookup_2.
  - unfold JsMap.keys. rewrite fmap_values_keys. by apply NoDup_sort_keys.
Qed.

Lemma sortBenchmarks_idem (r : ResultsByBenchmark.t) :
  NoDup (JsMap.keys (ResultsByBenchmark.benchmarks r)) →
  sortBenchmarks localeCompare (sortBenchmarks localeCompare r)
  = sortBenchmarks localeCompare r.
Proof.
  intros Hnd. unfold sortBenchmarks.
  cbn [ResultsByBenchmark.benchmarks ResultsByBenchmark.criteria].
  f_equal. unfold JsMap.entries.
  rewrite (of_entries_sort localeCompare (ResultsByBenchmark.benchmarks r))
    by done.
  rewrite sort_keys_idem. by apply of_entries_sort.
Qed.

Lemma sortResultsAlphabetically_idem res :
  noDupKeys res →
  sortResultsAlphabetically localeCompare
    (sortResultsAlphabetically localeCompare res)
  = sortResultsAlphabetically localeCompare res.
Proof.
  intros [Hnd Hall]. rewrite !sortResultsAlphabetically_sortMap.
  apply sortMap_idem; [done|]. intros e m Hm.
  destruct (Hall e m Hm) as [Hnd' Hall'].
  apply sortMap_idem; [done|]. intros s r Hr.
  apply sortBenchmarks_idem. by eapply Hall'.
Qed.

End sort_maps_twice.

End CollateReadingFacts.

(** ** Collating the rows in another order *)

Section collate_permutation.
Import Collate.
Import CollateReading.
Import CollateFacts.
Import SortFacts.
Import CollateReadingFacts.
Variable simplifyCmdline : string → string.
Variable localeCompare : string → string → Z.

#[local] Abbreviation collated rows :=
  (collateMeasurements simplifyCmdline localeCompare rows).
#[local] Abbreviation loopState rows :=
  (foldl (collateRow simplifyCmdline) initial rows).

Lemma uniformSeries_Permutation rows rows' :
  rows ≡ₚ rows' → uniformSeries rows → uniformSeries rows'.
Proof. intros Hp Hu r1 r2 H1 H2. apply Hu; by rewrite Hp. Qed.

(** With the name, the cache key gives the unit. *)
Lemma criterionKey_unit r1 r2 :
  criterionKey r1 = criterionKey r2 →
  MeasurementData.criterion r1 = MeasurementData.criterion r2 →
  MeasurementData.unit r1 = MeasurementData.unit r2.
Proof.
  unfold criterionKey. intros Hkey Hname. rewrite Hname in Hkey.
  revert Hkey. generalize (MeasurementData.criterion r2). intros name.
  induction name as [|c name IH]; simpl; [by intros [= ?]|].
  intros [= ?]. by apply IH.
Qed.

Lemma findSeries_elem k ms m :
  NoDup (seriesKey <$> ms) → m ∈ ms → seriesKey m = k →
  findSeries k ms = Some m.
Proof.
  intros Hnd Hm <-. induction ms as [|m0 ms IH]; [by apply elem_of_nil in Hm|].
  csimpl in Hnd. apply NoDup_cons in Hnd as [Hm0 Hnd]. simpl.
  apply elem_of_cons in Hm as [->|Hm].
  - by rewrite decide_True.
  - rewrite decide_False; [by apply IH|].
    intros Heq. apply Hm0. rewrite Heq. by apply list_elem_of_fmap_2.
Qed.

Lemma series_eta m m' :
  setValues [] m = setValues [] m' →
  Measurements.values m = Measurements.values m' →
  m = m'.
Proof. destruct m, m'. unfold setValues. simpl. by intros [= -> -> -> -> -> -> ->] ->. Qed.

(** The series as a whole, when the rows agree on what it takes from
    them. *)
Lemma seriesFromRows_uniform rows e s b m :
  consistentCriteria rows → uniformSeries rows →
  seriesFromRows simplifyCmdline rows e s b m →
  ∃ r, r ∈ rowsOfBench e s b rows ∧
       seriesKey m = rowKey r ∧
       setValues [] m
       = freshSeries (criterionOfRow r) (settingsOfRow simplifyCmdline r) r.
Proof.
  intros Hc Hu (r & r0 & r1 & Hr & H0 & H1 & Hm).
  apply firstWith_Some in H0 as [H0 Hcmd].
  apply firstWith_Some in H1 as [H1 Hkey].
  assert (r ∈ rows) as Hin.
  { by apply list_elem_of_filter in Hr as [_ ?]. }
  pose proof (Hc r1 r H1 Hin Hkey) as Hname.
  pose proof (criterionKey_unit r1 r Hkey Hname) as Hunit.
  destruct (proj1 (Hu r0 r H0 Hin) Hcmd) as (Hv & Hco & Hi & Hx & Hw).
  assert (criterionOfRow r1 = criterionOfRow r) as Hcrit.
  { unfold criterionOfRow. by rewrite Hname, Hunit. }
  assert (settingsOfRow simplifyCmdline r0 = settingsOfRow simplifyCmdline r)
    as Hset.
  { unfold settingsOfRow. by rewrite Hcmd, Hv, Hco, Hi, Hx, Hw. }
  rewrite Hcrit, Hset in Hm. exists r. split_and!; [done| |done].
  change (seriesKey m) with (seriesKey (setValues [] m)). by rewrite Hm.
Qed.

Lemma series_kept rows rows' e s b m :
  rows ≡ₚ rows' → NoDup (cell <$> rows) →
  consistentCriteria rows → uniformSeries rows →
  m ∈ seriesOf (byExeSuiteBench (loopState rows)) e s b →
  m ∈ seriesOf (byExeSuiteBench (loopState rows')) e s b.
Proof.
  intros Hp Hcells Hc Hu Hm.
  pose proof (consistentCriteria_Permutation rows rows' Hp Hc) as Hc'.
  pose proof (uniformSeries_Permutation rows rows' Hp Hu) as Hu'.
  destruct (collated_stateAfter simplifyCmdline rows Hc)
    as ((_ & _ & _ & _ & B5 & B6) & _).
  destruct (collated_stateAfter simplifyCmdline rows' Hc')
    as ((_ & _ & _ & _ & B5' & B6') & _).
  set (L := seriesOf (byExeSuiteBench (loopState rows)) e s b) in *.
  set (L' := seriesOf (byExeSuiteBench (loopState rows')) e s b) in *.
  assert (NoDup (seriesKey <$> L)) as Hnd.
  { subst L. fold (seriesKeys (byExeSuiteBench (loopState rows)) e s b).
    rewrite B5. apply NoDup_firstOccurrences. }
  assert (NoDup (seriesKey <$> L')) as Hnd'.
  { subst L'. fold (seriesKeys (byExeSuiteBench (loopState rows')) e s b).
    rewrite B5'. apply NoDup_firstOccurrences. }
  assert (∃ m', m' ∈ L' ∧ seriesKey m' = seriesKey m) as (m' & Hm' & Hk).
  { assert (seriesKey m ∈ seriesKey <$> L') as Hin.
    { subst L'. fold (seriesKeys (byExeSuiteBench (loopState rows')) e s b).
      rewrite B5', elem_of_firstOccurrences.
      unfold rowsOfBench. rewrite <-Hp.
      fold (rowsOfBench e s b rows).
      rewrite <-(elem_of_firstOccurrences (rowKey <$> _)), <-B5.
      by apply list_elem_of_fmap_2. }
    apply list_elem_of_fmap in Hin as (m' & Heq & Hin). by exists m'. }
  assert (Measurements.values m = Measurements.values m') as Hvalues.
  { specialize (B6 e s b (seriesKey m)).
    specialize (B6' e s b (seriesKey m)).
    unfold gridOf in B6, B6'. fold L in B6. fold L' in B6'.
    rewrite (findSeries_elem _ _ m Hnd Hm eq_refl) in B6.
    rewrite (findSeries_elem _ _ m' Hnd' Hm' Hk) in B6'.
    rewrite (gridFrom_Permutation _ (rowsOfSeries e s b (seriesKey m) rows'))
      in B6.
    - rewrite <-B6' in B6. simpl in B6. congruence.
    - unfold rowsOfSeries. by rewrite Hp.
    - by apply NoDup_slots_of_series. }
  destruct (seriesFromRows_uniform rows e s b m Hc Hu
              (collated_seriesFromRows simplifyCmdline rows e s b m Hm))
    as (r & Hr & Hkr & Hhead).
  destruct (seriesFromRows_uniform rows' e s b m' Hc' Hu'
              (collated_seriesFromRows simplifyCmdline rows' e s b m' Hm'))
    as (r' & Hr' & Hkr' & Hhead').
  apply list_elem_of_filter in Hr as [(He & Hs & Hb) Hr].
  apply list_elem_of_filter in Hr' as [(He' & Hs' & Hb') Hr'].
  rewrite <-Hp in Hr'.
  assert (rowKey r = rowKey r') as Hrows by congruence.
  destruct (Hu r r' Hr Hr') as [Hsettings Hseries].
  destruct Hseries as (Hexp & Hunit & Hcmd); [congruence..|].
  destruct (Hsettings Hcmd) as (Hv & Hco & Hi & Hx & Hw).
  assert (m = m') as ->; [|done].
  apply series_eta; [|done]. rewrite Hhead, Hhead'.
  unfold freshSeries, criterionOfRow, settingsOfRow.
  injection Hrows as -> -> -> -> ->.
  by rewrite Hexp, Hunit, Hcmd, Hv, Hco, Hi, Hx, Hw.
Qed.

(** C6, as it holds.  Let [rows'] be a permutation of [rows], let no two
    rows be for the same slot of the same series of the same benchmark, and
    let the rows agree with the criteria cache.  Then the two collated
    results have the same execution units, the same suites in each of them,
    the same benchmarks in each suite and series with the same identities
    in each benchmark, up to the order of these lists, and the series of an
    identity has the same values grid in both.  The other fields of a
    series (the unit of its criterion, its experiment and its run settings)
    are the ones of the rows that the loop meets first.  So the series are
    the same as a whole, up to their order, when the rows of one series
    agree on experiment, unit and command line and the rows with one
    command line agree on the run settings. *)
Theorem collate_permutation_same_leaves
    (rows rows' : list MeasurementData.t) :
  rows ≡ₚ rows' →
  NoDup (cell <$> rows) →
  consistentCriteria rows →
  exeKeys (collated rows) ≡ₚ exeKeys (collated rows') ∧
  (∀ e, suiteKeys (collated rows) e ≡ₚ suiteKeys (collated rows') e) ∧
  (∀ e s, benchKeys (collated rows) e s ≡ₚ benchKeys (collated rows') e s) ∧
  (∀ e s b,
     NoDup (seriesKeys (collated rows) e s b) ∧
     seriesKeys (collated rows) e s b ≡ₚ seriesKeys (collated rows') e s b) ∧
  (∀ e s b k,
     gridOf (collated rows) e s b k = gridOf (collated rows') e s b k) ∧
  (uniformSeries rows →
   ∀ e s b,
     seriesOf (collated rows) e s b ≡ₚ seriesOf (collated rows') e s b).
Proof.
  intros Hp Hcells Hc.
  pose proof (consistentCriteria_Permutation rows rows' Hp Hc) as Hc'.
  destruct (collated_stateAfter simplifyCmdline rows Hc)
    as ((B1 & B2 & B3 & _ & B5 & B6) & Hnd & _).
  destruct (collated_stateAfter simplifyCmdline rows' Hc')
    as ((B1' & B2' & B3' & _ & B5' & B6') & Hnd' & _).
  unfold collateMeasurements.
  refine (conj _ (conj _ (conj _ (conj _ (conj _ _))))).
  - rewrite !sorted_exeKeys, !sort_Permutation, B1, B1' by done.
    apply firstOccurrences_Permutation. by rewrite Hp.
  - intros e. rewrite !sorted_suiteKeys, !sort_Permutation, B2, B2' by done.
    apply firstOccurrences_Permutation. unfold rowsOfExe. by rewrite Hp.
  - intros e s.
    rewrite !sorted_benchKeys, !sort_Permutation, B3, B3' by done.
    apply firstOccurrences_Permutation. unfold rowsOfSuite. by rewrite Hp.
  - intros e s b. unfold seriesKeys. rewrite !sorted_seriesOf by done.
    fold (seriesKeys (byExeSuiteBench (loopState rows)) e s b).
    fold (seriesKeys (byExeSuiteBench (loopState rows')) e s b).
    rewrite B5, B5'. split; [apply NoDup_firstOccurrences|].
    apply firstOccurrences_Permutation. unfold rowsOfBench. by rewrite Hp.
  - intros e s b k. unfold gridOf. rewrite !sorted_seriesOf by done.
    fold (gridOf (byExeSuiteBench (loopState rows)) e s b k).
    fold (gridOf (byExeSuiteBench (loopState rows')) e s b k).
    rewrite B6, B6'. apply gridFrom_Permutation.
    + unfold rowsOfSeries. by rewrite Hp.
    + by apply NoDup_slots_of_series.
  - intros Hu e s b. rewrite !sorted_seriesOf by done.
    apply NoDup_Permutation.
    + eapply (NoDup_fmap_1 seriesKey).
      fold (seriesKeys (byExeSuiteBench (loopState rows)) e s b).
      rewrite B5. apply NoDup_firstOccurrences.
    + eapply (NoDup_fmap_1 seriesKey).
      fold (seriesKeys (byExeSuiteBench (loopState rows')) e s b).
      rewrite B5'. apply NoDup_firstOccurrences.
    + intros m. split.
      * by apply series_kept.
      * apply series_kept; [done|by rewrite <-Hp|done|].
        by apply (uniformSeries_Permutation rows).
Qed.

End collate_permutation.

Section collate_permutation_instance.
Import Collate.
Import Samples.
Import NumericCollation.

Lemma collate_permutation_same_leaves_witness :
  let rotated :=
    [row "A" "S" "B" "total" "ms" 2 1 30;
     row "A" "S" "B" "total" "ms" 1 1 10;
     row "A" "S" "B" "total" "ms" 1 2 20] in
  threeSlots ≡ₚ rotated ∧
  NoDup (cell <$> threeSlots) ∧
  consistentCriteria threeSlots ∧
  gridOf (collate threeSlots) "A" "S" "B" totalKey
  = gridOf (collate rotated) "A" "S" "B" totalKey ∧
  gridOf (collate rotated) "A" "S" "B" totalKey
  = Some [Some [Some 10; Some 20]; Some [Some 30]] ∧
  CollateReading.uniformSeries threeSlots ∧
  seriesOf (collate threeSlots) "A" "S" "B"
  ≡ₚ seriesOf (collate rotated) "A" "S" "B".
Proof.
  intros rotated.
  assert (threeSlots ≡ₚ rotated) as Hp.
  { symmetry.
    exact (Permutation_cons_append
             [row "A" "S" "B" "total" "ms" 1 1 10;
              row "A" "S" "B" "total" "ms" 1 2 20]
             (row "A" "S" "B" "total" "ms" 2 1 30)). }
  assert (NoDup (cell <$> threeSlots)) as Hnd.
  { vm_compute. repeat (apply NoDup_cons; split);
      rewrite ?not_elem_of_cons; try apply NoDup_nil_2;
      split_and?; try apply not_elem_of_nil; by intros [=]. }
  assert (consistentCriteria threeSlots) as Hc.
  { intros r1 r2 H1 H2 _. unfold threeSlots in *.
    repeat (apply elem_of_cons in H1 as [->|H1]);
      repeat (apply elem_of_cons in H2 as [->|H2]);
      try done; by apply elem_of_nil in H1 || by apply elem_of_nil in H2. }
  destruct (collate_permutation_same_leaves (λ cmdline, cmdline)
              numericCompare threeSlots rotated Hp Hnd Hc)
    as (_ & _ & _ & _ & Hgrid & Hseries).
  assert (CollateReading.uniformSeries threeSlots) as Hu.
  { intros r1 r2 H1 H2. unfold threeSlots in *.
    repeat (apply elem_of_cons in H1 as [->|H1]);
      repeat (apply elem_of_cons in H2 as [->|H2]);
      try (by apply elem_of_nil in H1); try (by apply elem_of_nil in H2).
    all: split; intros; by split_and!. }
  split_and!; [exact Hp|exact Hnd|exact Hc|exact (Hgrid "A" "S" "B" totalKey)
              |by vm_compute|exact Hu|exact (Hseries Hu "A" "S" "B")].
Defined.

End collate_permutation_instance.

(** ** Facts about the dashboard *)

Module DashboardFacts.
Import Js.
Import Dashboard.
Import JsMapFacts.

(** *** Maps and objects *)

Lemma get_filter_None {V} (P : string * V → Prop) `{∀ x, Decision (P x)}
    (k : string) (m : JsMap.t V) :
  JsMap.get k m = None → JsMap.get k (filter P m) = None.
Proof.
  rewrite !get_None_keys. unfold JsMap.keys. intros Hno Hin. apply Hno.
  apply list_elem_of_fmap in Hin as (kv & -> & Hin).
  apply list_elem_of_filter in Hin as [_ Hin]. by apply list_elem_of_fmap_2.
Qed.

Lemma get_delete_eq {V} (k : string) (m : JsMap.t V) :
  JsMap.get k (delete k m) = None.
Proof.
  apply get_None_keys. unfold JsMap.keys, delete. intros Hin.
  apply list_elem_of_fmap in Hin as (kv & -> & Hin).
  by apply list_elem_of_filter in Hin as [? _].
Qed.

Lemma get_delete_ne {V} (k k' : string) (m : JsMap.t V) :
  k ≠ k' → JsMap.get k' (delete k m) = JsMap.get k' m.
Proof.
  intros Hne. unfold delete. induction m as [|[k0 v0] m IH]; [done|].
  rewrite filter_cons. simpl. case_decide as Hk0; simpl.
  - by rewrite IH.
  - subst k0. by rewrite decide_False.
Qed.

Lemma has_false {V} (k : string) (m : JsMap.t V) :
  JsMap.has k m = false ↔ JsMap.get k m = None.
Proof. unfold JsMap.has. by destruct (JsMap.get k m). Qed.

Lemma has_true {V} (k : string) (m : JsMap.t V) :
  JsMap.has k m = true ↔ is_Some (JsMap.get k m).
Proof.
  unfold JsMap.has. by destruct (JsMap.get k m).
Qed.

Lemma get_assign_None (k : string) (target source : Object) :
  JsMap.get k source = None →
  JsMap.get k (assign target source) = JsMap.get k target.
Proof.
  unfold assign. revert target.
  induction source as [|[k0 v0] s IH]; intros target; simpl; [done|].
  case_decide as Hk; [done|]. intros Hs. rewrite IH by done.
  apply get_set_ne. congruence.
Qed.

(** *** [dashResults] *)

Lemma dashResults_snoc (rows : list Object) (r : Object) :
  dashResults (rows ++ [r])
  = dashResults rows ≫= λ timeSeries, dashResultsRow timeSeries r.
Proof. unfold dashResults. by rewrite foldl_snoc. Qed.

Lemma valuesOf_snoc (b : string) (rows : list Object) (r : Object) :
  valuesOf b (rows ++ [r])
  = valuesOf b rows
    ++ (if decide (toStr (prop r "benchmark") = b) then [prop r "value"]
        else []).
Proof.
  unfold valuesOf. rewrite filter_app, fmap_app. f_equal.
  rewrite filter_cons, filter_nil. by case_decide.
Qed.

Lemma valuesOf_nil_inherited (b : string) (rows : list Object) :
  Forall (λ r, toStr (prop r "benchmark") ∉ inheritedNames) rows →
  b ∈ inheritedNames → valuesOf b rows = [].
Proof.
  intros Hall Hb. unfold valuesOf.
  induction Hall as [|r rows Hr _ IH]; [done|].
  rewrite filter_cons. case_decide as Hk; [|done]. by subst b.
Qed.

Lemma dashResultsRow_groups (rows : list Object) (r : Object)
    (ts : JsMap.t (list Value)) :
  Forall (λ r, toStr (prop r "benchmark") ∉ inheritedNames) rows →
  groups rows ts →
  match dashResultsRow ts r with
  | Some ts' =>
      (toStr (prop r "benchmark") ∉ inheritedNames) ∧ groups (rows ++ [r]) ts'
  | None => toStr (prop r "benchmark") ∈ inheritedNames
  end.
Proof.
  intros Hall Hg. unfold dashResultsRow, hasProperty.
  set (k := toStr (prop r "benchmark")).
  destruct (decide (k ∈ inheritedNames)) as [Hin|Hnot].
  - rewrite (bool_decide_eq_true_2 _ Hin), orb_true_r. simpl.
    by rewrite (Hg k), (valuesOf_nil_inherited k rows).
  - rewrite (bool_decide_eq_false_2 _ Hnot), orb_false_r.
    assert (∀ ts0 vs, JsMap.get k ts0 = Some vs →
              (∀ b, b ≠ k → JsMap.get b ts0 = JsMap.get b ts) →
              vs = valuesOf k rows →
              groups (rows ++ [r]) (JsMap.set k (vs ++ [prop r "value"]) ts0))
      as Hset.
    { intros ts0 vs Hk Hother -> b. rewrite valuesOf_snoc. fold k.
      destruct (decide (k = b)) as [<-|Hne].
      - rewrite get_set_eq. by destruct (valuesOf k rows).
      - rewrite get_set_ne, app_nil_r by done. rewrite Hother by done.
        apply Hg. }
    unfold JsMap.has. pose proof (Hg k) as Hk.
    destruct (JsMap.get k ts) as [vs|] eqn:Hget; simpl.
    + rewrite Hget. split; [done|]. apply Hset; [done..|].
      destruct (valuesOf k rows); congruence.
    + rewrite get_set_eq. split; [done|].
      apply Hset; [apply get_set_eq| |].
      * intros b Hb. by apply get_set_ne.
      * by destruct (valuesOf k rows).
Qed.

(** *** Strings *)

Lemma length_append (a b : string) :
  String.length (a +:+ b) = (String.length a + String.length b)%nat.
Proof. induction a as [|c a IH]; simpl; [done|]. by rewrite IH. Qed.

Lemma append_inj_r (a b c : string) : a +:+ b = a +:+ c → b = c.
Proof. induction a as [|x a IH]; simpl; [done|]. intros [= H]. auto. Qed.

Lemma append_inj_l (a b c : string) : a +:+ c = b +:+ c → a = b.
Proof.
  revert b. induction a as [|x a IH]; intros [|y b]; simpl; [done| | |].
  - intros H. apply (f_equal String.length) in H.
    rewrite !length_append in H. simpl in H. lia.
  - intros H. apply (f_equal String.length) in H.
    rewrite !length_append in H. simpl in H. lia.
  - intros [= -> H]. f_equal. auto.
Qed.

Lemma append_String (c : ascii) (a b : string) :
  String c a +:+ b = String c (a +:+ b).
Proof. done. Qed.

Lemma append_empty (b : string) : "" +:+ b = b.
Proof. done. Qed.

Lemma append_assoc (a b c : string) : (a +:+ b) +:+ c = a +:+ (b +:+ c).
Proof.
  induction a as [|x a IH]; [done|]. by rewrite !append_String, IH.
Qed.

Lemma startsWith_true (p s : string) :
  startsWith p s = true ↔ ∃ t, s = p +:+ t.
Proof.
  revert s. induction p as [|a p IH]; intros s.
  - split; [|done]. intros _. by exists s.
  - destruct s as [|b s]; cbn [startsWith].
    + split; [done|]. by intros [t [=]].
    + rewrite andb_true_iff, bool_decide_eq_true, IH. split.
      * intros [-> [t ->]]. by exists t.
      * intros [t [= -> ->]]. split; [done|]. by exists t.
Qed.

Lemma startsWith_app_long (p s t : string) :
  (String.length p ≤ String.length s)%nat →
  startsWith p (s +:+ t) = startsWith p s.
Proof.
  revert s. induction p as [|a p IH]; intros s; [done|].
  destruct s as [|b s]; cbn [String.length]; [lia|]. intros Hlen.
  rewrite append_String. cbn [startsWith]. rewrite IH; [done|lia].
Qed.

Lemma dropChars_app (n : nat) (s t : string) :
  (n ≤ String.length s)%nat → dropChars n (s +:+ t) = dropChars n s +:+ t.
Proof.
  revert s. induction n as [|n IH]; intros s; [done|].
  destruct s as [|b s]; cbn [String.length]; [lia|]. intros Hlen.
  rewrite append_String. cbn [dropChars]. apply IH. lia.
Qed.

Lemma occursIn_length (p s : string) :
  occursIn p s → (String.length p ≤ String.length s)%nat.
Proof. intros (a & b & ->). rewrite !length_append. lia. Qed.

(** With an occurrence in the front part, what follows is left alone. *)
Lemma replaceFirst_occurs (p r s t : string) :
  occursIn p s → replaceFirst p r (s +:+ t) = replaceFirst p r s +:+ t.
Proof.
  induction s as [|c s IH]; intros Hocc;
    pose proof (occursIn_length p _ Hocc) as Hlen.
  - destruct p; [|cbn in Hlen; lia].
    rewrite append_empty.
    destruct t; cbn [replaceFirst startsWith dropChars String.length];
      by rewrite append_assoc, append_empty.
  - rewrite append_String. cbn [replaceFirst]. rewrite <-append_String.
    rewrite startsWith_app_long by done.
    destruct (startsWith p (String c s)) eqn:Hs.
    + by rewrite dropChars_app, append_assoc.
    + rewrite !append_String. f_equal.
      destruct Hocc as (a & b & Heq). destruct a as [|x a].
      * assert (startsWith p (String c s) = true) as Hs'.
        { apply startsWith_true. by exists b. }
        congruence.
      * rewrite append_String in Heq. injection Heq as -> ->.
        apply IH. by exists a, b.
Qed.

(** Without an occurrence that begins in the front part, the front part is
    left alone. *)
Lemma replaceFirst_app (p r a b : string) :
  (∀ a1 a2, a = a1 +:+ a2 → a2 ≠ "" → startsWith p (a2 +:+ b) = false) →
  replaceFirst p r (a +:+ b) = a +:+ replaceFirst p r b.
Proof.
  induction a as [|c a IH]; intros Hno; [done|].
  rewrite !append_String. cbn [replaceFirst]. rewrite <-append_String.
  rewrite (Hno "" (String c a)) by done. f_equal. apply IH.
  intros a1 a2 -> Ha2. by apply (Hno (String c a1) a2).
Qed.

Lemma includes_true (p s : string) : includes p s = true ↔ occursIn p s.
Proof.
  split.
  - induction s as [|c s IH]; cbn [includes]; rewrite orb_true_iff.
    + intros [Hs|?]; [|done]. apply startsWith_true in Hs as [t ->].
      by exists "", t.
    + intros [Hs|Hs].
      * apply startsWith_true in Hs as [t ->]. by exists "", t.
      * destruct (IH Hs) as (a & b & ->). by exists (String c a), b.
  - intros (a & b & ->). induction a as [|c a IH].
    + rewrite append_empty.
      assert (startsWith p (p +:+ b) = true) as Hs.
      { apply startsWith_true. by exists b. }
      destruct (p +:+ b); cbn [includes]; by rewrite Hs.
    + rewrite append_String. cbn [includes]. by rewrite IH, orb_true_r.
Qed.

Lemma includes_false (p s : string) : includes p s = false ↔ ¬ occursIn p s.
Proof. rewrite <-includes_true. by destruct (includes p s). Qed.

Lemma occursIn_suffix (p a1 a2 : string) :
  occursIn p a2 → occursIn p (a1 +:+ a2).
Proof.
  intros (a & b & ->). exists (a1 +:+ a), b. by rewrite append_assoc.
Qed.

(** [".html"] does not begin in a string without it when a slash or
    [".html"] follows. *)
Lemma html_not_across (a b : string) :
  ¬ occursIn ".html" a →
  startsWith ".html" (a +:+ "/" +:+ b) = false
  ∧ (a ≠ "" → startsWith ".html" (a +:+ ".html") = false).
Proof.
  intros Hno.
  assert (startsWith ".html" a = true → False) as Hstart.
  { intros Hs. apply startsWith_true in Hs as [t ->]. apply Hno.
    by exists "", t. }
  destruct a as [|c1 [|c2 [|c3 [|c4 [|c5 a]]]]];
    rewrite ?append_String, ?append_empty; cbn [startsWith];
    repeat (case_bool_decide; cbn [andb]; [|done]); subst;
    try done.
  all: exfalso; apply Hstart; cbn [startsWith];
    by rewrite !bool_decide_eq_true_2.
Qed.

Section world.
Variable robustPath : string → string.
Variable reportsUrl : string.
Variable staticUrl : string.
Variable dirname : string.

#[local] Abbreviation dashCompare := (dashCompare robustPath reportsUrl).
#[local] Abbreviation dashGetExpData := (dashGetExpData staticUrl dirname).
#[local] Abbreviation dashDeleteOldReport := (dashDeleteOldReport robustPath).
#[local] Abbreviation step := (step robustPath reportsUrl staticUrl dirname).
#[local] Abbreviation run := (run robustPath reportsUrl staticUrl dirname).
#[local] Abbreviation getReportFilename := (getReportFilename robustPath).
#[local] Abbreviation startsGeneration := (startsGeneration robustPath).
#[local] Abbreviation startsPreparation := (startsPreparation dirname).
#[local] Abbreviation expDataFileOf := (expDataFileOf dirname).
#[local] Abbreviation expDataScript := (expDataScript dirname).

Lemma run_snoc (ops : list Op) (op : Op) (w : World) :
  run (ops ++ [op]) w = step op (run ops w).
Proof. unfold run, Dashboard.run. by rewrite foldl_snoc. Qed.

Lemma run_ops_app (ops ops' : list Op) (w : World) :
  run (ops ++ ops') w = run ops' (run ops w).
Proof. unfold run, Dashboard.run. by rewrite foldl_app. Qed.

Lemma getReportFilename_inj (r r' : string) :
  getReportFilename r = getReportFilename r' → r = r'.
Proof.
  unfold getReportFilename, Dashboard.getReportFilename. intros H.
  apply append_inj_r in H. apply append_inj_r in H.
  by apply append_inj_l in H.
Qed.

Lemma expDataFileOf_inj (d d' : string) :
  expDataFileOf d = expDataFileOf d' → d = d'.
Proof.
  unfold expDataFileOf, Dashboard.expDataFileOf. intros H.
  apply append_inj_r in H. apply append_inj_r in H.
  by apply append_inj_l in H.
Qed.

Lemma expDataScript_not_Rscript : expDataScript ≠ "Rscript".
Proof.
  unfold expDataScript, Dashboard.expDataScript. intros H.
  apply (f_equal String.length) in H. rewrite length_append in H.
  simpl in H. lia.
Qed.

(** *** What [dashCompare] does to the world *)

Lemma dashCompare_world base change project dbConfig revDetails now start w :
  let reportId := getReportId project base change in
  let w' := (dashCompare base change project dbConfig revDetails now start w).2 in
  files w' = files w ∧
  expDataPreparation w' = expDataPreparation w ∧
  if startsGeneration base change project revDetails w then
    reportGeneration w'
    = JsMap.set reportId [("inProgress", Bool true)] (reportGeneration w) ∧
    children w'
    = children w ++ [(S (handles w), ReportScript reportId start)] ∧
    events w'
    = events w
      ++ [EvLog ("Generate Report: Rscript '"
                 +:+ join "' '"
                       (reportArgs robustPath reportsUrl base change
                          (reportId +:+ ".html") dbConfig "")
                 +:+ "'");
          EvExecFile "Rscript"
            (reportArgs robustPath reportsUrl base change
               (reportId +:+ ".html") dbConfig "")
            (Some (reportOutputFolder robustPath))]
  else
    reportGeneration w' = reportGeneration w ∧
    children w' = children w ∧
    events w' = events w.
Proof.
  intros reportId w'. subst w'.
  unfold startsGeneration, Dashboard.startsGeneration, dashCompare,
    Dashboard.dashCompare, JsMap.has.
  fold reportId. cbn [newHandle].
  destruct (truthy (prop revDetails "dataFound")); cbn [negb andb]; [|done].
  cbn [files reportGeneration].
  destruct (JsMap.get _ (files w)); cbn [negb andb]; [done|].
  destruct (JsMap.get reportId (reportGeneration w)) as [prev|];
    cbn [negb andb].
  - by destruct (truthy (prop prev "error")).
  - cbn. by rewrite <-app_assoc.
Qed.

(** *** What [dashGetExpData] does to the world *)

Lemma dashGetExpData_world expId dbConfig result now start w :
  let expDataId := expDataIdOf (prop (experimentOf result) "project") expId in
  let w' := (dashGetExpData expId dbConfig result now start w).2 in
  files w' = files w ∧
  reportGeneration w' = reportGeneration w ∧
  if startsPreparation expId result w then
    expDataPreparation w'
    = JsMap.set expDataId [("inProgress", Bool true)] (expDataPreparation w) ∧
    children w' = children w ++ [(handles w, ExpDataScript expDataId start)] ∧
    events w'
    = events w
      ++ [EvLog ("Prepare Data for Download:" +:+ expDataScript +:+ " "
                 +:+ join " " (expDataArgs dirname expId dbConfig
                                 (expDataFileOf expDataId)));
          EvExecFile expDataScript
            (expDataArgs dirname expId dbConfig (expDataFileOf expDataId))
            None]
  else
    expDataPreparation w' = expDataPreparation w ∧
    children w' = children w ∧
    events w' = events w.
Proof.
  intros expDataId w'. subst w'.
  unfold startsPreparation, Dashboard.startsPreparation, dashGetExpData,
    Dashboard.dashGetExpData, JsMap.has.
  fold expDataId.
  destruct (JsMap.get _ (files w)); cbn [negb andb]; [done|].
  destruct (JsMap.get expDataId (expDataPreparation w)) as [prev|];
    cbn [negb andb].
  - by destruct (truthy (prop prev "error")).
  - cbn. by rewrite <-app_assoc.
Qed.

(** *** What [dashDeleteOldReport] does to the world *)

Lemma dashDeleteOldReport_world project base change w :
  let reportId := getReportId project base change in
  let file := getReportFilename reportId in
  let w' := dashDeleteOldReport project base change w in
  expDataPreparation w' = expDataPreparation w ∧
  children w' = children w ∧
  if JsMap.has file (files w) then
    files w'
    = removeTree (getOutputImageFolder file) (delete file (files w)) ∧
    reportGeneration w' = delete reportId (reportGeneration w) ∧
    events w'
    = events w ++ [EvUnlink file; EvRemoveTree (getOutputImageFolder file)]
  else w' = w.
Proof.
  intros reportId file w'. subst w'.
  unfold dashDeleteOldReport, Dashboard.dashDeleteOldReport.
  fold reportId. fold file.
  destruct (JsMap.has file (files w)); [|done].
  cbn. by rewrite <-app_assoc.
Qed.

Lemma childOf_elem (p : nat) (c : Child) (w : World) :
  childOf p w = Some c → (p, c) ∈ children w.
Proof.
  unfold childOf. destruct (head _) as [[p' c']|] eqn:Hhead; [|done].
  intros [= ->]. apply head_Some_elem_of in Hhead.
  apply list_elem_of_filter in Hhead as [Hp ?]. simpl in Hp. by subst p'.
Qed.

(** *** What a step does to the reports *)

#[local] Ltac world_simpl :=
  unfold onGenerated, onGenerationError, onPrepared, onPreparationError,
    onPreparationEnd, await, chain, settle, emit, withReportGeneration,
    withExpDataPreparation, withChildren, withFiles;
  cbn [events reportGeneration expDataPreparation files children handles].

Lemma generationsOf_app (f : string) (tr tr' : list Event) :
  generationsOf f (tr ++ tr') = generationsOf f tr ++ generationsOf f tr'.
Proof. unfold generationsOf. apply filter_app. Qed.

Lemma preparationsOf_app (f : string) (tr tr' : list Event) :
  preparationsOf dirname f (tr ++ tr')
  = preparationsOf dirname f tr ++ preparationsOf dirname f tr'.
Proof. unfold preparationsOf. apply filter_app. Qed.

Lemma step_reportStep (op : Op) (w : World) :
  reportStep robustPath w (step op w).
Proof.
  unfold reportStep.
  destruct op as [base change project dbConfig revDetails now start
                 |expId dbConfig result now start
                 |project base change
                 |p result|p e|p|p e
                 |path content]; cbn [step Dashboard.step].
  - pose proof (dashCompare_world base change project dbConfig revDetails now
                  start w) as (_ & _ & H).
    cbv zeta in H.
    destruct (startsGeneration _ _ _ _ w) eqn:Hs.
    + destruct H as (Hrg & _ & Hev). right. right. right.
      unfold startsGeneration, Dashboard.startsGeneration in Hs.
      apply andb_true_iff in Hs as [Hs Hno].
      apply andb_true_iff in Hs as [_ Hfile].
      apply negb_true_iff, has_false in Hno, Hfile.
      eexists _, _. split_and!; [exact Hfile|exact Hno|exact Hrg|].
      intros f. rewrite Hev, generationsOf_app. f_equal.
      unfold generationsOf. rewrite filter_cons, filter_cons, filter_nil.
      cbn [isGeneration]. rewrite decide_False by done.
      unfold reportArgs. cbn [lookup list_lookup].
      destruct (decide (f = _)) as [->|Hne].
      * rewrite decide_True; [done|]. by apply bool_decide_eq_true_2.
      * rewrite decide_False; [done|]. intros Hb.
        apply bool_decide_eq_true_1 in Hb as [_ [=]]. by apply Hne.
    + destruct H as (Hrg & _ & Hev). left. by rewrite Hrg, Hev.
  - pose proof (dashGetExpData_world expId dbConfig result now start w)
      as (_ & Hrg & H).
    cbv zeta in H. left. split; [done|]. intros f.
    destruct (startsPreparation _ _ w).
    + destruct H as (_ & _ & ->). rewrite generationsOf_app.
      unfold generationsOf at 2. rewrite filter_cons, filter_cons, filter_nil.
      cbn [isGeneration]. rewrite decide_False by done.
      rewrite decide_False; [by rewrite app_nil_r|]. intros Hb.
      apply bool_decide_eq_true_1 in Hb as [Hb _].
      by apply expDataScript_not_Rscript in Hb.
    + by destruct H as (_ & _ & ->).
  - pose proof (dashDeleteOldReport_world project base change w)
      as (_ & _ & H).
    cbv zeta in H. destruct (JsMap.has _ (files w)) eqn:Hhas.
    + destruct H as (_ & Hrg & Hev). right. right. left.
      eexists. split_and!; [exact Hhas|exact Hrg|].
      intros f. by rewrite Hev, generationsOf_app, app_nil_r.
    + rewrite H. by left.
  - destruct (childOf p w) as [[rid st|rid st|d st|d st]|]; try by left.
    + right. left. eexists _, _. split_and!; [reflexivity|done|].
      intros f. world_simpl. by rewrite generationsOf_app, app_nil_r.
    + left. split; [done|]. intros f. world_simpl.
      by rewrite generationsOf_app, app_nil_r.
  - destruct (childOf p w) as [[rid st|rid st|d st|d st]|]; try by left.
    + right. left. eexists _, _. split_and!; [reflexivity|done|].
      intros f. world_simpl.
      by rewrite <-app_assoc, generationsOf_app, app_nil_r.
    + left. split; [done|]. intros f. world_simpl.
      by rewrite <-app_assoc, generationsOf_app, app_nil_r.
  - destruct (childOf p w) as [[rid st|rid st|d st|d st]|]; try by left.
    left. split; [done|]. intros f. world_simpl.
    by rewrite generationsOf_app, app_nil_r.
  - destruct (childOf p w) as [[rid st|rid st|d st|d st]|]; try by left.
    + right. left. eexists _, _. split_and!; [reflexivity|done|].
      intros f. world_simpl.
      by rewrite <-app_assoc, generationsOf_app, app_nil_r.
    + left. split; [done|]. intros f. world_simpl.
      by rewrite <-app_assoc, generationsOf_app, app_nil_r.
  - by left.
Qed.

(** A file that is missing stays missing unless it is written. *)
Lemma step_files (f : string) (op : Op) (w : World) :
  writes f op = false →
  JsMap.get f (files w) = None → JsMap.get f (files (step op w)) = None.
Proof.
  intros Hw Hf.
  destruct op as [base change project dbConfig revDetails now start
                 |expId dbConfig result now start
                 |project base change
                 |p result|p e|p|p e
                 |path content]; cbn [step Dashboard.step].
  - pose proof (dashCompare_world base change project dbConfig revDetails now
                  start w) as (-> & _). done.
  - pose proof (dashGetExpData_world expId dbConfig result now start w)
      as (-> & _). done.
  - pose proof (dashDeleteOldReport_world project base change w)
      as (_ & _ & H).
    cbv zeta in H. destruct (JsMap.has _ (files w)).
    + destruct H as (-> & _). unfold removeTree, delete.
      by do 2 apply get_filter_None.
    + by rewrite H.
  - by destruct (childOf p w) as [[rid st|rid st|d st|d st]|].
  - by destruct (childOf p w) as [[rid st|rid st|d st|d st]|].
  - by destruct (childOf p w) as [[rid st|rid st|d st|d st]|].
  - by destruct (childOf p w) as [[rid st|rid st|d st|d st]|].
  - cbn [writes] in Hw. apply bool_decide_eq_false_1 in Hw.
    cbn. by rewrite get_set_ne.
Qed.

Lemma run_files (f : string) (ops : list Op) (w : World) :
  Forall (λ op, writes f op = false) ops →
  JsMap.get f (files w) = None → JsMap.get f (files (run ops w)) = None.
Proof.
  intros Hops. revert w. induction Hops as [|op ops Hop _ IH]; intros w Hf.
  - done.
  - apply IH. by apply step_files.
Qed.

(** *** No entry of [reportGeneration] speaks of an error *)

Lemma step_noErrorProperty (op : Op) (w : World) :
  noErrorProperty w → noErrorProperty (step op w).
Proof.
  intros Hw k entry.
  destruct (step_reportStep op w)
    as [(-> & _)|[(rid & E & -> & HE & _)|[(rid & _ & -> & _)
       |(rid & e & _ & _ & -> & _)]]].
  - apply Hw.
  - intros Hin. apply elem_set in Hin as [[_ ->]|Hin]; [done|].
    by apply (Hw k).
  - intros Hin. apply list_elem_of_filter in Hin as [_ Hin]. by apply (Hw k).
  - intros Hin. apply elem_set in Hin as [[_ ->]|Hin]; [done|].
    by apply (Hw k).
Qed.

Lemma run_noErrorProperty (ops : list Op) (fs : JsMap.t string) :
  noErrorProperty (run ops (loaded fs)).
Proof.
  induction ops as [|op ops IH] using rev_ind.
  - intros k entry Hin. by apply elem_of_nil in Hin.
  - rewrite run_snoc. by apply step_noErrorProperty.
Qed.

(** *** One generation while the report file is missing *)

Lemma step_generatedOnce (reportId : string) (op : Op) (w : World) :
  JsMap.get (getReportFilename reportId) (files w) = None →
  (length (generationsOf (reportId +:+ ".html") (events w)) ≤ 1)%nat →
  (generationsOf (reportId +:+ ".html") (events w) ≠ [] →
   is_Some (JsMap.get reportId (reportGeneration w))) →
  (length (generationsOf (reportId +:+ ".html") (events (step op w))) ≤ 1)%nat
  ∧ (generationsOf (reportId +:+ ".html") (events (step op w)) ≠ [] →
     is_Some (JsMap.get reportId (reportGeneration (step op w)))).
Proof.
  intros Hfile Hlen Hentry.
  destruct (step_reportStep op w)
    as [(-> & ->)|[(rid & E & -> & _ & ->)|[(rid & Hhas & -> & ->)
       |(rid & e & _ & Hno & -> & ->)]]].
  - done.
  - split; [done|]. intros Hne. destruct (decide (rid = reportId)) as [->|?].
    + by rewrite get_set_eq.
    + rewrite get_set_ne by done. auto.
  - split; [done|]. intros Hne. rewrite get_delete_ne; [auto|].
    intros ->. apply has_true in Hhas. rewrite Hfile in Hhas.
    by destruct Hhas.
  - case_decide as Heq.
    + apply append_inj_l in Heq. subst rid. rewrite get_set_eq.
      split; [|done].
      destruct (generationsOf _ (events w)) as [|e0 l]; [simpl; lia|].
      destruct Hentry as [x Hx]; [done|]. congruence.
    + rewrite app_nil_r. split; [done|]. intros Hne.
      rewrite get_set_ne; [auto|]. by intros ->.
Qed.

Lemma run_generatedOnce (reportId : string) (ops : list Op) (w : World) :
  Forall (λ op, writes (getReportFilename reportId) op = false) ops →
  JsMap.get (getReportFilename reportId) (files w) = None →
  (length (generationsOf (reportId +:+ ".html") (events w)) ≤ 1)%nat →
  (generationsOf (reportId +:+ ".html") (events w) ≠ [] →
   is_Some (JsMap.get reportId (reportGeneration w))) →
  (length (generationsOf (reportId +:+ ".html") (events (run ops w))) ≤ 1)%nat.
Proof.
  intros Hops. revert w.
  induction Hops as [|op ops Hop _ IH]; intros w Hfile Hlen Hentry; [done|].
  destruct (step_generatedOnce reportId op w Hfile Hlen Hentry) as [H1 H2].
  apply IH; [by apply step_files|done..].
Qed.

(** *** What a step does to the experiment data *)

Lemma filter_comm {A} (P Q : A → Prop) `{∀ x, Decision (P x)}
    `{∀ x, Decision (Q x)} (l : list A) :
  filter P (filter Q l) = filter Q (filter P l).
Proof.
  induction l as [|x l IH]; [done|].
  rewrite !filter_cons.
  destruct (decide (Q x)), (decide (P x)); rewrite ?filter_cons;
    repeat case_decide; try done; by rewrite IH.
Qed.

Lemma expDataChildren_settle (d : string) (p : nat) (w : World) :
  expDataChildren d (settle p w)
  = filter (λ pc, pc.1 ≠ p) (expDataChildren d w).
Proof. unfold expDataChildren, settle. cbn [children withChildren]. apply filter_comm. Qed.

Lemma expDataChildren_chain (d : string) (p : nat) (c : Child) (w : World) :
  expDataChildren d (chain p c w)
  = expDataChildren d w ++ (if waitsForExpData d c then [(p, c)] else []).
Proof.
  unfold expDataChildren, chain. cbn [children withChildren].
  rewrite filter_app. f_equal. rewrite filter_cons, filter_nil. cbn.
  by destruct (waitsForExpData d c).
Qed.

Lemma childOf_waits (d : string) (p : nat) (c : Child) (w : World) :
  childOf p w = Some c → waitsForExpData d c = true →
  (p, c) ∈ expDataChildren d w.
Proof.
  intros Hc Hw. apply list_elem_of_filter. split; [done|].
  by apply childOf_elem.
Qed.

Lemma settle_shorter (d : string) (p : nat) (c : Child) (w : World) :
  (p, c) ∈ expDataChildren d w →
  (length (expDataChildren d (settle p w)) < length (expDataChildren d w))%nat.
Proof.
  intros Hin. rewrite expDataChildren_settle.
  apply (length_filter_lt _ _ (p, c)); [done|]. simpl. by intros ?.
Qed.

Lemma filter_none {A} (P : A → Prop) `{∀ x, Decision (P x)} (l : list A) :
  Forall (λ x, ¬ P x) l → filter P l = [].
Proof.
  induction 1 as [|x l Hx _ IH]; [done|].
  by rewrite filter_cons, decide_False.
Qed.

Lemma preparationsOf_other (f : string) (tr tr' : list Event) :
  Forall (λ e, isPreparation dirname f e = false) tr' →
  preparationsOf dirname f (tr ++ tr') = preparationsOf dirname f tr.
Proof.
  intros Hall. rewrite preparationsOf_app.
  unfold preparationsOf at 2. rewrite filter_none; [by rewrite app_nil_r|].
  eapply Forall_impl; [exact Hall|]. intros e He. by rewrite He.
Qed.

(** A step that leaves the experiment data alone, removes handlers at the
    most, and adds none that wait for experiment data. *)
Lemma expDataStep_quiet (op : Op) (w w' : World) (p : nat)
    (next : list (nat * Child)) (tr : list Event) :
  expDataPreparation w' = expDataPreparation w →
  children w' = children w ++ next
  ∨ children w' = children (settle p w) ++ next →
  Forall (λ pc, ∀ d, waitsForExpData d pc.2 = false) next →
  events w' = events w ++ tr →
  (∀ f, Forall (λ e, isPreparation dirname f e = false) tr) →
  expDataStep dirname op w w'.
Proof.
  intros Hedp Hch Hnext Hev Htr. left. split_and!; [done| |].
  - intros d. unfold expDataChildren at 1.
    assert (filter (λ pc, waitsForExpData d pc.2 = true) next = []) as Hnil.
    { apply filter_none. eapply Forall_impl; [exact Hnext|].
      intros pc Hpc. by rewrite Hpc. }
    destruct Hch as [->| ->]; rewrite filter_app, Hnil, app_nil_r.
    + done.
    + fold (expDataChildren d (settle p w)). rewrite expDataChildren_settle.
      apply sublist_filter.
  - intros f. rewrite Hev. by apply preparationsOf_other.
Qed.

(** A step of a handler that waits for experiment data. *)
Lemma expDataStep_handler (op : Op) (w w' : World) (d : string) (p : nat)
    (c : Child) (next : list (nat * Child)) (tr : list Event) :
  childOf p w = Some c → waitsForExpData d c = true →
  (expDataPreparation w' = expDataPreparation w
   ∨ ∃ entry, expDataPreparation w'
              = JsMap.set d entry (expDataPreparation w)) →
  children w' = children (settle p w) ++ next →
  (length next ≤ 1)%nat →
  Forall (λ pc, ∀ d', d' ≠ d → waitsForExpData d' pc.2 = false) next →
  events w' = events w ++ tr →
  (∀ f, Forall (λ e, isPreparation dirname f e = false) tr) →
  expDataStep dirname op w w'.
Proof.
  intros Hc Hwaits Hedp Hch Hlen Hnext Hev Htr. right. right. exists d.
  pose proof (childOf_waits d p c w Hc Hwaits) as Hin.
  assert (∀ d', expDataChildren d' w'
                = expDataChildren d' (settle p w)
                  ++ filter (λ pc, waitsForExpData d' pc.2 = true) next)
    as Hkids.
  { intros d'. unfold expDataChildren at 1. by rewrite Hch, filter_app. }
  split_and!; [|done| | |].
  - intros Hnil. rewrite Hnil in Hin. by apply elem_of_nil in Hin.
  - intros d' Hne. rewrite Hkids, filter_none.
    + rewrite app_nil_r, expDataChildren_settle. apply sublist_filter.
    + eapply Forall_impl; [exact Hnext|]. intros pc Hpc.
      by rewrite (Hpc d' Hne).
  - rewrite Hkids, length_app.
    pose proof (settle_shorter d p c w Hin).
    pose proof (length_filter (λ pc, waitsForExpData d pc.2 = true) next).
    lia.
  - intros f. rewrite Hev. by apply preparationsOf_other.
Qed.

Lemma step_expDataStep (op : Op) (w : World) :
  expDataStep dirname op w (step op w).
Proof.
  assert (∀ w', w' = w → expDataStep dirname op w w') as Hsame.
  { intros w' ->.
    apply (expDataStep_quiet _ _ _ 0%nat [] []); [done|left|done| |done];
      by rewrite app_nil_r. }
  destruct op as [base change project dbConfig revDetails now start
                 |expId dbConfig result now start
                 |project base change
                 |p result|p e|p|p e
                 |path content]; cbn [step Dashboard.step].
  - pose proof (dashCompare_world base change project dbConfig revDetails now
                  start w) as (_ & Hedp & H).
    cbv zeta in H. destruct (startsGeneration _ _ _ _ w).
    + destruct H as (_ & Hch & Hev).
      eapply (expDataStep_quiet _ _ _ 0%nat);
        [done|left; exact Hch|by repeat constructor|exact Hev|].
      intros f. repeat constructor. cbn [isPreparation].
      apply bool_decide_eq_false_2. intros [Heq _].
      by apply (expDataScript_not_Rscript).
    + destruct H as (_ & Hch & Hev).
      apply (expDataStep_quiet _ _ _ 0%nat [] []); [done|left|done| |done];
        by rewrite app_nil_r.
  - pose proof (dashGetExpData_world expId dbConfig result now start w)
      as (_ & _ & H).
    cbv zeta in H. destruct (startsPreparation _ _ w) eqn:Hs.
    + destruct H as (Hedp & Hch & Hev). right. left.
      unfold startsPreparation, Dashboard.startsPreparation in Hs.
      apply andb_true_iff in Hs as [_ Hno].
      apply negb_true_iff, has_false in Hno.
      eexists _, _, _.
      split_and!; [|exact Hno|exact Hedp| |].
      * cbn [asksFor]. by apply bool_decide_eq_true_2.
      * intros d. unfold expDataChildren. rewrite Hch, filter_app. f_equal.
        rewrite filter_cons, filter_nil. cbn [snd waitsForExpData].
        case_decide as Hd.
        -- apply bool_decide_eq_true_1 in Hd. by rewrite decide_True.
        -- rewrite decide_False; [done|]. intros ->. apply Hd.
           by apply bool_decide_eq_true_2.
      * intros f. rewrite Hev, preparationsOf_app. f_equal.
        unfold preparationsOf. rewrite filter_cons, filter_cons, filter_nil.
        cbn [isPreparation]. rewrite decide_False by done.
        cbn [expDataArgs lookup list_lookup].
        destruct (decide (f = _)) as [->|Hne].
        -- rewrite decide_True; [done|]. by apply bool_decide_eq_true_2.
        -- rewrite decide_False; [done|]. intros Hb.
           apply bool_decide_eq_true_1 in Hb as [_ [=]]. by apply Hne.
    + destruct H as (Hedp & Hch & Hev).
      apply (expDataStep_quiet _ _ _ 0%nat [] []); [done|left|done| |done];
        by rewrite app_nil_r.
  - pose proof (dashDeleteOldReport_world project base change w)
      as (Hedp & Hch & H).
    cbv zeta in H. destruct (JsMap.has _ (files w)).
    + destruct H as (_ & _ & Hev).
      eapply (expDataStep_quiet _ _ _ 0%nat []);
        [done|left; by rewrite app_nil_r|done|exact Hev|].
      intros f. by repeat constructor.
    + by apply Hsame.
  - destruct (childOf p w) as [[rid st|rid st|d st|d st]|] eqn:Hc;
      try by apply Hsame.
    + eapply (expDataStep_quiet _ _ _ p [(p, ReportCompleting rid st)]
                [EvCompleteRequest st "generate-report"]);
        [done|by right|by repeat constructor|done|by repeat constructor].
    + eapply (expDataStep_handler _ _ _ d p _
                [(p, ExpDataCompleting d st)]
                [EvCompleteRequest st "prep-exp-data"]);
        [exact Hc|by apply bool_decide_eq_true_2|right; by eexists|done
        |simpl; lia| |done|by repeat constructor].
      repeat constructor. intros d' Hne. by apply bool_decide_eq_false_2.
  - destruct (childOf p w) as [[rid st|rid st|d st|d st]|] eqn:Hc;
      try by apply Hsame.
    + eapply (expDataStep_quiet _ _ _ p []
                [EvError "Report generation error: " e;
                 EvCompleteRequest st "generate-report"]);
        [done|right; by rewrite app_nil_r|done| |by repeat constructor].
      world_simpl. by rewrite <-app_assoc.
    + eapply (expDataStep_handler _ _ _ d p _ []
                [EvError "Data preparation failed: " e;
                 EvCompleteRequest st "prep-exp-data"]);
        [exact Hc|by apply bool_decide_eq_true_2|right; by eexists
        |by rewrite app_nil_r|simpl; lia|done| |by repeat constructor].
      world_simpl. by rewrite <-app_assoc.
  - destruct (childOf p w) as [[rid st|rid st|d st|d st]|] eqn:Hc;
      try by apply Hsame.
    + eapply (expDataStep_quiet _ _ _ p [] []);
        [done|right; by rewrite app_nil_r|done|by rewrite app_nil_r|done].
    + eapply (expDataStep_handler _ _ _ d p _ []
                [EvCompleteRequest st "prep-exp-data"]);
        [exact Hc|by apply bool_decide_eq_true_2|by left
        |by rewrite app_nil_r|simpl; lia|done|done|by repeat constructor].
  - destruct (childOf p w) as [[rid st|rid st|d st|d st]|] eqn:Hc;
      try by apply Hsame.
    + eapply (expDataStep_quiet _ _ _ p []
                [EvError "Report generation error: " e;
                 EvCompleteRequest st "generate-report"]);
        [done|right; by rewrite app_nil_r|done| |by repeat constructor].
      world_simpl. by rewrite <-app_assoc.
    + eapply (expDataStep_handler _ _ _ d p _ []
                [EvError "Data preparation failed: " e;
                 EvCompleteRequest st "prep-exp-data"]);
        [exact Hc|by apply bool_decide_eq_true_2|right; by eexists
        |by rewrite app_nil_r|simpl; lia|done| |by repeat constructor].
      world_simpl. by rewrite <-app_assoc.
  - eapply (expDataStep_quiet _ _ _ 0%nat [] []);
      [done|left; by rewrite app_nil_r|done|by rewrite app_nil_r|done].
Qed.

(** *** One preparation per experiment data *)

Lemma step_preparedOnce (d : string) (op : Op) (w : World) :
  preparedOnce dirname d w → preparedOnce dirname d (step op w).
Proof.
  intros (Hk1 & Hk2 & Hp1 & Hp2). unfold preparedOnce.
  destruct (step_expDataStep op w)
    as [(-> & Hch & Hev)
       |[(id & pc & e & _ & Hno & -> & Hch & Hev)
        |(id & Hkids & Hedp & Hch & Hlen & Hev)]];
    rewrite ?Hev.
  - pose proof (Hch d) as Hsub. split_and!; [|  |done|done].
    + apply sublist_length in Hsub. lia.
    + intros Hne. apply Hk2. intros Hnil. rewrite Hnil in Hsub.
      by apply sublist_nil_r in Hsub.
  - rewrite Hch. destruct (decide (d = id)) as [->|Hne].
    + rewrite decide_True, get_set_eq by done.
      assert (expDataChildren id w = []) as ->.
      { destruct (expDataChildren id w) as [|x l] eqn:Hx; [done|].
        destruct Hk2 as [y Hy]; [done|]. congruence. }
      assert (preparationsOf dirname (expDataFileOf id) (events w) = [])
        as ->.
      { destruct (preparationsOf _ _ (events w)) as [|x l] eqn:Hx; [done|].
        destruct Hp2 as [y Hy]; [done|]. congruence. }
      split_and!; simpl; [lia|done|lia|done].
    + rewrite decide_False by (intros Hf; by apply expDataFileOf_inj in Hf).
      rewrite !app_nil_r, get_set_ne by done. done.
  - destruct (decide (d = id)) as [->|Hne].
    + assert (is_Some (JsMap.get id (expDataPreparation (step op w))))
        as Hsome.
      { destruct Hedp as [->|[E ->]]; [by apply Hk2|].
        by rewrite get_set_eq. }
      split_and!; [lia|done|done|done].
    + assert (JsMap.get d (expDataPreparation (step op w))
              = JsMap.get d (expDataPreparation w)) as ->.
      { destruct Hedp as [->|[E ->]]; [done|]. by rewrite get_set_ne. }
      pose proof (Hch d Hne) as Hsub. split_and!; [| |done|done].
      * apply sublist_length in Hsub. lia.
      * intros Hnn. apply Hk2. intros Hnil. rewrite Hnil in Hsub.
        by apply sublist_nil_r in Hsub.
Qed.

Lemma run_preparedOnce (d : string) (ops : list Op) (w : World) :
  preparedOnce dirname d w → preparedOnce dirname d (run ops w).
Proof.
  revert w. induction ops as [|op ops IH]; intros w Hw; [done|].
  apply IH. by apply step_preparedOnce.
Qed.

Lemma loaded_preparedOnce (d : string) (fs : JsMap.t string) :
  preparedOnce dirname d (loaded fs).
Proof. split_and!; simpl; by try lia. Qed.

(** *** A failed preparation stays failed *)

Lemma step_failedWith (d : string) (error : Object) (op : Op) (w : World) :
  failedWith d error w → failedWith d error (step op w).
Proof.
  intros [Hentry Hkids]. unfold failedWith.
  destruct (step_expDataStep op w)
    as [(-> & Hch & _)
       |[(id & pc & e & _ & Hno & -> & Hch & _)
        |(id & Hne & Hedp & Hch & _)]].
  - split; [done|]. pose proof (Hch d) as Hsub. rewrite Hkids in Hsub.
    by apply sublist_nil_r in Hsub.
  - assert (id ≠ d) as Hid by (intros ->; congruence).
    rewrite Hch, decide_False, app_nil_r, get_set_ne by done. done.
  - assert (id ≠ d) as Hid by (intros ->; congruence).
    split.
    + destruct Hedp as [->|[E ->]]; [done|]. by rewrite get_set_ne.
    + pose proof (Hch d (not_eq_sym Hid)) as Hsub. rewrite Hkids in Hsub.
      by apply sublist_nil_r in Hsub.
Qed.

Lemma run_failedWith (d : string) (error : Object) (ops : list Op)
    (w : World) :
  failedWith d error w → failedWith d error (run ops w).
Proof.
  revert w. induction ops as [|op ops IH]; intros w Hw; [done|].
  apply IH. by apply step_failedWith.
Qed.

(** The end of a failed script. *)
Lemma failure_failedWith (d : string) (start : Z) (p : nat) (e : Object)
    (w : World) :
  preparedOnce dirname d w →
  childOf p w = Some (ExpDataScript d start) →
  failedWith d e (step (ScriptFailed p e) w).
Proof.
  intros (Hk1 & _) Hc. cbn [step Dashboard.step]. rewrite Hc. split.
  - world_simpl. by rewrite get_set_eq.
  - assert ((p, ExpDataScript d start) ∈ expDataChildren d w) as Hin.
    { apply (childOf_waits d p _ w Hc). by apply bool_decide_eq_true_2. }
    pose proof (settle_shorter d p _ w Hin) as Hlt.
    change (expDataChildren d (settle p w) = []).
    destruct (expDataChildren d (settle p w)); [done|]. simpl in Hlt. lia.
Qed.

(** *** Nothing is recorded for data that nobody asked for *)

Lemma step_unasked (d : string) (op : Op) (w : World) :
  preparedOnce dirname d w →
  asksFor d op = false →
  JsMap.get d (expDataPreparation w) = None →
  JsMap.get d (expDataPreparation (step op w)) = None.
Proof.
  intros (_ & Hk2 & _) Hask Hno.
  destruct (step_expDataStep op w)
    as [(-> & _)
       |[(id & pc & e & Hasks & _ & -> & _)
        |(id & Hne & Hedp & _)]].
  - done.
  - rewrite get_set_ne; [done|]. intros ->. congruence.
  - assert (id ≠ d) as Hid.
    { intros ->. destruct (Hk2 Hne) as [x Hx]. congruence. }
    destruct Hedp as [->|[E ->]]; [done|]. by rewrite get_set_ne.
Qed.

Lemma run_unasked (d : string) (ops : list Op) (fs : JsMap.t string) :
  Forall (λ op, asksFor d op = false) ops →
  JsMap.get d (expDataPreparation (run ops (loaded fs))) = None.
Proof.
  induction ops as [|op ops IH] using rev_ind; intros Hops; [done|].
  apply Forall_app in Hops as [Hops Hop].
  apply (proj1 (Forall_singleton _ _)) in Hop. rewrite run_snoc. apply step_unasked; [|exact Hop|by apply IH].
  apply run_preparedOnce, loaded_preparedOnce.
Qed.

(** *** The answers *)

Lemma prop_set_eq (k : string) (v : Value) (o : Object) :
  prop (JsMap.set k v o) k = v.
Proof. unfold prop. by rewrite get_set_eq. Qed.

Lemma prop_set_ne (k k' : string) (v : Value) (o : Object) :
  k ≠ k' → prop (JsMap.set k v o) k' = prop o k'.
Proof. intros Hne. unfold prop. by rewrite get_set_ne. Qed.

(** With data and without a report file, and with nothing recorded that
    speaks of an error. *)
Lemma dashCompare_answer base change project dbConfig revDetails now start w :
  let reportId := getReportId project base change in
  let data := (dashCompare base change project dbConfig revDetails now start w).1 in
  truthy (prop revDetails "dataFound") = true →
  JsMap.get (getReportFilename reportId) (files w) = None →
  (∀ prev, JsMap.get reportId (reportGeneration w) = Some prev →
     JsMap.get "error" prev = None) →
  prop data "generatingReport" = Bool true ∧
  prop data "report" = Undefined ∧
  (JsMap.get "generationFailed" revDetails = None →
   JsMap.get "generationFailed" data = None).
Proof.
  intros reportId data Hfound Hfile Hprev. subst data.
  unfold dashCompare, Dashboard.dashCompare. fold reportId.
  cbn [newHandle]. rewrite Hfound. cbn [negb files].
  rewrite Hfile.
  cbn [reportGeneration].
  destruct (JsMap.get reportId (reportGeneration w)) as [prev|] eqn:Hget.
  - assert (truthy (prop prev "error") = false) as ->.
    { unfold prop. by rewrite (Hprev prev eq_refl). }
    cbn [fst]. split_and!.
    + apply prop_set_eq.
    + rewrite prop_set_ne by done. rewrite prop_set_ne by done.
      apply prop_set_eq.
    + intros Hno. rewrite !get_set_ne by done. by rewrite get_assign_None.
  - unfold startReportGeneration, execFile, newHandle. cbn [fst].
    split_and!.
    + rewrite prop_set_ne by done. apply prop_set_eq.
    + rewrite !prop_set_ne by done. apply prop_set_eq.
    + intros Hno. rewrite !get_set_ne by done. by rewrite get_assign_None.
Qed.

(** Without a data file and with an entry that speaks of an error. *)
Lemma dashGetExpData_answer_failed expId dbConfig result now start w e :
  let d := expDataIdOf (prop (experimentOf result) "project") expId in
  let r := dashGetExpData expId dbConfig result now start w in
  JsMap.get (expDataFileOf d) (files w) = None →
  JsMap.get d (expDataPreparation w)
  = Some [("error", Obj e); ("stdout", prop e "stdout");
          ("stderr", prop e "stderr"); ("inProgress", Bool false)] →
  r.2 = w ∧
  prop r.1 "generationFailed" = Bool true ∧
  prop r.1 "stdout" = prop e "stdout" ∧
  prop r.1 "stderr" = prop e "stderr" ∧
  prop r.1 "preparingData" = Bool false ∧
  prop r.1 "downloadUrl" = Undefined.
Proof.
  intros d r Hfile Hentry. subst r.
  unfold dashGetExpData, Dashboard.dashGetExpData, JsMap.has. fold d.
  rewrite Hfile, Hentry.
  set (entry := [("error", Obj e); ("stdout", prop e "stdout");
                 ("stderr", prop e "stderr"); ("inProgress", Bool false)]).
  assert (prop entry "error" = Obj e) as -> by reflexivity.
  assert (prop entry "stdout" = prop e "stdout") as -> by reflexivity.
  assert (prop entry "stderr" = prop e "stderr") as -> by reflexivity.
  cbn [truthy fst snd]. split_and!; [done|..].
  - rewrite !prop_set_ne by done. apply prop_set_eq.
  - rewrite !prop_set_ne by done. apply prop_set_eq.
  - rewrite !prop_set_ne by done. apply prop_set_eq.
  - apply prop_set_eq.
  - rewrite !prop_set_ne by done.
    by destruct result as [[|row [|row' rows]]|].
Qed.

(** Without a data file and without an entry. *)
Lemma dashGetExpData_answer_started expId dbConfig result now start w :
  let d := expDataIdOf (prop (experimentOf result) "project") expId in
  let r := dashGetExpData expId dbConfig result now start w in
  JsMap.get (expDataFileOf d) (files w) = None →
  JsMap.get d (expDataPreparation w) = None →
  startsPreparation expId result w = true ∧
  prop r.1 "preparingData" = Bool true ∧
  (found result = false →
   d = "-" +:+ pretty expId ∧
   prop r.1 "generationFailed" = Bool true ∧
   prop r.1 "stdout" = Str "Experiment was not found").
Proof.
  intros d r Hfile Hentry. subst r.
  unfold startsPreparation, Dashboard.startsPreparation, dashGetExpData,
    Dashboard.dashGetExpData, JsMap.has. fold d.
  rewrite Hfile, Hentry. unfold execFile, newHandle. cbn [fst].
  split_and!; [done|apply prop_set_eq|].
  intros Hnot.
  assert (experimentOf result
          = [("project", Str ""); ("generationFailed", Bool true);
             ("stdout", Str "Experiment was not found")]) as Hexp.
  { by destruct result as [[|row [|row' rows]]|]. }
  subst d. rewrite Hexp. split_and!; [done|..];
    by rewrite !prop_set_ne by done.
Qed.

End world.

End DashboardFacts.

(** ** Facts about the database of the tests *)

Module TestDbFacts.
Import TestDb.

Section close.
Variable fails : list (Call * bool) → Call → bool.

Lemma close_unfold (db : t) :
  closingAttempted db = false → client db = true →
  close fails db
  = tryFinally (rollback fails)
      (tryFinally
         (call fails ClientRelease;; write (setClient false);;
          call fails PoolEnd;; write (setConnectionPool false))
         (release fails))
      (setClosingAttempted true db).
Proof.
  intros Hc Hcl. unfold close, ifField. rewrite Hc. cbn [closingAttempted].
  by rewrite Hcl.
Qed.

End close.

(** *** Rules for methods *)

Lemma triple_weaken {A} (P P' Q Q' E E' : t → Prop) (m : M A) :
  (∀ db, P' db → P db) → (∀ db, Q db → Q' db) → (∀ db, E db → E' db) →
  triple P m Q E → triple P' m Q' E'.
Proof.
  intros HP HQ HE H db Hdb. specialize (H db (HP db Hdb)).
  destruct (m db).1; auto.
Qed.

Lemma triple_ret {A} (P Q E : t → Prop) (a : A) :
  (∀ db, P db → Q db) → triple P (mret a) Q E.
Proof. intros H db Hdb. by apply H. Qed.

Lemma triple_throw {A} (P Q E : t → Prop) (e : Error) :
  (∀ db, P db → E db) → triple P (throw (A:=A) e) Q E.
Proof. intros H db Hdb. by apply H. Qed.

Lemma triple_write (P Q E : t → Prop) (f : t → t) :
  (∀ db, P db → Q (f db)) → triple P (write f) Q E.
Proof. intros H db Hdb. by apply H. Qed.

Lemma triple_bind {A B} (P R Q E : t → Prop) (m : M A) (k : A → M B) :
  triple P m R E → (∀ a, triple R (k a) Q E) → triple P (m ≫= k) Q E.
Proof.
  intros Hm Hk db Hdb. specialize (Hm db Hdb).
  unfold mbind, M_bind, bind. destruct (m db) as [[a|e] db']; simpl in *.
  - by apply Hk.
  - done.
Qed.

Lemma triple_tryFinally {A} (P R R' Q E : t → Prop) (body : M A)
    (handler : M unit) :
  triple P body R R' → triple R handler Q E → triple R' handler E E →
  triple P (tryFinally body handler) Q E.
Proof.
  intros Hb Hh Hh' db Hdb. specialize (Hb db Hdb). unfold tryFinally.
  destruct (body db) as [[a|e] db1]; simpl in *.
  - specialize (Hh db1 Hb). by destruct (handler db1) as [[[]|e] db2].
  - specialize (Hh' db1 Hb). by destruct (handler db1) as [[[]|e'] db2].
Qed.

Lemma triple_ifField {A} (P Q E : t → Prop) (field : t → bool)
    (yes no : M A) :
  triple (λ db, P db ∧ field db = true) yes Q E →
  triple (λ db, P db ∧ field db = false) no Q E →
  triple P (ifField field yes no) Q E.
Proof.
  intros Hy Hn db Hdb. unfold ifField. destruct (field db) eqn:Hf.
  - by apply Hy.
  - by apply Hn.
Qed.

Section rules.
Variable fails : list (Call * bool) → Call → bool.

Lemma triple_call (P Q E : t → Prop) (c : Call) :
  (∀ db, P db → Q (record c true db)) →
  (∀ db, P db → E (record c false db)) →
  triple P (call fails c) Q E.
Proof.
  intros HQ HE db Hdb. unfold call.
  destruct (fails (calls db) c); simpl; auto.
Qed.

End rules.

(** *** What the calls do to a sound object *)

Lemma queriesAfterConnect_snoc (tr : list (Call * bool)) (cb : Call * bool) :
  queriesAfterConnect tr →
  (isClientQuery cb = true → (PoolConnect, true) ∈ tr) →
  queriesAfterConnect (tr ++ [cb]).
Proof.
  intros Htr Hcb pre text ok post Heq.
  destruct post as [|x post _] using rev_ind.
  - apply app_inj_tail in Heq as [-> ->]. by apply Hcb.
  - rewrite app_comm_cons, app_assoc in Heq.
    apply app_inj_tail in Heq as [Heq _]. by apply (Htr pre text ok post).
Qed.

Lemma drops_snoc (db : t) (tr : list (Call * bool)) (cb : Call * bool) :
  drops db (tr ++ [cb]) = drops db tr ++ if isDrop db cb then [cb] else [].
Proof.
  unfold drops. rewrite filter_app, filter_cons, filter_nil.
  by destruct (isDrop db cb).
Qed.

Lemma inits_snoc (tr : list (Call * bool)) (cb : Call * bool) :
  inits (tr ++ [cb]) = inits tr ++ if isInit cb then [cb] else [].
Proof.
  unfold inits. rewrite filter_app, filter_cons, filter_nil.
  by destruct (isInit cb).
Qed.

Lemma isDrop_dropDatabase (db : t) (ok : bool) :
  isDrop db (dropDatabase db, ok) = true.
Proof. unfold isDrop, dropDatabase. cbn. by apply bool_decide_eq_true_2. Qed.

Lemma sound_record_plain (name : string) (c : Call) (ok : bool) (db : t) :
  plain c → sound name db → sound name (record c ok db).
Proof.
  intros Hc (H1 & H2 & H3 & H4 & H5 & H6 & H7). unfold sound.
  cbn [record database client calls closingAttempted preparedForTesting].
  change (drops (record c ok db)) with (drops db).
  rewrite drops_snoc, inits_snoc.
  assert (isDrop db (c, ok) = false ∧ isInit (c, ok) = false
          ∧ isClientQuery (c, ok) = false) as (-> & -> & Hq).
  { by destruct Hc as [->|[->|[->| ->]]]. }
  rewrite !app_nil_r. split_and!; try done.
  - intros Hcl. apply elem_of_app. left. by apply H2.
  - apply queriesAfterConnect_snoc; [done|]. by rewrite Hq.
Qed.

Lemma sound_record_query (name text : string) (ok : bool) (db : t) :
  client db = true → sound name db →
  sound name (record (ClientQuery text) ok db).
Proof.
  intros Hcl (H1 & H2 & H3 & H4 & H5 & H6 & H7). unfold sound.
  cbn [record database client calls closingAttempted preparedForTesting].
  change (drops (record (ClientQuery text) ok db)) with (drops db).
  rewrite drops_snoc, inits_snoc. cbn [isDrop isInit fst].
  rewrite !app_nil_r. split_and!; try done.
  - intros _. apply elem_of_app. left. by apply H2.
  - apply queriesAfterConnect_snoc; [done|]. intros _. by apply H2.
Qed.

Lemma sound_record_drop (name : string) (ok : bool) (db : t) :
  closingAttempted db = true → drops db (calls db) = [] → sound name db →
  sound name (record (dropDatabase db) ok db).
Proof.
  intros Hc Hd (H1 & H2 & H3 & H4 & H5 & H6 & H7). unfold sound.
  cbn [record database client calls closingAttempted preparedForTesting].
  change (drops (record (dropDatabase db) ok db)) with (drops db).
  rewrite drops_snoc, inits_snoc, isDrop_dropDatabase, Hd.
  cbn [isInit dropDatabase fst]. rewrite !app_nil_r.
  split_and!; try done.
  - intros Hcl. apply elem_of_app. left. by apply H2.
  - by apply queriesAfterConnect_snoc.
Qed.

Lemma sound_record_init (name : string) (ok : bool) (db : t) :
  preparedForTesting db = true → inits (calls db) = [] → sound name db →
  sound name (record InitializeDatabase ok db).
Proof.
  intros Hp Hi (H1 & H2 & H3 & H4 & H5 & H6 & H7). unfold sound.
  cbn [record database client calls closingAttempted preparedForTesting].
  change (drops (record InitializeDatabase ok db)) with (drops db).
  rewrite drops_snoc, inits_snoc, Hi. cbn [isDrop isInit fst].
  rewrite !app_nil_r. split_and!; try done.
  - intros Hcl. apply elem_of_app. left. by apply H2.
  - by apply queriesAfterConnect_snoc.
Qed.

(** The object while [close] runs: marked, and nothing dropped yet. *)
Lemma closing_record (name : string) (c : Call) (ok : bool) (db : t) :
  plain c ∨ (∃ text, c = ClientQuery text ∧ client db = true) →
  closing name db → closing name (record c ok db).
Proof.
  intros Hc (Hs & Hca & Hd). split_and!.
  - destruct Hc as [Hc|(text & -> & Hcl)].
    + by apply sound_record_plain.
    + by apply sound_record_query.
  - done.
  - cbn [record calls]. change (drops (record c ok db)) with (drops db).
    rewrite drops_snoc, Hd.
    assert (isDrop db (c, ok) = false) as ->; [|done].
    destruct Hc as [[->|[->|[->| ->]]]|(text & -> & _)]; done.
Qed.

(** The object while [prepareForTesting] runs: marked, and not initialised
    yet. *)
Lemma preparing_record (name : string) (c : Call) (ok : bool) (db : t) :
  plain c ∨ (∃ text, c = ClientQuery text ∧ client db = true) →
  preparing name db → preparing name (record c ok db).
Proof.
  intros Hc (Hs & Hp & Hi). split_and!.
  - destruct Hc as [Hc|(text & -> & Hcl)].
    + by apply sound_record_plain.
    + by apply sound_record_query.
  - done.
  - cbn [record calls]. rewrite inits_snoc, Hi.
    assert (isInit (c, ok) = false) as ->; [|done].
    destruct Hc as [[->|[->|[->| ->]]]|(text & -> & _)]; done.
Qed.

Section specs.
Variable fails : list (Call * bool) → Call → bool.
Variable name : string.

(** [query] keeps what is stable under queries of a connected client. *)
Lemma query_triple (P : t → Prop) (text : string) :
  (∀ db ok, client db = true → P db →
     P (record (ClientQuery text) ok db)) →
  triple P (query fails text) P P.
Proof.
  intros HP. unfold query. apply triple_ifField.
  - apply triple_call; intros db [Hdb Hcl]; by apply HP.
  - apply triple_throw. by intros db [? _].
Qed.

(** [connectClient] keeps what is stable under connecting. *)
Lemma connectClient_triple (P : t → Prop) :
  (∀ db ok, P db → P (record PoolConnect ok db)) →
  (∀ db, P db → P (setClient true db)) →
  triple (sound name) (connectClient fails) (sound name) (sound name) ∧
  triple P (connectClient fails) P P.
Proof.
  intros HP1 HP2. unfold connectClient. split.
  - apply triple_ifField.
    + apply (triple_bind _ (λ db, sound name db
                                 ∧ (PoolConnect, true) ∈ calls db)).
      * apply triple_call; intros db [Hdb _].
        -- split; [apply sound_record_plain; [by left|done]|].
           cbn [record calls]. apply elem_of_app. right.
           apply list_elem_of_here.
        -- apply sound_record_plain; [by left|done].
      * intros _. apply triple_write.
        intros db [(H1 & H2 & H3 & H4 & H5 & H6 & H7) Hin]. by split_and!.
    + apply triple_throw. by intros db [? _].
  - apply triple_ifField.
    + apply (triple_bind _ P).
      * apply triple_call; intros db [Hdb _]; by apply HP1.
      * intros _. apply triple_write. apply HP2.
    + apply triple_throw. by intros db [? _].
Qed.

Lemma rollback_triple (P : t → Prop) :
  (∀ db ok, P db → P (record ClearCache ok db)) →
  (∀ db text ok, client db = true → P db →
     P (record (ClientQuery text) ok db)) →
  triple P (rollback fails) P P.
Proof.
  intros H1 H2. unfold rollback. apply (triple_bind _ P).
  - apply triple_call; intros db Hdb; by apply H1.
  - intros _. apply triple_ifField.
    + eapply triple_weaken; [| | |apply (query_triple P)];
        [by intros db [? _]|done|done|].
      intros db ok. apply H2.
    + apply triple_ret. by intros db [? _].
Qed.

Lemma release_sound :
  triple (closing name) (release fails) (sound name) (sound name).
Proof.
  intros db (Hs & Hc & Hd).
  unfold release, mbind, M_bind, bind, read, call.
  destruct (fails (calls db) (dropDatabase db)); simpl;
    by apply sound_record_drop.
Qed.

Lemma closing_setClient (db : t) :
  closing name db → closing name (setClient false db).
Proof.
  intros ((H1 & H2 & H3 & H4 & H5 & H6 & H7) & Hc & Hd).
  by split_and!.
Qed.

Lemma closing_setConnectionPool (db : t) :
  closing name db → closing name (setConnectionPool false db).
Proof.
  intros ((H1 & H2 & H3 & H4 & H5 & H6 & H7) & Hc & Hd).
  by split_and!.
Qed.

Lemma close_sound : triple (sound name) (close fails) (sound name) (sound name).
Proof.
  unfold close. apply triple_ifField.
  { apply triple_throw. by intros db [? _]. }
  apply triple_ifField.
  2: { apply triple_throw. by intros db [[? _] _]. }
  apply (triple_bind _ (closing name)).
  { apply triple_write.
    intros db [[(H1 & H2 & H3 & H4 & H5 & H6 & H7) Hc] Hcl].
    assert (drops db (calls db) = []) as Hd.
    { destruct (drops db (calls db)) eqn:Hx; [done|].
      rewrite H4 in Hc; done. }
    by split_and!. }
  intros _.
  apply (triple_tryFinally _ (closing name) (closing name)).
  - eapply triple_weaken; [done| | |apply (rollback_triple (closing name))];
      [done|done| |].
    + intros db ok. apply closing_record. left. by do 3 right.
    + intros db text ok Hcl. apply closing_record. right. by exists text.
  - apply (triple_tryFinally _ (closing name) (closing name));
      [|apply release_sound|apply release_sound].
    apply (triple_bind _ (closing name)).
    { apply triple_call; intros db; apply closing_record; left;
        by right; left. }
    intros _. apply (triple_bind _ (closing name)).
    { apply triple_write. apply closing_setClient. }
    intros _. apply (triple_bind _ (closing name)).
    { apply triple_call; intros db; apply closing_record; left;
        by right; right; left. }
    intros _. apply triple_write. apply closing_setConnectionPool.
  - apply (triple_tryFinally _ (closing name) (closing name));
      [|apply release_sound|apply release_sound].
    apply (triple_bind _ (closing name)).
    { apply triple_call; intros db; apply closing_record; left;
        by right; left. }
    intros _. apply (triple_bind _ (closing name)).
    { apply triple_write. apply closing_setClient. }
    intros _. apply (triple_bind _ (closing name)).
    { apply triple_call; intros db; apply closing_record; left;
        by right; right; left. }
    intros _. apply triple_write. apply closing_setConnectionPool.
Qed.

Lemma preparing_setClient (db : t) :
  (PoolConnect, true) ∈ calls db →
  preparing name db → preparing name (setClient true db).
Proof.
  intros Hin ((H1 & H2 & H3 & H4 & H5 & H6 & H7) & Hp & Hi).
  by split_and!.
Qed.

Lemma prepareForTesting_sound :
  triple (sound name) (prepareForTesting fails) (sound name) (sound name).
Proof.
  unfold prepareForTesting. apply triple_ifField.
  { apply triple_throw. by intros db [? _]. }
  assert (∀ db, preparing name db → sound name db) as Hweak.
  { by intros db [? _]. }
  apply (triple_bind _ (preparing name)).
  { apply triple_write.
    intros db [(H1 & H2 & H3 & H4 & H5 & H6 & H7) Hp].
    assert (inits (calls db) = []) as Hi.
    { destruct (inits (calls db)) eqn:Hx; [done|].
      rewrite H6 in Hp; done. }
    by split_and!. }
  intros _. apply (triple_bind _ (preparing name)).
  { apply (triple_weaken (preparing name) _ (preparing name) _
             (preparing name)); [done|done|apply Hweak|].
    unfold connectClient. apply triple_ifField.
    - apply (triple_bind _ (λ db, preparing name db
                                 ∧ (PoolConnect, true) ∈ calls db)).
      + apply triple_call; intros db [Hdb _].
        * split; [apply preparing_record; [left; by left|done]|].
          cbn [record calls]. apply elem_of_app. right.
          apply list_elem_of_here.
        * apply preparing_record; [left; by left|done].
      + intros _. apply triple_write. intros db [Hdb Hin].
        by apply preparing_setClient.
    - apply triple_throw. by intros db [? _]. }
  intros _. apply (triple_bind _ (preparing name)).
  { apply (triple_weaken (preparing name) _ (preparing name) _
             (preparing name)); [done|done|apply Hweak|].
    apply triple_ifField.
    - eapply triple_weaken;
        [| | |apply (query_triple (preparing name) "BEGIN")];
        [by intros db [? _]|done|done|].
      intros db ok Hcl. apply preparing_record. right. by eexists.
    - apply triple_ret. by intros db [? _]. }
  intros _. apply (triple_bind _ (sound name)).
  { apply triple_call; intros db (Hs & Hp & Hi); by apply sound_record_init. }
  intros _. apply triple_ifField.
  - eapply triple_weaken;
      [| | |apply (query_triple (sound name) "SAVEPOINT freshDB")];
      [by intros db [? _]|done|done|].
    intros db ok Hcl. by apply sound_record_query.
  - apply triple_ret. by intros db [? _].
Qed.

Lemma method_sound (op : Op) :
  triple (sound name) (method fails op) (sound name) (sound name).
Proof.
  destruct op as [text| | | |]; cbn [method].
  - apply query_triple. intros db ok Hcl. by apply sound_record_query.
  - apply (connectClient_triple (λ _, True)); done.
  - apply prepareForTesting_sound.
  - apply rollback_triple.
    + intros db ok. apply sound_record_plain. by do 3 right.
    + intros db text ok Hcl. by apply sound_record_query.
  - apply close_sound.
Qed.

Lemma run_sound (ops : list Op) (db : t) :
  sound name db → sound name (run fails ops db).
Proof.
  revert db. induction ops as [|op ops IH]; intros db Hdb; [done|].
  apply IH. pose proof (method_sound op db Hdb) as H.
  by destruct (method fails op db).1.
Qed.

End specs.

Lemma create_sound (name : string) (useTransactions : bool) :
  sound name (create name useTransactions).
Proof.
  split_and!; try done; try (simpl; lia).
  intros pre text ok post Heq. by destruct pre.
Qed.

End TestDbFacts.

(** ** Facts about the plot of a timeline *)

Module PlotsFacts.
Import Js.
Import Plots.
Import JsMapFacts.
Import CollateFacts.









End PlotsFacts.

(** ** Further properties of the timeline engine *)

Section timeline_further_properties.
Import Timeline.
Import BatchingTimelineUpdater.
Import TimelineRuns.
Import TimelineFacts.
Import TimelineRunsFacts.
Context {Db : Type} `{!Database Db}.
Implicit Types (env : Env Db) (u : BatchingTimelineUpdater.t) (st : State Db).

(** X1.  The key of line 165 determines the three ids: two triples of
    trial, run and criterion get the same key only if they are the same
    triple, also when ids are negative and the key has two dashes in a
    row. *)
Theorem jobId_determines_ids (t r c t' r' c' : Z) :
  jobId t r c = jobId t' r' c' ↔ (t, r, c) = (t', r', c').
Proof.
  split; [|by intros [= -> -> ->]].
  by intros (-> & -> & ->)%jobId_inj.
Qed.

(** X2.  The table that [addValues] calls build on a new updater, as a
    whole: one job per key that was passed a non-null value, the jobs in the
    order in which their keys got their first non-null value, each job with
    all the non-null values passed for its key, in call order.
    [consumeUpdateJobsForBenchmarking] hands out the jobs in that order and
    leaves the table empty. *)
Theorem addValues_table_in_order_of_first_value (calls : list AddValuesCall) :
  let u := foldl (λ u c, addValuesCall c u) create calls in
  requests u = tableOf calls ∧
  (consumeUpdateJobsForBenchmarking u).1 = (tableOf calls).*2 ∧
  requests (consumeUpdateJobsForBenchmarking u).2 = JsMap.empty.
Proof.
  intros u. subst u.
  unfold consumeUpdateJobsForBenchmarking, JsMap.values. cbn [fst snd].
  by rewrite addValuesCalls_table.
Qed.

(** X3.  [submitUpdateJobs] takes every pending job: afterwards the table
    is empty, so a second [submitUpdateJobs] right behind it posts nothing,
    leaves the updater as it is and returns a new promise that is settled
    with 0.  If the first call dispatched jobs, [getQuiescencePromise] goes
    on returning the promise of the first call, not the one of the
    second. *)
Theorem submitUpdateJobs_twice (now now' : Z) (st : State Db) :
  let first := submitUpdateJobs now st in
  let second := submitUpdateJobs now' first.1 in
  requests first.1.1 = JsMap.empty ∧
  Promise.state (heap second.1.2) second.2 = Some (Promise.VNum 0) ∧
  trace second.1.2 = trace first.1.2 ∧
  second.1.1 = first.1.1 ∧
  (requests st.1 ≠ JsMap.empty →
   getQuiescencePromise second.1.1 = Some first.2 ∧ second.2 ≠ first.2).
Proof.
  intros first second.
  assert (requests first.1.1 = JsMap.empty) as Hempty.
  { subst first. destruct st as [u env].
    unfold submitUpdateJobs, consumeUpdateJobsForBenchmarking,
      processUpdateJobs. cbn [fst snd]. by case_decide. }
  destruct (submitUpdateJobs_empty_table now' first.1 Hempty)
    as (H1 & H2 & H3 & H4).
  fold second in H1, H2, H3, H4.
  split_and!; [done..|].
  intros Hjobs. rewrite H3, H4. subst first.
  assert (JsMap.values (requests st.1) ≠ []) as Hvalues.
  { unfold JsMap.values. by destruct (requests st.1). }
  rewrite submitUpdateJobs_unfold.
  destruct (processUpdateJobs_handle (JsMap.values (requests st.1)) now
              (with_requests JsMap.empty st.1, st.2) Hvalues)
    as (-> & -> & _ & Hp & _).
  unfold getQuiescencePromise. rewrite Hp. split; [done|].
  rewrite length_app. simpl. lia.
Qed.

(** X4.  Values added while a wave is outstanding wait for the next
    submission.  After a [submitUpdateJobs], whatever calls follow that do
    not take the pending jobs ([addValues], results and other messages of
    the worker, dispatches of given job lists, [shutdown]), the table holds
    exactly the jobs that the [addValues] calls among them build, and the
    next [submitUpdateJobs] posts one request with all of them (or nothing,
    if there are none). *)
Theorem values_added_during_wave_wait_for_next_submit
    (now now' : Z) (st : State Db) (ops : list Op) :
  Forall (λ op, takesJobs op = false) ops →
  let st1 := run ops (submitUpdateJobs now st).1 in
  requests st1.1 = tableOf (callsOf ops) ∧
  postedMessages
    (newEvents (trace st1.2) (trace (submitUpdateJobs now' st1).1.2))
  = match tableOf (callsOf ops) with
    | [] => []
    | _ => [PostRequest
              (Build_ComputeRequest (tableOf (callsOf ops)).*2 now')]
    end.
Proof.
  intros Hops st1.
  assert (requests st1.1 = tableOf (callsOf ops)) as Hreq.
  { subst st1. apply (run_requests ops _ []); [done|].
    rewrite submitUpdateJobs_unfold. unfold processUpdateJobs.
    by case_decide. }
  split; [done|]. rewrite submitUpdateJobs_unfold. unfold newEvents.
  unfold JsMap.values. rewrite Hreq.
  destruct (tableOf (callsOf ops)) as [|e table] eqn:Htable.
  - unfold processUpdateJobs. simpl. by rewrite drop_all.
  - destruct (processUpdateJobs_handle (e :: table).*2 now'
                (with_requests JsMap.empty st1.1, st1.2))
      as (_ & _ & _ & _ & _ & _ & _ & ->); [done|].
    cbn [snd]. by rewrite drop_app_length.
Qed.

(** X5.  Only results settle the promise of a wave.  Take an updater after
    any calls, let [submitUpdateJobs] dispatch its pending jobs, and let
    any calls follow that bring no results: errors and the exit of the
    worker thread, its "exiting" message, [shutdown], more values, further
    submissions.  The promise that the submission returned is still
    pending. *)
Theorem handle_pending_until_results_arrive
    (d : Db) (ops0 ops : list Op) (now : Z) :
  requests (run ops0 (init d)).1 ≠ JsMap.empty →
  Forall (λ op, deliversResults op = false) ops →
  let sub := submitUpdateJobs now (run ops0 (init d)) in
  Promise.state (heap (run ops sub.1).2) sub.2 = None.
Proof.
  intros Hjobs Hops sub. set (st0 := run ops0 (init d)) in *.
  assert (JsMap.values (requests st0.1) ≠ []) as Hvalues.
  { unfold JsMap.values. by destruct (requests st0.1). }
  assert (shutdownOk st0) as (H1 & H2 & _).
  { apply run_shutdownOk, init_shutdownOk. }
  subst sub. rewrite submitUpdateJobs_unfold.
  destruct (processUpdateJobs_handle (JsMap.values (requests st0.1)) now
              (with_requests JsMap.empty st0.1, st0.2) Hvalues)
    as (Hp & Hheap & _ & _ & Hw & _).
  cbn [fst snd] in *. rewrite Hp.
  apply (run_awaited (length (heap st0.2)) ops); [done|].
  unfold awaited. rewrite Hheap, Hw, length_app, state_snoc_new. simpl.
  split_and!; [lia|done|].
  destruct st0 as [u0 env0]. cbn [fst snd with_requests worker] in *.
  rewrite H1. intros Hs. specialize (H2 _ Hs). lia.
Qed.

(** X6.  A dispatch while the promise of an earlier dispatch is pending
    leaves the earlier promise pending for good.  Both [submitUpdateJobs]
    and [processUpdateJobsForBenchmarking] dispatch through
    [processUpdateJobs], which puts the new resolver in the place of the
    old one (lines 243-245).  After the second dispatch
    [getQuiescencePromise] returns the second promise, and no calls
    whatsoever settle the first. *)
Theorem dispatch_orphans_pending_handle
    (d : Db) (ops0 mid ops : list Op) (jobs1 jobs2 : list ComputeJob)
    (start1 start2 : Z) :
  jobs1 ≠ [] → jobs2 ≠ [] →
  let d1 := processUpdateJobs jobs1 start1 (run ops0 (init d)) in
  let st1 := run mid d1.1 in
  Promise.state (heap st1.2) d1.2 = None →
  let d2 := processUpdateJobs jobs2 start2 st1 in
  d2.2 ≠ d1.2 ∧
  getQuiescencePromise d2.1.1 = Some d2.2 ∧
  Promise.state (heap (run ops d2.1).2) d1.2 = None.
Proof.
  intros Hjobs1 Hjobs2 d1 st1 Hpending d2.
  set (st0 := run ops0 (init d)) in *.
  assert (shutdownOk st0) as (H1 & H2 & _).
  { apply run_shutdownOk, init_shutdownOk. }
  destruct (processUpdateJobs_handle jobs1 start1 st0 Hjobs1)
    as (Hp1 & Hheap1 & _ & _ & Hw1 & _).
  fold d1 in Hp1, Hheap1, Hw1.
  assert ((d1.2 < length (heap st1.2))%nat ∧
          TimelineWorker.shutdownResolve (worker st1.1) ≠ Some d1.2)
    as [Hlt Hsrs].
  { apply run_not_shutdown. rewrite Hheap1, Hw1, Hp1, length_app. simpl.
    split; [lia|]. rewrite H1. intros Hs. specialize (H2 _ Hs). lia. }
  destruct (processUpdateJobs_handle jobs2 start2 st1 Hjobs2)
    as (Hp2 & Hheap2 & Hrsv2 & Hq2 & Hw2 & _).
  fold d2 in Hp2, Hheap2, Hrsv2, Hq2, Hw2.
  split_and!.
  - rewrite Hp2. lia.
  - unfold getQuiescencePromise. by rewrite Hq2, Hp2.
  - apply (run_orphaned d1.2 ops). unfold orphaned.
    rewrite Hheap2, Hrsv2, Hw2, length_app, state_app_lt by done.
    split_and!; [lia|done| |done]. intros [=]. lia.
Qed.

(** X7.  The counts of overlapping waves add up.  A dispatch of M > 0 jobs
    while [activeRequests] is still K sets both the counter and
    [requestsAtStart] to K + M (lines 233-234).  When batches then bring
    exactly K + M results, none of them rejected by the database and the
    last with a truthy start marker, the counter is back at 0 and the
    promise of this dispatch is settled with K + M, not with M. *)
Theorem overlapping_waves_resolve_with_combined_count
    (jobs : list ComputeJob) (start : Z) (st : State Db)
    (pre : list ComputeResults) (b : ComputeResults)
    (post : list ComputeResults) :
  jobs ≠ [] →
  activeRequests st.1 + Z.of_nat (length jobs)
  = Z.of_nat (totalResults pre + length (results b)) →
  (0 < length (results b))%nat →
  totalResults post = 0%nat →
  truthy (resRequestStart b) = true →
  allReturned
    (receiveBatches (pre ++ b :: post) (processUpdateJobs jobs start st).1) →
  let dsp := processUpdateJobs jobs start st in
  let hist := receiveBatches (pre ++ b :: post) dsp.1 in
  let N := activeRequests st.1 + Z.of_nat (length jobs) in
  activeRequests dsp.1.1 = N ∧
  requestsAtStart dsp.1.1 = N ∧
  activeRequests (finalState dsp.1 hist).1 = 0 ∧
  Promise.state (heap (finalState dsp.1 hist).2) dsp.2 = Some (Promise.VNum N) ∧
  resolveCalls (newEvents (trace dsp.1.2) (trace (finalState dsp.1 hist).2))
  = [(dsp.2, Promise.VNum N)].
Proof.
  intros Hjobs Htotal Hb Hpost Htruthy Hret. cbv zeta.
  destruct (processUpdateJobs_handle jobs start st Hjobs)
    as (Hp & Hheap & Hrsv & _ & _ & Hactive & Hstart & _).
  set (N := activeRequests st.1 + Z.of_nat (length jobs)) in *.
  destruct (processUpdateJobs jobs start st) as [[u env] p].
  cbn [fst snd] in *. subst p.
  destruct (wave_progress (length (heap st.2)) N b post pre u env)
    as (W1 & W2 & (new & W3 & W4) & _); try done.
  - rewrite Hheap. by apply list_lookup_middle.
  - by rewrite Hactive.
  - split_and!; [done..|].
    unfold newEvents. by rewrite W3, drop_app_length.
Qed.

(** X8.  No promise of a wave is resolved twice.  In the trace of any run,
    the resolver calls that pass a job count are for pairwise different
    promises, and each of these promises is settled with the count that
    its call passed. *)
Theorem wave_handles_resolved_once (d : Db) (ops : list Op) :
  let st := run ops (init d) in
  NoDup (waveResolves (trace st.2)).*1 ∧
  ∀ p n, (p, n) ∈ waveResolves (trace st.2) →
    Promise.state (heap st.2) p = Some (Promise.VNum n).
Proof.
  intros st.
  destruct (run_resolvedOnce ops (init d) (init_resolvedOnce d))
    as (Hnd & Hset & _).
  done.
Qed.

(** X9.  In any run "exit" is posted to the worker thread once if
    [shutdown] was called at all, however often, and never otherwise; and
    the thread is terminated once per "exiting" message that arrives,
    whether or not [shutdown] was called before. *)
Theorem exit_posted_once_terminate_per_exiting (d : Db) (ops : list Op) :
  exitsPosted (trace (run ops (init d)).2)
  = (if existsb isShutdown ops then 1 else 0)%nat ∧
  terminations (trace (run ops (init d)).2)
  = length (filter (λ op, isExiting op = true) ops).
Proof.
  destruct (run_exits ops (init d)) as (new & -> & He & Ht).
  simpl. done.
Qed.

(** X17.  A span is closed when a wave is resolved, and only then.  A
    call of [receiveResults] closes a span exactly when it calls the wave
    resolver, with the tag "generate-timeline" and the start marker of the
    batch at hand (line 151), which is not 0.  So in any run as many spans
    are closed as wave resolvers are called, all with that tag. *)
Theorem span_closed_once_per_resolved_wave
    (d : Db) (ops : list Op) (r : ComputeResults) (st : State Db) :
  (let new := newEvents (trace st.2) (trace (receiveResults r st).1.2) in
   spansClosed new
   = (λ _, (resRequestStart r, "generate-timeline")) <$> waveResolves new
   ∧ (waveResolves new ≠ [] → resRequestStart r ≠ 0)) ∧
  (let tr := trace (run ops (init d)).2 in
   length (spansClosed tr) = length (waveResolves tr) ∧
   Forall (λ sp, sp.1 ≠ 0 ∧ sp.2 = "generate-timeline") (spansClosed tr)).
Proof.
  split.
  - destruct (receiveResults_completion r st) as (new & Htr & Hcases).
    cbv zeta. unfold newEvents. rewrite Htr, drop_app_length.
    by destruct Hcases as [(p & -> & -> & Hs & _)|(-> & -> & _)].
  - destruct (run_completion ops (init d)) as (new & Htr & Hlen & Hall & _).
    cbv zeta. rewrite Htr. done.
Qed.

(** X18.  Results beyond the dispatched ones wedge the counter.  Once
    [activeRequests] is below 0 (more results were received than jobs were
    dispatched), no call other than a dispatch brings it back: whatever
    results, messages, values or shutdown calls follow, the counter stays
    below 0 and no wave resolver is called. *)
Theorem results_beyond_dispatched_wedge_the_counter
    (st : State Db) (ops : list Op) :
  activeRequests st.1 < 0 →
  Forall (λ op, dispatches op = false) ops →
  waveResolves (newEvents (trace st.2) (trace (run ops st).2)) = [] ∧
  activeRequests (run ops st).1 < 0.
Proof.
  intros Hneg Hops.
  destruct (run_completion ops st) as (new & Htr & _ & _ & Hwedge).
  unfold newEvents. rewrite Htr, drop_app_length. by apply Hwedge.
Qed.

End timeline_further_properties.

(** ** Closed instances of the further properties, on the database double *)

Section timeline_further_instances.
Import Timeline.
Import BatchingTimelineUpdater.
Import TimelineRuns.
Import StoreDb.

(** A wave of one job; while it is outstanding, values for another key
    arrive in two calls, around the results of the wave and an error of the
    worker thread. *)
Lemma values_added_during_wave_wait_for_next_submit_witness :
  let ops :=
    [AddValues 3 1 1 [Some 8];
     Message (Response (batch [result 1 1 1] 7));
     AddValues 3 1 1 [None; Some 9];
     WorkerError] in
  let st1 := run ops (submitUpdateJobs 7 oneJobPending).1 in
  Forall (λ op, takesJobs op = false) ops ∧
  requests st1.1 = [("1-3-1", Build_ComputeJob 3 1 1 [8; 9])] ∧
  postedMessages
    (newEvents (trace st1.2) (trace (submitUpdateJobs 9 st1).1.2))
  = [PostRequest (Build_ComputeRequest [Build_ComputeJob 3 1 1 [8; 9]] 9)].
Proof.
  intros ops st1.
  assert (Forall (λ op, takesJobs op = false) ops) as Hops.
  { by repeat constructor. }
  destruct (values_added_during_wave_wait_for_next_submit 7 9 oneJobPending
              ops Hops) as [H1 H2].
  split_and!; [exact Hops| |].
  - etrans; [exact H1|]. by vm_compute.
  - etrans; [exact H2|]. by vm_compute.
Defined.

(** A wave of one job, and then everything but results. *)
Lemma handle_pending_until_results_arrive_witness :
  let ops :=
    [WorkerError; WorkerExit 1; Message Exiting; Shutdown;
     AddValues 2 1 1 [Some 6]; SubmitUpdateJobs 8] in
  let sub := submitUpdateJobs 7 oneJobPending in
  requests oneJobPending.1 ≠ JsMap.empty ∧
  Forall (λ op, deliversResults op = false) ops ∧
  sub.2 = 0%nat ∧
  Promise.state (heap (run ops sub.1).2) sub.2 = None.
Proof.
  intros ops sub.
  assert (requests oneJobPending.1 ≠ JsMap.empty) as Hjobs by done.
  assert (Forall (λ op, deliversResults op = false) ops) as Hops.
  { by repeat constructor. }
  split_and!; [exact Hjobs|exact Hops|reflexivity|].
  exact (handle_pending_until_results_arrive [] [AddValues 1 1 1 [Some 5]]
           ops 7 Hjobs Hops).
Defined.

(** Two dispatches of one job each, the second right behind the first, and
    then the results of both in one batch: the second promise is settled
    with 2, the first stays pending. *)
Lemma dispatch_orphans_pending_handle_witness :
  let jobs1 := [Build_ComputeJob 1 1 1 [5]] in
  let jobs2 := [Build_ComputeJob 2 1 1 [6]] in
  let ops := [Message (Response (batch [result 1 1 1; result 2 1 1] 7))] in
  let d1 := processUpdateJobs jobs1 7 (init (Db:=StoreDb.t) []) in
  let d2 := processUpdateJobs jobs2 7 d1.1 in
  jobs1 ≠ [] ∧ jobs2 ≠ [] ∧
  Promise.state (heap d1.1.2) d1.2 = None ∧
  Promise.state (heap (run ops d2.1).2) d1.2 = None ∧
  Promise.state (heap (run ops d2.1).2) d2.2 = Some (Promise.VNum 2).
Proof.
  intros jobs1 jobs2 ops d1 d2.
  assert (jobs1 ≠ []) as H1 by done.
  assert (jobs2 ≠ []) as H2 by done.
  assert (Promise.state (heap d1.1.2) d1.2 = None) as H3 by reflexivity.
  destruct (dispatch_orphans_pending_handle (Db:=StoreDb.t) [] [] [] ops
              jobs1 jobs2 7 7 H1 H2 H3) as (_ & _ & H4).
  split_and!; [exact H1|exact H2|exact H3|exact H4|by vm_compute].
Defined.

(** A second job is dispatched while one result is outstanding; the two
    results arrive one by one. *)
Lemma overlapping_waves_resolve_with_combined_count_witness :
  let jobs := [Build_ComputeJob 2 1 1 [6]] in
  let pre := [batch [result 1 1 1] 7] in
  let b := batch [result 2 1 1] 8 in
  let dsp := processUpdateJobs jobs 8 oneJobInFlight in
  let hist := receiveBatches (pre ++ [b]) dsp.1 in
  activeRequests oneJobInFlight.1 = 1 ∧
  allReturned hist ∧
  dsp.2 = 1%nat ∧
  Promise.state (heap (finalState dsp.1 hist).2) dsp.2 = Some (Promise.VNum 2) ∧
  Promise.state (heap (finalState dsp.1 hist).2) 0%nat = None.
Proof.
  intros jobs pre b dsp hist.
  assert (allReturned hist) as Hret.
  { vm_compute. repeat constructor. }
  destruct (overlapping_waves_resolve_with_combined_count jobs 8
              oneJobInFlight pre b [])
    as (_ & _ & _ & W & _);
    [done|reflexivity|vm_compute; lia|reflexivity|reflexivity|exact Hret|].
  split_and!; [reflexivity|exact Hret|reflexivity|exact W|by vm_compute].
Defined.

(** A wave of one job gets a batch of two results; after that, further
    results and values change nothing about its promise. *)
Lemma results_beyond_dispatched_wedge_the_counter_witness :
  let st := run [ReceiveResults (batch [result 1 1 1; result 2 1 1] 7)]
              oneJobInFlight in
  let ops :=
    [Message (Response (batch [] 7));
     ReceiveResults (batch [result 3 1 1] 7);
     AddValues 4 1 1 [Some 1]] in
  activeRequests st.1 < 0 ∧
  Forall (λ op, dispatches op = false) ops ∧
  waveResolves (newEvents (trace st.2) (trace (run ops st).2)) = [] ∧
  activeRequests (run ops st).1 < 0 ∧
  Promise.state (heap (run ops st).2) 0%nat = None.
Proof.
  intros st ops.
  assert (activeRequests st.1 < 0) as Hneg by (vm_compute; reflexivity).
  assert (Forall (λ op, dispatches op = false) ops) as Hops.
  { by repeat constructor. }
  destruct (results_beyond_dispatched_wedge_the_counter st ops Hneg Hops)
    as [H1 H2].
  split_and!; [exact Hneg|exact Hops|exact H1|exact H2|by vm_compute].
Defined.

End timeline_further_instances.

(** ** Further properties of the collation *)

Section collate_further_properties.
Import Collate.
Import CollateReading.
Import CollateFacts.
Import SortFacts.
Import CollateReadingFacts.
Variable simplifyCmdline : string → string.
Variable localeCompare : string → string → Z.

#[local] Abbreviation collated rows :=
  (collateMeasurements simplifyCmdline localeCompare rows).
#[local] Abbreviation loopState rows :=
  (foldl (collateRow simplifyCmdline) initial rows).

(** X10.  The last row for a slot decides its value.  When the rows agree
    with the criteria cache, the slot [values[invocation - 1][iteration - 1]]
    of a series holds the value of the last row of that series for this
    invocation and iteration, and it is missing when there is no such row
    (invocations and iterations are counted from 1). *)
Theorem collate_slot_holds_last_value
    (rows : list MeasurementData.t) (e s b : string) (k : SeriesKey)
    (invocation iteration : Z) :
  consistentCriteria rows →
  1 ≤ invocation → 1 ≤ iteration →
  cellAt (default [] (gridOf (collated rows) e s b k)) invocation iteration
  = lastAt invocation iteration (rowsOfSeries e s b k rows).
Proof.
  intros Hc Hinv Hit.
  destruct (collated_stateAfter simplifyCmdline rows Hc)
    as ((_ & _ & _ & _ & _ & B6) & Hnd & _).
  unfold collateMeasurements, gridOf. rewrite sorted_seriesOf by done.
  fold (gridOf (byExeSuiteBench (loopState rows)) e s b k).
  rewrite B6, default_gridFrom. by apply cellAt_gridOfRows.
Qed.

(** X11.  Where the fields of a series come from.  Every series of a
    benchmark of the collated result was created for a row [r] of that
    benchmark: it has the environment, commit, run, trial and experiment of
    [r].  Its run settings are the ones of the first row of the whole input
    that has the command line of [r], and its criterion is name and unit of
    the first row of the whole input that has the cache key of [r]: what
    later rows with the same command line or cache key say about cores,
    warmup or unit is not looked at. *)
Theorem collate_series_fields_from_first_rows
    (rows : list MeasurementData.t) (e s b : string) (m : Measurements.t) :
  m ∈ seriesOf (collated rows) e s b →
  ∃ r r0 r1,
    r ∈ rowsOfBench e s b rows ∧
    firstWith (λ x, MeasurementData.cmdline x = MeasurementData.cmdline r) rows
    = Some r0 ∧
    firstWith (λ x, criterionKey x = criterionKey r) rows = Some r1 ∧
    setValues [] m
    = freshSeries (criterionOfRow r1) (settingsOfRow simplifyCmdline r0) r.
Proof.
  destruct (collated_levelsFrom simplifyCmdline rows) as (Hnd & _).
  unfold collateMeasurements. rewrite sorted_seriesOf by done.
  apply collated_seriesFromRows.
Qed.

(** X12.  A benchmark has a record in the collated result exactly when a
    row names it under that execution unit and suite; the record carries
    these three names, and it has at least one series. *)
Theorem collate_benchmark_record_iff_row
    (rows : list MeasurementData.t) (e s b : string) :
  benchOf (collated rows) e s b
  = match rowsOfBench e s b rows with
    | [] => None
    | _ :: _ =>
        Some (ProcessedResult.mk e s b (seriesOf (collated rows) e s b))
    end ∧
  (rowsOfBench e s b rows ≠ [] → seriesOf (collated rows) e s b ≠ []).
Proof.
  destruct (collated_levelsFrom simplifyCmdline rows) as (Hnd & _ & _ & B3).
  pose proof (collated_filedByName simplifyCmdline rows) as Hfiled.
  unfold collateMeasurements.
  rewrite sorted_benchOf, sorted_seriesOf by done.
  set (res := byExeSuiteBench (loopState rows)) in *.
  assert (benchOf res e s b = None ↔ rowsOfBench e s b rows = []) as Hnone.
  { specialize (B3 e s). unfold benchKeys in B3. unfold benchOf.
    destruct (suiteOf res e s) as [r|]; cbn [mbind option_bind].
    - rewrite JsMapFacts.get_None_keys, B3, elem_of_firstOccurrences.
      rewrite list_elem_of_fmap. split.
      + intros Hno. destruct (rowsOfBench e s b rows) as [|r0 l] eqn:Hb;
          [done|]. exfalso. apply Hno. exists r0.
        assert (r0 ∈ rowsOfBench e s b rows) as Hin
          by (rewrite Hb; apply list_elem_of_here).
        apply list_elem_of_filter in Hin as [(? & ? & ?) Hin].
        split; [done|]. by apply list_elem_of_filter.
      + intros Hnil (r0 & -> & Hin).
        apply list_elem_of_filter in Hin as [[? ?] Hin].
        assert (r0 ∈ rowsOfBench e s (MeasurementData.bench r0) rows) as Hin'
          by by apply list_elem_of_filter.
        rewrite Hnil in Hin'. by apply elem_of_nil in Hin'.
    - split; [|done]. intros _. symmetry in B3.
      apply firstOccurrences_nil in B3.
      destruct (rowsOfBench e s b rows) as [|r0 l] eqn:Hb; [done|].
      assert (r0 ∈ rowsOfBench e s b rows) as Hin
        by (rewrite Hb; apply list_elem_of_here).
      apply list_elem_of_filter in Hin as [(? & ? & ?) Hin].
      assert (r0 ∈ rowsOfSuite e s rows) as Hin'
        by by apply list_elem_of_filter.
      apply fmap_nil_inv in B3. rewrite B3 in Hin'.
      by apply elem_of_nil in Hin'. }
  unfold seriesOf.
  destruct (benchOf res e s b) as [pr|] eqn:Hpr.
  - destruct (Hfiled e s b pr Hpr) as (<- & <- & <- & Hms).
    destruct (rowsOfBench _ _ _ rows) as [|r0 l] eqn:Hb.
    + assert (Some pr = None) as [=]. by apply Hnone.
    + split; [by destruct pr|done].
  - rewrite (proj1 Hnone eq_refl). done.
Qed.


(** X14.  [sortResultsAlphabetically] changes the order of the keys and
    nothing else.  For a hierarchy whose maps have no key twice (as maps
    have), every path of execution unit, suite and benchmark leads to the
    same record before and after, every suite has the same criteria record,
    and the keys of every level are the same up to their order. *)
Theorem sortResultsAlphabetically_keeps_content
    (res : ResultsByExeSuiteBenchmark) :
  noDupKeys res →
  let sorted := sortResultsAlphabetically localeCompare res in
  (∀ e s b, benchOf sorted e s b = benchOf res e s b) ∧
  (∀ e s, criteriaOf sorted e s = criteriaOf res e s) ∧
  exeKeys sorted ≡ₚ exeKeys res ∧
  (∀ e, suiteKeys sorted e ≡ₚ suiteKeys res e) ∧
  (∀ e s, benchKeys sorted e s ≡ₚ benchKeys res e s).
Proof.
  intros Hnd sorted. subst sorted. split_and!.
  - intros e s b. by apply sorted_benchOf.
  - intros e s. by apply sorted_criteriaOf.
  - rewrite sorted_exeKeys by done. apply sort_Permutation.
  - intros e. rewrite sorted_suiteKeys by done. apply sort_Permutation.
  - intros e s. rewrite sorted_benchKeys by done. apply sort_Permutation.
Qed.

(** X15.  Sorting a sorted hierarchy changes nothing: with a consistent
    comparison, [sortResultsAlphabetically] applied a second time returns
    its argument, and so it does on every result of
    [collateMeasurements]. *)
Theorem sortResultsAlphabetically_idempotent
    (res : ResultsByExeSuiteBenchmark) (rows : list MeasurementData.t) :
  consistentCompare localeCompare →
  (noDupKeys res →
   sortResultsAlphabetically localeCompare
     (sortResultsAlphabetically localeCompare res)
   = sortResultsAlphabetically localeCompare res) ∧
  sortResultsAlphabetically localeCompare (collated rows) = collated rows.
Proof.
  intros Hc. split.
  - by apply sortResultsAlphabetically_idem.
  - unfold collateMeasurements. apply sortResultsAlphabetically_idem; [done|].
    by destruct (collated_levelsFrom simplifyCmdline rows).
Qed.

(** X16.  The series of a benchmark stand in the order in which their
    first rows arrive, one series per identity; sorting the levels does not
    reorder them.  This holds when the rows agree with the criteria
    cache. *)
Theorem collate_series_in_order_of_first_row
    (rows : list MeasurementData.t) (e s b : string) :
  consistentCriteria rows →
  seriesKeys (collated rows) e s b
  = firstOccurrences (rowKey <$> rowsOfBench e s b rows).
Proof.
  intros Hc.
  destruct (collated_stateAfter simplifyCmdline rows Hc)
    as ((_ & _ & _ & _ & B5 & _) & Hnd & _).
  unfold collateMeasurements, seriesKeys. rewrite sorted_seriesOf by done.
  apply B5.
Qed.

End collate_further_properties.

(** ** Closed instances of the further collation properties *)

Section collate_further_instances.
Import Collate.
Import CollateReading.
Import Samples.
Import MoreSamples.
Import NumericCollation.

(** The rows name one criterion per cache key. *)
#[local] Ltac criteria_agree :=
  let r1 := fresh in let r2 := fresh in
  let H1 := fresh in let H2 := fresh in let Hk := fresh in
  intros r1 r2 H1 H2 Hk;
  repeat (apply elem_of_cons in H1 as [->|H1]);
  repeat (apply elem_of_cons in H2 as [->|H2]);
  try (by apply elem_of_nil in H1); try (by apply elem_of_nil in H2);
  try reflexivity; vm_compute in Hk; discriminate Hk.

(** Of two rows for the slot (1, 1) the second decides, and the slot
    (1, 2), for which there is no row, is missing. *)
Lemma collate_slot_holds_last_value_witness :
  consistentCriteria sameSlotTwice ∧
  cellAt (default [] (gridOf (collate sameSlotTwice) "A" "S" "B" totalKey)) 1 1
  = lastAt 1 1 (rowsOfSeries "A" "S" "B" totalKey sameSlotTwice) ∧
  lastAt 1 1 (rowsOfSeries "A" "S" "B" totalKey sameSlotTwice) = Some 20 ∧
  cellAt (default [] (gridOf (collate sameSlotTwice) "A" "S" "B" totalKey)) 1 2
  = None.
Proof.
  assert (consistentCriteria sameSlotTwice) as Hc.
  { unfold sameSlotTwice. criteria_agree. }
  split_and!; [exact Hc| |by vm_compute|by vm_compute].
  apply (collate_slot_holds_last_value (λ cmdline, cmdline) numericCompare
           sameSlotTwice "A" "S" "B" totalKey 1 1 Hc); lia.
Defined.

(** The series of the third row has that row's run, trial and experiment,
    the run settings of the first row (one core, no warmup) and the
    criterion of the second row, the first with the key "total|s". *)
Lemma collate_series_fields_from_first_rows_witness :
  seriesOfThirdRow ∈ seriesOf (collate sharedCmdline) "A" "S" "B" ∧
  ∃ r r0 r1,
    r ∈ rowsOfBench "A" "S" "B" sharedCmdline ∧
    firstWith (λ x, MeasurementData.cmdline x = MeasurementData.cmdline r)
              sharedCmdline = Some r0 ∧
    firstWith (λ x, criterionKey x = criterionKey r) sharedCmdline = Some r1 ∧
    setValues [] seriesOfThirdRow
    = freshSeries (criterionOfRow r1) (settingsOfRow (λ cmdline, cmdline) r0) r.
Proof.
  assert (seriesOfThirdRow ∈ seriesOf (collate sharedCmdline) "A" "S" "B")
    as Hin.
  { vm_compute. apply list_elem_of_further, list_elem_of_here. }
  split; [exact Hin|].
  exact (collate_series_fields_from_first_rows (λ cmdline, cmdline)
           numericCompare sharedCmdline "A" "S" "B" seriesOfThirdRow Hin).
Defined.

(** Sorting moves "bench10" behind "bench2" and leaves its record as it
    is. *)
Lemma sortResultsAlphabetically_keeps_content_witness :
  let sorted := sortResultsAlphabetically numericCompare unsortedHierarchy in
  noDupKeys unsortedHierarchy ∧
  benchKeys unsortedHierarchy "A" "S" = ["bench10"; "bench2"; "bench1"] ∧
  benchKeys sorted "A" "S" = ["bench1"; "bench2"; "bench10"] ∧
  benchOf sorted "A" "S" "bench10" = benchOf unsortedHierarchy "A" "S" "bench10".
Proof.
  intros sorted.
  assert (noDupKeys unsortedHierarchy) as Hnd.
  { by destruct (CollateFacts.collated_levelsFrom (λ cmdline, cmdline)
                   unsortedArrival). }
  destruct (sortResultsAlphabetically_keeps_content numericCompare
              unsortedHierarchy Hnd) as (Hbench & _).
  split_and!; [exact Hnd|by vm_compute|by vm_compute|].
  exact (Hbench "A" "S" "bench10").
Defined.

Lemma sortResultsAlphabetically_idempotent_witness :
  consistentCompare numericCompare ∧
  sortResultsAlphabetically numericCompare (collate unsortedArrival)
  = collate unsortedArrival ∧
  exeKeys (collate unsortedArrival) = ["A"].
Proof.
  split; [apply NumericCollationFacts.numericCompare_consistent|].
  destruct (sortResultsAlphabetically_idempotent (λ cmdline, cmdline)
              numericCompare [] unsortedArrival
              NumericCollationFacts.numericCompare_consistent) as [_ Hidem].
  split; [exact Hidem|by vm_compute].
Defined.

(** The series for "total" comes first: its first row does. *)
Lemma collate_series_in_order_of_first_row_witness :
  consistentCriteria twoCriteria ∧
  seriesKeys (collate twoCriteria) "A" "S" "B"
  = firstOccurrences (rowKey <$> rowsOfBench "A" "S" "B" twoCriteria) ∧
  firstOccurrences (rowKey <$> rowsOfBench "A" "S" "B" twoCriteria)
  = [(4, "c", 2, 3, "total"); (4, "c", 2, 3, "gc")].
Proof.
  assert (consistentCriteria twoCriteria) as Hc.
  { unfold twoCriteria. criteria_agree. }
  split_and!; [exact Hc| |by vm_compute].
  exact (collate_series_in_order_of_first_row (λ cmdline, cmdline)
           numericCompare twoCriteria "A" "S" "B" Hc).
Defined.

End collate_further_instances.

(** ** Properties of the dashboard *)

Section dashboard_properties.
Import Js.
Import Dashboard.
Import JsMapFacts.
Import DashboardFacts.
Variable robustPath : string → string.
Variable reportsUrl : string.
Variable staticUrl : string.
Variable dirname : string.

#[local] Abbreviation dashCompare := (dashCompare robustPath reportsUrl).
#[local] Abbreviation dashGetExpData := (dashGetExpData staticUrl dirname).
#[local] Abbreviation dashDeleteOldReport := (dashDeleteOldReport robustPath).
#[local] Abbreviation step := (step robustPath reportsUrl staticUrl dirname).
#[local] Abbreviation run := (run robustPath reportsUrl staticUrl dirname).
#[local] Abbreviation getReportFilename := (getReportFilename robustPath).
#[local] Abbreviation reportOutputFolder := (reportOutputFolder robustPath).
#[local] Abbreviation reportArgs := (reportArgs robustPath reportsUrl).
#[local] Abbreviation expDataFileOf := (expDataFileOf dirname).
#[local] Abbreviation expDataScript := (expDataScript dirname).
#[local] Abbreviation expDataArgs := (expDataArgs dirname).
#[local] Abbreviation preparationsOf := (preparationsOf dirname).

(** X19.  [dashCompare] never reports that the generation of a report
    failed.  Whatever happened before (requests, ends and failures of the R
    script, deleted reports, files written): when the revisions have data
    and the report file does not exist, the answer says
    [generatingReport = true], and [generationFailed] is not set, unless
    the answer of the database brings such a property along.  The handler
    for errors files the error as [e], and the check reads [error]. *)
Theorem dashCompare_never_reports_failed_generation
    (fs : JsMap.t string) (ops : list Op) (base change project : string)
    (dbConfig : DatabaseConfig) (revDetails : Object) (now : string)
    (start : Z) :
  let w := run ops (loaded fs) in
  let data :=
    (dashCompare base change project dbConfig revDetails now start w).1 in
  truthy (prop revDetails "dataFound") = true →
  JsMap.get (getReportFilename (getReportId project base change)) (files w)
  = None →
  JsMap.get "generationFailed" revDetails = None →
  prop data "generatingReport" = Bool true ∧
  JsMap.get "generationFailed" data = None.
Proof.
  intros w data Hfound Hfile Hrev.
  destruct (dashCompare_answer robustPath reportsUrl base change project
              dbConfig revDetails now start w Hfound Hfile) as (H1 & _ & H2).
  - intros prev Hprev. apply get_Some_elem in Hprev.
    exact (run_noErrorProperty robustPath reportsUrl staticUrl dirname
             ops fs (getReportId project base change) prev Hprev).
  - split; [exact H1|]. by apply H2.
Qed.

(** X20.  While the file of a report is missing, the R script is started at
    most once for it: when the file is not there at the start and nobody
    writes it, then whatever requests, ends and failures of the script and
    calls of [dashDeleteOldReport] happen, the trace has at most one call
    of [Rscript] with this report as output.  So a generation that failed
    is not tried again. *)
Theorem report_generated_once_while_file_missing
    (fs : JsMap.t string) (ops : list Op) (reportId : string) :
  JsMap.get (getReportFilename reportId) fs = None →
  Forall (λ op, writes (getReportFilename reportId) op = false) ops →
  (length (generationsOf (reportId +:+ ".html")
             (events (run ops (loaded fs)))) ≤ 1)%nat.
Proof.
  intros Hfile Hops.
  apply (run_generatedOnce robustPath reportsUrl staticUrl dirname);
    [done|done|simpl; lia|done].
Qed.

(** X21.  Deleting a report makes room for a new one.  When the report file
    exists, [dashDeleteOldReport] followed by [dashCompare] for the same
    project and revisions, with data found, removes the file and the
    folder of its images, starts the R script again, files the report as
    in progress, and answers [generatingReport = true] without a
    report. *)
Theorem dashDeleteOldReport_then_dashCompare_regenerates
    (w : World) (base change project : string) (dbConfig : DatabaseConfig)
    (revDetails : Object) (now : string) (start : Z) :
  let reportId := getReportId project base change in
  let file := getReportFilename reportId in
  let args := reportArgs base change (reportId +:+ ".html") dbConfig "" in
  let r :=
    dashCompare base change project dbConfig revDetails now start
      (dashDeleteOldReport project base change w) in
  truthy (prop revDetails "dataFound") = true →
  JsMap.has file (files w) = true →
  newEvents w r.2
  = [EvUnlink file; EvRemoveTree (getOutputImageFolder file);
     EvLog ("Generate Report: Rscript '" +:+ join "' '" args +:+ "'");
     EvExecFile "Rscript" args (Some reportOutputFolder)] ∧
  JsMap.get file (files r.2) = None ∧
  JsMap.get reportId (reportGeneration r.2) = Some [("inProgress", Bool true)] ∧
  prop r.1 "generatingReport" = Bool true ∧
  prop r.1 "report" = Undefined.
Proof.
  intros reportId file args r Hfound Hhas. subst r.
  set (w1 := dashDeleteOldReport project base change w).
  pose proof (dashDeleteOldReport_world robustPath project base change w)
    as (_ & _ & Hdel).
  cbv zeta in Hdel. fold reportId file w1 in Hdel. rewrite Hhas in Hdel.
  destruct Hdel as (Hfiles & Hrg & Hev).
  assert (JsMap.get file (files w1) = None) as Hfile.
  { rewrite Hfiles. apply get_filter_None, get_delete_eq. }
  assert (JsMap.get reportId (reportGeneration w1) = None) as Hentry.
  { rewrite Hrg. apply get_delete_eq. }
  pose proof (dashCompare_world robustPath reportsUrl base change project
                dbConfig revDetails now start w1) as (Hfiles' & _ & Hcmp).
  cbv zeta in Hcmp. fold reportId in Hcmp.
  assert (startsGeneration robustPath base change project revDetails w1
          = true) as Hs.
  { unfold startsGeneration. fold reportId file.
    rewrite Hfound. apply has_false in Hfile, Hentry.
    by rewrite Hfile, Hentry. }
  rewrite Hs in Hcmp. destruct Hcmp as (Hrg' & _ & Hev').
  destruct (dashCompare_answer robustPath reportsUrl base change project
              dbConfig revDetails now start w1 Hfound Hfile)
    as (H1 & H2 & _).
  { intros prev Hprev. fold reportId in Hprev. congruence. }
  split_and!; [|by rewrite Hfiles'| |exact H1|exact H2].
  - unfold newEvents. rewrite Hev', Hev, <-app_assoc.
    by rewrite drop_app_length.
  - rewrite Hrg'. apply get_set_eq.
Qed.

(** X22.  The data of an experiment is prepared at most once.  Whatever
    requests, ends and failures of scripts happen after the module is
    loaded, the trace has at most one call of [get-exp-data.R] with the
    data file of a name as output: nothing ever deletes an entry of
    [expDataPreparation], so a preparation that failed is not tried
    again. *)
Theorem exp_data_prepared_at_most_once
    (fs : JsMap.t string) (ops : list Op) (expDataId : string) :
  (length (preparationsOf (expDataFileOf expDataId)
             (events (run ops (loaded fs)))) ≤ 1)%nat.
Proof.
  pose proof (run_preparedOnce robustPath reportsUrl staticUrl dirname
                expDataId ops (loaded fs)
                (loaded_preparedOnce dirname expDataId fs))
    as (_ & _ & H & _).
  exact H.
Qed.

(** X23.  A failed preparation is reported from then on.  Once the R script
    for the data of an experiment has failed with the error [e], every
    later request for this data that finds no data file is answered with
    [generationFailed = true], [preparingData = false] and the output of
    the failed script as [stdout] and [stderr], whatever happened in
    between, and it changes nothing.  The answer has no [downloadUrl], and
    the route redirects to it. *)
Theorem failed_preparation_is_reported_from_then_on
    (fs : JsMap.t string) (ops1 ops2 : list Op) (p : nat) (e : Object)
    (expDataId : string) (start : Z) (expId : Z) (dbConfig : DatabaseConfig)
    (result : option (list Object)) (now : string) (start' : Z) :
  let w1 := run ops1 (loaded fs) in
  let w2 := run ops2 (step (ScriptFailed p e) w1) in
  let r := dashGetExpData expId dbConfig result now start' w2 in
  childOf p w1 = Some (ExpDataScript expDataId start) →
  expDataIdOf (prop (experimentOf result) "project") expId = expDataId →
  JsMap.get (expDataFileOf expDataId) (files w2) = None →
  r.2 = w2 ∧
  prop r.1 "generationFailed" = Bool true ∧
  prop r.1 "stdout" = prop e "stdout" ∧
  prop r.1 "stderr" = prop e "stderr" ∧
  prop r.1 "preparingData" = Bool false ∧
  getExpDataRoute r.1 = Redirect Undefined.
Proof.
  intros w1 w2 r Hchild Hid Hfile. subst r.
  assert (failedWith expDataId e w2) as [Hentry _].
  { apply run_failedWith.
    apply (failure_failedWith robustPath reportsUrl staticUrl dirname
             expDataId start); [|done].
    apply run_preparedOnce, loaded_preparedOnce. }
  subst expDataId.
  destruct (dashGetExpData_answer_failed staticUrl dirname expId dbConfig
              result now start' w2 e Hfile Hentry)
    as (H1 & H2 & H3 & H4 & H5 & H6).
  split_and!; [done..|].
  unfold getExpDataRoute. by rewrite H5, H6.
Qed.

(** X24.  The first request for the data of an experiment starts the R
    script, also for an experiment that does not exist.  When nobody asked
    for the data before and its file is missing, [dashGetExpData] logs
    and runs [get-exp-data.R] with the data file as output and answers
    [preparingData = true].  When the query did not find the experiment,
    the data goes by the name of the experiment id after a dash, and the
    same answer says [generationFailed = true] with
    ['Experiment was not found']. *)
Theorem first_request_starts_preparation
    (fs : JsMap.t string) (ops : list Op) (expId : Z)
    (dbConfig : DatabaseConfig) (result : option (list Object))
    (now : string) (start : Z) :
  let w := run ops (loaded fs) in
  let expDataId := expDataIdOf (prop (experimentOf result) "project") expId in
  let args := expDataArgs expId dbConfig (expDataFileOf expDataId) in
  let r := dashGetExpData expId dbConfig result now start w in
  Forall (λ op, asksFor expDataId op = false) ops →
  JsMap.get (expDataFileOf expDataId) (files w) = None →
  newEvents w r.2
  = [EvLog ("Prepare Data for Download:" +:+ expDataScript +:+ " "
            +:+ join " " args);
     EvExecFile expDataScript args None] ∧
  prop r.1 "preparingData" = Bool true ∧
  (found result = false →
   expDataId = "-" +:+ pretty expId ∧
   prop r.1 "generationFailed" = Bool true ∧
   prop r.1 "stdout" = Str "Experiment was not found").
Proof.
  intros w expDataId args r Hops Hfile. subst r.
  pose proof (run_unasked robustPath reportsUrl staticUrl dirname expDataId
                ops fs Hops) as Hentry.
  fold w in Hentry.
  destruct (dashGetExpData_answer_started staticUrl dirname expId dbConfig
              result now start w Hfile Hentry) as (Hs & H1 & H2).
  pose proof (dashGetExpData_world staticUrl dirname expId dbConfig result
                now start w) as (_ & _ & Hw).
  cbv zeta in Hw. rewrite Hs in Hw. destruct Hw as (_ & _ & Hev).
  split_and!; [|exact H1|exact H2].
  unfold newEvents. rewrite Hev. by rewrite drop_app_length.
Qed.

(** X25.  The folder of the images of a report is found by replacing the
    first [.html] of a path, wherever it is.  For a reports folder without
    [.html] in its path, the folder that [dashDeleteOldReport] removes is,
    inside the reports folder, the folder that the R script was told to
    use.  That folder is the report id with [_files] when the report id
    has no [.html] in it; when it has one, that one is replaced, and the
    name keeps its ending [.html]. *)
Theorem image_folder_replaces_first_html (reportId : string) :
  includes ".html" reportOutputFolder = false →
  getOutputImageFolder (getReportFilename reportId)
  = reportOutputFolder +:+ "/" +:+ getOutputImageFolder (reportId +:+ ".html")
  ∧ getOutputImageFolder (reportId +:+ ".html")
    = (if includes ".html" reportId
       then getOutputImageFolder reportId +:+ ".html"
       else reportId +:+ "_files").
Proof.
  intros Hfolder. apply includes_false in Hfolder.
  unfold getOutputImageFolder, getReportFilename,
    Dashboard.getReportFilename. split.
  - rewrite replaceFirst_app.
    + by f_equal.
    + intros a1 a2 Heq Hne. apply html_not_across.
      intros Hocc. apply Hfolder. fold reportOutputFolder. rewrite Heq.
      by apply occursIn_suffix.
  - destruct (includes ".html" reportId) eqn:Hid.
    + apply includes_true in Hid. by apply replaceFirst_occurs.
    + apply includes_false in Hid.
      rewrite <-(append_empty "_files") at 1.
      rewrite replaceFirst_app; [done|].
      intros a1 a2 Heq Hne. destruct (html_not_across a2 "") as [_ H].
      * intros Hocc. apply Hid. rewrite Heq. by apply occursIn_suffix.
      * by apply H.
Qed.

(** X26.  [dashResults] groups the values by benchmark and keeps the order
    of the rows, unless a benchmark has the name of a property that every
    object inherits ([toString], [constructor] and the like).  Without such
    a name among the rows, the record has a series for exactly the
    benchmarks of the rows, and the series of a benchmark holds the values
    of its rows in their order.  With such a name, the function throws and
    there is no answer: the check with [in] finds the inherited property,
    the series is not created, and what is found under the name has no
    [push]. *)
Theorem dashResults_groups_values_or_throws (rows : list Object) :
  match dashResults rows with
  | Some timeSeries =>
      Forall (λ r, toStr (prop r "benchmark") ∉ inheritedNames) rows ∧
      ∀ b, JsMap.get b timeSeries
           = match valuesOf b rows with [] => None | vs => Some vs end
  | None => Exists (λ r, toStr (prop r "benchmark") ∈ inheritedNames) rows
  end.
Proof.
  induction rows as [|r rows IH] using rev_ind.
  - split; [constructor|]. by intros b.
  - rewrite dashResults_snoc.
    destruct (dashResults rows) as [ts|]; simpl.
    + destruct IH as [Hall Hg].
      pose proof (dashResultsRow_groups rows r ts Hall Hg) as Hrow.
      destruct (dashResultsRow ts r) as [ts'|].
      * destruct Hrow as [Hr Hg']. split; [|exact Hg'].
        apply Forall_app. split; [done|]. by constructor.
      * apply Exists_app. right. by constructor.
    + apply Exists_app. by left.
Qed.

End dashboard_properties.

(** ** Closed instances of the properties of the dashboard *)

Section dashboard_instances.
Import Js.
Import Dashboard.
Import DashboardSamples.

#[local] Abbreviation run := (run robustPath reportsUrl staticUrl dirname).
#[local] Abbreviation step := (step robustPath reportsUrl staticUrl dirname).
#[local] Abbreviation dashCompare := (dashCompare robustPath reportsUrl).
#[local] Abbreviation dashGetExpData := (dashGetExpData staticUrl dirname).

(** A report is asked for and the R script fails; the next request is
    still told that the report is being generated. *)
Lemma dashCompare_never_reports_failed_generation_witness :
  let ops := [compareSom "10:00" 1; ScriptFailed 1 scriptError] in
  let w := run ops (loaded []) in
  let data :=
    (dashCompare "abcdef0" "1234567" "SOM" dbConfig revDetails "10:05" 2 w).1 in
  truthy (prop revDetails "dataFound") = true ∧
  JsMap.get somReport (files w) = None ∧
  JsMap.get "generationFailed" revDetails = None ∧
  prop (default [] (JsMap.get "SOM-abcdef-123456" (reportGeneration w))) "e"
  = Obj scriptError ∧
  prop data "generatingReport" = Bool true ∧
  JsMap.get "generationFailed" data = None.
Proof.
  intros ops w data.
  assert (truthy (prop revDetails "dataFound") = true) as H1 by reflexivity.
  assert (JsMap.get somReport (files w) = None) as H2 by reflexivity.
  assert (JsMap.get "generationFailed" revDetails = None) as H3
    by reflexivity.
  destruct (dashCompare_never_reports_failed_generation robustPath reportsUrl
              staticUrl dirname [] ops "abcdef0" "1234567" "SOM" dbConfig
              revDetails "10:05" 2 H1 H2 H3) as [H4 H5].
  split_and!; [exact H1|exact H2|exact H3|by vm_compute|exact H4|exact H5].
Defined.

(** Requests before and after the failure of the R script, and a call of
    [dashDeleteOldReport]: the script ran once. *)
Lemma report_generated_once_while_file_missing_witness :
  let ops :=
    [compareSom "10:00" 1; compareSom "10:01" 2; ScriptFailed 1 scriptError;
     compareSom "10:05" 3; DeleteOldReport "SOM" "abcdef0" "1234567";
     compareSom "10:06" 4; FileWritten "/tmp/other.html" ""] in
  JsMap.get somReport ([] : JsMap.t string) = None ∧
  Forall (λ op, writes somReport op = false) ops ∧
  length (generationsOf "SOM-abcdef-123456.html"
            (events (run ops (loaded [])))) = 1%nat ∧
  (length (generationsOf "SOM-abcdef-123456.html"
             (events (run ops (loaded [])))) ≤ 1)%nat.
Proof.
  intros ops.
  assert (JsMap.get somReport ([] : JsMap.t string) = None) as H1
    by reflexivity.
  assert (Forall (λ op, writes somReport op = false) ops) as H2.
  { repeat constructor. }
  split_and!; [exact H1|exact H2|by vm_compute|].
  exact (report_generated_once_while_file_missing robustPath reportsUrl
           staticUrl dirname [] ops "SOM-abcdef-123456" H1 H2).
Defined.

(** A report on disk is deleted and asked for again. *)
Lemma dashDeleteOldReport_then_dashCompare_regenerates_witness :
  let w := loaded [(somReport, "<html>old</html>")] in
  let r :=
    dashCompare "abcdef0" "1234567" "SOM" dbConfig revDetails "10:00" 1
      (dashDeleteOldReport robustPath "SOM" "abcdef0" "1234567" w) in
  truthy (prop revDetails "dataFound") = true ∧
  JsMap.has somReport (files w) = true ∧
  length (newEvents w r.2) = 4%nat ∧
  JsMap.get somReport (files r.2) = None ∧
  prop r.1 "generatingReport" = Bool true.
Proof.
  intros w r.
  assert (truthy (prop revDetails "dataFound") = true) as H1 by reflexivity.
  assert (JsMap.has somReport (files w) = true) as H2 by reflexivity.
  destruct (dashDeleteOldReport_then_dashCompare_regenerates robustPath
              reportsUrl w "abcdef0" "1234567" "SOM" dbConfig revDetails
              "10:00" 1 H1 H2) as (H3 & H4 & _ & H5 & _).
  split_and!; [exact H1|exact H2| |exact H4|exact H5].
  fold r in H3. by rewrite H3.
Defined.

(** The data of an experiment is asked for, the R script fails, and the
    data is asked for again after other requests. *)
Lemma failed_preparation_is_reported_from_then_on_witness :
  let ops1 := [GetExpData 7 dbConfig (Some [somExperiment]) "10:00" 1] in
  let ops2 :=
    [compareSom "10:01" 2;
     GetExpData 8 dbConfig (Some [somExperiment]) "10:02" 3;
     ScriptDone 5 []] in
  let w1 := run ops1 (loaded []) in
  let w2 := run ops2 (step (ScriptFailed 0 scriptError) w1) in
  let r := dashGetExpData 7 dbConfig (Some [somExperiment]) "10:05" 4 w2 in
  childOf 0 w1 = Some (ExpDataScript "SOM-7" 1) ∧
  expDataIdOf (prop (experimentOf (Some [somExperiment])) "project") 7
  = "SOM-7" ∧
  JsMap.get (expDataFileOf dirname "SOM-7") (files w2) = None ∧
  r.2 = w2 ∧
  prop r.1 "generationFailed" = Bool true ∧
  prop r.1 "stderr" = Str "Error in library(qs)" ∧
  getExpDataRoute r.1 = Redirect Undefined.
Proof.
  intros ops1 ops2 w1 w2 r.
  assert (childOf 0 w1 = Some (ExpDataScript "SOM-7" 1)) as H1
    by reflexivity.
  assert (expDataIdOf (prop (experimentOf (Some [somExperiment])) "project") 7
          = "SOM-7") as H2 by reflexivity.
  assert (JsMap.get (expDataFileOf dirname "SOM-7") (files w2) = None) as H3
    by reflexivity.
  destruct (failed_preparation_is_reported_from_then_on robustPath reportsUrl
              staticUrl dirname [] ops1 ops2 0 scriptError "SOM-7" 1 7
              dbConfig (Some [somExperiment]) "10:05" 4 H1 H2 H3)
    as (H4 & H5 & _ & H6 & _ & H7).
  split_and!; [exact H1|exact H2|exact H3|exact H4|exact H5|exact H6|exact H7].
Defined.

(** An experiment that does not exist is asked for, after a request for
    another one. *)
Lemma first_request_starts_preparation_witness :
  let ops := [GetExpData 7 dbConfig (Some [somExperiment]) "10:00" 1] in
  let w := run ops (loaded []) in
  let r := dashGetExpData 99 dbConfig (Some []) "10:05" 2 w in
  Forall (λ op, asksFor "-99" op = false) ops ∧
  JsMap.get (expDataFileOf dirname "-99") (files w) = None ∧
  found (Some []) = false ∧
  length (preparationsOf dirname (expDataFileOf dirname "-99") (events r.2))
  = 1%nat ∧
  prop r.1 "preparingData" = Bool true ∧
  prop r.1 "generationFailed" = Bool true.
Proof.
  intros ops w r.
  assert (Forall (λ op, asksFor "-99" op = false) ops) as H1.
  { repeat constructor. }
  assert (JsMap.get (expDataFileOf dirname "-99") (files w) = None) as H2
    by reflexivity.
  destruct (first_request_starts_preparation robustPath reportsUrl staticUrl
              dirname [] ops 99 dbConfig (Some []) "10:05" 2 H1 H2)
    as (_ & H3 & H4).
  destruct (H4 eq_refl) as (_ & H5 & _).
  split_and!; [exact H1|exact H2|reflexivity|by vm_compute|exact H3|exact H5].
Defined.

(** A report of a project with [.html] in its name. *)
Lemma image_folder_replaces_first_html_witness :
  includes ".html" (reportOutputFolder robustPath) = false ∧
  getOutputImageFolder
    (getReportFilename robustPath "docs.html-abcdef-123456")
  = "/srv/rebenchdb/src/../resources/reports//docs_files-abcdef-123456.html" ∧
  getOutputImageFolder (getReportFilename robustPath "SOM-abcdef-123456")
  = "/srv/rebenchdb/src/../resources/reports//SOM-abcdef-123456_files".
Proof.
  assert (includes ".html" (reportOutputFolder robustPath) = false) as H1
    by reflexivity.
  destruct (image_folder_replaces_first_html robustPath
              "docs.html-abcdef-123456" H1) as [H2 H3].
  split_and!; [exact H1| |by vm_compute].
  etrans; [exact H2|]. by vm_compute.
Defined.

End dashboard_instances.

(** ** Properties of the database of the tests *)

Section testdb_properties.
Import TestDb.
Import TestDbFacts.
Variable fails : list (Call * bool) → Call → bool.

(** X27.  [close] always drops the database.  When no close was attempted
    before and the client is connected, [close] ends with the statement
    [DROP DATABASE IF EXISTS] for the database of the tests, as its last
    call and its only such call, whichever calls fail before it (clearing
    the cache, the rollback, the release of the client, the end of the
    pool).  It returns normally exactly when all of its calls succeeded,
    the client is gone exactly when its release succeeded, and any further
    [close] throws ['Already attempted to close'] and calls nothing. *)
Theorem close_always_drops_database (db : t) :
  closingAttempted db = false → client db = true →
  let r := close fails db in
  (∃ ok,
     last (newCalls db r.2) = Some (dropDatabase db, ok) ∧
     drops db (newCalls db r.2) = [(dropDatabase db, ok)]) ∧
  closingAttempted r.2 = true ∧
  (r.1 = Returned tt ↔ Forall (λ cb, cb.2 = true) (newCalls db r.2)) ∧
  (client r.2 = false ↔ (ClientRelease, true) ∈ newCalls db r.2) ∧
  close fails r.2 = (Threw (Thrown "Already attempted to close"), r.2).
Proof.
  intros Hc Hcl r. subst r. rewrite close_unfold by done.
  assert (isDrop db (dropDatabase db, true) = true
          ∧ isDrop db (dropDatabase db, false) = true) as [Hd1 Hd2].
  { unfold isDrop, dropDatabase. cbn [fst]. by rewrite bool_decide_eq_true_2. }
  unfold tryFinally, rollback, release, query, ifField, call, mbind, M_bind,
    bind, write, read, throw, mret, M_ret, ret, newCalls.
  cbn [calls setClosingAttempted record client usesTransactions
       closingAttempted connectionPool database preparedForTesting].
  repeat match goal with
  | |- context [if fails ?tr ?c then _ else _] =>
      destruct (fails tr c) eqn:?;
      cbn [calls setClosingAttempted setClient setConnectionPool record client
           usesTransactions closingAttempted connectionPool database
           preparedForTesting dropDatabase fst snd]
  | |- context [if usesTransactions db then _ else _] =>
      destruct (usesTransactions db) eqn:?;
      cbn [calls setClosingAttempted setClient setConnectionPool record client
           usesTransactions closingAttempted connectionPool database
           preparedForTesting dropDatabase fst snd]
  | |- context [if client db then _ else _] => rewrite Hcl
  end.
  all: unfold dropDatabase in *;
    cbn [calls setClosingAttempted setClient setConnectionPool record client
         usesTransactions closingAttempted connectionPool database
         preparedForTesting fst snd] in *;
    fold (dropDatabase db) in *.
  all: rewrite <-?app_assoc, drop_app_length; cbn [app].
  all: split_and!.
  all: try (eexists; split; [reflexivity|]; unfold drops;
            rewrite ?filter_cons, ?filter_nil, ?Hd1, ?Hd2; by cbn).
  all: try reflexivity.
  all: try (split; [done|]; intros H; by decompose_Forall_hyps).
  all: try (split; [intros _|done]; by repeat constructor).
  all: try (rewrite Hcl; split; [done|]; intros H; unfold dropDatabase in H;
            repeat (apply elem_of_cons in H as [H|H]; [discriminate H|]);
            by apply elem_of_nil in H).
  all: split; [intros _|done]; by repeat constructor.
Qed.

(** X28.  What the methods never do, in any order of calls and whatever
    fails: the database is dropped at most once, it is initialised at most
    once, and no query reaches the client before the pool has handed out a
    client.  The flags [closingAttempted] and [preparedForTesting] are set
    before the first call of [close] and of [prepareForTesting], so a
    failed attempt counts. *)
Theorem test_database_calls_guarded
    (name : string) (useTransactions : bool) (ops : list Op) :
  let db := run fails ops (create name useTransactions) in
  (length (drops db (calls db)) ≤ 1)%nat ∧
  (length (inits (calls db)) ≤ 1)%nat ∧
  queriesAfterConnect (calls db).
Proof.
  intros db.
  destruct (run_sound fails name ops _ (create_sound name useTransactions))
    as (_ & _ & H3 & _ & H5 & _ & H7).
  done.
Qed.

End testdb_properties.

(** ** A closed instance for the database of the tests *)

Section testdb_instances.
Import TestDb.
Import TestDbSamples.

(** The release of the client fails: the pool is not ended, the client
    stays, and the database is dropped all the same. *)
Lemma close_always_drops_database_witness :
  let r := close releaseFails preparedDb in
  closingAttempted preparedDb = false ∧
  client preparedDb = true ∧
  newCalls preparedDb r.2
  = [(ClearCache, true);
     (ClientQuery "ROLLBACK TO SAVEPOINT freshDB", true);
     (ClientRelease, false);
     (MainQuery "DROP DATABASE IF EXISTS test_rdb4_views;", true)] ∧
  r.1 = Threw (Rejected ClientRelease) ∧
  client r.2 = true ∧
  closingAttempted r.2 = true ∧
  close releaseFails r.2 = (Threw (Thrown "Already attempted to close"), r.2).
Proof.
  intros r.
  assert (closingAttempted preparedDb = false) as H1 by reflexivity.
  assert (client preparedDb = true) as H2 by reflexivity.
  destruct (close_always_drops_database releaseFails preparedDb H1 H2)
    as (_ & H3 & _ & _ & H4).
  split_and!; [exact H1|exact H2|by vm_compute|by vm_compute|by vm_compute
              |exact H3|exact H4].
Defined.

End testdb_instances.

(** ** A property of the plot of a timeline *)

Section plots_properties.
Import Js.
Import Plots.
Import PlotsFacts.


End plots_properties.
